(* ===== verification/_CoqProject ===== *)
-Q . S2P
Prelude.v
Bits.v
PriceIndex.v
PriceBitSet.v
BitSetTheorems.v
OrderBook.v
BookSpec.v
BookInv.v
BookRules.v
BookCore.v
BookRemove.v
BookMatch.v
BookOps.v
BookModify.v
BookSpecFacts.v
BookCommands.v
BookTheorems.v
BookLimits.v
BookReuse.v
BookHarness.v
SPSCQueue.v
SPSCConcurrent.v
Protocol.v
FeedHandler.v
Engine.v
EngineTheorems.v
Traffic.v
System.v
Main.v
SocketOps.v
SocketRules.v
SocketTheorems.v
SocketModes.v
OpQueue.v
Scheduler.v
SchedulerFair.v
EpollReactor.v
ReactorRules.v
ReactorBooks.v
ReactorPerform.v
LinkedList.v
TimerQueue.v
TimerHeap.v
TimerList.v
TimerQueueRefines.v
TimerQueueTheorems.v
SimWorld.v
ReactorTheorems.v
SocketService.v
NetworkThread.v
NetworkRules.v
NetworkSteps.v
NetworkLoop.v
NetworkLive.v
NetworkOpen.v
NetworkTheorems.v
NetworkWorld.v
SignalSets.v
SignalRules.v
SignalSteps.v
SignalSpec.v
SignalOps.v
SignalWaits.v
SignalDeliver.v
SignalCalls.v
SignalCatch.v
SignalPipe.v
SignalTheorems.v
SignalWorld.v
ServiceRegistry.v
ServiceRules.v
ServiceSteps.v
ServiceTheorems.v
ServiceWorld.v
Config.v
ConfigParse.v
ConfigTheorems.v
