(* ===== verification/Prelude.v ===== *)
(** * Market-Data-Handler: the verification

    A feed handler receives order messages as UDP datagrams and hands them,
    through a lock-free queue, to a matching engine that keeps a limit order
    book and measures its latency.  This library models the program's own C++
    code, and the parts of the networking library Asio, which is part of the
    sources, that its network thread runs; it says which properties hold of
    them, and where they stop holding.

    ** The program and its parts

    - src/include/OrderBook.h: the order book.  Orders live in a pool, are
      linked into a queue per price level, and are found by id in a table; a
      bitmap per side and a cached best price give the best level.
    - src/include/PriceBitSet.h: the three-level bitmap of the price levels.
    - src/include/SPSCQueue.h: the ring between the two threads.
    - src/include/Protocol.h: the packed messages; src/scripts/simulator.py
      and src/benchmarks/bench_worker.cpp produce them.
    - src/include/FeedHandler.h: the completion handler of the socket, which
      pushes packets and counts those dropped.
    - src/src/main.cpp, src/include/ThreadUtils.h: the worker's loop and its
      report, and main.
    - src/include/asio: the io_context that main.cpp's network thread runs,
      and the socket that FeedHandler.h receives from.  Of it: the wrappers of
      the socket calls (detail/impl/socket_ops.ipp), the queue of operations
      (detail/op_queue.hpp), the scheduler (detail/impl/scheduler.ipp), the
      epoll reactor (detail/impl/epoll_reactor.ipp), the queue of timers
      (detail/timer_queue.hpp, detail/chrono_time_traits.hpp), the socket
      service (detail/impl/reactive_socket_service_base.ipp), the receive
      operation (detail/reactive_socket_recvfrom_op.hpp), the signal sets
      (detail/impl/signal_set_service.ipp) with which main waits for SIGINT
      and SIGTERM, the registry of these services
      (detail/impl/service_registry.ipp) and their configuration
      (impl/config.ipp).

    The kernel fills the buffer of FeedHandler; its handler pushes the packet
    on the queue; the worker pops it, and applies it to the book.  The
    handler runs because the scheduler ran it; the scheduler got it from the
    reactor, which epoll told that the socket is readable; the reactor read
    the datagram through socket_ops.

    ** How the code is modelled

    Code that runs is a function; code that changes state is a [prog], a
    function from a state to an [outcome]: a result and a state, undefined
    behaviour ([Undefined], with its kind), or fuel that did not last
    ([OutOfFuel]).  [wp m s Phi] says that [m] finishes without undefined
    behaviour, with [Phi]: it is total correctness.  Pointers are indices into
    the store they point into (slots of the pool, [option Z]; operations,
    descriptor states and timers, [Z] with 0 for null), so that aliasing is
    what it is in the code.  Unsigned integers are [Z]s wrapped to their width
    ([wrap]); vectors are [vec]s whose accesses out of bounds are undefined.

    ** The files

    The order book: PriceIndex.v is the interface of its price index, a type
    class with laws; Bits.v and PriceBitSet.v implement it.  OrderBook.v is the
    book, against the interface.  BookSpec.v is the specification, two lists
    in price-time priority; BookInv.v the invariant that ties a book to the
    lists; BookRules.v, BookCore.v, BookRemove.v, BookMatch.v, BookOps.v and
    BookModify.v lead from the statements of the code to its operations;
    BookSpecFacts.v is about the specification alone; BookCommands.v is the
    contract of the book.  Claims: BookTheorems.v (C1 to C7: each operation
    implements the specification, with termination, memory safety, and best
    prices that do not cross), BookLimits.v (C8 to C10: what happens outside
    of the assumed ranges), BookReuse.v (C11: what an order leaves behind when
    another is added with its id), BitSetTheorems.v (C12: the scans of
    the bitmap, and its largest size).  BookHarness.v runs the tests of
    src/tests and the benchmarks of src/benchmarks/bench_orderbook.cpp on the
    model: the tests pass, and the benchmarks overrun the id table.

    The queue: SPSCQueue.v, one operation at a time (C14: a bounded FIFO
    queue; C15: the destructor destroys what is left and returns the storage,
    unless the assertion in size fails, which it does once a cursor has
    wrapped); SPSCConcurrent.v, the
    two threads as a step relation with acquire and release (C17: no
    data race, FIFO; C19: wait-free; C20: the steps compute the sequential
    operations).

    The program: Protocol.v (C21, the round trip of the messages),
    FeedHandler.v (C22), Engine.v and EngineTheorems.v (C23),
    Traffic.v (C25: the repository's own sources of traffic), System.v (C28:
    from the datagrams to the book, for every interleaving of the two
    threads), Main.v (C29, and C30: what is counted, and the ranks of the
    latencies reported).

    Asio: SocketOps.v is socket_ops against a kernel (class [Kernel]);
    SocketRules.v, SocketTheorems.v (C31: the transfers on a datagram
    socket) and SocketModes.v (C33: modes; and options and accepted
    connections) state what it promises, given how the kernel's calls are
    documented: a poll may report a socket ready that is not, as Linux's does.  OpQueue.v (C36) shows that op_queue, whose elements are linked
    through themselves, is a list; from there on queues are lists.
    Scheduler.v is the scheduler, for a task (class [SchedulerTask]) and
    operations (class [Operations]); EpollReactor.v is the reactor, which is
    both, in a world (class [ReactorWorld]) that has the operations and the
    operating system, and for timer queues (class [TimerQueueBase]).
    ReactorRules.v says what it means to account for every operation, and
    what is assumed of the world ([WorldOk]) and of the timer queues
    ([TimerQueueOk]); ReactorBooks.v and ReactorPerform.v show it of every
    operation; ReactorTheorems.v has the claims (C37: starting, cancelling and
    performing lose and reorder nothing; C38: a turn of the event loop, and
    that run ends with every operation accounted for, none of them left unless
    a handler called stop; the handlers, class [HandlersOk], may start and
    post operations and stop the context).  SchedulerFair.v shows that what
    is queued gets its turn, so that an operation that stops the context ends
    run (C39).  LinkedList.v is about linked lists in
    general, and where they change.  TimerQueue.v is timer_queue;
    TimerHeap.v, TimerList.v and TimerQueueRefines.v take its heap, its linked
    list and its operations in turn; TimerQueueTheorems.v shows that it
    implements a map of timers (C40) and discharges [TimerQueueOk].
    SimWorld.v is a world in which the assumptions hold; the claims about the
    event loop are applied there.

    The network thread: SocketService.v is the socket service, on socket_ops
    and the reactor; NetworkThread.v is FeedHandler.h on top of it: the
    constructor, start_receive, the receive operation and its completion,
    which calls the handler of FeedHandler.v.  The kernel, its allocator and
    its clock are a parameter (class [NetKernel]), and so are the other
    operations of the io_context (class [OtherOperations]).  NetworkRules.v
    says what is assumed of the kernel ([NetKernelOk]: datagrams arrive at the
    end of a socket's queue, and a receive takes one from its front) and has
    the invariant [listening], which follows the one receive operation through
    its phases (waiting at its descriptor, queued with its outcome, held,
    running); NetworkSteps.v, NetworkLoop.v and NetworkOpen.v show it of the
    operations, of the loop and of the constructor; NetworkLive.v follows a
    socket that epoll reports to the front of the queue.  NetworkTheorems.v has the
    claims: C34, the constructor either throws or leaves the thread listening;
    C35, a turn of the loop loses, duplicates and reorders no datagram; C27, a
    datagram that epoll reports is handled within as many turns as operations
    are queued or reported before it, unless a handler stops the context; C16, the network thread and the
    worker together refine System.v, so that what C28 says of a list of
    completions holds of what the loop of io_context::run makes of the
    kernel's datagrams.  There a turn, one call of do_run_one or one iteration
    of the worker, is a single step: the two threads share only the queue,
    whose operations SPSCConcurrent.v takes apart.  NetworkWorld.v is an operating system in which the
    assumptions hold; the claims are applied there, from the constructor on.

    The signal sets: SignalSets.v is signal_set_service, with the operating
    system as a parameter (class [SignalKernel]), in a context that has a
    scheduler (class [SignalStore]).  A registration is in two linked lists,
    of its set and of its signal: SignalRules.v says what shape they have and
    what linking a registration in and out does, SignalSteps.v that the
    statements do it, and what installing a handler comes to.  SignalSpec.v is
    the specification: the undelivered signals of each set, who waits, and the
    steps from the one to the other ([spec_step]); SignalOps.v (add, remove,
    clear), SignalWaits.v (cancel) and SignalDeliver.v (deliver_signal,
    start_wait_op) show that the service implements it, SignalCalls.v adds the
    scheduler, SignalCatch.v is about the set that main makes, and
    SignalPipe.v has the pipe (class [PipeKernel]) through which the operating
    system's handler passes a signal on to deliver_signal.
    SignalTheorems.v has the claims: C13, any sequence of calls does what the
    specification says, and the operating system's handlers follow the
    registrations; C24, the constructor of a set for two signals undoes
    what it did when it throws, and otherwise the set catches both: a signal
    that arrives before a wait or during it completes it once the pipe is read.
    SignalPipe.v has C26: of any number of signals, those that the pipe has
    room for are delivered, once and in order.  SignalWorld.v is an operating
    system in which the assumptions hold.

    The services: ServiceRegistry.v is the registry of the services of an
    io_context, which owns the scheduler, the reactor, the socket service and
    the signal set service.  What a service's constructor does with the
    registry is a tree ([construction]), since it may use other services, and
    look at each before it goes on.  ServiceRules.v has the invariant (each
    service comes before those that its constructor used) and what finding,
    allocating and linking do to it; ServiceSteps.v follows do_use_service
    through nested constructors; ServiceTheorems.v is the specification of the
    calls, and the claim (C32: the registry follows it, and the end of the
    io_context destroys every service once, users first, and frees all
    memory).  ServiceWorld.v has the constructors of the program's services.
    Config.v is how an io_context is configured (from a hint, a string, the
    environment), with the C library's conversions of numbers; ConfigParse.v
    says what a configuration string means, and that the parser, which writes
    into it, finds that; ConfigTheorems.v has the claim (C18: a value is read
    as what it says), and that the program's scheduler is configured as
    Scheduler.v's [default_config].

    ** Bounds and fuel

    The loops of match_order take fuel for each order they fill and each
    level they visit: more than the number of resting orders is enough, and
    BookTheorems.v proves that the operations finish with it.  The book of the
    program has MAX_TICKS = 2^18 levels and MAX_ORDERS = 1,500,000 orders; the
    bitmap is proved for up to 64^3 ticks.  Quantities are assumed below 2^31
    and ids below MAX_ORDERS where a claim says so, and BookLimits.v is about
    the rest.  [do_run_one] takes fuel for each time the task comes before the
    first operation; when no operation is queued the real loop waits for
    events, and the model's runs out of fuel.  The loops of the timer queue
    take the number of entries as fuel, and are proved to finish with it, as
    the socket operations are for the number of interruptions they retry, and
    those of the signal sets with more than the number of registrations.  The
    depth of [do_use_service] bounds how deep constructors nest; one more than
    the rank of a service, which exists if no service needs itself, is enough.

    ** What is not modelled

    - Other systems than Linux: the Windows branches of ThreadUtils.h and
      Asio's branches for other systems, reactors and thread libraries.
    - Mutexes, condition variables and other threads in Asio: one thread runs
      the io_context, as in main.cpp.  The threads that do run concurrently,
      the pusher and the popper of the queue, are modelled as such.
    - Exceptions thrown by handlers; main's own exceptions are modelled.
    - Printing, time stamps and the conversion of cycles to nanoseconds: the
      counter's readings are inputs.
    - Of socket_ops, name resolution and the conversions of addresses; of the
      reactor, construction (but for the services it uses) and forking; the rest of Asio (streams, buffers,
      executors, coroutines, files, SSL), which the program does not run.
    - Of the network thread, the templates that pass the handler and the
      buffer along (basic_datagram_socket.hpp, the executor and the associated
      allocator of the handler): there is one handler and one buffer, and the
      operation's memory is a pointer that the kernel's allocator gives.
      The other operations of the io_context may change the world but post
      nothing while they are performed ([other_perform]).  The read of the
      signals' pipe, which delivers signals by posting, is therefore not an
      instance of them: what is shown of the network thread (C16, C27, C34,
      C35) covers main's program as long as no signal has arrived, and the
      signals themselves are followed apart (C13, C24, C26).
    - Of the signal sets, opening the pipe and registering it with the
      reactor, more than one service, shutdown, and preparing for a fork.

    ** What would come next

    The addresses (ip/address_v4, address_v6), which the program only passes
    along; the signal sets among the other operations of the network thread;
    the reactor's construction and its interrupter.

    This file holds the generic vocabulary shared by every component. *)

From stdpp Require Export base gmap list numbers sorting.
From Stdlib Require Export ZArith Lia.

#[export] Set Default Goal Selector "!".
#[export] Set Warnings "-clear-no-such-hyp".

Global Open Scope Z_scope.

(** ** Automation *)

Create HintDb mh discriminated.
Create Rewrite HintDb mh_rw.

(** [destr_all] opens every conjunction and existential in the context. *)
Ltac destr_all :=
  repeat match goal with
         | H : _ /\ _ |- _ => destruct H
         | H : exists _, _ |- _ => destruct H
         end.

(** [zb] turns the boolean comparisons of the code into propositions. *)
Ltac zb :=
  repeat match goal with
         | H : (_ =? _) = true |- _ => apply Z.eqb_eq in H
         | H : (_ =? _) = false |- _ => apply Z.eqb_neq in H
         | H : (_ <? _) = true |- _ => apply Z.ltb_lt in H
         | H : (_ <? _) = false |- _ => apply Z.ltb_ge in H
         | H : (_ <=? _) = true |- _ => apply Z.leb_le in H
         | H : (_ <=? _) = false |- _ => apply Z.leb_gt in H
         | H : (_ >? _) = true |- _ => rewrite Z.gtb_ltb in H; apply Z.ltb_lt in H
         | H : (_ >? _) = false |- _ => rewrite Z.gtb_ltb in H; apply Z.ltb_ge in H
         | H : (_ >=? _) = true |- _ => rewrite Z.geb_leb in H; apply Z.leb_le in H
         | H : (_ >=? _) = false |- _ => rewrite Z.geb_leb in H; apply Z.leb_gt in H
         | H : (_ && _) = true |- _ => apply andb_true_iff in H; destruct H
         | H : (_ || _) = false |- _ => apply orb_false_iff in H; destruct H
         end.

(** [zcase c] splits on the boolean test [c] and reads the result off. *)
Tactic Notation "zcase" constr(c) :=
  let E := fresh "E" in destruct c eqn:E; zb.

(** ** Machine integers

    A [w]-bit unsigned integer is a [Z] in [0, 2^w); [wrap w] is the
    conversion to that type (and the overflow rule of its arithmetic). *)
Definition wrap (w z : Z) : Z := z mod 2 ^ w.

Abbreviation u64 := (wrap 64).
Abbreviation u32 := (wrap 32).
Abbreviation u31 := (wrap 31).

Definition UINT32_MAX : Z := 4294967295.
Definition UINT64_MAX : Z := 18446744073709551615.

Lemma wrap_small (w z : Z) : 0 <= z < 2 ^ w -> wrap w z = z.
Proof. apply Z.mod_small. Qed.

Lemma wrap_range (w z : Z) : 0 <= w -> 0 <= wrap w z < 2 ^ w.
Proof. intros. apply Z.mod_pos_bound. lia. Qed.

Lemma wrap_idem (w z : Z) : 0 <= w -> wrap w (wrap w z) = wrap w z.
Proof. intros. apply Z.mod_mod. lia. Qed.

(** ** Outcomes

    What a C++ expression or statement can do: finish with a value, have
    undefined behaviour (or end in an assertion, or in an exception that is
    not followed further), or keep looping past the fuel it was given. *)
Inductive fault := OutOfBounds | NullDeref | BadShift | AssertFailed | Thrown.

Inductive outcome (A : Type) :=
| Ok (a : A)
| Undefined (f : fault)
| OutOfFuel.
Arguments Ok {A} a.
Arguments Undefined {A} f.
Arguments OutOfFuel {A}.

#[export] Instance fault_eq_dec : EqDecision fault.
Proof. solve_decision. Defined.

#[export] Instance outcome_eq_dec `{EqDecision A} : EqDecision (outcome A).
Proof. solve_decision. Defined.

#[export] Instance outcome_ret : MRet outcome := fun A a => Ok a.
#[export] Instance outcome_bind : MBind outcome := fun A B k m =>
  match m with
  | Ok a => k a
  | Undefined f => Undefined f
  | OutOfFuel => OutOfFuel
  end.

(** A computation on a state [S]: the stateful code of the program. *)
Definition prog (S A : Type) : Type := S -> outcome (A * S).

#[export] Instance prog_ret S : MRet (prog S) := fun A a s => Ok (a, s).
#[export] Instance prog_bind S : MBind (prog S) := fun A B k m s =>
  match m s with
  | Ok (a, s') => k a s'
  | Undefined f => Undefined f
  | OutOfFuel => OutOfFuel
  end.

Definition get_state {S} : prog S S := fun s => Ok (s, s).
Definition put_state {S} (s : S) : prog S unit := fun _ => Ok (tt, s).
Definition lift {S A} (m : outcome A) : prog S A := fun s =>
  match m with
  | Ok a => Ok (a, s)
  | Undefined f => Undefined f
  | OutOfFuel => OutOfFuel
  end.
Definition throw {S A} (f : fault) : prog S A := fun _ => Undefined f.
Definition loop_out {S A} : prog S A := fun _ => OutOfFuel.

(** Total correctness: [m] run from [s] finishes, without undefined
    behaviour, in a result and a state that satisfy [Phi]. *)
Definition wp {S A} (m : prog S A) (s : S) (Phi : A -> S -> Prop) : Prop :=
  exists a s', m s = Ok (a, s') /\ Phi a s'.

Section wp_rules.
Context {S : Type}.

Lemma wp_ret {A} (a : A) (s : S) (Phi : A -> S -> Prop) :
  Phi a s -> wp (mret a) s Phi.
Proof. intros H. by exists a, s. Qed.

Lemma wp_bind {A B} (m : prog S A) (k : A -> prog S B) s Phi :
  wp m s (fun a s' => wp (k a) s' Phi) -> wp (m ≫= k) s Phi.
Proof.
  intros (a & s' & Hm & b & s'' & Hk & HP). exists b, s''. split; [|done].
  unfold mbind, prog_bind. by rewrite Hm.
Qed.

Lemma wp_mono {A} (m : prog S A) s (Phi Psi : A -> S -> Prop) :
  wp m s Phi -> (forall a s', Phi a s' -> Psi a s') -> wp m s Psi.
Proof. intros (a & s' & Hm & HP) HPQ. exists a, s'. eauto. Qed.

Lemma wp_assoc {A B C} (m : prog S A) (n : A -> prog S B) (k : B -> prog S C) s Phi :
  wp ((m ≫= n) ≫= k) s Phi -> wp (m ≫= fun a => n a ≫= k) s Phi.
Proof.
  intros (a & s' & E & HP). exists a, s'. split; [|done]. rewrite <- E.
  unfold mbind, prog_bind. by destruct (m s) as [[? ?]| |].
Qed.

(** Statements in front of the last of which something is known. *)
Lemma wp_seq3 {A B C D} (m : prog S A) (n : prog S B) (p : prog S C) (k : prog S D) s Phi Psi :
  wp (m ≫= fun _ => n ≫= fun _ => p) s Phi -> (forall a s', Phi a s' -> wp k s' Psi) ->
  wp (m ≫= fun _ => n ≫= fun _ => p ≫= fun _ => k) s Psi.
Proof.
  intros (a & s' & E & HP) Hk. destruct (Hk a s' HP) as (d & s'' & Ek & HPs).
  exists d, s''. split; [|done]. revert E. unfold mbind, prog_bind.
  destruct (m s) as [[? s1]| |]; [|done|done]. destruct (n s1) as [[? s2]| |]; [|done|done].
  by intros ->.
Qed.

(** Past a computation that finishes, the rest decides the outcome; a
    computation that does not finish ends the whole. *)
Lemma bind_result {A B} (m : prog S A) (k : A -> prog S B) s (Phi : A -> S -> Prop) out :
  wp m s Phi -> (forall a s', Phi a s' -> k a s' = out) -> (m ≫= k) s = out.
Proof.
  intros (a & s' & Hm & HP) Hk. unfold mbind, prog_bind. rewrite Hm. by apply Hk.
Qed.

Lemma bind_Ok_inv {A B} (m : prog S A) (k : A -> prog S B) s y :
  (m ≫= k) s = Ok y -> exists a s', m s = Ok (a, s') /\ k a s' = Ok y.
Proof. unfold mbind, prog_bind. destruct (m s) as [[a s']| |]; [eauto|done|done]. Qed.

Lemma bind_Ok {A B} (m : prog S A) (k : A -> prog S B) s a s' :
  m s = Ok (a, s') -> (m ≫= k) s = k a s'.
Proof. intros Hm. unfold mbind, prog_bind. by rewrite Hm. Qed.

Lemma bind_undefined {A B} (m : prog S A) (k : A -> prog S B) s f :
  m s = Undefined f -> (m ≫= k) s = Undefined f.
Proof. intros Hm. unfold mbind, prog_bind. by rewrite Hm. Qed.

Lemma wp_get (s : S) (Phi : S -> S -> Prop) : Phi s s -> wp get_state s Phi.
Proof. intros H. by exists s, s. Qed.

Lemma wp_put (s t : S) (Phi : unit -> S -> Prop) : Phi tt t -> wp (put_state t) s Phi.
Proof. intros H. by exists tt, t. Qed.

Lemma wp_both {A} (m : prog S A) s (Phi Psi : A -> S -> Prop) :
  wp m s Phi -> wp m s Psi -> wp m s (fun a s' => Phi a s' /\ Psi a s').
Proof. intros (a & s' & Hr & HP) (a2 & s2 & Hr2 & HP2). exists a, s'. rewrite Hr in Hr2. by injection Hr2 as <- <-. Qed.

(** What a run gives, and what more when [P] holds. *)
Lemma wp_when {A} (P : Prop) (m : prog S A) s (Phi Psi : A -> S -> Prop) :
  wp m s Phi -> (P -> wp m s Psi) -> wp m s (fun a s' => Phi a s' /\ (P -> Psi a s')).
Proof.
  intros (a & s' & Hr & HP) Hm. exists a, s'. split_and!; [done|done|]. intros (a2 & s2 & Hr2 & HP2)%Hm.
  rewrite Hr in Hr2. by injection Hr2 as <- <-.
Qed.

Lemma wp_lift {A} (m : outcome A) a s (Phi : A -> S -> Prop) :
  m = Ok a -> Phi a s -> wp (lift m) s Phi.
Proof. intros -> H. by exists a, s. Qed.
End wp_rules.

(** ** Vectors

    A [std::vector]/[std::array]: a length and the cells that differ from
    the value the container was filled with.  Reading or writing outside
    of the length has no result. *)
Record vec (A : Type) := Vec { vsize : Z; vfill : A; vcells : gmap Z A }.
Arguments Vec {A} _ _ _.
Arguments vsize {A} _.
Arguments vfill {A} _.
Arguments vcells {A} _.

Section vec.
Context {A : Type}.
Implicit Types (v : vec A) (i j : Z) (x : A).

Definition vnew (n : Z) (x : A) : vec A := Vec n x ∅.
Definition in_range (n i : Z) : bool := (0 <=? i) && (i <? n).
Definition vget (v : vec A) (i : Z) : option A :=
  if in_range (vsize v) i then Some (default (vfill v) (vcells v !! i)) else None.
Definition vset (v : vec A) (i : Z) (x : A) : vec A :=
  if in_range (vsize v) i then Vec (vsize v) (vfill v) (<[i:=x]> (vcells v)) else v.

Lemma in_range_true n i : in_range n i = true <-> 0 <= i < n.
Proof. unfold in_range. rewrite andb_true_iff, Z.leb_le, Z.ltb_lt. lia. Qed.

Lemma in_range_false n i : in_range n i = false <-> ~ (0 <= i < n).
Proof. rewrite <- in_range_true. by destruct (in_range n i). Qed.

Lemma vget_new n x i : 0 <= i < n -> vget (vnew n x) i = Some x.
Proof.
  intros H. unfold vget; simpl. apply in_range_true in H as ->.
  by rewrite lookup_empty.
Qed.

Lemma vget_is_Some v i : is_Some (vget v i) <-> 0 <= i < vsize v.
Proof.
  rewrite <- in_range_true. unfold vget.
  destruct (in_range _ _); split; intros H; try done; by destruct H.
Qed.

Lemma vget_Some_range v i x : vget v i = Some x -> 0 <= i < vsize v.
Proof. intros H. apply vget_is_Some. by eexists. Qed.

Lemma vget_lookup v i : 0 <= i < vsize v -> exists x, vget v i = Some x.
Proof. intros H. by apply vget_is_Some in H as [x Hx]; exists x. Qed.

Lemma vsize_set v i x : vsize (vset v i x) = vsize v.
Proof. unfold vset. by destruct (in_range _ _). Qed.

Lemma vget_set_eq v i x : 0 <= i < vsize v -> vget (vset v i x) i = Some x.
Proof.
  intros H. unfold vget. rewrite vsize_set. apply in_range_true in H.
  unfold vset. rewrite H. simpl. by rewrite lookup_insert_eq.
Qed.

Lemma vget_set_ne v i j x : i <> j -> vget (vset v i x) j = vget v j.
Proof.
  intros H. unfold vget. rewrite vsize_set. destruct (in_range (vsize v) j); [|done].
  unfold vset. destruct (in_range (vsize v) i); [|done].
  simpl. by rewrite lookup_insert_ne.
Qed.

Lemma vget_set v i j x :
  0 <= i < vsize v -> vget (vset v i x) j = if decide (i = j) then Some x else vget v j.
Proof.
  intros H. case_decide; subst; [by apply vget_set_eq|by apply vget_set_ne].
Qed.

(** Two vectors are the same array when they have the same length and the
    same value at every index; the sparse representation is not observable. *)
#[export] Instance vec_equiv : Equiv (vec A) := fun v w =>
  vsize v = vsize w /\ forall i, vget v i = vget w i.

#[export] Instance vec_equivalence : Equivalence (≡@{vec A}).
Proof.
  split.
  - by intros v.
  - intros v w [H1 H2]. by split.
  - intros u v w [H1 H2] [H3 H4]. split; [by rewrite H1|]. intros i. by rewrite H2.
Qed.

#[export] Instance vget_proper : Proper ((≡) ==> (=) ==> (=)) vget.
Proof. intros v w [_ H] i j ->. apply H. Qed.

#[export] Instance vset_proper : Proper ((≡) ==> (=) ==> (=) ==> (≡)) vset.
Proof.
  intros v w [Hs Hg] i j -> x y ->. split; [by rewrite !vsize_set|]. intros k.
  destruct (decide (0 <= j < vsize v)) as [Hj|Hj].
  - rewrite !vget_set by lia. by case_decide.
  - unfold vset. assert (in_range (vsize v) j = false) as E by by apply in_range_false.
    rewrite <- Hs, E. apply Hg.
Qed.

Lemma vset_set v i x y : vset (vset v i x) i y ≡ vset v i y.
Proof.
  split; [by rewrite !vsize_set|]. intros j.
  destruct (decide (0 <= i < vsize v)) as [Hi|Hi].
  - rewrite !vget_set by (rewrite ?vsize_set; lia). by case_decide.
  - apply in_range_false in Hi. unfold vset. by rewrite !Hi.
Qed.

Lemma vset_id v i x : vget v i = Some x -> vset v i x ≡ v.
Proof.
  intros H. pose proof (vget_Some_range _ _ _ H). split; [by rewrite vsize_set|].
  intros j. rewrite vget_set by done. by case_decide; subst.
Qed.
End vec.
Arguments vget : simpl never.
Arguments vset : simpl never.

#[export] Hint Rewrite @vsize_set : mh_rw.

(** Reading and writing a vector in code, out of bounds being undefined. *)
Definition vread {A} (v : vec A) (i : Z) : outcome A :=
  match vget v i with Some x => Ok x | None => Undefined OutOfBounds end.
Definition vwrite {A} (v : vec A) (i : Z) (x : A) : outcome (vec A) :=
  match vget v i with Some _ => Ok (vset v i x) | None => Undefined OutOfBounds end.

Lemma vread_Ok {A} (v : vec A) i x : vget v i = Some x -> vread v i = Ok x.
Proof. intros H. unfold vread. by rewrite H. Qed.

Lemma vwrite_Ok {A} (v : vec A) i (x : A) : 0 <= i < vsize v -> vwrite v i x = Ok (vset v i x).
Proof. intros H. unfold vwrite. by destruct (vget_lookup v i H) as [y ->]. Qed.

Lemma vread_set_eq {A} (v : vec A) i (x : A) : 0 <= i < vsize v -> vread (vset v i x) i = Ok x.
Proof. intros H. by apply vread_Ok, vget_set_eq. Qed.
