(* ===== verification/Bits.v ===== *)
(** * Bit scanning on 64-bit words

    The operations of [<bit>] and of the bit masks that PriceBitSet.h uses
    ([std::countl_zero], [std::countr_zero], [1ULL << n], [|=], [&= ~]), and
    their characterisation by the set bits of the word. *)

From S2P Require Import Prelude.

(** [std::countl_zero] of a [uint64_t]. *)
Definition countl_zero (x : Z) : Z := if x =? 0 then 64 else 63 - Z.log2 x.

Fixpoint pos_countr_zero (p : positive) : Z :=
  match p with
  | xO q => 1 + pos_countr_zero q
  | _ => 0
  end.

(** [std::countr_zero] of a [uint64_t]. *)
Definition countr_zero (x : Z) : Z :=
  match x with
  | Zpos p => pos_countr_zero p
  | _ => 64
  end.

(** [1ULL << n]: a shift by the width or more is undefined. *)
Definition shl1 (n : Z) : outcome Z :=
  if in_range 64 n then Ok (Z.shiftl 1 n) else Undefined BadShift.

(** [x | m] and [x & ~m] on [uint64_t]. *)
Definition or_bit (x m : Z) : Z := Z.lor x m.
Definition clear_bit (x m : Z) : Z := Z.land x (u64 (Z.lnot m)).

(** A value of type [uint64_t]. *)
Definition word64 (x : Z) : Prop := 0 <= x < 2 ^ 64.

Lemma shl1_Ok (n : Z) : 0 <= n < 64 -> shl1 n = Ok (2 ^ n).
Proof.
  intros H. unfold shl1. apply in_range_true in H as E. rewrite E.
  by rewrite Z.shiftl_1_l.
Qed.

Lemma word64_bits (x : Z) : word64 x <-> 0 <= x /\ forall i, 64 <= i -> Z.testbit x i = false.
Proof.
  split.
  - intros [H0 H]. split; [done|]. intros i Hi.
    destruct (decide (x = 0)) as [->|Hx]; [apply Z.bits_0|].
    apply Z.bits_above_log2; [done|]. assert (Z.log2 x < 64) by (apply Z.log2_lt_pow2; lia). lia.
  - intros [H0 H]. split; [done|]. destruct (decide (x = 0)) as [->|Hx]; [lia|].
    apply Z.log2_lt_pow2; [lia|]. destruct (Z_lt_le_dec (Z.log2 x) 64) as [|Hl]; [done|].
    specialize (H _ Hl). rewrite Z.bit_log2 in H by lia. done.
Qed.

Lemma word64_0 : word64 0.
Proof. unfold word64; lia. Qed.

Lemma word64_or_bit (x n : Z) : word64 x -> 0 <= n < 64 -> word64 (or_bit x (2 ^ n)).
Proof.
  intros Hx Hn. apply word64_bits in Hx as [H0 Hb]. apply word64_bits.
  unfold or_bit. split; [apply Z.lor_nonneg; lia|]. intros i Hi.
  rewrite Z.lor_spec, Hb, Z.pow2_bits_false by lia. done.
Qed.

Lemma testbit_or_bit (x n i : Z) :
  0 <= n -> Z.testbit (or_bit x (2 ^ n)) i = (i =? n) || Z.testbit x i.
Proof.
  intros Hn. unfold or_bit. rewrite Z.lor_spec, Z.pow2_bits_eqb by done.
  rewrite orb_comm. f_equal. apply Z.eqb_sym.
Qed.

Lemma testbit_clear_bit (x n i : Z) :
  word64 x -> 0 <= n < 64 -> Z.testbit (clear_bit x (2 ^ n)) i = negb (i =? n) && Z.testbit x i.
Proof.
  intros Hx Hn. apply word64_bits in Hx as [H0 Hb]. unfold clear_bit.
  destruct (Z_lt_le_dec i 0) as [Hi|Hi].
  { rewrite !(Z.testbit_neg_r _ i) by done. by rewrite andb_false_r. }
  rewrite Z.land_spec. destruct (Z_lt_le_dec i 64) as [Hl|Hl].
  - unfold wrap. rewrite Z.mod_pow2_bits_low, Z.lnot_spec, Z.pow2_bits_eqb by lia.
    rewrite andb_comm. do 2 f_equal. apply Z.eqb_sym.
  - by rewrite Hb, andb_false_r.
Qed.

Lemma word64_clear_bit (x n : Z) : word64 x -> 0 <= n < 64 -> word64 (clear_bit x (2 ^ n)).
Proof.
  intros Hx Hn. pose proof Hx as Hx'. apply word64_bits in Hx' as [H0 Hb].
  apply word64_bits. split; [apply Z.land_nonneg; lia|]. intros i Hi.
  by rewrite testbit_clear_bit, Hb, andb_false_r.
Qed.

(** The most significant set bit. *)
Lemma countl_zero_spec (x : Z) :
  word64 x -> x <> 0 ->
  let b := 63 - countl_zero x in
  0 <= b < 64 /\ Z.testbit x b = true /\ forall i, Z.testbit x i = true -> i <= b.
Proof.
  intros Hx Hne b. assert (b = Z.log2 x) as ->.
  { subst b. unfold countl_zero. apply Z.eqb_neq in Hne as ->. lia. }
  destruct Hx as [H0 H].
  pose proof (Z.log2_nonneg x). assert (Z.log2 x < 64) by (apply Z.log2_lt_pow2; lia).
  split; [lia|]. split; [apply Z.bit_log2; lia|]. intros i Hi.
  destruct (Z_lt_le_dec (Z.log2 x) i) as [Hl|]; [|done].
  rewrite Z.bits_above_log2 in Hi by lia. done.
Qed.

Lemma pos_countr_zero_spec (p : positive) :
  0 <= pos_countr_zero p /\ Z.testbit (Zpos p) (pos_countr_zero p) = true /\
  forall i, Z.testbit (Zpos p) i = true -> pos_countr_zero p <= i.
Proof.
  induction p as [p _|p [IH0 [IHt IHm]]|].
  - split; [done|]. split; [done|]. intros i Hi.
    destruct (Z_lt_le_dec i 0) as [Hl|]; [|done]. by rewrite Z.testbit_neg_r in Hi.
  - simpl pos_countr_zero. split; [lia|]. rewrite Pos2Z.pos_xO. split.
    + rewrite <- Z.double_spec, Z.double_bits. by replace (Z.pred _) with (pos_countr_zero p) by lia.
    + intros i Hi. rewrite <- Z.double_spec, Z.double_bits in Hi. apply IHm in Hi. lia.
  - split; [done|]. split; [done|]. intros i Hi.
    destruct (Z_lt_le_dec i 0) as [Hl|]; [|done]. by rewrite Z.testbit_neg_r in Hi.
Qed.

(** The least significant set bit. *)
Lemma countr_zero_spec (x : Z) :
  word64 x -> x <> 0 ->
  let b := countr_zero x in
  0 <= b < 64 /\ Z.testbit x b = true /\ forall i, Z.testbit x i = true -> b <= i.
Proof.
  intros Hx Hne b. pose proof Hx as Hw. destruct x as [|p|p]; [done| |by destruct Hx].
  destruct (pos_countr_zero_spec p) as (H0 & Ht & Hm). split; [|done].
  split; [done|]. destruct (Z_lt_le_dec b 64) as [|Hl]; [done|].
  apply word64_bits in Hw as [_ Hw]. specialize (Hw _ Hl). subst b.
  unfold countr_zero in Hw. congruence.
Qed.

(** A word is non-zero exactly when one of its 64 bits is set. *)
Lemma word64_nonzero (x : Z) :
  word64 x -> x <> 0 <-> exists i, 0 <= i < 64 /\ Z.testbit x i = true.
Proof.
  intros Hx. split.
  - intros Hne. destruct (countl_zero_spec x Hx Hne) as (H & Ht & _). eauto.
  - intros (i & _ & Ht) ->. by rewrite Z.bits_0 in Ht.
Qed.
