(* ===== verification/PriceIndex.v ===== *)
(** * The interface between the order book and its price index

    What OrderBook.h relies on from PriceBitSet.h: a set of price ticks with
    insertion, removal, and the two extremal queries with their sentinel
    results on the empty set.  The order book is verified against this class;
    PriceBitSet.v discharges its laws. *)

From S2P Require Import Prelude.

Class PriceIndex (T : Type) := {
  bits_new : T;
  set : Z -> T -> outcome T;
  clear : Z -> T -> outcome T;
  get_highest : T -> outcome Z;
  get_lowest : T -> outcome Z;
}.

(** [p] is the best tick of [S] when smaller ones ([get_lowest]) or larger
    ones ([get_highest]) are better. *)
Definition is_highest (S : gset Z) (p : Z) : Prop := p ∈ S /\ forall q, q ∈ S -> q <= p.
Definition is_lowest (S : gset Z) (p : Z) : Prop := p ∈ S /\ forall q, q ∈ S -> p <= q.

Class PriceIndexLaws (T : Type) `{PriceIndex T} (ticks : Z) := {
  represents : T -> gset Z -> Prop;
  represents_range t S p : represents t S -> p ∈ S -> 0 <= p < ticks;
  represents_new : represents bits_new ∅;
  set_spec t S p :
    represents t S -> 0 <= p < ticks ->
    exists t', set p t = Ok t' /\ represents t' ({[p]} ∪ S);
  clear_spec t S p :
    represents t S -> 0 <= p < ticks ->
    exists t', clear p t = Ok t' /\ represents t' (S ∖ {[p]});
  get_highest_spec t S :
    represents t S ->
    if decide (S = ∅) then get_highest t = Ok 0
    else exists p, get_highest t = Ok p /\ is_highest S p;
  get_lowest_spec t S :
    represents t S ->
    if decide (S = ∅) then get_lowest t = Ok UINT32_MAX
    else exists p, get_lowest t = Ok p /\ is_lowest S p;
}.

Section facts.
Context {T : Type} `{PriceIndexLaws T ticks}.
Implicit Types (t : T) (S : gset Z).

Lemma is_highest_unique S p q : is_highest S p -> is_highest S q -> p = q.
Proof. intros [H1 H2] [H3 H4]. apply H2 in H3. apply H4 in H1. lia. Qed.

Lemma is_lowest_unique S p q : is_lowest S p -> is_lowest S q -> p = q.
Proof. intros [H1 H2] [H3 H4]. apply H2 in H3. apply H4 in H1. lia. Qed.

Lemma get_highest_is t S p : represents t S -> is_highest S p -> get_highest t = Ok p.
Proof.
  intros Ht Hp. pose proof (get_highest_spec t S Ht) as Hg. case_decide; subst.
  - destruct Hp. set_solver.
  - destruct Hg as (q & -> & Hq). by rewrite (is_highest_unique S p q).
Qed.

Lemma get_lowest_is t S p : represents t S -> is_lowest S p -> get_lowest t = Ok p.
Proof.
  intros Ht Hp. pose proof (get_lowest_spec t S Ht) as Hg. case_decide; subst.
  - destruct Hp. set_solver.
  - destruct Hg as (q & -> & Hq). by rewrite (is_lowest_unique S p q).
Qed.

Lemma get_highest_empty t : represents t ∅ -> get_highest t = Ok 0.
Proof. intros Ht. by pose proof (get_highest_spec t ∅ Ht). Qed.

Lemma get_lowest_empty t : represents t ∅ -> get_lowest t = Ok UINT32_MAX.
Proof. intros Ht. by pose proof (get_lowest_spec t ∅ Ht). Qed.
End facts.
