(* ===== verification/PriceBitSet.v ===== *)
(** * PriceBitSet.h: the three-level hierarchical bitmap

    [PriceBitSet<MAX_TICKS>] keeps one bit per tick in [_l0], one bit per
    word of [_l0] in [_l1], and one bit per word of [_l1] in the single word
    [_l2].  The invariant [wf] says that a summary bit is set exactly when
    the word below it is non-zero; the operations keep it and implement the
    [PriceIndex] interface for at most 64^3 ticks. *)

From S2P Require Import Prelude.
From S2P Require Import Bits.
From S2P Require Import PriceIndex.

(** ** Data and operations *)

Record PriceBitSet (MAX_TICKS : Z) := mkPriceBitSet {
  _l0 : vec Z;
  _l1 : vec Z;
  _l2 : Z;
}.
Arguments mkPriceBitSet {MAX_TICKS} _ _ _.
Arguments _l0 {MAX_TICKS} _.
Arguments _l1 {MAX_TICKS} _.
Arguments _l2 {MAX_TICKS} _.

Section PriceBitSet.
Context {MAX_TICKS : Z}.

Definition L0_SIZE : Z := MAX_TICKS / 64 + 1.
Definition L1_SIZE : Z := L0_SIZE / 64 + 1.

Definition PriceBitSet_new : PriceBitSet MAX_TICKS :=
  mkPriceBitSet (vnew L0_SIZE 0) (vnew L1_SIZE 0) 0.

Definition PriceBitSet_set (price : Z) (t : PriceBitSet MAX_TICKS) :
    outcome (PriceBitSet MAX_TICKS) :=
  let l0_index := price / 64 in
  let l1_index := l0_index / 64 in
  w0 ← vread (_l0 t) l0_index;
  m0 ← shl1 (price mod 64);
  l0 ← vwrite (_l0 t) l0_index (or_bit w0 m0);
  w1 ← vread (_l1 t) l1_index;
  m1 ← shl1 (l0_index mod 64);
  l1 ← vwrite (_l1 t) l1_index (or_bit w1 m1);
  m2 ← shl1 l1_index;
  mret (mkPriceBitSet l0 l1 (or_bit (_l2 t) m2)).

Definition PriceBitSet_clear (price : Z) (t : PriceBitSet MAX_TICKS) :
    outcome (PriceBitSet MAX_TICKS) :=
  let l0_index := price / 64 in
  let l1_index := l0_index / 64 in
  w0 ← vread (_l0 t) l0_index;
  m0 ← shl1 (price mod 64);
  l0 ← vwrite (_l0 t) l0_index (clear_bit w0 m0);
  w0' ← vread l0 l0_index;
  if w0' =? 0 then
    w1 ← vread (_l1 t) l1_index;
    m1 ← shl1 (l0_index mod 64);
    l1 ← vwrite (_l1 t) l1_index (clear_bit w1 m1);
    w1' ← vread l1 l1_index;
    if w1' =? 0 then
      m2 ← shl1 l1_index;
      mret (mkPriceBitSet l0 l1 (clear_bit (_l2 t) m2))
    else mret (mkPriceBitSet l0 l1 (_l2 t))
  else mret (mkPriceBitSet l0 (_l1 t) (_l2 t)).

Definition PriceBitSet_get_highest (t : PriceBitSet MAX_TICKS) : outcome Z :=
  if _l2 t =? 0 then mret 0 else
  let l2_bit := 63 - countl_zero (_l2 t) in
  w1 ← vread (_l1 t) l2_bit;
  let l1_bit := 63 - countl_zero w1 in
  let l0_idx := u64 (l2_bit * 64 + l1_bit) in
  w0 ← vread (_l0 t) l0_idx;
  let l0_bit := 63 - countl_zero w0 in
  mret (u32 (u64 (l0_idx * 64 + l0_bit))).

Definition PriceBitSet_get_lowest (t : PriceBitSet MAX_TICKS) : outcome Z :=
  if _l2 t =? 0 then mret UINT32_MAX else
  let l2_bit := countr_zero (_l2 t) in
  w1 ← vread (_l1 t) l2_bit;
  let l1_bit := countr_zero w1 in
  let l0_idx := u64 (l2_bit * 64 + l1_bit) in
  w0 ← vread (_l0 t) l0_idx;
  let l0_bit := countr_zero w0 in
  mret (u32 (u64 (l0_idx * 64 + l0_bit))).

#[export] Instance PriceBitSet_index : PriceIndex (PriceBitSet MAX_TICKS) := {
  bits_new := PriceBitSet_new;
  set := PriceBitSet_set;
  clear := PriceBitSet_clear;
  get_highest := PriceBitSet_get_highest;
  get_lowest := PriceBitSet_get_lowest;
}.

(** ** Invariant *)

(** Bit [k] of word [j] of an array. *)
Definition bit_at (l : vec Z) (j k : Z) : Prop :=
  exists w, vget l j = Some w /\ 0 <= k < 64 /\ Z.testbit w k = true.

Definition nonzero_at (l : vec Z) (j : Z) : Prop :=
  exists w, vget l j = Some w /\ w <> 0.

Definition words (l : vec Z) : Prop := forall j w, vget l j = Some w -> word64 w.

Record wf (t : PriceBitSet MAX_TICKS) : Prop := {
  wf_size0 : vsize (_l0 t) = L0_SIZE;
  wf_size1 : vsize (_l1 t) = L1_SIZE;
  wf_words0 : words (_l0 t);
  wf_words1 : words (_l1 t);
  wf_word2 : word64 (_l2 t);
  wf_sum1 : forall j k, 0 <= k < 64 -> bit_at (_l1 t) j k <-> nonzero_at (_l0 t) (j * 64 + k);
  wf_sum2 : forall j, 0 <= j < 64 -> Z.testbit (_l2 t) j = true <-> nonzero_at (_l1 t) j;
}.

(** Tick [p] is in the set. *)
Definition mem (t : PriceBitSet MAX_TICKS) (p : Z) : Prop := bit_at (_l0 t) (p / 64) (p mod 64).

Definition PriceBitSet_represents (t : PriceBitSet MAX_TICKS) (S : gset Z) : Prop :=
  wf t /\ (forall p, p ∈ S <-> mem t p) /\ (forall p, p ∈ S -> 0 <= p < MAX_TICKS).
End PriceBitSet.

(** ** Arrays of words *)

Section words.
Implicit Types (l : vec Z) (j k n w : Z).

Lemma bit_at_intro l j k w :
  vget l j = Some w -> 0 <= k < 64 -> bit_at l j k <-> Z.testbit w k = true.
Proof.
  intros Hw Hk. split.
  - intros (w' & Hw' & _ & Ht). congruence.
  - intros Ht. by exists w.
Qed.

Lemma nonzero_at_bit l j : words l -> nonzero_at l j <-> exists k, bit_at l j k.
Proof.
  intros Hl. split.
  - intros (w & Hw & Hne). apply word64_nonzero in Hne as (k & Hk & Ht); [|by eapply Hl].
    by exists k, w.
  - intros (k & w & Hw & Hk & Ht). exists w. split; [done|]. intros ->.
    by rewrite Z.bits_0 in Ht.
Qed.

Lemma words_vset l j w : words l -> word64 w -> words (vset l j w).
Proof.
  intros Hl Hw i w' Hi. pose proof (vget_Some_range _ _ _ Hi) as Hr.
  rewrite vsize_set in Hr. destruct (decide (j = i)) as [->|Hne].
  - rewrite vget_set_eq in Hi by done. by simplify_eq.
  - rewrite vget_set_ne in Hi by done. by eapply Hl.
Qed.

Lemma words_new n : words (vnew n 0).
Proof.
  intros j w Hw. pose proof (vget_Some_range _ _ _ Hw) as Hr. simpl in Hr.
  rewrite vget_new in Hw by done. simplify_eq. apply word64_0.
Qed.

Lemma nonzero_at_vset l j w i :
  0 <= j < vsize l -> nonzero_at (vset l j w) i <-> if decide (i = j) then w <> 0 else nonzero_at l i.
Proof.
  intros Hj. unfold nonzero_at. rewrite vget_set by done. repeat case_decide; subst; try done.
  split; [|by exists w]. intros (w' & ? & ?). by simplify_eq.
Qed.

Lemma bit_at_set l j w n i k :
  words l -> vget l j = Some w -> 0 <= n < 64 ->
  bit_at (vset l j (or_bit w (2 ^ n))) i k <-> (i = j /\ k = n) \/ bit_at l i k.
Proof.
  intros Hl Hw Hn. pose proof (vget_Some_range _ _ _ Hw) as Hr.
  unfold bit_at. rewrite vget_set by done. destruct (decide (j = i)) as [->|Hne].
  - split.
    + intros (w' & [= <-] & Hk & Ht). rewrite testbit_or_bit in Ht by lia.
      apply orb_true_iff in Ht as [Ht%Z.eqb_eq|Ht]; [by left|right; by exists w].
    + intros [[_ ->]|(w' & Hw' & Hk & Ht)]; eexists; split; try done.
      * split; [done|]. by rewrite testbit_or_bit, Z.eqb_refl by lia.
      * simplify_eq. split; [done|]. by rewrite testbit_or_bit, Ht, orb_true_r by lia.
  - naive_solver.
Qed.

Lemma bit_at_clear l j w n i k :
  words l -> vget l j = Some w -> 0 <= n < 64 ->
  bit_at (vset l j (clear_bit w (2 ^ n))) i k <-> ~ (i = j /\ k = n) /\ bit_at l i k.
Proof.
  intros Hl Hw Hn. pose proof (vget_Some_range _ _ _ Hw) as Hr.
  pose proof (Hl _ _ Hw) as H64. unfold bit_at. rewrite vget_set by done.
  destruct (decide (j = i)) as [->|Hne].
  - split.
    + intros (w' & [= <-] & Hk & Ht). rewrite testbit_clear_bit in Ht by done.
      zb. split; [|by exists w]. intros [_ ->]. by rewrite Z.eqb_refl in *.
    + intros [Hnot (w' & Hw' & Hk & Ht)]. simplify_eq. eexists; split; [done|]. split; [done|].
      rewrite testbit_clear_bit, Ht, andb_true_r by done. apply negb_true_iff, Z.eqb_neq. naive_solver.
  - naive_solver.
Qed.
End words.

(** ** The operations keep the invariant and implement a set of ticks *)

Section laws.
Context {MAX_TICKS : Z} (Hticks : 0 < MAX_TICKS <= 262144).
Implicit Types (t : PriceBitSet MAX_TICKS) (p : Z) (S : gset Z).

Lemma tick_indices p :
  0 <= p < MAX_TICKS ->
  (0 <= p / 64 < L0_SIZE (MAX_TICKS := MAX_TICKS)) /\
  (0 <= p / 64 / 64 < L1_SIZE (MAX_TICKS := MAX_TICKS)) /\
  0 <= p / 64 / 64 < 64 /\ 0 <= p mod 64 < 64 /\ 0 <= p / 64 mod 64 < 64.
Proof. intros Hp. unfold L1_SIZE, L0_SIZE. split_and!; Z.to_euclidean_division_equations; lia. Qed.

Lemma split_index (i j k : Z) : 0 <= k < 64 -> j * 64 + k = i <-> j = i / 64 /\ k = i mod 64.
Proof. intros Hk. Z.to_euclidean_division_equations; lia. Qed.

(** The state [set] leaves, for a valid tick. *)
Lemma set_unfold t p :
  wf t -> 0 <= p < MAX_TICKS ->
  exists w0 w1, vget (_l0 t) (p / 64) = Some w0 /\ vget (_l1 t) (p / 64 / 64) = Some w1 /\
    PriceBitSet_set p t = Ok (mkPriceBitSet
      (vset (_l0 t) (p / 64) (or_bit w0 (2 ^ (p mod 64))))
      (vset (_l1 t) (p / 64 / 64) (or_bit w1 (2 ^ (p / 64 mod 64))))
      (or_bit (_l2 t) (2 ^ (p / 64 / 64)))).
Proof.
  intros Hwf Hp. destruct (tick_indices p Hp) as (H0 & H1 & H2 & H3 & H4).
  destruct Hwf as [Hs0 Hs1 _ _ _ _ _].
  destruct (vget_lookup (_l0 t) (p / 64)) as [w0 Hw0]; [lia|].
  destruct (vget_lookup (_l1 t) (p / 64 / 64)) as [w1 Hw1]; [lia|].
  exists w0, w1. split; [done|]. split; [done|]. unfold PriceBitSet_set.
  rewrite (vread_Ok _ _ _ Hw0), (vread_Ok _ _ _ Hw1), !shl1_Ok by done. simpl.
  by rewrite !vwrite_Ok by lia.
Qed.

Lemma set_wf t t' p : wf t -> 0 <= p < MAX_TICKS -> PriceBitSet_set p t = Ok t' -> wf t'.
Proof.
  intros Hwf Hp Ht'. destruct (set_unfold t p Hwf Hp) as (w0 & w1 & Hw0 & Hw1 & E).
  rewrite E in Ht'. simplify_eq. clear E.
  destruct (tick_indices p Hp) as (H0 & H1 & H2 & H3 & H4).
  destruct Hwf as [Hs0 Hs1 Hl0 Hl1 Hl2 Hsum1 Hsum2].
  split; simpl; autorewrite with mh_rw; try done.
  - apply words_vset; [done|]. by apply word64_or_bit; [eapply Hl0|].
  - apply words_vset; [done|]. by apply word64_or_bit; [eapply Hl1|].
  - by apply word64_or_bit.
  - intros j k Hk. rewrite bit_at_set, Hsum1, nonzero_at_vset by (done || lia).
    case_decide as Hi; [|rewrite split_index in Hi by done; naive_solver].
    pose proof Hi as Hi'. apply split_index in Hi' as [-> ->]; [|done]. split; [|by left].
    intros _ Hz. assert (Z.testbit 0 (p mod 64) = true) as Hb; [|by rewrite Z.bits_0 in Hb].
    rewrite <- Hz, testbit_or_bit, Z.eqb_refl by lia. done.
  - intros j Hj. rewrite testbit_or_bit, orb_true_iff, Z.eqb_eq, Hsum2, nonzero_at_vset by lia.
    case_decide; [|naive_solver]. split; [|by left]. intros _ Hz.
    assert (Z.testbit 0 (p / 64 mod 64) = true) as Hb; [|by rewrite Z.bits_0 in Hb].
    rewrite <- Hz, testbit_or_bit, Z.eqb_refl by lia. done.
Qed.

Lemma set_mem t t' p q :
  wf t -> 0 <= p < MAX_TICKS -> PriceBitSet_set p t = Ok t' -> mem t' q <-> q = p \/ mem t q.
Proof.
  intros Hwf Hp Ht'. destruct (set_unfold t p Hwf Hp) as (w0 & w1 & Hw0 & Hw1 & E).
  rewrite E in Ht'. simplify_eq. destruct (tick_indices p Hp) as (H0 & H1 & H2 & H3 & H4).
  unfold mem. simpl. rewrite bit_at_set by (done || apply Hwf).
  assert (q / 64 = p / 64 /\ q mod 64 = p mod 64 <-> q = p) as ->; [|done].
  Z.to_euclidean_division_equations; lia.
Qed.

(** The state [clear] leaves, for a valid tick: each summary bit is cleared
    only when the word below it became zero. *)
Lemma clear_unfold t p :
  wf t -> 0 <= p < MAX_TICKS ->
  exists w0 w1, vget (_l0 t) (p / 64) = Some w0 /\ vget (_l1 t) (p / 64 / 64) = Some w1 /\
    let w0' := clear_bit w0 (2 ^ (p mod 64)) in
    let w1' := clear_bit w1 (2 ^ (p / 64 mod 64)) in
    PriceBitSet_clear p t = Ok (mkPriceBitSet
      (vset (_l0 t) (p / 64) w0')
      (if w0' =? 0 then vset (_l1 t) (p / 64 / 64) w1' else _l1 t)
      (if (w0' =? 0) && (w1' =? 0) then clear_bit (_l2 t) (2 ^ (p / 64 / 64)) else _l2 t)).
Proof.
  intros Hwf Hp. destruct (tick_indices p Hp) as (H0 & H1 & H2 & H3 & H4).
  destruct Hwf as [Hs0 Hs1 _ _ _ _ _].
  destruct (vget_lookup (_l0 t) (p / 64)) as [w0 Hw0]; [lia|].
  destruct (vget_lookup (_l1 t) (p / 64 / 64)) as [w1 Hw1]; [lia|].
  exists w0, w1. split; [done|]. split; [done|]. unfold PriceBitSet_clear.
  rewrite (vread_Ok _ _ _ Hw0), (vread_Ok _ _ _ Hw1), !shl1_Ok by done. simpl.
  rewrite (vwrite_Ok (_l0 t)) by lia. simpl.
  rewrite vread_set_eq by lia. simpl.
  destruct (_ =? 0); [|done]. rewrite (vwrite_Ok (_l1 t)) by lia. simpl.
  rewrite vread_set_eq by lia. simpl.
  by destruct (_ =? 0).
Qed.

Lemma clear_wf t t' p : wf t -> 0 <= p < MAX_TICKS -> PriceBitSet_clear p t = Ok t' -> wf t'.
Proof.
  intros Hwf Hp Ht'. destruct (clear_unfold t p Hwf Hp) as (w0 & w1 & Hw0 & Hw1 & E).
  simpl in E. rewrite E in Ht'. clear E.
  destruct (tick_indices p Hp) as (H0 & H1 & H2 & H3 & H4).
  destruct Hwf as [Hs0 Hs1 Hl0 Hl1 Hl2 Hsum1 Hsum2].
  pose proof (Hl0 _ _ Hw0) as H640. pose proof (Hl1 _ _ Hw1) as H641.
  assert (nonzero_at (_l0 t) (p / 64) -> nonzero_at (_l1 t) (p / 64 / 64)) as Hup.
  { intros Hn. apply nonzero_at_bit; [done|]. exists (p / 64 mod 64). apply Hsum1; [done|].
    by assert (p / 64 / 64 * 64 + p / 64 mod 64 = p / 64) as -> by (apply split_index; lia). }
  assert (clear_bit w0 (2 ^ (p mod 64)) <> 0 -> w0 <> 0) as Hz0 by (intros Hn Hz; apply Hn; by rewrite Hz).
  assert (clear_bit w1 (2 ^ (p / 64 mod 64)) <> 0 -> w1 <> 0) as Hz1 by (intros Hn Hz; apply Hn; by rewrite Hz).
  zcase (clear_bit w0 (2 ^ (p mod 64)) =? 0); simpl in Ht'; simplify_eq;
    split; simpl; autorewrite with mh_rw; try done;
    try (apply words_vset; [done|]; by apply word64_clear_bit).
  - zcase (clear_bit w1 (2 ^ (p / 64 mod 64)) =? 0); [by apply word64_clear_bit|done].
  - intros j k Hk. rewrite bit_at_clear, Hsum1, nonzero_at_vset by (done || lia).
    case_decide as Hi; [|rewrite split_index in Hi by done; naive_solver].
    apply split_index in Hi as [-> ->]; [|done]. naive_solver.
  - intros j Hj. rewrite nonzero_at_vset by lia.
    zcase (clear_bit w1 (2 ^ (p / 64 mod 64)) =? 0).
    + rewrite testbit_clear_bit, andb_true_iff, negb_true_iff, Z.eqb_neq, Hsum2 by (done || lia).
      case_decide; naive_solver.
    + rewrite Hsum2 by done. case_decide; [|done]. subst j. split; [done|]. intros _.
      exists w1. auto.
  - intros j k Hk. rewrite Hsum1, nonzero_at_vset by (done || lia).
    case_decide as Hi; [|done]. rewrite Hi. split; [done|]. intros _. exists w0; auto.
Qed.

Lemma clear_mem t t' p q :
  wf t -> 0 <= p < MAX_TICKS -> PriceBitSet_clear p t = Ok t' -> mem t' q <-> q <> p /\ mem t q.
Proof.
  intros Hwf Hp Ht'. destruct (clear_unfold t p Hwf Hp) as (w0 & w1 & Hw0 & Hw1 & E).
  simpl in E. rewrite E in Ht'. simplify_eq.
  destruct (tick_indices p Hp) as (H0 & H1 & H2 & H3 & H4).
  unfold mem. simpl. rewrite bit_at_clear by (done || apply Hwf).
  assert (~ (q / 64 = p / 64 /\ q mod 64 = p mod 64) <-> q <> p) as ->; [|done].
  Z.to_euclidean_division_equations; lia.
Qed.

Lemma new_wf : wf (MAX_TICKS := MAX_TICKS) PriceBitSet_new.
Proof.
  assert (forall n j, ~ nonzero_at (vnew n 0) j) as Hn.
  { intros n j (w & Hw & Hne). pose proof (vget_Some_range _ _ _ Hw) as Hr. simpl in Hr.
    rewrite vget_new in Hw by done. congruence. }
  split; simpl; try done.
  - apply words_new.
  - apply words_new.
  - intros j k Hk. split; [|intros H; by apply Hn in H]. intros Hb. exfalso.
    eapply (Hn _ j), nonzero_at_bit; [apply words_new|by exists k].
  - intros j Hj. rewrite Z.bits_0. split; [done|intros H; by apply Hn in H].
Qed.

Lemma not_mem_new p : ~ mem (MAX_TICKS := MAX_TICKS) PriceBitSet_new p.
Proof.
  intros (w & Hw & _ & Ht). pose proof (vget_Some_range _ _ _ Hw) as Hr. simpl in *.
  rewrite vget_new in Hw by done. simplify_eq. by rewrite Z.bits_0 in Ht.
Qed.

(** The summary path above a tick of the set. *)
Lemma mem_summaries t p :
  wf t -> 0 <= p < MAX_TICKS -> mem t p ->
  bit_at (_l1 t) (p / 64 / 64) (p / 64 mod 64) /\ Z.testbit (_l2 t) (p / 64 / 64) = true.
Proof.
  intros Hwf Hp Hm. destruct (tick_indices p Hp) as (H0 & H1 & H2 & H3 & H4).
  assert (bit_at (_l1 t) (p / 64 / 64) (p / 64 mod 64)) as Hb1.
  { apply Hwf; [done|].
    assert (p / 64 / 64 * 64 + p / 64 mod 64 = p / 64) as -> by (apply split_index; lia).
    apply nonzero_at_bit; [apply Hwf|by exists (p mod 64)]. }
  split; [done|]. apply Hwf; [done|]. apply nonzero_at_bit; [apply Hwf|by eexists].
Qed.

(** One descent step: a set summary bit leads to a non-zero word. *)
Lemma descend t j k :
  wf t -> 0 <= j -> bit_at (_l1 t) j k -> exists w, vget (_l0 t) (j * 64 + k) = Some w /\
    w <> 0 /\ word64 w /\ 0 <= j * 64 + k < 4097.
Proof.
  intros Hwf Hj Hb. pose proof Hb as (w1 & _ & Hk & _).
  apply Hwf in Hb as (w & Hw & Hne); [|done]. exists w. split_and!; try done.
  - eapply wf_words0; done.
  - lia.
  - apply vget_Some_range in Hw. rewrite (wf_size0 _ Hwf) in Hw. unfold L0_SIZE in Hw.
    Z.to_euclidean_division_equations; lia.
Qed.

(** Both extremal queries follow the same path, with a different choice of
    bit: the highest set bit ([s = 1]) or the lowest one ([s = -1]). *)
Section scan.
Context (s : Z) (pick : Z -> Z).
Hypothesis sign : s = 1 \/ s = -1.
Hypothesis pick_spec : forall x, word64 x -> x <> 0 ->
  0 <= pick x < 64 /\ Z.testbit x (pick x) = true /\
  forall i, Z.testbit x i = true -> s * i <= s * pick x.

Ltac lia_sign := destruct sign as [Es|Es]; rewrite Es in *; lia.

Lemma scan_path t :
  wf t -> _l2 t <> 0 ->
  exists w1 w0, let j2 := pick (_l2 t) in let j1 := j2 * 64 + pick w1 in
    vget (_l1 t) j2 = Some w1 /\ w1 <> 0 /\ word64 w1 /\
    vget (_l0 t) j1 = Some w0 /\ w0 <> 0 /\ word64 w0 /\
    0 <= j2 < 64 /\ 0 <= pick w1 < 64 /\ 0 <= j1 < 4097 /\ 0 <= pick w0 < 64.
Proof.
  intros Hwf H2. destruct (pick_spec (_l2 t)) as (Hj2 & Ht2 & _); [apply Hwf|done|].
  apply (wf_sum2 _ Hwf) in Ht2 as (w1 & Hw1 & Hne1); [|done].
  pose proof (wf_words1 _ Hwf _ _ Hw1) as H641.
  destruct (pick_spec w1 H641 Hne1) as (Hk1 & Ht1 & _).
  assert (bit_at (_l1 t) (pick (_l2 t)) (pick w1)) as Hb by (by exists w1).
  destruct (descend t (pick (_l2 t)) (pick w1) Hwf ltac:(lia) Hb) as (w0 & Hw0 & Hne0 & H640 & Hr).
  destruct (pick_spec w0 H640 Hne0) as (Hk0 & Ht0 & _). exists w1, w0. simpl. split_and!; done || lia.
Qed.

(** The tick the path leads to is in the set, and extremal. *)
Lemma scan_extremal t S w1 w0 (j2 := pick (_l2 t)) (j1 := j2 * 64 + pick w1) :
  PriceBitSet_represents t S -> _l2 t <> 0 ->
  vget (_l1 t) j2 = Some w1 -> w1 <> 0 -> vget (_l0 t) j1 = Some w0 -> w0 <> 0 ->
  j1 * 64 + pick w0 ∈ S /\ forall q, q ∈ S -> s * q <= s * (j1 * 64 + pick w0).
Proof.
  intros (Hwf & HS & Hr) H2 Hw1 Hne1 Hw0 Hne0.
  destruct (pick_spec (_l2 t)) as (Hj2 & _ & Hmax2); [apply Hwf|done|].
  destruct (pick_spec w1) as (Hk1 & _ & Hmax1); [by eapply wf_words1|done|].
  destruct (pick_spec w0) as (Hk0 & Ht0 & Hmax0); [by eapply wf_words0|done|].
  split.
  - apply HS. unfold mem. destruct (proj1 (split_index _ j1 (pick w0) Hk0) eq_refl) as [<- <-].
    by exists w0.
  - intros q Hq. destruct (tick_indices q (Hr q Hq)) as (_ & _ & Hq2 & Hq0 & Hq1).
    apply HS in Hq as Hqm. destruct (mem_summaries t q Hwf (Hr q Hq) Hqm) as [Hb1 Hb2].
    destruct Hb1 as (v1 & Hv1 & Hkv1 & Hb1), Hqm as (v0 & Hv0 & Hkv0 & Hb0).
    specialize (Hmax2 _ Hb2). fold j2 in Hmax2.
    assert (q = (q / 64 / 64 * 64 + q / 64 mod 64) * 64 + q mod 64) as Eq.
    { Z.to_euclidean_division_equations; lia. }
    assert (q / 64 = q / 64 / 64 * 64 + q / 64 mod 64) as Eq1.
    { Z.to_euclidean_division_equations; lia. }
    rewrite Eq. destruct (decide (q / 64 / 64 = j2)) as [E2|]; [|lia_sign].
    rewrite E2 in Hv1. simplify_eq. specialize (Hmax1 _ Hb1).
    destruct (decide (q / 64 mod 64 = pick w1)) as [E1|]; [|lia_sign].
    rewrite Eq1, E2, E1 in Hv0. fold j1 in Hv0. simplify_eq. specialize (Hmax0 _ Hb0).
    lia_sign.
Qed.
End scan.

(** [_l2] is zero exactly for the empty set. *)
Lemma l2_zero t S : PriceBitSet_represents t S -> _l2 t = 0 -> S = ∅.
Proof.
  intros (Hwf & HS & Hr) H2. apply set_eq. intros p. split; [|set_solver]. intros Hp.
  destruct (mem_summaries t p Hwf (Hr p Hp)) as [_ Hb]; [by apply HS|].
  by rewrite H2, Z.bits_0 in Hb.
Qed.

Lemma get_highest_correct t S :
  PriceBitSet_represents t S ->
  if decide (S = ∅) then PriceBitSet_get_highest t = Ok 0
  else exists p, PriceBitSet_get_highest t = Ok p /\ is_highest S p.
Proof.
  intros HS. pose proof HS as (Hwf & _ & _). unfold PriceBitSet_get_highest.
  zcase (_l2 t =? 0); [by rewrite decide_True by by eapply l2_zero|].
  assert (forall x, word64 x -> x <> 0 -> let p := 63 - countl_zero x in
    0 <= p < 64 /\ Z.testbit x p = true /\ forall i, Z.testbit x i = true -> 1 * i <= 1 * p) as Hp.
  { intros x Hx Hne. destruct (countl_zero_spec x Hx Hne) as (? & ? & Hm).
    split_and!; try done; try lia. intros i Hi%Hm. lia. }
  destruct (scan_path 1 _ Hp t Hwf E) as (w1 & w0 & Hw1 & Hne1 & _ & Hw0 & Hne0 & _ & ?).
  destruct (scan_extremal 1 _ ltac:(by left) Hp t S w1 w0 HS E Hw1 Hne1 Hw0 Hne0) as [Hin Hmax].
  rewrite decide_False by set_solver. rewrite (vread_Ok _ _ _ Hw1). simpl.
  rewrite (wrap_small 64) by lia. rewrite (vread_Ok _ _ _ Hw0). simpl.
  eexists. split; [done|]. rewrite !wrap_small by (rewrite ?wrap_small; lia).
  split; [done|]. intros q Hq%Hmax. lia.
Qed.

Lemma get_lowest_correct t S :
  PriceBitSet_represents t S ->
  if decide (S = ∅) then PriceBitSet_get_lowest t = Ok UINT32_MAX
  else exists p, PriceBitSet_get_lowest t = Ok p /\ is_lowest S p.
Proof.
  intros HS. pose proof HS as (Hwf & _ & _). unfold PriceBitSet_get_lowest.
  zcase (_l2 t =? 0); [by rewrite decide_True by by eapply l2_zero|].
  assert (forall x, word64 x -> x <> 0 -> let p := countr_zero x in
    0 <= p < 64 /\ Z.testbit x p = true /\ forall i, Z.testbit x i = true -> -1 * i <= -1 * p) as Hp.
  { intros x Hx Hne. destruct (countr_zero_spec x Hx Hne) as (? & ? & Hm).
    split_and!; try done; try lia. intros i Hi%Hm. lia. }
  destruct (scan_path (-1) _ Hp t Hwf E) as (w1 & w0 & Hw1 & Hne1 & _ & Hw0 & Hne0 & _ & ?).
  destruct (scan_extremal (-1) _ ltac:(by right) Hp t S w1 w0 HS E Hw1 Hne1 Hw0 Hne0) as [Hin Hmax].
  rewrite decide_False by set_solver. rewrite (vread_Ok _ _ _ Hw1). simpl.
  rewrite (wrap_small 64) by lia. rewrite (vread_Ok _ _ _ Hw0). simpl.
  eexists. split; [done|]. rewrite !wrap_small by (rewrite ?wrap_small; lia).
  split; [done|]. intros q Hq%Hmax. lia.
Qed.

#[export] Instance PriceBitSet_laws : PriceIndexLaws (PriceBitSet MAX_TICKS) MAX_TICKS.
Proof.
  refine {| represents := PriceBitSet_represents |}.
  - intros t S p (_ & _ & Hr). apply Hr.
  - split_and!; [apply new_wf| |set_solver]. intros p.
    split; [set_solver|intros H; by apply not_mem_new in H].
  - intros t S p (Hwf & HS & Hr) Hp.
    destruct (set_unfold t p Hwf Hp) as (w0 & w1 & _ & _ & E). eexists. split; [exact E|].
    split_and!; [by eapply set_wf| |set_solver]. intros q.
    rewrite (set_mem t _ p q Hwf Hp E), elem_of_union, elem_of_singleton, HS. done.
  - intros t S p (Hwf & HS & Hr) Hp.
    destruct (clear_unfold t p Hwf Hp) as (w0 & w1 & _ & _ & E). eexists. split; [exact E|].
    split_and!; [by eapply clear_wf| |set_solver]. intros q.
    rewrite (clear_mem t _ p q Hwf Hp E), elem_of_difference, elem_of_singleton, HS. naive_solver.
  - apply get_highest_correct.
  - apply get_lowest_correct.
Defined.
End laws.
