(* ===== verification/BitSetTheorems.v ===== *)
(** * Properties of the price bitmap

    Whole sessions of [set] and [clear], and the ticks past [MAX_TICKS]. *)

From S2P Require Import Prelude.
From S2P Require Import Bits.
From S2P Require Import PriceIndex.
From S2P Require Import PriceBitSet.

Inductive bit_op := BSet (p : Z) | BClear (p : Z).

Definition tick_of (op : bit_op) : Z := match op with BSet p => p | BClear p => p end.

Section sessions.
Context {T : Type} `{PriceIndex T}.

Fixpoint run_bit_ops (ops : list bit_op) (t : T) : outcome T :=
  match ops with
  | [] => mret t
  | BSet p :: ops => t ← set p t; run_bit_ops ops t
  | BClear p :: ops => t ← clear p t; run_bit_ops ops t
  end.

(** The ticks a session leaves. *)
Definition ticks_after (ops : list bit_op) (S : gset Z) : gset Z :=
  foldl (fun S op => match op with BSet p => {[p]} ∪ S | BClear p => S ∖ {[p]} end) S ops.

Lemma run_represents `{!PriceIndexLaws T ticks} ops t S :
  represents t S -> Forall (fun op => 0 <= tick_of op < ticks) ops ->
  exists t', run_bit_ops ops t = Ok t' /\ represents t' (ticks_after ops S).
Proof.
  intros Ht Hops. revert t S Ht. induction Hops as [|op ops Hp Hops IH]; intros t S Ht; [by exists t|].
  destruct op as [p|p]; simpl in *.
  - destruct (set_spec t S p Ht Hp) as (t' & -> & Ht'). by apply IH.
  - destruct (clear_spec t S p Ht Hp) as (t' & -> & Ht'). by apply IH.
Qed.
End sessions.

(** C12: After any sequence of [set] and [clear] of valid ticks on a new
    bitmap, the scans find the highest and the lowest tick that is set, and
    return their sentinels (0, [UINT32_MAX]) exactly when none is: the three
    levels of the bitmap stay summaries of each other. *)
Theorem bitset_scans {MAX_TICKS : Z} (ops : list bit_op) :
  0 < MAX_TICKS <= 262144 -> Forall (fun op => 0 <= tick_of op < MAX_TICKS) ops ->
  exists t : PriceBitSet MAX_TICKS, run_bit_ops ops PriceBitSet_new = Ok t /\
    let S := ticks_after ops ∅ in
    (S = ∅ -> PriceBitSet_get_highest t = Ok 0 /\ PriceBitSet_get_lowest t = Ok UINT32_MAX) /\
    (S <> ∅ -> exists hi lo, PriceBitSet_get_highest t = Ok hi /\ PriceBitSet_get_lowest t = Ok lo /\
       is_highest S hi /\ is_lowest S lo).
Proof.
  intros HM Hops. pose proof (PriceBitSet_laws HM) as Hlaws.
  destruct (run_represents (T := PriceBitSet MAX_TICKS) ops PriceBitSet_new ∅) as (t & Hrun & Ht);
    [exact (represents_new (T := PriceBitSet MAX_TICKS))|done|].
  exists t. split; [done|]. pose proof (get_highest_spec t _ Ht) as Hh. pose proof (get_lowest_spec t _ Ht) as Hl.
  split; intros HS.
  - by rewrite decide_True in Hh, Hl.
  - rewrite decide_False in Hh, Hl by done. destruct Hh as (hi & ? & ?), Hl as (lo & ? & ?). by exists hi, lo.
Qed.

Lemma bitset_scans_witness :
  exists t : PriceBitSet 262144,
    run_bit_ops [BSet 5; BSet 262143; BSet 4096; BClear 5] PriceBitSet_new = Ok t /\
    PriceBitSet_get_highest t = Ok 262143 /\ PriceBitSet_get_lowest t = Ok 4096.
Proof.
  destruct (bitset_scans (MAX_TICKS := 262144) [BSet 5; BSet 262143; BSet 4096; BClear 5])
    as (t & Hrun & _ & Hne); [lia| |].
  { repeat (constructor; [simpl; lia|]). constructor. }
  exists t. split; [done|]. vm_compute in Hrun. injection Hrun as <-. split; by vm_compute.
Defined.

(** The bitmap has one word more than its ticks need, but the top word
    has no bit for it: [set] on the 64 ticks from [MAX_TICKS] = 64^3 on shifts
    by the width of the word, and past those it writes out of bounds; so the
    constructor's [MAX_TICKS] is also the largest the three levels can index. *)
Theorem set_past_max (t : PriceBitSet 262144) (p : Z) :
  vsize (_l0 t) = L0_SIZE (MAX_TICKS := 262144) -> vsize (_l1 t) = L1_SIZE (MAX_TICKS := 262144) ->
  262144 <= p <= UINT32_MAX ->
  PriceBitSet_set p t = Undefined (if p <? 262144 + 64 then BadShift else OutOfBounds).
Proof.
  intros H0 H1 Hp. unfold UINT32_MAX in Hp.
  assert (L0_SIZE (MAX_TICKS := 262144) = 4097) as E0 by done.
  assert (L1_SIZE (MAX_TICKS := 262144) = 65) as E1 by done.
  rewrite E0 in H0. rewrite E1 in H1. unfold PriceBitSet_set.
  zcase (p <? 262144 + 64).
  - assert (p / 64 = 4096) as -> by (Z.to_euclidean_division_equations; lia).
    destruct (vget_lookup (_l0 t) 4096) as (w0 & Hw0); [lia|].
    destruct (vget_lookup (_l1 t) 64) as (w1 & Hw1); [lia|].
    assert (0 <= p mod 64 < 64) by (apply Z.mod_pos_bound; lia).
    rewrite (vread_Ok _ _ _ Hw0). rewrite (shl1_Ok (p mod 64)) by done. simpl. rewrite vwrite_Ok by lia. simpl.
    change (4096 / 64) with 64. rewrite (vread_Ok _ _ _ Hw1). simpl.
    by rewrite vwrite_Ok by lia.
  - unfold vread. destruct (vget (_l0 t) (p / 64)) as [w|] eqn:Ew; [|done].
    apply vget_Some_range in Ew. rewrite H0 in Ew. Z.to_euclidean_division_equations; lia.
Qed.

Lemma set_past_max_witness : PriceBitSet_set (MAX_TICKS := 262144) 262144 PriceBitSet_new = Undefined BadShift.
Proof. refine (set_past_max PriceBitSet_new 262144 eq_refl eq_refl _). unfold UINT32_MAX. lia. Defined.
