(* ===== verification/OrderBook.v ===== *)
(** * OrderBook.h: orders, price levels, the order pool and the book

    The data and the operations of OrderBook.h.  An [Order*] is an index
    into the pool's array ([None] is [nullptr]); the pool's array is the heap
    the orders live in, and the doubly linked queues of the price levels run
    through it.  Out-of-bounds indexing, dereferencing [nullptr] and the
    bitmap's undefined shifts are [Undefined]; the loops of [match_order]
    take fuel.  The book is generic in its price index, like the template
    argument of the source. *)

From S2P Require Import Prelude.
From S2P Require Import PriceIndex.

(** ** Data *)

Definition ptr := option Z.

Record Order := mkOrder {
  o_id : Z;            (* uint64_t *)
  o_prev : ptr;
  o_next : ptr;
  o_price : Z;         (* uint32_t *)
  o_quantity : Z;      (* uint32_t : 31 *)
  o_is_buy : bool;     (* uint32_t : 1 *)
}.

(** [std::vector::resize] value-initialises the orders. *)
Definition Order_zero : Order := mkOrder 0 None None 0 0 false.

Definition set_o_id (v : Z) (o : Order) : Order :=
  mkOrder v (o_prev o) (o_next o) (o_price o) (o_quantity o) (o_is_buy o).
Definition set_o_prev (v : ptr) (o : Order) : Order :=
  mkOrder (o_id o) v (o_next o) (o_price o) (o_quantity o) (o_is_buy o).
Definition set_o_next (v : ptr) (o : Order) : Order :=
  mkOrder (o_id o) (o_prev o) v (o_price o) (o_quantity o) (o_is_buy o).
Definition set_o_price (v : Z) (o : Order) : Order :=
  mkOrder (o_id o) (o_prev o) (o_next o) v (o_quantity o) (o_is_buy o).
(** Assigning to the 31-bit field keeps the low 31 bits. *)
Definition set_o_quantity (v : Z) (o : Order) : Order :=
  mkOrder (o_id o) (o_prev o) (o_next o) (o_price o) (u31 v) (o_is_buy o).
Definition set_o_is_buy (v : bool) (o : Order) : Order :=
  mkOrder (o_id o) (o_prev o) (o_next o) (o_price o) (o_quantity o) v.

Record PriceLevel := mkPriceLevel {
  head : ptr;
  tail : ptr;
  total_quantity : Z;  (* uint64_t *)
}.

Definition PriceLevel_empty : PriceLevel := mkPriceLevel None None 0.

Definition set_head (v : ptr) (l : PriceLevel) : PriceLevel :=
  mkPriceLevel v (tail l) (total_quantity l).
Definition set_tail (v : ptr) (l : PriceLevel) : PriceLevel :=
  mkPriceLevel (head l) v (total_quantity l).
Definition set_total_quantity (v : Z) (l : PriceLevel) : PriceLevel :=
  mkPriceLevel (head l) (tail l) (u64 v).

(** ** OrderPool

    The free list is a stack: the head of the list is [_free_list.back()]. *)
Record OrderPool := mkOrderPool {
  _pool : vec Order;
  _free_list : list Z;
}.

Definition OrderPool_new (capacity : Z) : OrderPool :=
  mkOrderPool (vnew capacity Order_zero)
    (foldl (fun free i => i :: free) [] (seqZ 0 capacity)).

Definition OrderPool_allocate (p : OrderPool) : ptr * OrderPool :=
  match _free_list p with
  | [] => (None, p)
  | order :: free => (Some order, mkOrderPool (_pool p) free)
  end.

(** [*order], and writing through [order]. *)
Definition deref (order : ptr) (p : OrderPool) : outcome Order :=
  match order with
  | None => Undefined NullDeref
  | Some x => vread (_pool p) x
  end.

Definition assign (order : ptr) (f : Order -> Order) (p : OrderPool) : outcome OrderPool :=
  match order with
  | None => Undefined NullDeref
  | Some x =>
      o ← vread (_pool p) x;
      mret (mkOrderPool (vset (_pool p) x (f o)) (_free_list p))
  end.

Definition OrderPool_deallocate (order : ptr) (p : OrderPool) : outcome OrderPool :=
  p ← assign order (set_o_prev None) p;
  p ← assign order (set_o_next None) p;
  match order with
  | None => Undefined NullDeref
  | Some x => mret (mkOrderPool (_pool p) (x :: _free_list p))
  end.

(** ** OrderBook *)

Definition MAX_TICKS : Z := 262144.
Definition MAX_ORDERS : Z := 1500000.

Record OrderBook (Bits : Type) := mkOrderBook {
  book_pool : OrderPool;
  _bids : vec PriceLevel;
  _asks : vec PriceLevel;
  _order_map : vec ptr;
  _bid_bits : Bits;
  _ask_bits : Bits;
  _best_bid : Z;
  _best_ask : Z;
}.
Arguments mkOrderBook {Bits} _ _ _ _ _ _ _ _.
Arguments book_pool {Bits} _.
Arguments _bids {Bits} _.
Arguments _asks {Bits} _.
Arguments _order_map {Bits} _.
Arguments _bid_bits {Bits} _.
Arguments _ask_bits {Bits} _.
Arguments _best_bid {Bits} _.
Arguments _best_ask {Bits} _.

Section OrderBook.
Context {Bits : Type} `{PriceIndex Bits}.
Implicit Types (b : OrderBook Bits) (is_buy : bool).

Definition OrderBook_new (max_ticks max_orders : Z) : OrderBook Bits :=
  mkOrderBook (OrderPool_new max_orders)
    (vnew max_ticks PriceLevel_empty) (vnew max_ticks PriceLevel_empty)
    (vnew max_orders None) bits_new bits_new 0 UINT32_MAX.

Definition get_best_bid (b : OrderBook Bits) : Z := _best_bid b.
Definition get_best_ask (b : OrderBook Bits) : Z := _best_ask b.

(** *** Access to the members *)

Definition set_pool (p : OrderPool) b : OrderBook Bits :=
  mkOrderBook p (_bids b) (_asks b) (_order_map b) (_bid_bits b) (_ask_bits b) (_best_bid b) (_best_ask b).
Definition set_order_map (m : vec ptr) b : OrderBook Bits :=
  mkOrderBook (book_pool b) (_bids b) (_asks b) m (_bid_bits b) (_ask_bits b) (_best_bid b) (_best_ask b).

(** [is_buy ? _bids : _asks], and the same for the bitmaps and the cached
    best prices. *)
Definition side_levels is_buy b : vec PriceLevel := if is_buy then _bids b else _asks b.
Definition set_side_levels is_buy (v : vec PriceLevel) b : OrderBook Bits :=
  mkOrderBook (book_pool b) (if is_buy then v else _bids b) (if is_buy then _asks b else v)
    (_order_map b) (_bid_bits b) (_ask_bits b) (_best_bid b) (_best_ask b).
Definition side_bits is_buy b : Bits := if is_buy then _bid_bits b else _ask_bits b.
Definition set_side_bits is_buy (t : Bits) b : OrderBook Bits :=
  mkOrderBook (book_pool b) (_bids b) (_asks b) (_order_map b)
    (if is_buy then t else _bid_bits b) (if is_buy then _ask_bits b else t) (_best_bid b) (_best_ask b).
Definition side_best is_buy b : Z := if is_buy then _best_bid b else _best_ask b.
Definition set_side_best is_buy (p : Z) b : OrderBook Bits :=
  mkOrderBook (book_pool b) (_bids b) (_asks b) (_order_map b) (_bid_bits b) (_ask_bits b)
    (if is_buy then p else _best_bid b) (if is_buy then _best_ask b else p).

Abbreviation M := (prog (OrderBook Bits)).

(** Reading [*order], and modifying it. *)
Definition load (order : ptr) : M Order :=
  b ← get_state; lift (deref order (book_pool b)).
Definition store (order : ptr) (f : Order -> Order) : M unit :=
  b ← get_state; p ← lift (assign order f (book_pool b)); put_state (set_pool p b).

Definition allocate : M ptr :=
  b ← get_state;
  let '(order, p) := OrderPool_allocate (book_pool b) in
  put_state (set_pool p b);; mret order.
Definition deallocate (order : ptr) : M unit :=
  b ← get_state; p ← lift (OrderPool_deallocate order (book_pool b)); put_state (set_pool p b).

(** [_order_map[id]]. *)
Definition map_get (id : Z) : M ptr := b ← get_state; lift (vread (_order_map b) id).
Definition map_set (id : Z) (v : ptr) : M unit :=
  b ← get_state; m ← lift (vwrite (_order_map b) id v); put_state (set_order_map m b).

(** A reference to a price level: forming it indexes the vector. *)
Definition level_ref : Type := bool * Z.
Definition level_at is_buy (price : Z) : M level_ref :=
  b ← get_state; _ ← lift (vread (side_levels is_buy b) price); mret (is_buy, price).
Definition level_load (l : level_ref) : M PriceLevel :=
  b ← get_state; lift (vread (side_levels l.1 b) l.2).
Definition level_store (l : level_ref) (f : PriceLevel -> PriceLevel) : M unit :=
  b ← get_state;
  lv ← lift (vread (side_levels l.1 b) l.2);
  put_state (set_side_levels l.1 (vset (side_levels l.1 b) l.2 (f lv)) b).

Definition bits_set is_buy (price : Z) : M unit :=
  b ← get_state; t ← lift (set price (side_bits is_buy b)); put_state (set_side_bits is_buy t b).
Definition bits_clear is_buy (price : Z) : M unit :=
  b ← get_state; t ← lift (clear price (side_bits is_buy b)); put_state (set_side_bits is_buy t b).

(** [_best_bid = _bid_bits.get_highest(); _best_ask = _ask_bits.get_lowest();] *)
Definition refresh_best : M unit :=
  b ← get_state;
  bid ← lift (get_highest (_bid_bits b));
  put_state (set_side_best true bid b);;
  b ← get_state;
  ask ← lift (get_lowest (_ask_bits b));
  put_state (set_side_best false ask b).

(** Unlinking an order from its level's queue (the same statements in
    [cancel_order] and [match_order]). *)
Definition unlink (level : level_ref) (order : ptr) : M unit :=
  o ← load order;
  (match o_prev o with
   | Some _ => store (o_prev o) (set_o_next (o_next o))
   | None => level_store level (set_head (o_next o))
   end);;
  o ← load order;
  match o_next o with
  | Some _ => store (o_next o) (set_o_prev (o_prev o))
  | None => level_store level (set_tail (o_prev o))
  end.

(** *** match_order *)

(** The inner loop: fill against the queue of one level. *)
Fixpoint fill_level (fuel : nat) (level : level_ref) (resting_order : ptr) (remaining_qty : Z) : M Z :=
  match fuel with
  | O => loop_out
  | S fuel =>
      match resting_order with
      | None => mret remaining_qty
      | Some _ =>
          if remaining_qty >? 0 then
            o ← load resting_order;
            let trade_qty := Z.min (o_quantity o) remaining_qty in
            let remaining_qty := u32 (remaining_qty - trade_qty) in
            store resting_order (fun o => set_o_quantity (o_quantity o - trade_qty) o);;
            level_store level (fun l => set_total_quantity (total_quantity l - trade_qty) l);;
            o ← load resting_order;
            if o_quantity o =? 0 then
              let next_order := o_next o in
              unlink level resting_order;;
              o ← load resting_order;
              map_set (o_id o) None;;
              deallocate resting_order;;
              fill_level fuel level next_order remaining_qty
            else fill_level fuel level resting_order remaining_qty
          else mret remaining_qty
      end
  end.

(** The outer loop: one best level of the opposite side after another. *)
Fixpoint match_loop (fuel : nat) (price : Z) is_buy (remaining_qty : Z) : M Z :=
  match fuel with
  | O => loop_out
  | S fuel' =>
      if remaining_qty >? 0 then
        b ← get_state;
        let is_match := if is_buy then price >=? _best_ask b else price <=? _best_bid b in
        if negb is_match then mret remaining_qty else
        let match_price := if is_buy then _best_ask b else _best_bid b in
        level ← level_at (negb is_buy) match_price;
        lv ← level_load level;
        remaining_qty ← fill_level fuel level (head lv) remaining_qty;
        lv ← level_load level;
        (if total_quantity lv =? 0 then
           bits_clear (negb is_buy) match_price;; refresh_best
         else mret tt);;
        match_loop fuel' price is_buy remaining_qty
      else mret remaining_qty
  end.

Definition match_order (fuel : nat) (price qty : Z) is_buy : M Z :=
  match_loop fuel price is_buy qty.

(** *** add_order *)
Definition add_order (fuel : nat) (id price qty : Z) is_buy : M unit :=
  remaining_qty ← match_order fuel price qty is_buy;
  if remaining_qty =? 0 then mret tt else
  order ← allocate;
  match order with
  | None => mret tt
  | Some _ =>
      store order (set_o_id id);;
      store order (set_o_price price);;
      store order (set_o_quantity remaining_qty);;
      store order (set_o_is_buy is_buy);;
      map_set id order;;
      level ← level_at is_buy price;
      lv ← level_load level;
      (if total_quantity lv =? 0 then bits_set is_buy price else mret tt);;
      level_store level (fun l => set_total_quantity (total_quantity l + remaining_qty) l);;
      lv ← level_load level;
      (match head lv with
       | None => level_store level (fun l => set_head order (set_tail order l))
       | Some _ =>
           store order (set_o_prev (tail lv));;
           store (tail lv) (set_o_next order);;
           level_store level (set_tail order)
       end);;
      b ← get_state;
      if is_buy then
        if price >? _best_bid b then put_state (set_side_best true price b) else mret tt
      else
        if price <? _best_ask b then put_state (set_side_best false price b) else mret tt
  end.

(** *** cancel_order *)
Definition cancel_order (id : Z) : M unit :=
  order ← map_get id;
  match order with
  | None => mret tt
  | Some _ =>
      o ← load order;
      level ← level_at (o_is_buy o) (o_price o);
      level_store level (fun l => set_total_quantity (total_quantity l - o_quantity o) l);;
      unlink level order;;
      lv ← level_load level;
      (if total_quantity lv =? 0 then
         o ← load order;
         bits_clear (o_is_buy o) (o_price o);; refresh_best
       else mret tt);;
      map_set id None;;
      deallocate order
  end.

(** *** modify_order *)
Definition modify_order (fuel : nat) (id new_price new_qty : Z) : M unit :=
  order ← map_get id;
  match order with
  | None => mret tt
  | Some _ =>
      o ← load order;
      if negb (new_price =? o_price o) || (new_qty >? o_quantity o) then
        let is_buy := o_is_buy o in
        cancel_order id;;
        add_order fuel id new_price new_qty is_buy
      else
        let qty_reduction := u32 (o_quantity o - new_qty) in
        if new_qty =? 0 then cancel_order id
        else
          store order (set_o_quantity new_qty);;
          o ← load order;
          level ← level_at (o_is_buy o) (o_price o);
          level_store level (fun l => set_total_quantity (total_quantity l - qty_reduction) l)
  end.
End OrderBook.
