(* ===== verification/BookSpec.v ===== *)
(** * What the order book promises: price-time priority

    The specification of OrderBook.h without pointers, bitmaps or caches.  A
    side of the book is the list of its resting orders in priority order:
    better prices first, and first come first served at one price.  An
    incoming order sweeps the front of the opposite side as long as its limit
    crosses; what is left rests behind the orders of its own price. *)

From S2P Require Import Prelude.

Record resting := mkResting { r_id : Z; r_price : Z; r_qty : Z }.

#[export] Instance resting_eq_dec : EqDecision resting.
Proof. solve_decision. Defined.

(** Bids are better the higher, asks the lower. *)
Definition beats (is_buy : bool) (p q : Z) : bool := if is_buy then q <? p else p <? q.

(** The limit of an incoming order on side [is_buy] accepts price [p]. *)
Definition crosses (is_buy : bool) (limit p : Z) : bool :=
  if is_buy then p <=? limit else limit <=? p.

Definition reduce (r : resting) (t : Z) : resting := mkResting (r_id r) (r_price r) (r_qty r - t).

(** Fill [q] against the opposite side, front first: the quantity left, and
    the side left. *)
Fixpoint sweep (is_buy : bool) (limit q : Z) (l : list resting) : Z * list resting :=
  match l with
  | [] => (q, [])
  | r :: l' =>
      if (0 <? q) && crosses is_buy limit (r_price r) then
        if r_qty r <=? q then sweep is_buy limit (q - r_qty r) l'
        else (0, reduce r q :: l')
      else (q, l)
  end.

(** Rest behind every order of the same or a better price. *)
Fixpoint enqueue (is_buy : bool) (r : resting) (l : list resting) : list resting :=
  match l with
  | [] => [r]
  | x :: l' => if beats is_buy (r_price r) (r_price x) then r :: l else x :: enqueue is_buy r l'
  end.

Record abook := mkABook { a_bids : list resting; a_asks : list resting }.

Definition a_side (is_buy : bool) (a : abook) : list resting := if is_buy then a_bids a else a_asks a.
Definition set_a_side (is_buy : bool) (l : list resting) (a : abook) : abook :=
  mkABook (if is_buy then l else a_bids a) (if is_buy then a_asks a else l).

Definition a_empty : abook := mkABook [] [].
Definition a_count (a : abook) : Z := Z.of_nat (length (a_bids a) + length (a_asks a)).

Definition spec_match (price qty : Z) (is_buy : bool) (a : abook) : Z * abook :=
  let '(rem, l) := sweep is_buy price qty (a_side (negb is_buy) a) in
  (rem, set_a_side (negb is_buy) l a).

(** [capacity] bounds the number of resting orders; what does not fit is dropped. *)
Definition spec_add (capacity id price qty : Z) (is_buy : bool) (a : abook) : abook :=
  let '(rem, a) := spec_match price qty is_buy a in
  if rem =? 0 then a
  else if a_count a <? capacity then
    set_a_side is_buy (enqueue is_buy (mkResting id price rem) (a_side is_buy a)) a
  else a.

Definition remove_id (id : Z) (l : list resting) : list resting :=
  filter (fun r => r_id r <> id) l.

Definition spec_cancel (id : Z) (a : abook) : abook :=
  mkABook (remove_id id (a_bids a)) (remove_id id (a_asks a)).

Definition find_id (id : Z) (l : list resting) : option resting :=
  List.find (fun r => r_id r =? id) l.

Definition spec_find (id : Z) (a : abook) : option (bool * resting) :=
  match find_id id (a_bids a) with
  | Some r => Some (true, r)
  | None => match find_id id (a_asks a) with Some r => Some (false, r) | None => None end
  end.

(** Change the quantity of an order where it stands in the queue. *)
Definition requantify (id qty : Z) (l : list resting) : list resting :=
  map (fun r => if r_id r =? id then mkResting id (r_price r) qty else r) l.

Definition spec_modify (capacity id new_price new_qty : Z) (a : abook) : abook :=
  match spec_find id a with
  | None => a
  | Some (is_buy, r) =>
      if negb (new_price =? r_price r) || (r_qty r <? new_qty) then
        spec_add capacity id new_price new_qty is_buy (spec_cancel id a)
      else if new_qty =? 0 then spec_cancel id a
      else set_a_side is_buy (requantify id new_qty (a_side is_buy a)) a
  end.

(** The best price of a side. *)
Definition a_best (is_buy : bool) (a : abook) : option Z :=
  r_price <$> List.hd_error (a_side is_buy a).

(** ** Well-formed sides *)

(** Priority order: no order is behind a strictly worse one. *)
Definition no_worse (is_buy : bool) (p q : Z) : Prop := beats is_buy q p = false.

Definition ordered (is_buy : bool) (l : list resting) : Prop :=
  StronglySorted (fun r1 r2 => no_worse is_buy (r_price r1) (r_price r2)) l.

Definition uncrossed (a : abook) : Prop :=
  forall r1 r2, r1 ∈ a_bids a -> r2 ∈ a_asks a -> r_price r1 < r_price r2.

Definition total_qty (l : list resting) : Z := foldr (fun r n => r_qty r + n) 0 l.

Definition positive_qty (l : list resting) : Prop := Forall (fun r => 0 < r_qty r) l.
