(* ===== verification/BookInv.v ===== *)
(** * The representation invariant of the order book

    [Inv b G] relates a concrete book [b] to a ghost state [G]: for each side,
    its resting orders in priority order, each with the pool slot it lives in.
    Everything [b] stores redundantly (queue links, level totals, the id
    table, the bitmaps, the cached best prices, the free list) is determined
    by [G]. *)

From S2P Require Import Prelude.
From S2P Require Import PriceIndex.
From S2P Require Import OrderBook.
From S2P Require Import BookSpec.

(** ** Queues in the pool *)

(** The pointer to the first (last) element of a queue, or a default. *)
Definition first_or (xs : list Z) (nx : ptr) : ptr := match xs with [] => nx | x :: _ => Some x end.
Fixpoint last_or (xs : list Z) (pv : ptr) : ptr :=
  match xs with [] => pv | x :: xs => last_or xs (Some x) end.

(** [xs] are linked in order, between [pv] and [nx]. *)
Fixpoint dseg (h : vec Order) (pv : ptr) (xs : list Z) (nx : ptr) : Prop :=
  match xs with
  | [] => True
  | x :: xs =>
      (exists o, vget h x = Some o /\ o_prev o = pv /\ o_next o = first_or xs nx) /\
      dseg h (Some x) xs nx
  end.

(** ** Ghost state *)

Abbreviation entry := (Z * resting)%type.
Definition ghost : Type := bool -> list entry.

Definition ghost_set (s : bool) (g : list entry) (G : ghost) : ghost :=
  fun s' => if decide (s' = s) then g else G s'.

(** The specification state that a ghost state stands for. *)
Definition erase (G : ghost) : abook := mkABook (G true).*2 (G false).*2.

Definition at_price (p : Z) (g : list entry) : list entry := filter (fun e => r_price e.2 = p) g.

Definition prices (g : list entry) : list Z := (fun e => r_price e.2) <$> g.

(** The order in slot [e.1] is the resting order [e.2] of side [s]. *)
Definition order_at (h : vec Order) (s : bool) (e : entry) : Prop :=
  exists o, vget h e.1 = Some o /\ o_id o = r_id e.2 /\ o_price o = r_price e.2 /\
    o_quantity o = r_qty e.2 /\ o_is_buy o = s.

Definition level_ok (h : vec Order) (lv : PriceLevel) (g : list entry) : Prop :=
  head lv = first_or g.*1 None /\ tail lv = last_or g.*1 None /\
  total_quantity lv = total_qty g.*2 /\ dseg h None g.*1 None.

(** The cached best price of a side, with its sentinel on an empty side. *)
Definition sentinel (s : bool) : Z := if s then 0 else UINT32_MAX.
Definition best_of (s : bool) (g : list entry) : Z :=
  match g with [] => sentinel s | e :: _ => r_price e.2 end.

Section Inv.
Context {Bits : Type} `{PriceIndex Bits} (ticks orders : Z) `{!PriceIndexLaws Bits ticks}.
Implicit Types (b : OrderBook Bits) (G : ghost) (s : bool).

Definition heap b : vec Order := _pool (book_pool b).
Definition free b : list Z := _free_list (book_pool b).

Definition valid_resting (r : resting) : Prop :=
  0 <= r_price r < ticks /\ 0 < r_qty r < 2 ^ 31 /\ 0 <= r_id r < orders.

(** The orders, their queues, the free list and the id table. *)
Record Core b G : Prop := {
  core_heap_size : vsize (heap b) = orders;
  core_level_size : forall s, vsize (side_levels s b) = ticks;
  core_map_size : vsize (_order_map b) = orders;
  core_order : forall s e, e ∈ G s -> order_at (heap b) s e /\ valid_resting e.2;
  core_sorted : forall s, ordered s (G s).*2;
  core_level : forall s p, 0 <= p < ticks ->
    exists lv, vget (side_levels s b) p = Some lv /\ level_ok (heap b) lv (at_price p (G s));
  core_slots : free b ++ (G true).*1 ++ (G false).*1 ≡ₚ seqZ 0 orders;
  core_free : forall x, x ∈ free b ->
    exists o, vget (heap b) x = Some o /\ o_prev o = None /\ o_next o = None;
  core_map : forall id x, vget (_order_map b) id = Some (Some x) ->
    exists s r, (x, r) ∈ G s /\ r_id r = id;
}.

(** The bitmaps and the cached best prices. *)
Definition IndexSide b G s : Prop :=
  (exists S, represents (side_bits s b) S /\ forall p, p ∈ S <-> p ∈ prices (G s)) /\
  side_best s b = best_of s (G s).

Record Inv b G : Prop := {
  inv_core : Core b G;
  inv_index : forall s, IndexSide b G s;
}.

(** Every resting order is reachable by its id (so ids are unique). *)
Definition Indexed b G : Prop :=
  forall s x r, (x, r) ∈ G s -> vget (_order_map b) (r_id r) = Some (Some x).
End Inv.
Arguments heap {Bits} b.
Arguments free {Bits} b.

(** ** Lists of orders *)

Lemma first_or_app xs ys nx : first_or (xs ++ ys) nx = first_or xs (first_or ys nx).
Proof. by destruct xs. Qed.

Lemma last_or_app xs ys pv : last_or (xs ++ ys) pv = last_or ys (last_or xs pv).
Proof. revert pv. induction xs as [|x xs IH]; intros pv; simpl; [done|apply IH]. Qed.

Lemma dseg_app h pv xs ys nx :
  dseg h pv (xs ++ ys) nx <-> dseg h pv xs (first_or ys nx) /\ dseg h (last_or xs pv) ys nx.
Proof.
  revert pv. induction xs as [|x xs IH]; intros pv; simpl; [naive_solver|].
  rewrite IH, first_or_app. naive_solver.
Qed.

(** The links of a queue are all that [dseg] depends on. *)
Definition same_links (h h' : vec Order) (x : Z) : Prop :=
  forall o, vget h x = Some o -> exists o', vget h' x = Some o' /\
    o_prev o' = o_prev o /\ o_next o' = o_next o.

Lemma dseg_same_links h h' pv xs nx :
  (forall x, x ∈ xs -> same_links h h' x) -> dseg h pv xs nx -> dseg h' pv xs nx.
Proof.
  revert pv. induction xs as [|x xs IH]; intros pv Hl; simpl; [done|].
  intros [(o & Ho & Hp & Hn) Hd]. split.
  - destruct (Hl x ltac:(set_solver) o Ho) as (o' & Ho' & Hp' & Hn').
    exists o'. split; [done|]. by rewrite Hp', Hn'.
  - apply IH; [|done]. intros y Hy. apply Hl. set_solver.
Qed.

Lemma total_qty_app l1 l2 : total_qty (l1 ++ l2) = total_qty l1 + total_qty l2.
Proof. induction l1 as [|r l1 IH]; simpl; [done|lia]. Qed.

Lemma total_qty_nonneg l : positive_qty l -> 0 <= total_qty l.
Proof. induction 1; simpl; lia. Qed.

Lemma total_qty_zero l : positive_qty l -> total_qty l = 0 <-> l = [].
Proof.
  intros Hl. split; [|by intros ->]. destruct Hl as [|r l Hr Hl]; simpl; [done|].
  pose proof (total_qty_nonneg l Hl). lia.
Qed.

Lemma total_qty_bound l q : Forall (fun r => r_qty r <= q) l -> total_qty l <= q * Z.of_nat (length l).
Proof. induction 1; simpl; lia. Qed.

Section lists.
Implicit Types (g : list entry) (e : entry) (s : bool) (p : Z).

Lemma elem_at_price p g e : e ∈ at_price p g <-> r_price e.2 = p /\ e ∈ g.
Proof. unfold at_price. by rewrite list_elem_of_filter. Qed.

Lemma at_price_app p g1 g2 : at_price p (g1 ++ g2) = at_price p g1 ++ at_price p g2.
Proof. unfold at_price. by rewrite filter_app. Qed.

Lemma at_price_cons p e g :
  at_price p (e :: g) = if decide (r_price e.2 = p) then e :: at_price p g else at_price p g.
Proof. unfold at_price. by rewrite filter_cons. Qed.

Lemma at_price_none p g : (forall e, e ∈ g -> r_price e.2 <> p) -> at_price p g = [].
Proof.
  intros Hg. destruct (at_price p g) as [|e g'] eqn:E; [done|].
  assert (e ∈ at_price p g) as He by (rewrite E; set_solver).
  apply elem_at_price in He as [Hp He]. by destruct (Hg e).
Qed.

Lemma at_price_all p g : (forall e, e ∈ g -> r_price e.2 = p) -> at_price p g = g.
Proof.
  induction g as [|e g IH]; intros Hg; [done|]. rewrite at_price_cons, decide_True by (apply Hg; set_solver).
  rewrite IH; [done|]. intros e' He'. apply Hg. set_solver.
Qed.

Lemma elem_prices p g : p ∈ prices g <-> exists e, e ∈ g /\ r_price e.2 = p.
Proof. unfold prices. rewrite list_elem_of_fmap. naive_solver. Qed.

Lemma elem_fst x g : x ∈ g.*1 <-> exists r, (x, r) ∈ g.
Proof.
  rewrite list_elem_of_fmap. split.
  - intros ([y r] & -> & Hin). by exists r.
  - intros (r & Hin). by exists (x, r).
Qed.

Lemma sub_at_price_fst x p g : x ∈ (at_price p g).*1 -> x ∈ g.*1.
Proof. rewrite !elem_fst. intros (r & Hin). apply elem_at_price in Hin as [_ Hin]. eauto. Qed.

Lemma NoDup_at_price p g : NoDup g.*1 -> NoDup (at_price p g).*1.
Proof.
  induction g as [|e g IH]; [done|]. simpl. intros [Hn Hd]%NoDup_cons.
  rewrite at_price_cons. case_decide; [|by apply IH]. simpl. apply NoDup_cons.
  split; [|by apply IH]. intros Hin. by apply Hn, (sub_at_price_fst _ p).
Qed.

Lemma ghost_set_eq s g (G : ghost) : ghost_set s g G s = g.
Proof. unfold ghost_set. by rewrite decide_True. Qed.

Lemma ghost_set_ne s s' g (G : ghost) : s' <> s -> ghost_set s g G s' = G s'.
Proof. intros Hs. unfold ghost_set. by rewrite decide_False. Qed.
End lists.
