(* ===== verification/BookRules.v ===== *)
(** * Rules for the statements of OrderBook.h

    What each primitive statement of the book (reading and writing an order,
    a price level, the id table, the bitmaps) does to the state, and the
    pointer surgery [unlink] in terms of queues. *)

From S2P Require Import Prelude.
From S2P Require Import PriceIndex.
From S2P Require Import OrderBook.
From S2P Require Import BookSpec.
From S2P Require Import BookInv.

Section rules.
Context {Bits : Type} `{PriceIndex Bits}.
Implicit Types (b : OrderBook Bits) (s : bool) (o : Order) (lv : PriceLevel).

(** ** Observations of an updated book *)

Lemma heap_set_pool p b : heap (set_pool p b) = _pool p.
Proof. done. Qed.
Lemma free_set_pool p b : free (set_pool p b) = _free_list p.
Proof. done. Qed.

Lemma side_levels_set s s' v b :
  side_levels s' (set_side_levels s v b) = if decide (s' = s) then v else side_levels s' b.
Proof. by destruct s, s'. Qed.

Lemma side_bits_set s s' t b :
  side_bits s' (set_side_bits s t b) = if decide (s' = s) then t else side_bits s' b.
Proof. by destruct s, s'. Qed.

Lemma side_best_set s s' p b :
  side_best s' (set_side_best s p b) = if decide (s' = s) then p else side_best s' b.
Proof. by destruct s, s'. Qed.

(** The members other than the pool (levels; table; bitmaps and caches) are
    unchanged. *)
Definition same_levels b b' : Prop := forall s, side_levels s b' = side_levels s b.
Definition same_index b b' : Prop :=
  (forall s, side_bits s b' = side_bits s b) /\ (forall s, side_best s b' = side_best s b).

(** One price level differs. *)
Definition level_update s p lv b b' : Prop :=
  (forall s', vsize (side_levels s' b') = vsize (side_levels s' b)) /\
  forall s' p', vget (side_levels s' b') p' =
    if decide (s' = s /\ p' = p) then Some lv else vget (side_levels s' b) p'.

(** ** Statements *)

Lemma wp_load x o b Phi :
  vget (heap b) x = Some o -> Phi o b -> wp (load (Some x)) b Phi.
Proof.
  intros Ho HP. apply wp_bind, wp_get, (wp_lift _ o); [|done].
  simpl. by apply vread_Ok.
Qed.

Lemma wp_store x o f b Phi :
  vget (heap b) x = Some o ->
  Phi tt (set_pool (mkOrderPool (vset (heap b) x (f o)) (free b)) b) ->
  wp (store (Some x) f) b Phi.
Proof.
  intros Ho HP. apply wp_bind, wp_get, wp_bind. eapply wp_lift; [|by apply wp_put].
  simpl. unfold heap in Ho. by rewrite (vread_Ok _ _ _ Ho).
Qed.

Lemma wp_deallocate x o b Phi :
  vget (heap b) x = Some o ->
  (forall h', vsize h' = vsize (heap b) ->
    vget h' x = Some (set_o_next None (set_o_prev None o)) ->
    (forall y, y <> x -> vget h' y = vget (heap b) y) ->
    Phi tt (set_pool (mkOrderPool h' (x :: free b)) b)) ->
  wp (deallocate (Some x)) b Phi.
Proof.
  intros Ho HP. pose proof (vget_Some_range _ _ _ Ho) as Hx.
  apply wp_bind, wp_get, wp_bind. eapply wp_lift.
  - unfold OrderPool_deallocate. simpl. unfold heap in *. rewrite (vread_Ok _ _ _ Ho). simpl.
    by rewrite vread_set_eq.
  - apply wp_put, HP.
    + simpl. by rewrite !vsize_set.
    + simpl. by rewrite vget_set_eq by (rewrite vsize_set; done).
    + intros y Hy. simpl. by rewrite !vget_set_ne by congruence.
Qed.

Lemma wp_map_get id v b Phi :
  vget (_order_map b) id = Some v -> Phi v b -> wp (map_get id) b Phi.
Proof. intros Hv HP. by apply wp_bind, wp_get, (wp_lift _ v); [apply vread_Ok|]. Qed.

Lemma wp_map_set id v b Phi :
  0 <= id < vsize (_order_map b) ->
  Phi tt (set_order_map (vset (_order_map b) id v) b) ->
  wp (map_set id v) b Phi.
Proof.
  intros Hid HP. apply wp_bind, wp_get, wp_bind.
  eapply wp_lift; [by apply vwrite_Ok|by apply wp_put].
Qed.

Lemma wp_level_at s p lv b Phi :
  vget (side_levels s b) p = Some lv -> Phi (s, p) b -> wp (level_at s p) b Phi.
Proof.
  intros Hl HP. apply wp_bind, wp_get, wp_bind.
  eapply wp_lift; [by apply vread_Ok|by apply wp_ret].
Qed.

Lemma wp_level_load s p lv b Phi :
  vget (side_levels s b) p = Some lv -> Phi lv b -> wp (level_load (s, p)) b Phi.
Proof. intros Hl HP. by apply wp_bind, wp_get, (wp_lift _ lv); [apply vread_Ok|]. Qed.

(** Writing a level leaves everything else alone. *)
Definition others_same b b' : Prop :=
  heap b' = heap b /\ free b' = free b /\ _order_map b' = _order_map b /\ same_index b b'.

Lemma wp_level_store s p lv f b Phi :
  vget (side_levels s b) p = Some lv ->
  (forall b', level_update s p (f lv) b b' -> others_same b b' -> Phi tt b') ->
  wp (level_store (s, p) f) b Phi.
Proof.
  intros Hl HP. pose proof (vget_Some_range _ _ _ Hl) as Hp.
  apply wp_bind, wp_get, wp_bind. eapply wp_lift; [by apply vread_Ok|].
  apply wp_put, HP; [|by repeat split; intros []].
  split.
  - intros s'. rewrite side_levels_set. case_decide; [subst; by rewrite vsize_set|done].
  - intros s' p'. rewrite side_levels_set. simpl. case_decide as Hs.
    + subst. rewrite vget_set by done. repeat case_decide; naive_solver.
    + rewrite (decide_False (P := s' = s /\ _)) by naive_solver. done.
Qed.

(** ** Queues under single writes *)

Implicit Types (h : vec Order) (xs : list Z) (x q : Z).

Lemma dseg_vset_other h q o pv xs nx :
  q ∉ xs -> dseg h pv xs nx -> dseg (vset h q o) pv xs nx.
Proof.
  intros Hq. apply dseg_same_links. intros y Hy o' Ho'. exists o'.
  rewrite vget_set_ne; [done|]. by intros ->.
Qed.

Lemma dseg_set_next h q o pv xs nx nx' :
  vget h q = Some o -> NoDup (xs ++ [q]) -> dseg h pv (xs ++ [q]) nx ->
  dseg (vset h q (set_o_next nx' o)) pv (xs ++ [q]) nx'.
Proof.
  intros Ho Hnd. rewrite !dseg_app. intros [Hd ((o' & Ho' & Hp & _) & _)]. simplify_eq.
  apply NoDup_app in Hnd as (_ & Hnd & _). split.
  - apply dseg_vset_other; [|done]. intros Hin. apply (Hnd _ Hin). set_solver.
  - split; [|done]. eexists. split; [apply vget_set_eq; by eapply vget_Some_range|done].
Qed.

Lemma dseg_set_prev h q o pv pv' xs nx :
  vget h q = Some o -> NoDup (q :: xs) -> dseg h pv (q :: xs) nx ->
  dseg (vset h q (set_o_prev pv' o)) pv' (q :: xs) nx.
Proof.
  intros Ho [Hnd _]%NoDup_cons [(o' & Ho' & _ & Hn) Hd]. simplify_eq. split.
  - eexists. split; [apply vget_set_eq; by eapply vget_Some_range|done].
  - by apply dseg_vset_other.
Qed.

(** ** Unlinking *)

(** The two orders differ at most in their links. *)
Definition same_data o o' : Prop :=
  o_id o' = o_id o /\ o_price o' = o_price o /\ o_quantity o' = o_quantity o /\ o_is_buy o' = o_is_buy o.

(** [b'] is [b] with level [(s, p)] replaced by [lv'] and links rewritten
    inside the orders of [ws]. *)
Record surgery s p lv' (ws : list Z) b b' : Prop := {
  sg_free : free b' = free b;
  sg_map : _order_map b' = _order_map b;
  sg_index : same_index b b';
  sg_level : level_update s p lv' b b';
  sg_size : vsize (heap b') = vsize (heap b);
  sg_heap : forall y o, vget (heap b) y = Some o ->
    exists o', vget (heap b') y = Some o' /\ same_data o o' /\ (y ∉ ws -> o' = o);
}.

Lemma level_update_trans s p lv1 lv2 b b' b'' :
  level_update s p lv1 b b' -> level_update s p lv2 b' b'' -> level_update s p lv2 b b''.
Proof.
  intros [Hs1 Hl1] [Hs2 Hl2]. split; [intros s'; by rewrite Hs2|]. intros s' p'.
  rewrite Hl2, Hl1. by case_decide.
Qed.

Lemma level_update_id s p lv b : vget (side_levels s b) p = Some lv -> level_update s p lv b b.
Proof. intros Hl. split; [done|]. intros s' p'. case_decide; naive_solver. Qed.

Lemma level_update_get s p lv b b' : level_update s p lv b b' -> vget (side_levels s b') p = Some lv.
Proof. intros [_ Hl]. by rewrite Hl, decide_True. Qed.

Lemma surgery_trans s p lv1 lv2 ws b b' b'' :
  surgery s p lv1 ws b b' -> surgery s p lv2 ws b' b'' -> surgery s p lv2 ws b b''.
Proof.
  intros [F1 M1 [I1 J1] L1 S1 H1] [F2 M2 [I2 J2] L2 S2 H2]. split; try congruence.
  - split; intros s'; congruence.
  - by eapply level_update_trans.
  - intros y o Ho. destruct (H1 y o Ho) as (o1 & Ho1 & (?&?&?&?) & Hw1).
    destruct (H2 y o1 Ho1) as (o2 & Ho2 & (?&?&?&?) & Hw2). exists o2. split; [done|].
    split; [repeat split; congruence|]. intros Hy. by rewrite Hw2, Hw1.
Qed.

(** Writing links of one order, or the ends of the level. *)
Lemma surgery_store s p lv ws b q o f :
  vget (side_levels s b) p = Some lv -> vget (heap b) q = Some o -> q ∈ ws -> same_data o (f o) ->
  surgery s p lv ws b (set_pool (mkOrderPool (vset (heap b) q (f o)) (free b)) b).
Proof.
  intros Hl Ho Hq Hf. pose proof (vget_Some_range _ _ _ Ho). split; try done.
  - exact (level_update_id _ _ _ _ Hl).
  - rewrite heap_set_pool. apply vsize_set.
  - intros y o' Ho'. rewrite heap_set_pool. simpl. rewrite vget_set by done.
    case_decide; subst; simplify_eq; eexists; (split; [done|]); split; try done.
Qed.

Lemma surgery_level s p lv ws b b' :
  level_update s p lv b b' -> others_same b b' -> surgery s p lv ws b b'.
Proof.
  intros Hl (Hh & Hf & Hm & Hi). split; try done; [by rewrite Hh|].
  intros y o Ho. rewrite Hh. by exists o.
Qed.

Section unlink.
Context (s : bool) (p : Z) (l1 : list Z) (x : Z) (l2 : list Z).
Hypothesis nodup : NoDup (l1 ++ x :: l2).

(** Past the first [if]: the predecessor side skips [x]. *)
Lemma wp_unlink_left lv b Phi :
  vget (side_levels s b) p = Some lv -> head lv = first_or (l1 ++ x :: l2) None ->
  dseg (heap b) None (l1 ++ x :: l2) None ->
  (forall b' lv', surgery s p lv' (l1 ++ l2) b b' ->
    head lv' = first_or (l1 ++ l2) None -> tail lv' = tail lv -> total_quantity lv' = total_quantity lv ->
    dseg (heap b') None l1 (first_or l2 None) -> dseg (heap b') (last_or l1 None) [x] (first_or l2 None) ->
    dseg (heap b') (Some x) l2 None -> Phi tt b') ->
  wp (o ← load (Some x);
      match o_prev o with
      | Some _ => store (o_prev o) (set_o_next (o_next o))
      | None => level_store (s, p) (set_head (o_next o))
      end) b Phi.
Proof.
  intros Hl Hhd Hd HP. pose proof Hd as Hd'. apply dseg_app in Hd' as [Hd1 [(o & Ho & Hp & Hn) Hd2]].
  apply wp_bind. eapply wp_load; [done|]. rewrite Hp, Hn.
  destruct l1 as [|q l1' _] using rev_ind; simpl in *.
  - eapply wp_level_store; [done|]. intros b' Hlu Hos.
    pose proof Hos as (Hh & _). eapply HP; rewrite ?Hh; simpl; eauto using surgery_level.
  - rewrite last_or_app in *. simpl in *. rewrite dseg_app in Hd1.
    destruct Hd1 as [Hd1 [(oq & Hoq & Hpq & Hnq) _]].
    apply NoDup_app in nodup as (Hnd1 & Hnd2 & Hnd3).
    assert (q ∉ x :: l2) as Hq by (apply Hnd2; set_solver).
    eapply wp_store; [done|]. eapply HP; try done.
    + eapply surgery_store; [done|done|set_solver|done].
    + rewrite Hhd. by rewrite <- !(assoc_L (++)), !first_or_app.
    + rewrite heap_set_pool. simpl. eapply dseg_set_next; [done..|].
      rewrite dseg_app. split; [done|]. split; [by exists oq|done].
    + rewrite heap_set_pool. simpl. split; [|done]. exists o.
      rewrite vget_set_ne by set_solver. done.
    + rewrite heap_set_pool. apply dseg_vset_other; [set_solver|done].
Qed.

(** Past the second [if]: the queue is [l1 ++ l2]. *)
Lemma wp_unlink_right lv b Phi :
  vget (side_levels s b) p = Some lv -> tail lv = last_or (l1 ++ x :: l2) None ->
  dseg (heap b) None l1 (first_or l2 None) -> dseg (heap b) (last_or l1 None) [x] (first_or l2 None) ->
  dseg (heap b) (Some x) l2 None ->
  (forall b' lv', surgery s p lv' (l1 ++ l2) b b' ->
    tail lv' = last_or (l1 ++ l2) None -> head lv' = head lv -> total_quantity lv' = total_quantity lv ->
    dseg (heap b') None (l1 ++ l2) None -> Phi tt b') ->
  wp (o ← load (Some x);
      match o_next o with
      | Some _ => store (o_next o) (set_o_prev (o_prev o))
      | None => level_store (s, p) (set_tail (o_prev o))
      end) b Phi.
Proof.
  intros Hl Htl Hd1 [(o & Ho & Hp & Hn) _] Hd2 HP.
  apply wp_bind. eapply wp_load; [done|]. rewrite Hp, Hn.
  apply NoDup_app in nodup as (Hnd1 & Hnd2 & [Hnd3 Hnd4]%NoDup_cons).
  destruct l2 as [|q l2']; simpl in *.
  - eapply wp_level_store; [done|]. intros b' Hlu Hos. pose proof Hos as (Hh & _).
    eapply HP; rewrite ?app_nil_r, ?Hh; simpl; eauto using surgery_level.
  - destruct Hd2 as [(oq & Hoq & Hpq & Hnq) Hd2].
    eapply wp_store; [done|]. eapply HP; try done.
    + eapply surgery_store; [done|done|set_solver|done].
    + rewrite Htl. by rewrite !last_or_app.
    + rewrite heap_set_pool. simpl _pool. apply dseg_app. split.
      * apply dseg_vset_other; [|done]. intros Hin. apply (Hnd2 _ Hin). set_solver.
      * eapply dseg_set_prev; [done..|]. split; [by exists oq|done].
Qed.

Lemma wp_unlink lv b Phi :
  vget (side_levels s b) p = Some lv ->
  head lv = first_or (l1 ++ x :: l2) None -> tail lv = last_or (l1 ++ x :: l2) None ->
  dseg (heap b) None (l1 ++ x :: l2) None ->
  (forall b' lv', surgery s p lv' (l1 ++ l2) b b' ->
    head lv' = first_or (l1 ++ l2) None -> tail lv' = last_or (l1 ++ l2) None ->
    total_quantity lv' = total_quantity lv -> dseg (heap b') None (l1 ++ l2) None -> Phi tt b') ->
  wp (unlink (s, p) (Some x)) b Phi.
Proof.
  intros Hl Hhd Htl Hd HP.
  unfold unlink. apply wp_assoc, wp_bind. eapply wp_unlink_left; [done..|].
  intros b1 lv1 Hs1 Hh1 Ht1 Htot1 Hd1 Hx1 Hd2.
  eapply (wp_unlink_right lv1); [by eapply level_update_get, Hs1|congruence|done..|].
  intros b2 lv2 Hs2 Ht2 Hh2 Htot2 Hd3.
  eapply HP; [by eapply surgery_trans|congruence..|done].
Qed.
End unlink.

(** ** Appending *)

Lemma wp_append s p lv b xs x o Phi :
  vget (side_levels s b) p = Some lv ->
  head lv = first_or xs None -> tail lv = last_or xs None -> dseg (heap b) None xs None ->
  NoDup (xs ++ [x]) -> vget (heap b) x = Some o -> o_prev o = None -> o_next o = None ->
  (forall b' lv', surgery s p lv' (x :: xs) b b' ->
    head lv' = first_or (xs ++ [x]) None -> tail lv' = last_or (xs ++ [x]) None ->
    total_quantity lv' = total_quantity lv -> dseg (heap b') None (xs ++ [x]) None -> Phi tt b') ->
  wp (match head lv with
      | None => level_store (s, p) (fun l => set_head (Some x) (set_tail (Some x) l))
      | Some _ =>
          store (Some x) (set_o_prev (tail lv));;
          store (tail lv) (set_o_next (Some x));;
          level_store (s, p) (set_tail (Some x))
      end) b Phi.
Proof.
  intros Hl Hh Ht Hd Hnd Ho Hp Hn HP. rewrite Hh, Ht.
  destruct xs as [|q xs' _] using rev_ind; simpl.
  - eapply wp_level_store; [done|]. intros b' Hlu Hos. pose proof Hos as (Hhp & _).
    apply (HP b' (set_head (Some x) (set_tail (Some x) lv))); try done; [by apply surgery_level|].
    simpl. split; [|done]. exists o. by rewrite Hhp.
  - rewrite last_or_app in *. simpl. rewrite dseg_app in Hd. destruct Hd as [Hd1 [(oq & Hoq & Hpq & Hnq) _]].
    simpl in Hd1, Hpq. apply NoDup_app in Hnd as (Hnd1 & Hnd2 & _).
    assert (x ∉ xs' ++ [q]) as Hx by (intros Hin; apply (Hnd2 x Hin); set_solver).
    assert (x <> q) as Hxq by set_solver.
    rewrite first_or_app. simpl. destruct (first_or xs' (Some q)) as [hd|] eqn:Ehd; [|by destruct xs'].
    pose proof (vget_Some_range _ _ _ Ho) as Hxr.
    apply wp_bind. eapply wp_store; [done|]. apply wp_bind. eapply (wp_store _ oq).
    { rewrite heap_set_pool. simpl. by rewrite vget_set_ne. }
    eapply wp_level_store; [exact Hl|]. intros b' Hlu (Hhp & Hf & Hm & Hi).
    rewrite !heap_set_pool in Hhp. simpl in Hhp.
    assert (forall y oy, vget (heap b) y = Some oy -> exists o', vget (heap b') y = Some o' /\
      same_data oy o' /\ (y ∉ x :: xs' ++ [q] -> o' = oy)) as Hkept.
    { intros y oy Hoy. rewrite Hhp. destruct (decide (y = q)) as [->|Hyq].
      - eexists. rewrite vget_set_eq by (rewrite vsize_set; by eapply vget_Some_range).
        simplify_eq. split; [done|]. split; [done|]. set_solver.
      - rewrite vget_set_ne by done. rewrite vget_set by done. case_decide; subst; simplify_eq;
          eexists; (split; [done|]); (split; [done|]); set_solver. }
    apply (HP b' (set_tail (Some x) lv)); try done.
    + split; try done. by rewrite Hhp, !vsize_set.
    + simpl. by rewrite Hh, !first_or_app.
    + rewrite Hhp. apply dseg_app. split.
      * simpl first_or.
        apply (dseg_set_next _ _ _ _ _ None); [by rewrite vget_set_ne|done|].
        apply dseg_vset_other; [done|]. apply dseg_app. split; [done|]. split; [by exists oq|done].
      * split; [|done]. eexists. rewrite vget_set_ne, vget_set_eq by done.
        split; [done|]. simpl. by rewrite last_or_app.
Qed.

(** Filling in a freshly allocated order. *)
Lemma wp_init_order {A} (k : prog (OrderBook Bits) A) x o id price qty is_buy b Phi :
  vget (heap b) x = Some o ->
  (forall h', vsize h' = vsize (heap b) ->
    vget h' x = Some (mkOrder id (o_prev o) (o_next o) price (u31 qty) is_buy) ->
    (forall y, y <> x -> vget h' y = vget (heap b) y) ->
    wp k (set_pool (mkOrderPool h' (free b)) b) Phi) ->
  wp (store (Some x) (set_o_id id);; store (Some x) (set_o_price price);;
      store (Some x) (set_o_quantity qty);; store (Some x) (set_o_is_buy is_buy);; k) b Phi.
Proof.
  intros Ho HP. pose proof (vget_Some_range _ _ _ Ho) as Hx.
  do 4 (apply wp_bind; eapply wp_store;
    [rewrite ?heap_set_pool; simpl; first [exact Ho|by apply vget_set_eq; rewrite ?vsize_set]|]).
  eapply HP; rewrite ?heap_set_pool; simpl.
  - by rewrite !vsize_set.
  - by rewrite vget_set_eq by (rewrite !vsize_set; done).
  - intros y Hy. by rewrite !vget_set_ne by congruence.
Qed.
End rules.
