(* ===== verification/BookCore.v ===== *)
(** * Preservation of the invariant by the elementary changes

    Removing an order, changing its quantity, adding an order: for each, what
    the statements of the code must have done to the members for the
    invariant to hold of the new ghost state; and the upkeep of the bitmaps
    and the cached best prices. *)

From S2P Require Import Prelude.
From S2P Require Import PriceIndex.
From S2P Require Import OrderBook.
From S2P Require Import BookSpec.
From S2P Require Import BookInv.
From S2P Require Import BookRules.

(** ** Sorted sides *)

Lemma beats_trans s p q r : beats s p q = true -> beats s q r = true -> beats s p r = true.
Proof. unfold beats. destruct s; rewrite !Z.ltb_lt; lia. Qed.

Lemma no_worse_refl s p : no_worse s p p.
Proof. unfold no_worse, beats. destruct s; rewrite Z.ltb_ge; lia. Qed.

Lemma no_worse_antisym s p q : no_worse s p q -> no_worse s q p -> p = q.
Proof. unfold no_worse, beats. destruct s; rewrite !Z.ltb_ge; lia. Qed.

Lemma no_worse_trans s p q r : no_worse s p q -> no_worse s q r -> no_worse s p r.
Proof. unfold no_worse, beats. destruct s; rewrite !Z.ltb_ge; lia. Qed.

Lemma beats_no_worse s p q : beats s p q = true -> no_worse s p q.
Proof. unfold no_worse, beats. destruct s; rewrite Z.ltb_lt, Z.ltb_ge; lia. Qed.

Lemma StronglySorted_app_inv {A} (R : A -> A -> Prop) l1 l2 :
  StronglySorted R (l1 ++ l2) ->
  StronglySorted R l1 /\ StronglySorted R l2 /\ forall x y, x ∈ l1 -> y ∈ l2 -> R x y.
Proof.
  induction l1 as [|a l1 IH]; simpl.
  - intros Hs. split; [constructor|]. split; [done|]. set_solver.
  - intros [Hs Hf]%StronglySorted_inv. destruct (IH Hs) as (H1 & H2 & H3).
    rewrite Forall_app, !Forall_forall in Hf. destruct Hf as [Hf1 Hf2].
    split; [constructor; [done|by apply Forall_forall]|]. split; [done|].
    intros x y [->|Hx]%elem_of_cons Hy; auto.
Qed.

Lemma StronglySorted_app_intro {A} (R : A -> A -> Prop) l1 l2 :
  StronglySorted R l1 -> StronglySorted R l2 -> (forall x y, x ∈ l1 -> y ∈ l2 -> R x y) ->
  StronglySorted R (l1 ++ l2).
Proof.
  induction l1 as [|a l1 IH]; simpl; intros H1 H2 H3; [done|].
  apply StronglySorted_inv in H1 as [Hs Hf]. constructor.
  - apply IH; try done. intros x y Hx. apply H3. set_solver.
  - apply Forall_app. split; [done|]. apply Forall_forall. intros y Hy. apply H3; set_solver.
Qed.

Lemma ordered_app_inv s l1 l2 :
  ordered s (l1 ++ l2) ->
  ordered s l1 /\ ordered s l2 /\ forall r1 r2, r1 ∈ l1 -> r2 ∈ l2 -> no_worse s (r_price r1) (r_price r2).
Proof. apply StronglySorted_app_inv. Qed.

Lemma ordered_remove s l1 r l2 : ordered s (l1 ++ r :: l2) -> ordered s (l1 ++ l2).
Proof.
  intros (H1 & H2 & H3)%ordered_app_inv. apply StronglySorted_inv in H2 as [H2 _].
  apply StronglySorted_app_intro; try done. intros r1 r2 Hr1 Hr2. apply H3; set_solver.
Qed.

(** Replacing an order by one of the same price. *)
Lemma ordered_replace s l1 r r' l2 :
  r_price r' = r_price r -> ordered s (l1 ++ r :: l2) -> ordered s (l1 ++ r' :: l2).
Proof.
  intros Hp (H1 & H2 & H3)%ordered_app_inv. apply StronglySorted_inv in H2 as [H2 H4].
  apply StronglySorted_app_intro; try done.
  - constructor; [done|]. by rewrite Hp.
  - intros r1 r2 Hr1 [->|Hr2]%elem_of_cons; [rewrite Hp|]; apply H3; set_solver.
Qed.

(** [ws] at the front of its price: everything behind has another price. *)
Lemma ordered_split_price s (g : list entry) e g' p :
  g = e :: g' -> r_price e.2 = p -> ordered s g.*2 ->
  exists rest, g = at_price p g ++ rest /\ (forall e', e' ∈ rest -> beats s p (r_price e'.2) = true).
Proof.
  intros -> Hp Ho. revert e Hp Ho. induction g' as [|e2 g' IH]; intros e Hp Ho.
  - exists []. rewrite at_price_cons, decide_True by done. split; [by simplify_list_eq|set_solver].
  - simpl in Ho. apply StronglySorted_inv in Ho as [Ho Hf].
    destruct (decide (r_price e2.2 = p)) as [Hp2|Hp2].
    + destruct (IH e2 Hp2 Ho) as (rest & Hg & Hr). exists rest. split; [|done].
      rewrite at_price_cons, decide_True by done. simpl. by rewrite <- Hg.
    + assert (forall e', e' ∈ e2 :: g' -> beats s p (r_price e'.2) = true) as Hb.
      { intros e' He'. assert (no_worse s p (r_price e2.2)) as Hn2.
        { rewrite <- Hp. rewrite Forall_forall in Hf. apply Hf. set_solver. }
        assert (no_worse s (r_price e2.2) (r_price e'.2)) as Hn.
        { apply elem_of_cons in He' as [->|He']; [apply no_worse_refl|].
          apply StronglySorted_inv in Ho as [_ Ho]. rewrite Forall_forall in Ho. apply Ho.
          apply list_elem_of_fmap. by exists e'. }
        destruct (beats s p (r_price e'.2)) eqn:E; [done|].
        destruct Hp2. apply (no_worse_antisym s); [|done].
        by apply (no_worse_trans s _ (r_price e'.2)). }
      exists (e2 :: g'). split; [|done]. rewrite at_price_cons, decide_True by done.
      rewrite at_price_none; [done|]. intros e' He' Hpe'. specialize (Hb e' He').
      rewrite Hpe' in Hb. pose proof (no_worse_refl s p) as Hr. unfold no_worse in Hr. congruence.
Qed.

Section core.
Context {Bits : Type} `{PriceIndex Bits} (ticks orders : Z) `{!PriceIndexLaws Bits ticks}.
Implicit Types (b : OrderBook Bits) (G : ghost) (s : bool) (p x : Z) (r : resting) (e : entry).

Abbreviation Core := (Core ticks orders).
Abbreviation Inv := (Inv ticks orders).

(** ** Consequences of the invariant *)

(** A slot holds one order of one side. *)
Lemma order_at_unique b s1 s2 e1 e2 :
  order_at (heap b) s1 e1 -> order_at (heap b) s2 e2 -> e1.1 = e2.1 -> s1 = s2 /\ e1 = e2.
Proof.
  intros (o1 & Ho1 & ? & ? & ? & ?) (o2 & Ho2 & ? & ? & ? & ?) E.
  destruct e1 as [x1 [i1 p1 q1]], e2 as [x2 [i2 p2 q2]]. simpl in *. subst x2.
  simplify_eq. split; congruence.
Qed.

Lemma entry_unique b G s1 s2 e1 e2 :
  Core b G -> e1 ∈ G s1 -> e2 ∈ G s2 -> e1.1 = e2.1 -> s1 = s2 /\ e1 = e2.
Proof. intros HC H1 H2. apply (order_at_unique b); by eapply core_order. Qed.

Lemma core_nodup b G s : Core b G -> NoDup (G s).*1.
Proof.
  intros HC. assert (NoDup (free b ++ (G true).*1 ++ (G false).*1)) as Hnd.
  { rewrite (core_slots _ _ _ _ HC). apply NoDup_seqZ. }
  apply NoDup_app in Hnd as (_ & _ & Hnd). apply NoDup_app in Hnd as (H1 & _ & H2). by destruct s.
Qed.

Lemma core_free_fresh b G x s r : Core b G -> x ∈ free b -> (x, r) ∉ G s.
Proof.
  intros HC Hx Hin. assert (NoDup (free b ++ (G true).*1 ++ (G false).*1)) as Hnd.
  { rewrite (core_slots _ _ _ _ HC). apply NoDup_seqZ. }
  apply NoDup_app in Hnd as (_ & Hnd & _). apply (Hnd x Hx). apply elem_of_app.
  destruct s; [left|right]; apply elem_fst; by exists r.
Qed.

(** A level's orders are separate from every other level's. *)
Lemma levels_disjoint b G s1 s2 p1 p2 y :
  Core b G -> y ∈ (at_price p1 (G s1)).*1 -> y ∈ (at_price p2 (G s2)).*1 -> s1 = s2 /\ p1 = p2.
Proof.
  intros HC (r1 & Hr1)%elem_fst (r2 & Hr2)%elem_fst.
  apply elem_at_price in Hr1 as [<- Hr1], Hr2 as [<- Hr2].
  destruct (entry_unique b G s1 s2 _ _ HC Hr1 Hr2 eq_refl) as [-> [= ->]]. done.
Qed.

(** The total of a side's level, and of any part of a side, fits the counter. *)
Lemma core_positive b G s : Core b G -> positive_qty (G s).*2.
Proof.
  intros HC. apply Forall_forall. intros r (e & -> & He)%list_elem_of_fmap.
  apply (core_order _ _ _ _ HC) in He as [_ Hv]. apply Hv.
Qed.

Lemma positive_at_price p (g : list entry) : positive_qty g.*2 -> positive_qty (at_price p g).*2.
Proof.
  unfold positive_qty. rewrite !Forall_forall. intros Hg r (e & -> & He)%list_elem_of_fmap.
  apply elem_at_price in He as [_ He]. apply Hg, list_elem_of_fmap. eauto.
Qed.

Lemma core_length b G s : Core b G -> 0 <= orders -> Z.of_nat (length (G s)) <= orders.
Proof.
  intros HC Ho. pose proof (Permutation_length (core_slots _ _ _ _ HC)) as Hl.
  rewrite !length_app, !length_fmap, length_seqZ in Hl. destruct s; lia.
Qed.

Lemma length_at_price p (g : list entry) : (length (at_price p g) <= length g)%nat.
Proof. apply length_filter. Qed.

Lemma level_total_bound b G s p :
  Core b G -> 0 <= orders <= 2 ^ 32 -> 0 <= total_qty (at_price p (G s)).*2 < 2 ^ 63.
Proof.
  intros HC Ho. split.
  - by apply total_qty_nonneg, positive_at_price, (core_positive b).
  - assert (total_qty (at_price p (G s)).*2 <= (2 ^ 31 - 1) * Z.of_nat (length (at_price p (G s)).*2)) as Hb.
    { apply total_qty_bound, Forall_forall. intros r (e & -> & He)%list_elem_of_fmap.
      apply elem_at_price in He as [_ He]. apply (core_order _ _ _ _ HC) in He as [_ (_ & Hq & _)]. lia. }
    rewrite length_fmap in Hb. pose proof (length_at_price p (G s)).
    pose proof (core_length b G s HC ltac:(lia)). lia.
Qed.

(** ** Transferring the invariant *)

(** Only the orders in [ws] were written to. *)
Definition frame (ws : list Z) (h h' : vec Order) : Prop :=
  forall y, y ∉ ws -> vget h' y = vget h y.

Lemma level_ok_frame ws h h' lv (g : list entry) :
  frame ws h h' -> (forall y, y ∈ g.*1 -> y ∉ ws) -> level_ok h lv g -> level_ok h' lv g.
Proof.
  intros Hf Hws (H1 & H2 & H3 & H4). repeat split; try done.
  eapply dseg_same_links; [|done]. intros y Hy o Ho. exists o. by rewrite Hf by by apply Hws.
Qed.

(** Side [s] of the book changes to [g'], at the price [p] only, the writes
    staying inside the orders [ws] that belong to that level (or to none). *)
Section change.
Context (b b' : OrderBook Bits) (G : ghost) (s : bool) (p : Z) (lv' : PriceLevel).
Context (g' : list entry) (ws : list Z).
Hypothesis before : Core b G.
Hypothesis owned : forall y s' r, y ∈ ws -> (y, r) ∈ G s' -> s' = s /\ r_price r = p.
Hypothesis framed : frame ws (heap b) (heap b').
Hypothesis other_prices : forall q, q <> p -> at_price q g' = at_price q (G s).
Hypothesis level_new : level_update s p lv' b b'.
Hypothesis level_right : level_ok (heap b') lv' (at_price p g').
Hypothesis orders_right : forall e, e ∈ g' -> order_at (heap b') s e /\ valid_resting ticks orders e.2.

Lemma change_orders s' e :
  e ∈ ghost_set s g' G s' -> order_at (heap b') s' e /\ valid_resting ticks orders e.2.
Proof.
  destruct (decide (s' = s)) as [->|Hs]; [rewrite ghost_set_eq; apply orders_right|].
  rewrite ghost_set_ne by done. intros He.
  destruct (core_order _ _ _ _ before s' e He) as [(o & Ho & ?) Hv]. split; [|done].
  exists o. rewrite framed; [done|]. intros Hin. destruct e as [y r].
  by destruct (owned y s' r Hin He).
Qed.

Lemma change_levels s' q : 0 <= q < ticks ->
  exists lv, vget (side_levels s' b') q = Some lv /\
    level_ok (heap b') lv (at_price q (ghost_set s g' G s')).
Proof.
  intros Hq. destruct level_new as [_ Hl]. rewrite Hl. case_decide as Hd.
  { destruct Hd as [-> ->]. exists lv'. by rewrite ghost_set_eq. }
  destruct (core_level _ _ _ _ before s' q Hq) as (lv & Hlv1 & Hok). exists lv. split; [done|].
  assert (at_price q (ghost_set s g' G s') = at_price q (G s')) as ->.
  { destruct (decide (s' = s)) as [->|]; [|by rewrite ghost_set_ne].
    rewrite ghost_set_eq. apply other_prices. naive_solver. }
  eapply level_ok_frame; [done| |done]. intros y (r & Hr)%elem_fst Hin.
  apply elem_at_price in Hr as [<- Hr]. apply Hd. by apply (owned y s' r Hin).
Qed.

(** The members other than the level and the orders follow suit. *)
Lemma core_change :
  vsize (heap b') = vsize (heap b) -> vsize (_order_map b') = vsize (_order_map b) ->
  ordered s g'.*2 ->
  free b' ++ g'.*1 ≡ₚ free b ++ (G s).*1 ->
  (forall x, x ∈ free b' -> (x ∈ free b /\ x ∉ ws) \/
     exists o, vget (heap b') x = Some o /\ o_prev o = None /\ o_next o = None) ->
  (forall id x, vget (_order_map b') id = Some (Some x) ->
     exists s' r, (x, r) ∈ ghost_set s g' G s' /\ r_id r = id) ->
  Core b' (ghost_set s g' G).
Proof.
  intros Hsz Hmsz Hord Hslots Hfree Hmap. pose proof level_new as [Hls _]. split.
  - by rewrite Hsz, (core_heap_size _ _ _ _ before).
  - intros s'. by rewrite Hls, (core_level_size _ _ _ _ before).
  - by rewrite Hmsz, (core_map_size _ _ _ _ before).
  - apply change_orders.
  - intros s'. destruct (decide (s' = s)) as [->|]; [by rewrite ghost_set_eq|].
    rewrite ghost_set_ne by done. apply (core_sorted _ _ _ _ before).
  - apply change_levels.
  - rewrite <- (core_slots _ _ _ _ before). destruct s;
      rewrite ghost_set_eq, ghost_set_ne by done;
      [rewrite !(assoc_L (++)); by rewrite Hslots|].
    rewrite (Permutation_app_comm (G true).*1), !(assoc_L (++)). rewrite Hslots.
    rewrite <- !(assoc_L (++)). f_equiv. apply Permutation_app_comm.
  - intros x Hx. destruct (Hfree x Hx) as [[Hf Hw]|?]; [|done].
    rewrite framed by done. by apply (core_free _ _ _ _ before).
  - done.
Qed.
End change.

Lemma at_price_middle_ne p q (A B : list entry) e :
  r_price e.2 = p -> q <> p -> at_price q (A ++ e :: B) = at_price q (A ++ B).
Proof. intros Hp Hq. rewrite !at_price_app, at_price_cons, decide_False by congruence. done. Qed.

Lemma at_price_middle_eq p (A B : list entry) e :
  r_price e.2 = p -> at_price p (A ++ e :: B) = at_price p A ++ e :: at_price p B.
Proof. intros Hp. by rewrite at_price_app, at_price_cons, decide_True. Qed.

(** The orders of a level belong to it. *)
Lemma level_owned b G s p y s' r :
  Core b G -> y ∈ (at_price p (G s)).*1 -> (y, r) ∈ G s' -> s' = s /\ r_price r = p.
Proof.
  intros HC (r1 & Hr1)%elem_fst Hr. apply elem_at_price in Hr1 as [<- Hr1].
  destruct (entry_unique b G s' s (y, r) (y, r1) HC Hr Hr1 eq_refl) as [-> [= ->]]. done.
Qed.

Lemma level_not_free b G s p y : Core b G -> y ∈ (at_price p (G s)).*1 -> y ∉ free b.
Proof.
  intros HC (r & Hr)%elem_fst Hf. apply elem_at_price in Hr as [_ Hr].
  by apply (core_free_fresh b G y s r HC Hf).
Qed.

(** The entries around a position do not use its slot. *)
Lemma middle_fresh b G s x r A B y r' :
  Core b G -> G s = A ++ (x, r) :: B -> (y, r') ∈ A ++ B -> y <> x.
Proof.
  intros HC HG Hin ->. pose proof (core_nodup b G s HC) as Hnd. rewrite HG, fmap_app in Hnd.
  simpl in Hnd. apply NoDup_app in Hnd as (_ & Hnd2 & [Hnd3 _]%NoDup_cons).
  apply elem_of_app in Hin as [Hin|Hin].
  - apply (Hnd2 x); [apply elem_fst; eauto|set_solver].
  - apply Hnd3, elem_fst; eauto.
Qed.

(** An order left the book. *)
Lemma core_remove b b' G s p x r A B lv' :
  Core b G -> G s = A ++ (x, r) :: B -> p = r_price r ->
  level_update s p lv' b b' ->
  vsize (heap b') = vsize (heap b) -> vsize (_order_map b') = vsize (_order_map b) ->
  frame (at_price p (G s)).*1 (heap b) (heap b') ->
  (forall e, e ∈ A ++ B -> order_at (heap b) s e -> order_at (heap b') s e) ->
  (exists o, vget (heap b') x = Some o /\ o_prev o = None /\ o_next o = None) ->
  free b' = x :: free b ->
  (forall id, vget (_order_map b') id = if decide (id = r_id r) then Some None else vget (_order_map b) id) ->
  level_ok (heap b') lv' (at_price p (A ++ B)) ->
  Core b' (ghost_set s (A ++ B) G).
Proof.
  intros HC HG Hp Hlu Hsz Hmsz Hframe Hdata Hx Hfree Hmap Hlv.
  apply (core_change b b' G s p lv' (A ++ B) (at_price p (G s)).*1); try done.
  - intros y s' r' Hy. by eapply level_owned.
  - intros q Hq. rewrite HG. by rewrite (at_price_middle_ne p).
  - intros e He. destruct (core_order _ _ _ _ HC s e) as [Ho Hv]; [rewrite HG; set_solver|]. auto.
  - pose proof (core_sorted _ _ _ _ HC s) as Hst. rewrite HG, fmap_app in Hst.
    rewrite fmap_app. by eapply ordered_remove.
  - rewrite Hfree, HG, !fmap_app. simpl. by rewrite <- !Permutation_middle.
  - rewrite Hfree. intros y [->|Hy]%elem_of_cons; [by right|]. left. split; [done|].
    intros Hin. by apply (level_not_free b G s p y HC).
  - intros id y Hy. rewrite Hmap in Hy. case_decide as Hid; [done|].
    destruct (core_map _ _ _ _ HC id y Hy) as (s' & r' & Hin & Hr'). exists s', r'. split; [|done].
    destruct (decide (s' = s)) as [->|]; [|by rewrite ghost_set_ne]. rewrite ghost_set_eq.
    rewrite HG in Hin. set_solver.
Qed.

(** An order's quantity changed where it stands. *)
Lemma core_requantify b b' G s p x r A B lv' o q :
  Core b G -> G s = A ++ (x, r) :: B -> p = r_price r -> 0 < q < 2 ^ 31 ->
  vget (heap b) x = Some o -> heap b' = vset (heap b) x (set_o_quantity q o) ->
  free b' = free b -> _order_map b' = _order_map b ->
  level_update s p lv' b b' ->
  (exists lv, vget (side_levels s b) p = Some lv /\ head lv' = head lv /\ tail lv' = tail lv /\
     total_quantity lv' = total_quantity lv - r_qty r + q) ->
  Core b' (ghost_set s (A ++ (x, mkResting (r_id r) (r_price r) q) :: B) G).
Proof.
  intros HC HG -> Hq Ho Hheap Hfree Hmap Hlu (lv & Hlv & Hhd & Htl & Htot).
  pose proof (vget_Some_range _ _ _ Ho) as Hx.
  assert ((x, r) ∈ G s) as Hin by (rewrite HG; set_solver).
  destruct (core_order _ _ _ _ HC s _ Hin) as [(o' & Ho' & Hid & Hpr & Hqt & Hb) (Hv1 & Hv2 & Hv3)].
  simpl in *. assert (o' = o) as -> by congruence.
  apply (core_change b b' G s (r_price r) lv' _ [x]); try done.
  - intros y s' r' ->%list_elem_of_singleton Hr'.
    destruct (entry_unique b G s' s (x, r') (x, r) HC Hr' Hin eq_refl) as [-> [= ->]]. done.
  - intros y Hy. rewrite Hheap, vget_set_ne by set_solver. done.
  - intros q' Hq'. rewrite HG. by rewrite !(at_price_middle_ne (r_price r)).
  - destruct (core_level _ _ _ _ HC s (r_price r) Hv1) as (lv0 & Hlv0 & Hok).
    assert (lv0 = lv) as -> by congruence. unfold level_ok in Hok.
    rewrite HG, at_price_middle_eq, !fmap_app, total_qty_app in Hok by done.
    destruct Hok as (H1 & H2 & H3 & H4). simpl in *.
    unfold level_ok. rewrite at_price_middle_eq, !fmap_app, total_qty_app by done. simpl.
    repeat split; [congruence|congruence|lia|].
    eapply dseg_same_links; [|done]. intros y Hy oy Hoy. rewrite Hheap, vget_set by done.
    case_decide; subst; simplify_eq; eauto.
  - intros e He. rewrite elem_of_app, elem_of_cons in He.
    assert (e = (x, mkResting (r_id r) (r_price r) q) \/ e ∈ A ++ B) as [->|He'] by set_solver.
    + split; [|by repeat split; simpl; lia]. eexists. rewrite Hheap.
      split; [by apply vget_set_eq|]. simpl. rewrite wrap_small by lia. done.
    + destruct e as [y r']. pose proof (middle_fresh _ _ _ _ _ _ _ _ _ HC HG He') as Hne.
      destruct (core_order _ _ _ _ HC s (y, r')) as [(oy & Hoy & ?) Hv]; [rewrite HG; set_solver|].
      split; [|done]. exists oy. rewrite Hheap, vget_set_ne; [done|]. simpl. congruence.
  - by rewrite Hheap, vsize_set.
  - by rewrite Hmap.
  - pose proof (core_sorted _ _ _ _ HC s) as Hst. rewrite HG, fmap_app in Hst.
    rewrite fmap_app. by eapply ordered_replace, Hst.
  - by rewrite Hfree, HG, !fmap_app.
  - rewrite Hfree. intros y Hy. left. split; [done|]. intros ->%list_elem_of_singleton.
    by apply (core_free_fresh b G x s r HC Hy).
  - rewrite Hmap. intros id y Hy. destruct (core_map _ _ _ _ HC id y Hy) as (s' & r' & Hr' & Hid').
    destruct (decide (s' = s)) as [->|].
    + destruct (decide (y = x)) as [->|Hne].
      * destruct (entry_unique b G _ _ (x, r') (x, r) HC Hr' Hin eq_refl) as [_ [= ->]].
        exists s, (mkResting (r_id r) (r_price r) q). rewrite ghost_set_eq. split; [set_solver|done].
      * exists s, r'. rewrite ghost_set_eq. rewrite HG in Hr'. split; [|done]. set_solver.
    + exists s', r'. by rewrite ghost_set_ne.
Qed.

(** An order came to rest behind the orders of its price. *)
Lemma core_insert b b' G s p x r A B lv' :
  Core b G -> G s = A ++ B -> p = r_price r -> valid_resting ticks orders r ->
  (forall e, e ∈ A -> no_worse s (r_price e.2) p) -> (forall e, e ∈ B -> beats s p (r_price e.2) = true) ->
  free b = x :: free b' ->
  level_update s p lv' b b' ->
  vsize (heap b') = vsize (heap b) -> vsize (_order_map b') = vsize (_order_map b) ->
  frame (x :: (at_price p (G s)).*1) (heap b) (heap b') ->
  (forall e, e ∈ G s -> order_at (heap b) s e -> order_at (heap b') s e) ->
  order_at (heap b') s (x, r) ->
  (forall id, vget (_order_map b') id = if decide (id = r_id r) then Some (Some x) else vget (_order_map b) id) ->
  level_ok (heap b') lv' (at_price p (G s) ++ [(x, r)]) ->
  Core b' (ghost_set s (A ++ (x, r) :: B) G).
Proof.
  intros HC HG Hp Hv HA HB Hfree Hlu Hsz Hmsz Hframe Hdata Hx Hmap Hlv.
  assert (x ∈ free b) as Hxf by (rewrite Hfree; set_solver).
  assert (at_price p B = []) as HpB.
  { apply at_price_none. intros e He Hpe. specialize (HB e He). rewrite Hpe in HB.
    pose proof (no_worse_refl s p) as Hr. unfold no_worse in Hr. congruence. }
  apply (core_change b b' G s p lv' _ (x :: (at_price p (G s)).*1)); try done.
  - intros y s' r' [->|Hy]%elem_of_cons Hr'; [by apply (core_free_fresh b G x s' r' HC) in Hxf|].
    by eapply level_owned.
  - intros q Hq. rewrite HG. by rewrite (at_price_middle_ne p).
  - rewrite at_price_middle_eq by done. rewrite HG, at_price_app, HpB, app_nil_r in Hlv.
    by rewrite HpB.
  - intros e He. rewrite elem_of_app, elem_of_cons in He.
    assert (e = (x, r) \/ e ∈ G s) as [->|He'] by (rewrite HG; set_solver); [done|].
    destruct (core_order _ _ _ _ HC s e He') as [Ho Hve]. auto.
  - pose proof (core_sorted _ _ _ _ HC s) as Hst. rewrite HG, fmap_app in Hst.
    apply ordered_app_inv in Hst as (H1 & H2 & H3). rewrite fmap_app. simpl.
    apply StronglySorted_app_intro; [done| |].
    + constructor; [done|]. apply Forall_forall. intros r' (e & -> & He)%list_elem_of_fmap.
      rewrite <- Hp. by apply beats_no_worse, HB.
    + intros r1 r2 Hr1 [->|Hr2]%elem_of_cons; [|by apply H3].
      apply list_elem_of_fmap in Hr1 as (e & -> & He). rewrite <- Hp. by apply HA.
  - rewrite Hfree, HG, !fmap_app. simpl. by rewrite <- !Permutation_middle.
  - intros y Hy. left. split; [rewrite Hfree; set_solver|].
    pose proof (core_slots _ _ _ _ HC) as Hsl. assert (NoDup (free b)) as Hnd.
    { apply (NoDup_app (free b) ((G true).*1 ++ (G false).*1)). rewrite Hsl. apply NoDup_seqZ. }
    rewrite Hfree in Hnd. apply NoDup_cons in Hnd as [Hnd _].
    intros [->|Hin]%elem_of_cons; [done|].
    apply (level_not_free b G s p y HC Hin). rewrite Hfree. set_solver.
  - intros id y Hy. rewrite Hmap in Hy. case_decide as Hid.
    + simplify_eq. exists s, r. rewrite ghost_set_eq. split; [set_solver|done].
    + destruct (core_map _ _ _ _ HC id y Hy) as (s' & r' & Hin & Hr'). exists s', r'. split; [|done].
      destruct (decide (s' = s)) as [->|]; [|by rewrite ghost_set_ne]. rewrite ghost_set_eq.
      rewrite HG in Hin. set_solver.
Qed.

(** ** Bitmaps and cached best prices *)

Lemma prices_at_price p (g : list entry) : p ∈ prices g <-> at_price p g <> [].
Proof.
  rewrite elem_prices. split.
  - intros (e & He & Hp) Hn. assert (e ∈ at_price p g) as Hin by by apply elem_at_price.
    rewrite Hn in Hin. set_solver.
  - intros Hn. destruct (at_price p g) as [|e g'] eqn:E; [done|]. exists e.
    assert (e ∈ at_price p g) as Hin by (rewrite E; set_solver).
    apply elem_at_price in Hin as [? ?]. done.
Qed.

(** The front of a side has its best price. *)
Lemma best_is_extremal s (g : list entry) S :
  ordered s g.*2 -> (forall p, p ∈ S <-> p ∈ prices g) -> g <> [] ->
  if s then is_highest S (best_of s g) else is_lowest S (best_of s g).
Proof.
  intros Ho HS Hg. destruct g as [|e g]; [done|]. simpl in *.
  apply StronglySorted_inv in Ho as [_ Hf]. rewrite Forall_forall in Hf.
  assert (r_price e.2 ∈ S) as Hin by (apply HS; set_solver).
  assert (forall q, q ∈ S -> no_worse s (r_price e.2) q) as Hm.
  { intros q [->|(e' & He' & <-)%elem_prices]%HS%elem_of_cons; [apply no_worse_refl|].
    apply Hf, list_elem_of_fmap. by exists e'. }
  unfold no_worse, beats in Hm.
  destruct s; (split; [done|]); intros q Hq; specialize (Hm q Hq); zb; lia.
Qed.

Lemma refresh_side s t (g : list entry) S :
  represents t S -> ordered s g.*2 -> (forall p, p ∈ S <-> p ∈ prices g) ->
  (if s then get_highest t else get_lowest t) = Ok (best_of s g).
Proof.
  intros Ht Ho HS. destruct (decide (g = [])) as [->|Hg].
  - assert (S = ∅) as ->.
    { apply set_eq. intros p. rewrite HS. simpl. set_solver. }
    destruct s; [by apply get_highest_empty|by apply get_lowest_empty].
  - pose proof (best_is_extremal s g S Ho HS Hg) as Hb.
    destruct s; [by eapply get_highest_is|by eapply get_lowest_is].
Qed.

(** [refresh_best] makes the cached prices right when the bitmaps are. *)
Lemma wp_refresh_best b G Phi :
  (forall s, ordered s (G s).*2) ->
  (forall s, exists S, represents (side_bits s b) S /\ forall p, p ∈ S <-> p ∈ prices (G s)) ->
  (forall b', heap b' = heap b -> free b' = free b -> _order_map b' = _order_map b -> same_levels b b' ->
     (forall s, IndexSide ticks b' G s) -> Phi tt b') ->
  wp refresh_best b Phi.
Proof.
  intros Ho HS HP. destruct (HS true) as (S1 & Ht1 & HS1), (HS false) as (S2 & Ht2 & HS2).
  apply wp_bind, wp_get, wp_bind. eapply wp_lift.
  { exact (refresh_side true _ _ _ Ht1 (Ho true) HS1). }
  apply wp_bind, wp_put, wp_bind, wp_get, wp_bind. eapply wp_lift.
  { exact (refresh_side false _ _ _ Ht2 (Ho false) HS2). }
  apply wp_put, HP; try done. intros []; (split; [by eexists|done]).
Qed.

(** Clearing the bit of a level that became empty, then refreshing. *)
Lemma wp_clear_refresh s p b G g' Phi :
  0 <= p < ticks ->
  (forall s', ordered s' (ghost_set s g' G s').*2) ->
  (forall s', exists S, represents (side_bits s' b) S /\ forall q, q ∈ S <-> q ∈ prices (G s')) ->
  (forall q, q ∈ prices g' <-> q ∈ prices (G s) /\ q <> p) ->
  (forall b', heap b' = heap b -> free b' = free b -> _order_map b' = _order_map b -> same_levels b b' ->
     (forall s', IndexSide ticks b' (ghost_set s g' G) s') -> Phi tt b') ->
  wp (bits_clear s p;; refresh_best) b Phi.
Proof.
  intros Hp Ho HS Hg HP. destruct (HS s) as (S & Ht & HSs).
  destruct (clear_spec _ _ _ Ht Hp) as (t' & Et & Ht').
  apply wp_bind, wp_bind, wp_get, wp_bind. eapply wp_lift; [exact Et|]. apply wp_put.
  apply (wp_refresh_best _ (ghost_set s g' G)); [done| |].
  - intros s'. rewrite side_bits_set. case_decide; subst.
    + exists (S ∖ {[p]}). split; [done|]. intros q. rewrite ghost_set_eq, Hg, <- HSs. set_solver.
    + rewrite ghost_set_ne by done. apply HS.
  - intros b' H1 H2 H3 H4 H5. by apply HP.
Qed.
End core.
