(* ===== verification/BookRemove.v ===== *)
(** * Taking an order out of the book

    [cancel_order] and [match_order] remove an order by the same statements:
    decrease the level's total, unlink the order, clear its entry of the id
    table, return its slot to the pool.  [detached] describes the state
    between the unlinking and the release of the slot. *)

From S2P Require Import Prelude.
From S2P Require Import PriceIndex.
From S2P Require Import OrderBook.
From S2P Require Import BookSpec.
From S2P Require Import BookInv.
From S2P Require Import BookRules.
From S2P Require Import BookCore.

Section remove.
Context {Bits : Type} `{PriceIndex Bits} (ticks orders : Z) `{!PriceIndexLaws Bits ticks}.
Implicit Types (b : OrderBook Bits) (G : ghost) (s : bool) (p x : Z) (r : resting) (e : entry).

Abbreviation Core := (Core ticks orders).

Record detached b G s x r (A B : list entry) b3 lv3 : Prop := {
  dt_free : free b3 = free b;
  dt_map : _order_map b3 = _order_map b;
  dt_size : vsize (heap b3) = vsize (heap b);
  dt_level : level_update s (r_price r) lv3 b b3;
  dt_level_ok : level_ok (heap b3) lv3 (at_price (r_price r) (A ++ B));
  dt_frame : frame (at_price (r_price r) (G s)).*1 (heap b) (heap b3);
  dt_orders : forall e, e ∈ A ++ B -> order_at (heap b) s e -> order_at (heap b3) s e;
  dt_order : exists o, vget (heap b3) x = Some o /\ o_id o = r_id r /\ o_price o = r_price r /\ o_is_buy o = s;
}.

(** The level and the order of an entry, as the code reads them. *)
Lemma entry_level b G s x r A B :
  Core b G -> G s = A ++ (x, r) :: B ->
  exists lv o, vget (side_levels s b) (r_price r) = Some lv /\ vget (heap b) x = Some o /\
    o_id o = r_id r /\ o_price o = r_price r /\ o_quantity o = r_qty r /\ o_is_buy o = s /\
    valid_resting ticks orders r /\
    level_ok (heap b) lv (at_price (r_price r) A ++ (x, r) :: at_price (r_price r) B) /\
    NoDup ((at_price (r_price r) A).*1 ++ x :: (at_price (r_price r) B).*1).
Proof.
  intros HC HG.
  destruct (core_order _ _ _ _ HC s (x, r)) as [(o & Ho & ? & ? & ? & ?) Hv]; [rewrite HG; set_solver|].
  pose proof Hv as (Hp & _). simpl in *.
  destruct (core_level _ _ _ _ HC s (r_price r) Hp) as (lv & Hlv & Hok).
  rewrite HG, at_price_middle_eq in Hok by done. exists lv, o. split_and!; try done.
  assert ((at_price (r_price r) A).*1 ++ x :: (at_price (r_price r) B).*1 = (at_price (r_price r) (G s)).*1) as ->.
  { by rewrite HG, at_price_middle_eq, fmap_app. }
  by apply NoDup_at_price, (core_nodup ticks orders b).
Qed.

(** The level's total after [level.total_quantity -= q]. *)
Lemma total_sub b G s x r A B lv :
  Core b G -> 0 <= orders <= 2 ^ 32 -> G s = A ++ (x, r) :: B ->
  level_ok (heap b) lv (at_price (r_price r) A ++ (x, r) :: at_price (r_price r) B) ->
  forall t, 0 <= t <= r_qty r -> u64 (total_quantity lv - t) =
    total_qty (at_price (r_price r) A).*2 + (r_qty r - t) + total_qty (at_price (r_price r) B).*2.
Proof.
  intros HC Ho HG (_ & _ & Ht & _) t Hr.
  pose proof (level_total_bound ticks orders b G s (r_price r) HC Ho) as Hb.
  pose proof (core_positive ticks orders b G s HC) as Hpos.
  rewrite HG, at_price_middle_eq in Hb by done.
  rewrite HG, fmap_app in Hpos. unfold positive_qty in Hpos. simpl in Hpos.
  apply Forall_app in Hpos as [HA HB]. apply Forall_cons in HB as [_ HB].
  assert (0 <= total_qty (at_price (r_price r) A).*2) by by apply total_qty_nonneg, positive_at_price.
  assert (0 <= total_qty (at_price (r_price r) B).*2) by by apply total_qty_nonneg, positive_at_price.
  rewrite fmap_app, total_qty_app in Hb, Ht. csimpl in *. rewrite wrap_small; lia.
Qed.

(** Unlinking, from a state [b1] that differs from [b] in the order's own
    quantity and in the level's total. *)
Lemma wp_detach b b1 G s x r A B lv o o1 lv1 Phi :
  Core b G -> G s = A ++ (x, r) :: B ->
  vget (side_levels s b) (r_price r) = Some lv -> vget (heap b) x = Some o ->
  free b1 = free b -> _order_map b1 = _order_map b -> vsize (heap b1) = vsize (heap b) ->
  level_update s (r_price r) lv1 b b1 -> head lv1 = head lv -> tail lv1 = tail lv ->
  total_quantity lv1 = total_qty (at_price (r_price r) (A ++ B)).*2 ->
  frame [x] (heap b) (heap b1) -> vget (heap b1) x = Some o1 ->
  o_prev o1 = o_prev o -> o_next o1 = o_next o -> o_id o1 = o_id o -> o_price o1 = o_price o ->
  o_is_buy o1 = o_is_buy o ->
  (forall b3 lv3, detached b G s x r A B b3 lv3 -> same_index b1 b3 ->
    level_update s (r_price r) lv3 b1 b3 -> total_quantity lv3 = total_quantity lv1 -> Phi tt b3) ->
  wp (unlink (s, r_price r) (Some x)) b1 Phi.
Proof.
  intros HC HG Hlv Ho Hf Hm Hsz Hlu Hhd Htl Htot Hfr Ho1 Hp1 Hn1 Hi1 Hpr1 Hb1 HP.
  destruct (entry_level b G s x r A B HC HG) as (lv' & o' & Hlv' & Ho' & Hid & Hpr & _ & Hb & _ & Hok & Hnd).
  simplify_eq. unfold level_ok in Hok. rewrite !fmap_app in Hok. csimpl in Hok.
  destruct Hok as (Hh & Ht & _ & Hd). pose proof Hlu as [Hls Hl].
  assert (dseg (heap b1) None ((at_price (r_price r) A).*1 ++ x :: (at_price (r_price r) B).*1) None) as Hd1.
  { eapply dseg_same_links; [|done]. intros y _ oy Hoy. destruct (decide (y = x)) as [->|Hne].
    - simplify_eq. by exists o1.
    - exists oy. by rewrite Hfr by set_solver. }
  eapply wp_unlink; [done|by eapply level_update_get|congruence|congruence|done|].
  intros b3 lv3 [S1 S2 S3 S4 S5 S6] Hh3 Ht3 Htot3 Hd3. apply (HP b3 lv3); try done.
  assert ((at_price (r_price r) (A ++ B)).*1 = (at_price (r_price r) A).*1 ++ (at_price (r_price r) B).*1) as Ews
    by by rewrite at_price_app, fmap_app.
  split; try congruence.
  - by eapply level_update_trans.
  - unfold level_ok. rewrite Ews. repeat split; try done. congruence.
  - intros y Hy. rewrite HG, at_price_middle_eq, fmap_app in Hy by done. csimpl in Hy.
    destruct (vget (heap b) y) as [oy|] eqn:Hoy.
    + assert (vget (heap b1) y = Some oy) as Hoy1 by (rewrite Hfr by set_solver; done).
      destruct (S6 _ _ Hoy1) as (o3 & Ho3 & _ & He). rewrite Ho3, He; [done|set_solver].
    + destruct (vget (heap b3) y) as [o3|] eqn:Ho3; [|done].
      apply vget_Some_range in Ho3. rewrite S5, Hsz in Ho3.
      by destruct (vget_lookup _ _ Ho3) as [? E]; rewrite E in Hoy.
  - intros [y r'] He (oy & Hoy & ? & ? & ? & ?). simpl in *.
    pose proof (middle_fresh _ _ _ _ _ _ _ _ _ _ _ HC HG He) as Hne.
    assert (vget (heap b1) y = Some oy) as Hoy1 by (rewrite Hfr by set_solver; done).
    destruct (S6 _ _ Hoy1) as (o3 & Ho3 & (? & ? & ? & ?) & _). exists o3. simpl. repeat split; congruence.
  - destruct (S6 _ _ Ho1) as (o3 & Ho3 & (? & ? & ? & ?) & _). exists o3. repeat split; congruence.
Qed.

Lemma Indexed_remove b b' G s x r A B :
  Core b G -> G s = A ++ (x, r) :: B ->
  (forall id, vget (_order_map b') id = if decide (id = r_id r) then Some None else vget (_order_map b) id) ->
  Indexed b G -> Indexed b' (ghost_set s (A ++ B) G).
Proof.
  intros HC HG Hmap Hix s' y r' Hin.
  assert ((y, r') ∈ G s' /\ y <> x) as [Hin' Hne].
  { destruct (decide (s' = s)) as [->|Hs].
    - rewrite ghost_set_eq in Hin. split; [rewrite HG; set_solver|].
      by eapply (middle_fresh ticks orders b G s x r A B).
    - rewrite ghost_set_ne in Hin by done. split; [done|]. intros ->.
      destruct (entry_unique ticks orders b G s' s (x, r') (x, r) HC Hin) as [? _]; [rewrite HG; set_solver|done|done]. }
  rewrite Hmap. case_decide as Hid; [|by apply (Hix s')].
  pose proof (Hix s' y r' Hin') as H1. rewrite Hid, (Hix s x r) in H1 by (rewrite HG; set_solver).
  congruence.
Qed.

(** Releasing the slot completes the removal. *)
Lemma wp_release b b3 G s x r A B lv3 Phi :
  Core b G -> G s = A ++ (x, r) :: B -> detached b G s x r A B b3 lv3 ->
  (forall b', Core b' (ghost_set s (A ++ B) G) -> same_index b3 b' -> same_levels b3 b' ->
    (Indexed b G -> Indexed b' (ghost_set s (A ++ B) G)) -> Phi tt b') ->
  wp (map_set (r_id r) None;; deallocate (Some x)) b3 Phi.
Proof.
  intros HC HG [D1 D2 D3 D4 D5 D6 D7 (o & Ho & Hid & Hpr & Hb)] HP.
  destruct (core_order _ _ _ _ HC s (x, r)) as [(ox & Hox & _) (_ & _ & Hvid)]; [rewrite HG; set_solver|].
  simpl in *. pose proof (core_map_size _ _ _ _ HC) as Hms.
  apply wp_bind, wp_map_set; [rewrite D2, Hms; lia|].
  eapply wp_deallocate; [exact Ho|]. intros h' Hsz Hx Hother.
  assert (forall id, vget (vset (_order_map b3) (r_id r) None) id =
    if decide (id = r_id r) then Some None else vget (_order_map b) id) as Hmap.
  { intros id. rewrite D2, vget_set by (rewrite Hms; lia). repeat case_decide; naive_solver. }
  assert (x ∈ (at_price (r_price r) (G s)).*1) as Hxin.
  { apply elem_fst. exists r. apply elem_at_price. split; [done|]. rewrite HG. set_solver. }
  apply HP; try done.
  - eapply (core_remove ticks orders b _ G s (r_price r) x r A B lv3); try done.
    + rewrite heap_set_pool. simpl. rewrite Hsz. done.
    + simpl. by rewrite vsize_set, D2.
    + intros y Hy. rewrite heap_set_pool. simpl. rewrite Hother by set_solver. by apply D6.
    + intros [y r'] He Hoy. destruct (D7 _ He Hoy) as (o3 & Ho3 & ?). exists o3.
      rewrite heap_set_pool. simpl in *. rewrite Hother; [done|].
      by eapply (middle_fresh ticks orders b G s x r A B).
    + rewrite heap_set_pool. eexists. split; [exact Hx|done].
    + rewrite free_set_pool. simpl. by rewrite <- D1.
    + rewrite heap_set_pool. simpl. apply (level_ok_frame [x] (heap b3)); [| |exact D5].
      * intros y [Hy _]%not_elem_of_cons. by apply (Hother y).
      * intros y Hy Hyx. apply elem_fst in Hy as (r' & Hr'). apply elem_at_price in Hr' as [_ Hr'].
        eapply (middle_fresh ticks orders b G s x r A B) in Hr'; [|done|done].
        by apply list_elem_of_singleton in Hyx.
  - by eapply Indexed_remove.
Qed.
End remove.
