(* ===== verification/BookMatch.v ===== *)
(** * [match_order] implements the sweep of the specification

    The inner loop fills against the queue of one level, the outer loop goes
    from one best level to the next; together they do what [sweep] does to
    the opposite side, and they finish. *)

From S2P Require Import Prelude.
From S2P Require Import PriceIndex.
From S2P Require Import OrderBook.
From S2P Require Import BookSpec.
From S2P Require Import BookInv.
From S2P Require Import BookRules.
From S2P Require Import BookCore.
From S2P Require Import BookRemove.

(** ** The specification's sweep *)

Lemma sweep_zero is_buy limit l : sweep is_buy limit 0 l = (0, l).
Proof. by destruct l. Qed.

Lemma sweep_stop is_buy limit q l :
  match l with [] => True | r :: _ => crosses is_buy limit (r_price r) = false end ->
  sweep is_buy limit q l = (q, l).
Proof. destruct l as [|r l]; [done|]. intros Hc. simpl. by rewrite Hc, andb_false_r. Qed.

Lemma sweep_full is_buy limit q r l :
  0 < q -> crosses is_buy limit (r_price r) = true -> r_qty r <= q ->
  sweep is_buy limit q (r :: l) = sweep is_buy limit (q - r_qty r) l.
Proof.
  intros Hq Hc Hr. simpl. apply Z.ltb_lt in Hq as ->. rewrite Hc. simpl. by apply Z.leb_le in Hr as ->.
Qed.

Lemma sweep_partial is_buy limit q r l :
  0 < q -> crosses is_buy limit (r_price r) = true -> q < r_qty r ->
  sweep is_buy limit q (r :: l) = (0, reduce r q :: l).
Proof.
  intros Hq Hc Hr. simpl. apply Z.ltb_lt in Hq as ->. rewrite Hc. simpl. by apply Z.leb_gt in Hr as ->.
Qed.

(** The front of a side, seen through the queue of the best price. *)
Lemma front_at_price s p (g : list entry) e l :
  ordered s g.*2 -> (forall e, e ∈ g -> no_worse s p (r_price e.2)) -> at_price p g = e :: l ->
  exists g', g = e :: g' /\ at_price p g' = l /\ r_price e.2 = p.
Proof.
  intros Ho Hb Hp. assert (e ∈ at_price p g) as He by (rewrite Hp; set_solver).
  apply elem_at_price in He as [Hpe He]. destruct g as [|e0 g]; [set_solver|].
  assert (r_price e0.2 = p) as Hp0.
  { apply (no_worse_antisym s); [|apply Hb; set_solver].
    apply elem_of_cons in He as [->|He]; [rewrite Hpe; apply no_worse_refl|].
    csimpl in Ho. apply StronglySorted_inv in Ho as [_ Hf]. rewrite Forall_forall in Hf.
    rewrite <- Hpe. apply Hf, list_elem_of_fmap. by exists e. }
  rewrite at_price_cons, decide_True in Hp by done. simplify_eq. by exists g.
Qed.

Section match_order.
Context {Bits : Type} `{PriceIndex Bits} (ticks orders : Z) `{!PriceIndexLaws Bits ticks}.
Hypothesis orders_range : 0 <= orders <= 2 ^ 32.
Implicit Types (b : OrderBook Bits) (G : ghost) (s : bool) (p x : Z) (r : resting) (e : entry).

Abbreviation Core := (Core ticks orders).
Abbreviation Inv := (Inv ticks orders).

(** ** One trade *)

(** The head order is filled completely: it leaves the book. *)
Lemma wp_fill_full {A} (k : prog (OrderBook Bits) A) s b b2 G x r g' lv o Phi :
  Core b G -> G s = (x, r) :: g' ->
  vget (side_levels s b) (r_price r) = Some lv -> vget (heap b) x = Some o ->
  heap b2 = vset (heap b) x (set_o_quantity (o_quantity o - r_qty r) o) ->
  free b2 = free b -> _order_map b2 = _order_map b -> same_index b b2 ->
  level_update s (r_price r) (set_total_quantity (total_quantity lv - r_qty r) lv) b b2 ->
  (forall b', Core b' (ghost_set s g' G) -> same_index b b' ->
     (Indexed b G -> Indexed b' (ghost_set s g' G)) -> wp k b' Phi) ->
  wp (unlink (s, r_price r) (Some x);;
      o ← load (Some x);
      map_set (o_id o) None;;
      deallocate (Some x);;
      k) b2 Phi.
Proof.
  intros HC HG Hlv Ho Hh Hf Hm [Hi1 Hi2] Hlu HP. change (G s = [] ++ (x, r) :: g') in HG.
  destruct (entry_level ticks orders b G s x r [] g' HC HG)
    as (lv' & o' & Hlv' & Ho' & Hid & Hpr & Hq & Hb & (_ & Hv & _) & Hok & _). simplify_eq.
  pose proof (vget_Some_range _ _ _ Ho) as Hx.
  apply wp_bind. eapply (wp_detach ticks orders b b2 G _ x r [] g' lv o (set_o_quantity (o_quantity o - r_qty r) o)); try done.
  - by rewrite Hh, vsize_set.
  - simpl. rewrite (total_sub ticks orders b G _ x r [] g') by (done || lia). csimpl. lia.
  - intros y Hy. rewrite Hh, vget_set_ne; [done|]. set_solver.
  - by rewrite Hh, vget_set_eq.
  - intros b3 lv3 Hd [Hi3 Hi4] Hlu3 Htot. pose proof (dt_order _ _ _ _ _ _ _ _ _ Hd) as (o3 & Ho3 & Hid3 & _).
    apply wp_bind. eapply wp_load; [exact Ho3|]. rewrite Hid3.
    apply wp_assoc, wp_bind. eapply (wp_release ticks orders b); try done. simpl. intros b' HC' [Hi5 Hi6] _ Hix.
    apply HP; try done. split; intros s'; congruence.
Qed.

(** ** The inner loop *)

(** What filling against the level [(s, p)] leaves. *)
Record filled is_buy limit s p q b G rem b' G' : Prop := {
  fd_core : Core b' G';
  fd_other : forall s', s' <> s -> G' s' = G s';
  fd_index : same_index b b';
  fd_indexed : Indexed b G -> Indexed b' G';
  fd_sweep : sweep is_buy limit q (G s).*2 = sweep is_buy limit rem (G' s).*2;
  fd_rem : 0 <= rem <= q;
  fd_done : rem = 0 \/ at_price p (G' s) = [];
  fd_prices : forall p', p' <> p -> at_price p' (G' s) = at_price p' (G s);
  fd_length : (length (G' s) + length (at_price p (G s)) = length (G s) + length (at_price p (G' s)))%nat;
  fd_best : forall e, e ∈ G' s -> no_worse s p (r_price e.2);
}.

Lemma filled_step is_buy limit s p q q1 b b1 G G1 rem b' G' :
  filled is_buy limit s p q1 b1 G1 rem b' G' ->
  (forall s', s' <> s -> G1 s' = G s') -> same_index b b1 -> (Indexed b G -> Indexed b1 G1) ->
  sweep is_buy limit q (G s).*2 = sweep is_buy limit q1 (G1 s).*2 -> q1 <= q ->
  (forall p', p' <> p -> at_price p' (G1 s) = at_price p' (G s)) ->
  (length (G1 s) + length (at_price p (G s)) = length (G s) + length (at_price p (G1 s)))%nat ->
  filled is_buy limit s p q b G rem b' G'.
Proof.
  intros [F1 F2 [F3 F3'] F4 F5 F6 F7 F8 F9 F10] H1 [H2 H2'] H3 H4 H5 H6 H7. split; try done.
  - intros s' Hs. by rewrite F2, H1.
  - split; intros s'; congruence.
  - auto.
  - congruence.
  - lia.
  - intros p' Hp'. by rewrite F8, H6.
  - lia.
Qed.

Lemma filled_refl is_buy limit s p q b G :
  Core b G -> 0 <= q -> q = 0 \/ at_price p (G s) = [] ->
  (forall e, e ∈ G s -> no_worse s p (r_price e.2)) ->
  filled is_buy limit s p q b G q b G.
Proof. intros. split; try done; lia. Qed.

Lemma wp_fill_level fuel is_buy limit s p b G q Phi :
  Core b G -> 0 <= q < 2 ^ 32 -> crosses is_buy limit p = true ->
  (forall e, e ∈ G s -> no_worse s p (r_price e.2)) ->
  (length (at_price p (G s)) < fuel)%nat ->
  (forall rem b' G', filled is_buy limit s p q b G rem b' G' -> Phi rem b') ->
  wp (fill_level fuel (s, p) (first_or (at_price p (G s)).*1 None) q) b Phi.
Proof.
  revert b G q. induction fuel as [|fuel IH]; intros b G q HC Hq Hc Hbest Hfuel HP; [lia|].
  simpl. destruct (at_price p (G s)) as [|[x r] l] eqn:Hl; simpl.
  { apply wp_ret, (HP q b G), filled_refl; try done; [lia|by right]. }
  zcase (q >? 0); [|apply wp_ret, (HP q b G), filled_refl; try done; [lia|left; lia]].
  destruct (front_at_price s p (G s) (x, r) l) as (g' & HG & <- & Hp);
    [apply (core_sorted _ _ _ _ HC)|done|done|]. simpl in Hp. subst p.
  destruct (entry_level ticks orders b G s x r [] g' HC HG)
    as (lv & o & Hlv & Ho & Hid & Hpr & Hqt & Hb & (_ & Hv & _) & Hok & _).
  pose proof (vget_Some_range _ _ _ Ho) as Hx.
  apply wp_bind. eapply wp_load; [done|]. rewrite Hqt.
  apply wp_bind. eapply wp_store; [done|]. apply wp_bind. eapply wp_level_store; [exact Hlv|].
  intros b2 Hlu (Hh & Hf & Hm & Hi). rewrite heap_set_pool in Hh. simpl in Hh.
  apply wp_bind. eapply wp_load; [by rewrite Hh, vget_set_eq|].
  rewrite wrap_small by lia. simpl o_quantity. rewrite Hqt.
  destruct (Z_le_gt_dec (r_qty r) q) as [Hle|Hgt].
  - rewrite Z.min_l in * by done.
    assert ((u31 (r_qty r - r_qty r) =? 0) = true) as -> by (by rewrite Z.sub_diag).
    assert (o_next o = first_or (at_price (r_price r) g').*1 None) as Hnx.
    { destruct Hok as (_ & _ & _ & [(o' & Ho' & _ & Hnx) _]).
      assert (o' = o) as -> by (simpl in Ho'; congruence). exact Hnx. }
    simpl o_next. rewrite Hnx. eapply (wp_fill_full _ s b b2 G x r g' lv o); try done.
    intros b' HC' Hi' Hix'.
    assert (length (at_price (r_price r) (ghost_set s g' G s)) < fuel)%nat as Hfuel'.
    { rewrite ghost_set_eq. simpl in Hfuel. lia. }
    specialize (IH b' (ghost_set s g' G) (q - r_qty r) HC' ltac:(lia) Hc).
    rewrite ghost_set_eq in IH. apply IH; [|by rewrite ghost_set_eq in Hfuel'|].
    { intros e He. apply Hbest. rewrite HG. set_solver. }
    intros rem b'' G' Hfd. apply (HP rem b'' G'). eapply filled_step; [done|..]; try done.
    + intros s' Hs. by rewrite ghost_set_ne.
    + rewrite ghost_set_eq, HG. change ((x, r) :: g').*2 with (r :: g'.*2). by rewrite sweep_full by (done || lia).
    + lia.
    + intros p' Hp'. rewrite ghost_set_eq, HG, at_price_cons, decide_False; [done|]. simpl. congruence.
    + rewrite ghost_set_eq, HG, at_price_cons, decide_True by done. simpl. lia.
  - rewrite Z.min_r in * by lia.
    assert ((u31 (r_qty r - q) =? 0) = false) as -> by (rewrite wrap_small by lia; apply Z.eqb_neq; lia).
    rewrite Z.sub_diag. destruct fuel as [|fuel]; [simpl in *; lia|].
    simpl. apply wp_ret. set (r' := mkResting (r_id r) (r_price r) (r_qty r - q)).
    assert (Core b2 (ghost_set s ((x, r') :: g') G)) as HC2.
    { change ((x, r') :: g') with ([] ++ (x, r') :: g').
      eapply (core_requantify ticks orders b b2 G s (r_price r) x r [] g' _ o); try done; try lia.
      - by rewrite Hh, Hqt.
      - exists lv. split_and!; try done. simpl.
        rewrite (total_sub ticks orders b G s x r [] g') by (done || lia).
        destruct Hok as (_ & _ & Ht & _). rewrite Ht. csimpl. lia. }
    apply (HP 0 b2 (ghost_set s ((x, r') :: g') G)).
    assert (forall e, e ∈ (x, r') :: g' -> no_worse s (r_price r) (r_price e.2)) as Hbest'.
    { intros e [->|He]%elem_of_cons; [apply no_worse_refl|]. apply Hbest. rewrite HG. set_solver. }
    split; try done; rewrite ?ghost_set_eq; try done.
    + intros s' Hs. by rewrite ghost_set_ne.
    + intros Hix s' y r0 Hin. rewrite Hm. destruct (decide (s' = s)) as [->|].
      * rewrite ghost_set_eq in Hin. apply elem_of_cons in Hin as [[= -> ->]|Hin].
        -- apply (Hix s x r). rewrite HG. set_solver.
        -- apply (Hix s y r0). rewrite HG. set_solver.
      * rewrite ghost_set_ne in Hin by done. by apply (Hix s').
    + rewrite HG. change ((x, r) :: g').*2 with (r :: g'.*2). by rewrite sweep_partial, sweep_zero by (done || lia).
    + lia.
    + by left.
    + intros p' Hp'. rewrite HG, !at_price_cons, !decide_False; [done|simpl; congruence..].
    + rewrite HG, !at_price_cons, !decide_True by done. simpl. lia.
Qed.

(** ** The outer loop *)

(** The limits for which the sentinels of an empty side do not look like a
    match: an empty bid side caches price 0, an empty ask side [UINT32_MAX]. *)
Definition limit_ok (is_buy : bool) (price : Z) : Prop :=
  if is_buy then price < UINT32_MAX else 0 < price.

(** The code's test against the cached best price. *)
Definition is_match (is_buy : bool) (price : Z) (b : OrderBook Bits) : bool :=
  if is_buy then price >=? _best_ask b else price <=? _best_bid b.

Lemma is_match_crosses b G is_buy price :
  Inv b G -> limit_ok is_buy price ->
  is_match is_buy price b =
    match G (negb is_buy) with [] => false | e :: _ => crosses is_buy price (r_price e.2) end.
Proof.
  intros HI Hl. destruct (inv_index _ _ _ _ HI (negb is_buy)) as [_ Hb].
  unfold is_match, limit_ok, crosses, side_best in *.
  destruct is_buy; simpl in *; rewrite Hb; destruct (G _) as [|e g]; simpl; try done.
  - rewrite Z.geb_leb. apply Z.leb_gt. done.
  - by rewrite Z.geb_leb.
  - apply Z.leb_gt. done.
Qed.

Record matched is_buy price q b G rem b' G' : Prop := {
  mt_inv : Inv b' G';
  mt_other : G' is_buy = G is_buy;
  mt_indexed : Indexed b G -> Indexed b' G';
  mt_sweep : sweep is_buy price q (G (negb is_buy)).*2 = (rem, (G' (negb is_buy)).*2);
  mt_rem : 0 <= rem <= q;
}.

(** The index after filling at the best price: the level's bit goes exactly
    when the level is empty. *)
Lemma wp_settle {A} (k : prog (OrderBook Bits) A) s p b b' G G' lv Phi :
  Inv b G -> 0 <= p < ticks -> Core b' G' -> same_index b b' ->
  (forall s', s' <> s -> G' s' = G s') ->
  (forall q, q <> p -> at_price q (G' s) = at_price q (G s)) ->
  at_price p (G s) <> [] -> (forall e, e ∈ G' s -> no_worse s p (r_price e.2)) ->
  best_of s (G s) = p ->
  vget (side_levels s b') p = Some lv ->
  (forall b'', Inv b'' G' -> (Indexed b' G' -> Indexed b'' G') -> wp k b'' Phi) ->
  wp ((if total_quantity lv =? 0 then bits_clear s p;; refresh_best else mret tt);; k) b' Phi.
Proof.
  intros HI Hp HC [Hi1 Hi2] Hother Hprices Hne Hbest Hbp Hlv HP.
  destruct (core_level _ _ _ _ HC s p Hp) as (lv' & Hlv' & _ & _ & Htot & _).
  assert (lv' = lv) as -> by congruence.
  assert (positive_qty (at_price p (G' s)).*2) as Hpos
    by (by eapply positive_at_price, (core_positive ticks orders b')).
  assert (forall q, q <> p -> q ∈ prices (G' s) <-> q ∈ prices (G s)) as Hpr.
  { intros q Hq. by rewrite !prices_at_price, Hprices. }
  apply wp_bind. rewrite Htot. zcase (total_qty (at_price p (G' s)).*2 =? 0).
  - apply total_qty_zero in E; [|done]. apply fmap_nil_inv in E.
    eapply (wp_clear_refresh ticks s p b' G (G' s)); [done| | | |].
    + intros s'. destruct (decide (s' = s)) as [->|]; [rewrite ghost_set_eq|rewrite ghost_set_ne by done].
      * apply (core_sorted _ _ _ _ HC).
      * apply (core_sorted _ _ _ _ (inv_core _ _ _ _ HI)).
    + intros s'. rewrite Hi1. apply HI.
    + intros q. destruct (decide (q = p)) as [->|Hq]; [|by naive_solver].
      rewrite prices_at_price, E. naive_solver.
    + intros b'' H1 H2 H3 H4 H5. apply HP.
      * split.
        -- destruct HC. split; rewrite ?H1, ?H2, ?H3; try done; intros; rewrite ?H4; auto.
        -- intros s'. destruct (H5 s') as [(S & HS1 & HS2) HS3]. unfold IndexSide, ghost_set in *.
           case_decide; subst; [split; [by exists S|done]|]. rewrite Hother by done.
           split; [by exists S|done].
      * intros Hix s' x r Hin. rewrite H3. by apply (Hix s').
  - apply wp_ret, HP; [|done]. split; [done|]. intros s'.
    destruct (inv_index _ _ _ _ HI s') as [(S & HS1 & HS2) HS3].
    unfold IndexSide. rewrite Hi1, Hi2. destruct (decide (s' = s)) as [->|]; [|by rewrite Hother; eauto].
    assert (at_price p (G' s) <> []) as Hne' by (intros E'; rewrite E' in E; done).
    split.
    + exists S. split; [done|]. intros q. rewrite HS2. destruct (decide (q = p)) as [->|Hq]; [|by rewrite Hpr].
      by rewrite !prices_at_price.
    + rewrite HS3, Hbp. destruct (at_price p (G' s)) as [|e l] eqn:El; [done|].
      destruct (front_at_price s p (G' s) e l) as (g & -> & _ & Hpe); try done.
      apply (core_sorted _ _ _ _ HC).
Qed.

Lemma wp_match_loop fuel is_buy price q b G Phi :
  Inv b G -> 0 <= q < 2 ^ 32 -> limit_ok is_buy price ->
  (length (G (negb is_buy)) < fuel)%nat ->
  (forall rem b' G', matched is_buy price q b G rem b' G' -> Phi rem b') ->
  wp (match_loop fuel price is_buy q) b Phi.
Proof.
  revert b G q. induction fuel as [|fuel IH]; intros b G q HI Hq Hl Hfuel HP; [lia|].
  cbn [match_loop]. zcase (q >? 0).
  2: { assert (q = 0) as -> by lia. apply wp_ret, (HP 0 b G). by split; rewrite ?sweep_zero. }
  apply wp_bind, wp_get. fold (is_match is_buy price b).
  pose proof (is_match_crosses b G is_buy price HI Hl) as Hm.
  destruct (inv_index _ _ _ _ HI (negb is_buy)) as [_ Hb].
  destruct (G (negb is_buy)) as [|[x r] g] eqn:HG; rewrite Hm; cbn [negb].
  { apply wp_ret, (HP q b G). split; try done; [by rewrite HG|lia]. }
  destruct (crosses is_buy price (r_price (x, r).2)) eqn:Hc; cbn [negb].
  2: { apply wp_ret, (HP q b G). split; try done; [rewrite HG; by apply sweep_stop|lia]. }
  set (s := negb is_buy) in *.
  assert ((if is_buy then _best_ask b else _best_bid b) = r_price r) as ->.
  { rewrite <- (eq_refl : best_of s ((x, r) :: g) = r_price r), <- Hb. by destruct is_buy. }
  pose proof (inv_core _ _ _ _ HI) as HC.
  destruct (core_order _ _ _ _ HC s (x, r)) as [_ (Hp & _)]; [rewrite HG; set_solver|]. simpl in Hp.
  destruct (core_level _ _ _ _ HC s (r_price r) Hp) as (lv & Hlv & Hhd & _).
  apply wp_bind. eapply wp_level_at; [done|]. apply wp_bind. eapply wp_level_load; [done|].
  rewrite Hhd. apply wp_bind.
  assert (forall e, e ∈ G s -> no_worse s (r_price r) (r_price e.2)) as Hbest.
  { rewrite HG. pose proof (core_sorted _ _ _ _ HC s) as Hs. rewrite HG in Hs. csimpl in Hs.
    apply StronglySorted_inv in Hs as [_ Hs]. rewrite Forall_forall in Hs.
    intros e [->|He]%elem_of_cons; [apply no_worse_refl|]. apply Hs, list_elem_of_fmap. by exists e. }
  assert (at_price (r_price r) (G s) <> []) as Hne by by rewrite HG, at_price_cons, decide_True.
  eapply (wp_fill_level _ is_buy price); try done.
  { pose proof (length_at_price (r_price r) (G s)) as Hlen. rewrite HG in Hlen at 2. simpl in *. lia. }
  intros rem b1 G1 [F1 F2 F3 F4 F5 F6 F7 F8 F9 F10].
  destruct (core_level _ _ _ _ F1 s (r_price r) Hp) as (lv1 & Hlv1 & _).
  apply wp_bind. eapply wp_level_load; [done|].
  eapply (wp_settle _ s (r_price r) b b1 G G1); try done; [by rewrite HG|].
  intros b2 HI2 Hix2. destruct F7 as [->|Hempty].
  - destruct fuel as [|fuel]; [simpl in *; lia|]. cbn [match_loop]. simpl. apply wp_ret, (HP 0 b2 G1).
    split; [done| |auto| |lia].
    + apply F2. by destruct is_buy.
    + fold s. by rewrite F5, sweep_zero.
  - apply (IH b2 G1 rem HI2); [lia|done| |].
    + fold s. rewrite Hempty in F9. rewrite HG in F9 at 2. simpl in *.
      destruct (at_price (r_price r) (G s)); [done|]. simpl in *. lia.
    + intros rem' b3 G3 [M1 M2 M3 M4 M5]. apply (HP rem' b3 G3). split; [done| |auto| |lia].
      * rewrite M2. apply F2. by destruct is_buy.
      * fold s. by rewrite F5.
Qed.

Lemma wp_match_order fuel is_buy price q b G Phi :
  Inv b G -> 0 <= q < 2 ^ 32 -> limit_ok is_buy price ->
  (length (G (negb is_buy)) < fuel)%nat ->
  (forall rem b' G', matched is_buy price q b G rem b' G' -> Phi rem b') ->
  wp (match_order fuel price q is_buy) b Phi.
Proof. apply wp_match_loop. Qed.
End match_order.
