(* ===== verification/BookOps.v ===== *)
(** * [add_order], [cancel_order] and [modify_order]

    Each operation, run on a book that satisfies the invariant and on valid
    arguments, finishes without undefined behaviour in a book that satisfies
    the invariant and stands for what the specification computes. *)

From S2P Require Import Prelude.
From S2P Require Import PriceIndex.
From S2P Require Import OrderBook.
From S2P Require Import BookSpec.
From S2P Require Import BookInv.
From S2P Require Import BookRules.
From S2P Require Import BookCore.
From S2P Require Import BookRemove.
From S2P Require Import BookMatch.

(** ** The place of a new order *)

Lemma enqueue_split s r l :
  ordered s l ->
  exists A B, l = A ++ B /\ enqueue s r l = A ++ r :: B /\
    (forall a, a ∈ A -> no_worse s (r_price a) (r_price r)) /\
    (forall a, a ∈ B -> beats s (r_price r) (r_price a) = true).
Proof.
  induction l as [|a l IH]; intros Ho.
  - exists [], []. repeat split; set_solver.
  - simpl. apply StronglySorted_inv in Ho as [Ho Hf]. rewrite Forall_forall in Hf.
    destruct (beats s (r_price r) (r_price a)) eqn:Hb.
    + exists [], (a :: l). repeat split; try done; [set_solver|].
      intros a' [->|Ha']%elem_of_cons; [done|]. specialize (Hf a' Ha').
      unfold no_worse, beats in *. destruct s; zb; apply Z.ltb_lt; lia.
    + destruct (IH Ho) as (A & B & -> & -> & HA & HB). exists (a :: A), B.
      repeat split; try done. intros a' [->|Ha']%elem_of_cons; [done|auto].
Qed.

(** What a sweep leaves was there, up to the quantity. *)
Lemma sweep_sub is_buy limit q l r :
  r ∈ (sweep is_buy limit q l).2 ->
  exists r', r' ∈ l /\ r_id r' = r_id r /\ r_price r' = r_price r /\ r_qty r <= r_qty r'.
Proof.
  revert q. induction l as [|a l IH]; intros q; simpl; [set_solver|].
  destruct ((0 <? q) && _) eqn:E; [|intros Hr; by exists r].
  zcase (r_qty a <=? q).
  - intros (r' & Hr' & ?)%IH. exists r'. split; [set_solver|done].
  - intros [->|Hr]%elem_of_cons; [|exists r; split; [set_solver|done]].
    exists a. zb. simpl. split; [set_solver|]. split_and!; try done. lia.
Qed.

Lemma fmap_app_split {A B} (f : A -> B) (l : list A) (l1 l2 : list B) :
  f <$> l = l1 ++ l2 -> exists k1 k2, l = k1 ++ k2 /\ f <$> k1 = l1 /\ f <$> k2 = l2.
Proof. intros (k1 & k2 & ? & ? & ?)%fmap_app_inv. subst. eauto. Qed.

(** The cached best price after the comparison at the end of [add_order]. *)
Lemma best_insert s (A B : list entry) e :
  0 <= r_price e.2 < UINT32_MAX ->
  (forall a, a ∈ A -> no_worse s (r_price a.2) (r_price e.2)) ->
  (forall a, a ∈ B -> beats s (r_price e.2) (r_price a.2) = true) ->
  best_of s (A ++ e :: B) =
    if beats s (r_price e.2) (best_of s (A ++ B)) then r_price e.2 else best_of s (A ++ B).
Proof.
  intros Hr HA HB. destruct A as [|a A]; simpl.
  - destruct B as [|b B]; simpl; [|by rewrite HB by set_solver].
    unfold beats, sentinel. destruct s.
    + zcase (0 <? r_price e.2); [done|lia].
    + zcase (r_price e.2 <? UINT32_MAX); [done|lia].
  - assert (no_worse s (r_price a.2) (r_price e.2)) as Hn by (apply HA; set_solver).
    unfold no_worse in Hn. by rewrite Hn.
Qed.

(** Removal by id. *)
Lemma remove_id_none id l : (forall r, r ∈ l -> r_id r <> id) -> remove_id id l = l.
Proof.
  induction l as [|a l IH]; intros Hl; [done|]. unfold remove_id. rewrite filter_cons, decide_True by (apply Hl; set_solver).
  f_equal. apply IH. intros r Hr. apply Hl. set_solver.
Qed.

Lemma remove_id_middle id l1 r l2 :
  r_id r = id -> (forall r', r' ∈ l1 ++ l2 -> r_id r' <> id) -> remove_id id (l1 ++ r :: l2) = l1 ++ l2.
Proof.
  intros Hr Hl. unfold remove_id. rewrite filter_app, filter_cons, decide_False by by intros [].
  rewrite <- filter_app. by apply remove_id_none.
Qed.

Section ops.
Context {Bits : Type} `{PriceIndex Bits} (ticks orders : Z) `{!PriceIndexLaws Bits ticks}.
Hypothesis orders_range : 0 <= orders <= 2 ^ 32.
Hypothesis ticks_range : ticks <= UINT32_MAX.
Implicit Types (b : OrderBook Bits) (G : ghost) (s : bool) (p x : Z) (r : resting) (e : entry).

Abbreviation Core := (Core ticks orders).
Abbreviation Inv := (Inv ticks orders).

(** ** Index upkeep *)

(** Setting the bit of a level that was empty. *)
Lemma wp_note_price {A} (k : prog (OrderBook Bits) A) s p b G (c : bool) Phi :
  0 <= p < ticks ->
  (forall s', exists S, represents (side_bits s' b) S /\ forall q, q ∈ S <-> q ∈ prices (G s')) ->
  (c = false -> p ∈ prices (G s)) ->
  (forall b', heap b' = heap b -> free b' = free b -> _order_map b' = _order_map b -> same_levels b b' ->
     (forall s', side_best s' b' = side_best s' b) ->
     (forall s', exists S, represents (side_bits s' b') S /\
        forall q, q ∈ S <-> q ∈ prices (G s') \/ (s' = s /\ q = p)) -> wp k b' Phi) ->
  wp ((if c then bits_set s p else mret tt);; k) b Phi.
Proof.
  intros Hp HS Hc HP. apply wp_bind. destruct c.
  - destruct (HS s) as (S & Ht & HSs). destruct (set_spec _ _ _ Ht Hp) as (t' & Et & Ht').
    apply wp_bind, wp_get, wp_bind. eapply wp_lift; [exact Et|]. apply wp_put, HP; try done.
    intros s'. rewrite side_bits_set. case_decide; subst.
    + exists ({[p]} ∪ S). split; [done|]. intros q. rewrite elem_of_union, elem_of_singleton, HSs. naive_solver.
    + destruct (HS s') as (S' & Ht1 & HS'). exists S'. split; [done|]. intros q. rewrite HS'. naive_solver.
  - apply wp_ret, HP; try done. intros s'. destruct (HS s') as (S' & Ht1 & HS'). exists S'.
    split; [done|]. intros q. rewrite HS'. specialize (Hc eq_refl). naive_solver.
Qed.

(** The comparison with the cached best price. *)
Lemma wp_note_best s p b Phi :
  (forall b', heap b' = heap b -> free b' = free b -> _order_map b' = _order_map b -> same_levels b b' ->
     (forall s', side_bits s' b' = side_bits s' b) ->
     (forall s', side_best s' b' = if decide (s' = s /\ beats s p (side_best s b) = true) then p
                                  else side_best s' b) -> Phi tt b') ->
  wp (b ← get_state;
      if s then
        if p >? _best_bid b then put_state (set_side_best true p b) else mret tt
      else
        if p <? _best_ask b then put_state (set_side_best false p b) else mret tt) b Phi.
Proof.
  intros HP. apply wp_bind, wp_get.
  assert (forall c, c = beats s p (side_best s b) ->
    wp (if c then put_state (set_side_best s p b) else mret tt) b Phi) as Hc.
  { intros [] Ec.
    - apply wp_put, HP; try done. intros s'. rewrite side_best_set. rewrite <- Ec.
      destruct (decide (s' = s)) as [Hs|Hs]; [by rewrite decide_True|].
      rewrite decide_False; [done|by intros []].
    - apply wp_ret, HP; try done. intros s'. rewrite <- Ec. rewrite decide_False; [done|by intros []]. }
  destruct s; apply Hc; simpl; [apply Z.gtb_ltb|done].
Qed.

(** ** add_order *)

(** The resting half of [add_order]: [rem] rests at [price]. *)
Definition rest_order (id price rem : Z) (is_buy : bool) (x : Z) : prog (OrderBook Bits) unit :=
  store (Some x) (set_o_id id);;
  store (Some x) (set_o_price price);;
  store (Some x) (set_o_quantity rem);;
  store (Some x) (set_o_is_buy is_buy);;
  map_set id (Some x);;
  level ← level_at is_buy price;
  lv ← level_load level;
  (if total_quantity lv =? 0 then bits_set is_buy price else mret tt);;
  level_store level (fun l => set_total_quantity (total_quantity l + rem) l);;
  lv ← level_load level;
  (match head lv with
   | None => level_store level (fun l => set_head (Some x) (set_tail (Some x) l))
   | Some _ =>
       store (Some x) (set_o_prev (tail lv));;
       store (tail lv) (set_o_next (Some x));;
       level_store level (set_tail (Some x))
   end);;
  b ← get_state;
  if is_buy then
    if price >? _best_bid b then put_state (set_side_best true price b) else mret tt
  else
    if price <? _best_ask b then put_state (set_side_best false price b) else mret tt.

(** The observations that [rest_order] ends with. *)
Record rested b G s x r b' lv' : Prop := {
  rs_free : free b = x :: free b';
  rs_map : forall id, vget (_order_map b') id =
    if decide (id = r_id r) then Some (Some x) else vget (_order_map b) id;
  rs_map_size : vsize (_order_map b') = vsize (_order_map b);
  rs_size : vsize (heap b') = vsize (heap b);
  rs_level : level_update s (r_price r) lv' b b';
  rs_level_ok : level_ok (heap b') lv' (at_price (r_price r) (G s) ++ [(x, r)]);
  rs_frame : frame (x :: (at_price (r_price r) (G s)).*1) (heap b) (heap b');
  rs_orders : forall e, e ∈ G s -> order_at (heap b) s e -> order_at (heap b') s e;
  rs_order : order_at (heap b') s (x, r);
  rs_bits : forall s', exists S, represents (side_bits s' b') S /\
    forall q, q ∈ S <-> q ∈ prices (G s') \/ (s' = s /\ q = r_price r);
  rs_best : forall s', side_best s' b' =
    if decide (s' = s /\ beats s (r_price r) (side_best s b) = true) then r_price r else side_best s' b;
}.

(** Putting [rested] together with the place of the order. *)
Lemma rested_inv b G s x r b' lv' A B :
  Inv b G -> valid_resting ticks orders r -> rested b G s x r b' lv' -> G s = A ++ B ->
  (forall e, e ∈ A -> no_worse s (r_price e.2) (r_price r)) ->
  (forall e, e ∈ B -> beats s (r_price r) (r_price e.2) = true) ->
  Inv b' (ghost_set s (A ++ (x, r) :: B) G).
Proof.
  intros HI Hv [R1 R2 R3 R4 R5 R6 R7 R8 R9 R10 R11] HG HA HB. split.
  - apply (core_insert ticks orders b b' G s (r_price r) x r A B lv'); try done; apply HI.
  - intros s'. split.
    + destruct (R10 s') as (S & HS1 & HS2). exists S. split; [done|]. intros q. rewrite HS2.
      destruct (decide (s' = s)) as [->|Hs]; [|rewrite ghost_set_ne by done; clear -Hs; tauto].
      rewrite ghost_set_eq, HG. unfold prices. rewrite !fmap_app, fmap_cons. clear. set_solver.
    + rewrite R11. destruct (inv_index _ _ _ _ HI s') as [_ Hb].
      destruct (decide (s' = s)) as [->|Hs].
      * rewrite ghost_set_eq, Hb, HG.
        rewrite (best_insert s A B (x, r)) by (try done; simpl; destruct Hv; lia). simpl.
        destruct (decide _) as [[_ ->]|Hd]; [done|].
        destruct (beats s (r_price r) (best_of s (A ++ B))) eqn:E; [by destruct Hd|done].
      * rewrite decide_False by (by intros []). by rewrite ghost_set_ne.
Qed.

Lemma wp_rest_order id price rem s x fr b G Phi :
  Inv b G -> free b = x :: fr ->
  valid_resting ticks orders (mkResting id price rem) ->
  (forall b' lv', rested b G s x (mkResting id price rem) b' lv' -> Phi tt b') ->
  wp (rest_order id price rem s x) (set_pool (mkOrderPool (heap b) fr) b) Phi.
Proof.
  intros [HC HX] Hfree (Hp & Hq & Hid) HP. simpl in *.
  destruct (core_free _ _ _ _ HC x) as (o & Ho & Hop & Hon); [rewrite Hfree; set_solver|].
  assert (forall s r, (x, r) ∉ G s) as Hfresh.
  { intros s' r. eapply (core_free_fresh ticks orders b); [done|]. rewrite Hfree. set_solver. }
  destruct (core_level _ _ _ _ HC s price Hp) as (lv & Hlv & Hhd & Htl & Htot & Hd).
  set (ws := (at_price price (G s)).*1) in *.
  assert (x ∉ ws) as Hxws by (intros (r & [_ Hr]%elem_at_price)%elem_fst; by eapply Hfresh).
  assert (NoDup (ws ++ [x])) as Hnd.
  { apply NoDup_app. split; [apply NoDup_at_price; by eapply core_nodup|].
    split; [|apply NoDup_singleton]. intros y Hy ->%list_elem_of_singleton. done. }
  pose proof (level_total_bound ticks orders b G s price HC orders_range) as Hbound.
  unfold rest_order. eapply wp_init_order; [done|]. intros h1 Hsz1 Hx1 Ho1.
  rewrite heap_set_pool in *. simpl in Hsz1, Hx1, Ho1. rewrite Hop, Hon, wrap_small in Hx1 by lia.
  apply wp_bind, wp_map_set; [simpl; rewrite (core_map_size _ _ _ _ HC); lia|].
  apply wp_bind. eapply wp_level_at; [exact Hlv|]. apply wp_bind. eapply wp_level_load; [exact Hlv|].
  eapply (wp_note_price _ s price _ G); [done|intros s'; apply HX| |].
  { intros Hz. rewrite prices_at_price. intros E. rewrite Htot, E in Hz. done. }
  intros b5 Hh5 Hf5 Hm5 Hl5 Hb5 HS5. change (heap b5 = h1) in Hh5. change (free b5 = fr) in Hf5.
  change (_order_map b5 = vset (_order_map b) id (Some x)) in Hm5.
  assert (vget (side_levels s b5) price = Some lv) as Hlv5 by by rewrite Hl5.
  apply wp_bind. eapply wp_level_store; [exact Hlv5|]. intros b6 Hlu6 (Hh6 & Hf6 & Hm6 & Hi6 & Hb6).
  apply wp_bind. eapply wp_level_load; [by eapply level_update_get|].
  apply wp_bind. eapply (wp_append _ _ _ _ ws x (mkOrder id None None price rem s)); try done.
  { by eapply level_update_get. }
  { rewrite Hh6, Hh5. eapply dseg_same_links; [|done]. intros y Hy oy Hoy. exists oy.
    rewrite Ho1; [done|]. by intros ->. }
  { by rewrite Hh6, Hh5. }
  intros b7 lv7 [S1 S2 [S3 S3'] S4 S5 S6] Hhd7 Htl7 Htot7 Hd7.
  eapply wp_note_best. intros b8 Hh8 Hf8 Hm8 Hl8 Hb8 Hbest8.
  assert (forall y, vget (heap b6) y = if decide (y = x) then
      Some (mkOrder id None None price rem s) else vget (heap b) y) as H6.
  { intros y. rewrite Hh6, Hh5. destruct (decide (y = x)) as [->|Hy]; [exact Hx1|by apply Ho1]. }
  apply (HP b8 lv7). split; simpl.
  - rewrite Hfree, Hf8, S1, Hf6, Hf5. done.
  - intros i. rewrite Hm8, S2, Hm6, Hm5, vget_set by (rewrite (core_map_size _ _ _ _ HC); lia).
    repeat case_decide; naive_solver.
  - by rewrite Hm8, S2, Hm6, Hm5, vsize_set.
  - by rewrite Hh8, S5, Hh6, Hh5.
  - destruct (level_update_trans _ _ _ _ _ _ _ Hlu6 S4) as [Hu1 Hu2].
    split; [intros s'; by rewrite Hl8, Hu1, Hl5|]. intros s' p'. by rewrite Hl8, Hu2, Hl5.
  - unfold level_ok. rewrite !fmap_app, total_qty_app. simpl. fold ws. rewrite Hh8.
    repeat split; try done. rewrite Htot7. simpl. rewrite Htot, wrap_small; lia.
  - intros y [Hyx Hy]%not_elem_of_cons. rewrite Hh8.
    destruct (vget (heap b) y) as [oy|] eqn:Hoy.
    + assert (vget (heap b6) y = Some oy) as Hoy6 by by rewrite H6, decide_False.
      destruct (S6 _ _ Hoy6) as (o' & Ho' & _ & He). rewrite Ho', He; [done|set_solver].
    + destruct (vget (heap b7) y) as [o7|] eqn:Ho7; [|done]. apply vget_Some_range in Ho7.
      rewrite S5, Hh6, Hh5, Hsz1 in Ho7. by destruct (vget_lookup _ _ Ho7) as [? E]; rewrite E in Hoy.
  - intros [y r] He (oy & Hoy & ? & ? & ? & ?). simpl in *.
    assert (y <> x) as Hne by (intros ->; by eapply Hfresh).
    assert (vget (heap b6) y = Some oy) as Hoy6 by by rewrite H6, decide_False.
    destruct (S6 _ _ Hoy6) as (o' & Ho' & (? & ? & ? & ?) & _). exists o'. simpl.
    rewrite Hh8. repeat split; congruence.
  - assert (vget (heap b6) x = Some (mkOrder id None None price rem s)) as Hx6 by by rewrite H6, decide_True.
    destruct (S6 _ _ Hx6) as (o' & Ho' & (? & ? & ? & ?) & _). exists o'. simpl.
    rewrite Hh8. repeat split; try done.
  - intros s'. rewrite Hb8, S3, Hi6. apply HS5.
  - intros s'. rewrite Hbest8, !S3', !Hb6, !Hb5. done.
Qed.

(** The abstract side of an insertion. *)
Lemma insert_place b G s r :
  Inv b G -> exists A B, G s = A ++ B /\
    (forall x, (A ++ (x, r) :: B).*2 = enqueue s r (G s).*2) /\
    (forall e, e ∈ A -> no_worse s (r_price e.2) (r_price r)) /\
    (forall e, e ∈ B -> beats s (r_price r) (r_price e.2) = true).
Proof.
  intros HI. destruct (enqueue_split s r (G s).*2) as (l1 & l2 & El & Ee & H1 & H2).
  { apply (core_sorted _ _ _ _ (inv_core _ _ _ _ HI)). }
  apply fmap_app_split in El as (A & B & HG & <- & <-). exists A, B. split_and!; try done.
  - intros x. by rewrite Ee, fmap_app.
  - intros e He. apply H1, list_elem_of_fmap. by exists e.
  - intros e He. apply H2, list_elem_of_fmap. by exists e.
Qed.

Lemma a_side_erase s G : a_side s (erase G) = (G s).*2.
Proof. by destruct s. Qed.

Lemma erase_set s g G : erase (ghost_set s g G) = set_a_side s g.*2 (erase G).
Proof. by destruct s. Qed.

Lemma erase_ext s G G' : (G' (negb s) = G (negb s)) -> erase G' = set_a_side s (G' s).*2 (erase G).
Proof. unfold erase, set_a_side. destruct s; simpl; by intros ->. Qed.

Lemma erase_matched is_buy price q b G rem b' G' :
  matched ticks orders is_buy price q b G rem b' G' ->
  spec_match price q is_buy (erase G) = (rem, erase G').
Proof.
  intros [_ M2 _ M4 _]. unfold spec_match. rewrite a_side_erase, M4.
  by rewrite (erase_ext (negb is_buy) G G') by (by rewrite negb_involutive).
Qed.

(** Free slots and resting orders share the pool. *)
Lemma free_count b G : Inv b G -> Z.of_nat (length (free b)) + a_count (erase G) = orders.
Proof.
  intros HI. pose proof (Permutation_length (core_slots _ _ _ _ (inv_core _ _ _ _ HI))) as Hl.
  rewrite !length_app, !length_fmap, length_seqZ in Hl.
  unfold a_count, erase. simpl. rewrite !length_fmap. lia.
Qed.

Lemma Indexed_insert b b' G s x r A B lv' :
  rested b G s x r b' lv' -> G s = A ++ B -> Indexed b G ->
  (forall s' y r', (y, r') ∈ G s' -> r_id r' <> r_id r) ->
  Indexed b' (ghost_set s (A ++ (x, r) :: B) G).
Proof.
  intros HR HG Hix Hfresh s' y r' Hin. rewrite (rs_map _ _ _ _ _ _ _ HR).
  assert ((s' = s /\ y = x /\ r' = r) \/ (y, r') ∈ G s') as [(-> & -> & ->)|Hin'].
  { unfold ghost_set in Hin. case_decide; subst; [|by right]. rewrite HG.
    apply elem_of_app in Hin as [?|[[= -> ->]|?]%elem_of_cons]; [right; set_solver|by left|right; set_solver]. }
  - by rewrite decide_True.
  - rewrite decide_False by by eapply Hfresh. by apply (Hix s').
Qed.

(** No resting order has this id. *)
Definition fresh_id (id : Z) (G : ghost) : Prop := forall s x r, (x, r) ∈ G s -> r_id r <> id.

Lemma matched_fresh is_buy price q b G rem b' G' id :
  matched ticks orders is_buy price q b G rem b' G' -> fresh_id id G -> fresh_id id G'.
Proof.
  intros [_ M2 _ M4 _] Hf s x r Hin. destruct (decide (s = is_buy)) as [->|Hs].
  { rewrite M2 in Hin. by eapply Hf. }
  assert (s = negb is_buy) as -> by by destruct s, is_buy.
  assert (r ∈ (sweep is_buy price q (G (negb is_buy)).*2).2) as Hr.
  { rewrite M4. simpl. apply list_elem_of_fmap. by exists (x, r). }
  apply sweep_sub in Hr as (r' & (e & -> & He)%list_elem_of_fmap & Hid & _). rewrite <- Hid.
  destruct e as [y r']. by eapply Hf.
Qed.

(** What [add_order] may do: trade only, when nothing is left or the pool is
    empty; or trade and then rest. *)
Inductive added id price qty is_buy b G : OrderBook Bits -> ghost -> Prop :=
| added_traded rem b1 G1 : matched ticks orders is_buy price qty b G rem b1 G1 ->
    rem = 0 \/ a_count (erase G1) = orders -> added id price qty is_buy b G b1 G1
| added_rests rem b1 G1 x A B b' lv' : matched ticks orders is_buy price qty b G rem b1 G1 ->
    rem <> 0 -> a_count (erase G1) < orders ->
    rested b1 G1 is_buy x (mkResting id price rem) b' lv' -> G1 is_buy = A ++ B ->
    (A ++ (x, mkResting id price rem) :: B).*2 = enqueue is_buy (mkResting id price rem) (G1 is_buy).*2 ->
    added id price qty is_buy b G b' (ghost_set is_buy (A ++ (x, mkResting id price rem) :: B) G1).

Lemma wp_add_cases fuel id price qty is_buy b G Phi :
  Inv b G -> 0 <= id < orders -> 0 <= price < ticks -> limit_ok is_buy price -> 0 <= qty < 2 ^ 31 ->
  (length (G (negb is_buy)) < fuel)%nat ->
  (forall b' G', Inv b' G' -> added id price qty is_buy b G b' G' -> Phi tt b') ->
  wp (add_order fuel id price qty is_buy) b Phi.
Proof.
  intros HI Hid Hp Hl Hq Hfuel HP. apply wp_bind.
  eapply (wp_match_order ticks orders); try done; [lia|].
  intros rem b1 G1 HM. pose proof HM as [HI1 M2 M3 M4 M5].
  zcase (rem =? 0); [apply wp_ret, (HP b1 G1); [done|econstructor; [done|by left]]|].
  apply wp_bind. unfold allocate. apply wp_bind, wp_get. unfold OrderPool_allocate.
  change (_free_list (book_pool b1)) with (free b1). pose proof (free_count b1 G1 HI1) as Hcnt.
  destruct (free b1) as [|x fr] eqn:Hfree; simpl in Hcnt.
  { assert (set_pool (book_pool b1) b1 = b1) as Eb by by destruct b1.
    apply wp_bind, wp_put, wp_ret, wp_ret. rewrite Eb. apply (HP b1 G1); [done|econstructor; [done|right; lia]]. }
  assert (valid_resting ticks orders (mkResting id price rem)) as Hv by (repeat split; simpl; lia).
  apply wp_bind, wp_put, wp_ret.
  change (wp (rest_order id price rem is_buy x) (set_pool (mkOrderPool (heap b1) fr) b1) Phi).
  eapply wp_rest_order; [done|done|done|]. intros b' lv' HR.
  destruct (insert_place b1 G1 is_buy (mkResting id price rem) HI1) as (A & B & HG & He & HA & HB).
  apply (HP b' (ghost_set is_buy (A ++ (x, mkResting id price rem) :: B) G1)).
  - by apply (rested_inv b1 G1 is_buy x (mkResting id price rem) b' lv').
  - econstructor; [done|lia|lia|done|done|apply He].
Qed.

Lemma added_spec id price qty is_buy b G b' G' :
  added id price qty is_buy b G b' G' -> erase G' = spec_add orders id price qty is_buy (erase G).
Proof.
  intros [rem b1 G1 HM Hend|rem b1 G1 x A B b2 lv' HM Hrem Hroom _ _ He]; unfold spec_add;
    rewrite (erase_matched _ _ _ _ _ _ _ _ HM).
  - zcase (rem =? 0); [done|]. zcase (a_count (erase G1) <? orders); [lia|done].
  - zcase (rem =? 0); [done|]. zcase (a_count (erase G1) <? orders); [|lia]. by rewrite erase_set, He, a_side_erase.
Qed.

Lemma wp_add_order fuel id price qty is_buy b G Phi :
  Inv b G -> 0 <= id < orders -> 0 <= price < ticks -> limit_ok is_buy price -> 0 <= qty < 2 ^ 31 ->
  (length (G (negb is_buy)) < fuel)%nat ->
  (forall b' G', Inv b' G' -> erase G' = spec_add orders id price qty is_buy (erase G) ->
     (Indexed b G -> fresh_id id G -> Indexed b' G') -> Phi tt b') ->
  wp (add_order fuel id price qty is_buy) b Phi.
Proof.
  intros HI Hid Hp Hl Hq Hfuel HP. eapply wp_add_cases; try done. intros b' G' HI' Had.
  apply (HP b' G'); [done|by apply (added_spec _ _ _ _ b _ b')|]. intros Hix Hf.
  destruct Had as [rem b1 G1 HM _|rem b1 G1 x A B b2 lv' HM _ _ HR HG _]; [by apply HM|].
  eapply Indexed_insert; [done|done|by apply HM|]. by eapply matched_fresh.
Qed.

(** ** cancel_order *)

Lemma Indexed_unique b G s s' x y r r' :
  Core b G -> Indexed b G -> (x, r) ∈ G s -> (y, r') ∈ G s' -> r_id r = r_id r' ->
  s = s' /\ (x, r) = (y, r').
Proof.
  intros HC Hix H1 H2 Hid. apply (entry_unique ticks orders b G s s'); try done. simpl.
  apply Hix in H1, H2. congruence.
Qed.

(** What is left at the front when an order that is not the last one of its
    price leaves. *)
Lemma best_remove s (A B : list entry) e :
  ordered s (A ++ e :: B).*2 -> at_price (r_price e.2) (A ++ B) <> [] ->
  best_of s (A ++ B) = best_of s (A ++ e :: B).
Proof.
  intros Ho Hne. destruct A as [|a A]; [|done]. simpl in *.
  destruct (at_price (r_price e.2) B) as [|e' l] eqn:E; [done|].
  apply StronglySorted_inv in Ho as [Ho Hf]. rewrite Forall_forall in Hf.
  destruct (front_at_price s (r_price e.2) B e' l) as (B' & -> & _ & Hp); try done.
  intros e0 He0. apply Hf, list_elem_of_fmap. by exists e0.
Qed.

Lemma prices_middle p (A B : list entry) e :
  p <> r_price e.2 -> p ∈ prices (A ++ B) <-> p ∈ prices (A ++ e :: B).
Proof. intros Hp. rewrite !prices_at_price. by rewrite (at_price_middle_ne (r_price e.2)). Qed.

Lemma detached_transfer b G s x r A B b3 lv3 b4 :
  detached b G s x r A B b3 lv3 -> heap b4 = heap b3 -> free b4 = free b3 ->
  _order_map b4 = _order_map b3 -> same_levels b3 b4 -> detached b G s x r A B b4 lv3.
Proof.
  intros [D1 D2 D3 [D4 D4'] D5 D6 D7 D8] Hh Hf Hm Hl. split; rewrite ?Hh, ?Hf, ?Hm; try done.
  split; intros; rewrite Hl; auto.
Qed.

(** [cancel_order] once the order is found. *)
Lemma wp_cancel_found id b G s x r A B Phi :
  Inv b G -> G s = A ++ (x, r) :: B -> r_id r = id -> vget (_order_map b) id = Some (Some x) ->
  (forall b', Inv b' (ghost_set s (A ++ B) G) -> (Indexed b G -> Indexed b' (ghost_set s (A ++ B) G)) ->
     Phi tt b') ->
  wp (cancel_order id) b Phi.
Proof.
  intros HI HG Hid Hmap HP. pose proof HI as [HC HX].
  destruct (entry_level ticks orders b G s x r A B HC HG)
    as (lv & o & Hlv & Ho & Hoid & Hop & Hoq & Hob & (Hp & Hq & _) & Hok & _).
  apply wp_bind. eapply wp_map_get; [done|]. apply wp_bind. eapply wp_load; [done|].
  rewrite Hob, Hop. apply wp_bind. eapply wp_level_at; [done|].
  apply wp_bind. eapply wp_level_store; [done|]. intros b1 Hlu (Hh1 & Hf1 & Hm1 & [Hi1 Hi1']).
  apply wp_bind. eapply (wp_detach ticks orders b b1 G s x r A B lv o o); try done.
  { by rewrite Hh1. }
  { simpl. rewrite Hoq, (total_sub ticks orders b G s x r A B) by (done || lia).
    rewrite at_price_app, fmap_app, total_qty_app. lia. }
  { intros y _. by rewrite Hh1. }
  { by rewrite Hh1. }
  intros b3 lv3 HD [Hi3 Hi3'] Hlu3 Htot3. apply wp_bind. eapply wp_level_load; [by eapply level_update_get|].
  pose proof (dt_level_ok _ _ _ _ _ _ _ _ _ HD) as (_ & _ & Htot & _).
  pose proof (dt_order _ _ _ _ _ _ _ _ _ HD) as (o3 & Ho3 & _ & Hp3 & Hb3).
  assert (Hcont : forall b4, heap b4 = heap b3 -> free b4 = free b3 -> _order_map b4 = _order_map b3 ->
    same_levels b3 b4 -> (forall s', IndexSide ticks b4 (ghost_set s (A ++ B) G) s') ->
    wp (map_set id None;; deallocate (Some x)) b4 Phi).
  { intros b4 Hh4 Hf4 Hm4 Hl4 HX4. rewrite <- Hid.
    eapply (wp_release ticks orders b); [done|done|by eapply detached_transfer|].
    intros b' HC' [Hi' Hi''] _ Hix. apply HP; [|done]. split; [done|]. intros s'.
    unfold IndexSide. rewrite Hi', Hi''. apply HX4. }
  pose proof (core_sorted _ _ _ _ HC) as Hsort.
  assert (positive_qty (at_price (r_price r) (A ++ B)).*2) as Hpos.
  { apply positive_at_price. pose proof (core_positive ticks orders b G s HC) as Hps.
    rewrite HG, fmap_app in Hps. rewrite fmap_app. unfold positive_qty in *.
    apply Forall_app in Hps as [H1 [_ H2]%Forall_cons]. by apply Forall_app. }
  apply wp_bind. rewrite Htot. zcase (total_qty (at_price (r_price r) (A ++ B)).*2 =? 0).
  - apply total_qty_zero in E; [|done]. apply fmap_nil_inv in E.
    apply wp_bind. eapply wp_load; [done|]. rewrite Hp3, Hb3.
    eapply (wp_clear_refresh ticks s (r_price r) b3 G (A ++ B)); [done| | | |done].
    + intros s'. unfold ghost_set. destruct (decide (s' = s)) as [->|]; [|apply Hsort].
      specialize (Hsort s). rewrite HG, fmap_app in Hsort. rewrite fmap_app. by eapply ordered_remove.
    + intros s'. rewrite Hi3, Hi1. apply HX.
    + intros q. destruct (decide (q = r_price r)) as [->|Hne]; [rewrite prices_at_price, E; naive_solver|].
      rewrite (prices_middle q A B (x, r)) by done. rewrite HG. naive_solver.
  - apply wp_ret, Hcont; try done. intros s'. destruct (HX s') as [(S & HS1 & HS2) HS3].
    unfold IndexSide. rewrite Hi3, Hi3', Hi1, Hi1'. unfold ghost_set. destruct (decide (s' = s)) as [->|]; [|by eauto].
    assert (at_price (r_price r) (A ++ B) <> []) as Hne by (intros E'; by rewrite E' in E).
    split.
    + exists S. split; [done|]. intros q. rewrite HS2, HG. symmetry.
      destruct (decide (q = r_price r)) as [->|Hq']; [|by apply prices_middle].
      split; intros _; [|by apply prices_at_price]. apply elem_prices. exists (x, r). set_solver.
    + rewrite HS3, HG. symmetry. apply best_remove; [|done]. rewrite <- HG. apply Hsort.
Qed.

(** What cancelling does to the ghost state, in general: the id table says
    which order goes. *)
Inductive cancelled id b G : ghost -> Prop :=
| cancelled_none : vget (_order_map b) id = Some None -> cancelled id b G G
| cancelled_some s x r A B :
    vget (_order_map b) id = Some (Some x) -> G s = A ++ (x, r) :: B -> r_id r = id ->
    cancelled id b G (ghost_set s (A ++ B) G).

Lemma wp_cancel_order id b G Phi :
  Inv b G -> 0 <= id < orders ->
  (forall b' G', Inv b' G' -> cancelled id b G G' -> (Indexed b G -> Indexed b' G') -> Phi tt b') ->
  wp (cancel_order id) b Phi.
Proof.
  intros HI Hid HP. pose proof HI as [HC _].
  destruct (vget_lookup (_order_map b) id) as [[x|] Hm]; [by rewrite (core_map_size _ _ _ _ HC)| |].
  - destruct (core_map _ _ _ _ HC id x Hm) as (s & r & Hin & Hr).
    apply list_elem_of_split in Hin as (A & B & HG).
    eapply (wp_cancel_found id b G s x r A B); try done. intros b' HI' Hix.
    eapply HP; [done|by econstructor|done].
  - apply wp_bind. eapply wp_map_get; [done|]. apply wp_ret. eapply HP; [done|by constructor|done].
Qed.

(** Ids are unique around an order. *)
Lemma Indexed_others b G s x r A B :
  Core b G -> Indexed b G -> G s = A ++ (x, r) :: B ->
  (forall r', r' ∈ (A ++ B).*2 -> r_id r' <> r_id r) /\
  (forall r', r' ∈ (G (negb s)).*2 -> r_id r' <> r_id r).
Proof using Type.
  clear orders_range ticks_range.
  intros HC Hix HG. assert ((x, r) ∈ G s) as Hin by (rewrite HG; set_solver).
  split; intros r' ([y r0] & -> & He)%list_elem_of_fmap Hid; simpl in *.
  - pose proof (middle_fresh _ _ _ _ _ _ _ _ _ _ _ HC HG He) as Hne. apply Hne.
    destruct (Indexed_unique b G s s y x r0 r HC Hix) as [_ [=]]; try done. rewrite HG. set_solver.
  - destruct (Indexed_unique b G (negb s) s y x r0 r HC Hix He Hin Hid) as [Hs _]. by destruct s.
Qed.

Lemma cancelled_spec id b G G' :
  Inv b G -> Indexed b G -> 0 <= id < orders -> cancelled id b G G' -> erase G' = spec_cancel id (erase G).
Proof using Type.
  clear orders_range ticks_range.
  intros [HC _] Hix Hid Hc. unfold spec_cancel. inversion Hc as [Hm|s x r A B Hm HG Hr]; subst.
  - assert (forall s r, r ∈ (G' s).*2 -> r_id r <> id) as Hn.
    { intros s r ([y r0] & -> & He)%list_elem_of_fmap Hr. simpl in Hr. apply Hix in He. rewrite Hr in He. congruence. }
    unfold erase. simpl. by rewrite !remove_id_none by eauto.
  - destruct (Indexed_others b G s x r A B HC Hix HG) as [H1 H2].
    assert ((A ++ B).*2 = remove_id (r_id r) (G s).*2) as Es.
    { rewrite HG, !fmap_app, fmap_cons. symmetry. apply remove_id_middle; [done|]. by rewrite <- fmap_app. }
    assert ((G (negb s)).*2 = remove_id (r_id r) (G (negb s)).*2) as En by by rewrite remove_id_none.
    rewrite erase_set, Es. unfold set_a_side, erase. destruct s; simpl in *; by rewrite <- En.
Qed.
End ops.
