(* ===== verification/BookModify.v ===== *)
(** * [modify_order]

    A modification either shrinks an order where it stands in its queue, or
    is a cancel followed by an add with the same id and side. *)

From S2P Require Import Prelude.
From S2P Require Import PriceIndex.
From S2P Require Import OrderBook.
From S2P Require Import BookSpec.
From S2P Require Import BookInv.
From S2P Require Import BookRules.
From S2P Require Import BookCore.
From S2P Require Import BookRemove.
From S2P Require Import BookMatch.
From S2P Require Import BookOps.

(** ** The specification's lookups *)

Lemma find_id_none id l : (forall r, r ∈ l -> r_id r <> id) -> find_id id l = None.
Proof.
  induction l as [|a l IH]; intros Hl; [done|]. unfold find_id. simpl.
  assert ((r_id a =? id) = false) as -> by (apply Z.eqb_neq, Hl; set_solver).
  apply IH. intros r Hr. apply Hl. set_solver.
Qed.

Lemma find_id_middle l1 r l2 :
  (forall r', r' ∈ l1 -> r_id r' <> r_id r) -> find_id (r_id r) (l1 ++ r :: l2) = Some r.
Proof.
  induction l1 as [|a l1 IH]; intros Hl; unfold find_id; simpl; [by rewrite Z.eqb_refl|].
  assert ((r_id a =? r_id r) = false) as -> by (apply Z.eqb_neq, Hl; set_solver).
  apply IH. intros r' Hr'. apply Hl. set_solver.
Qed.

Lemma requantify_none id q l : (forall r, r ∈ l -> r_id r <> id) -> requantify id q l = l.
Proof.
  induction l as [|a l IH]; intros Hl; [done|]. unfold requantify. simpl.
  assert ((r_id a =? id) = false) as -> by (apply Z.eqb_neq, Hl; set_solver).
  f_equal. apply IH. intros r Hr. apply Hl. set_solver.
Qed.

Lemma requantify_middle q l1 r l2 :
  (forall r', r' ∈ l1 ++ l2 -> r_id r' <> r_id r) ->
  requantify (r_id r) q (l1 ++ r :: l2) = l1 ++ mkResting (r_id r) (r_price r) q :: l2.
Proof.
  intros Hl. unfold requantify. rewrite map_app. simpl. rewrite Z.eqb_refl. f_equal; [|f_equal].
  - apply requantify_none. set_solver.
  - apply requantify_none. set_solver.
Qed.

Section modify.
Context {Bits : Type} `{PriceIndex Bits} (ticks orders : Z) `{!PriceIndexLaws Bits ticks}.
Hypothesis orders_range : 0 <= orders <= 2 ^ 32.
Hypothesis ticks_range : ticks <= UINT32_MAX.
Implicit Types (b : OrderBook Bits) (G : ghost) (s : bool) (p x : Z) (r : resting) (e : entry).

Abbreviation Core := (Core ticks orders).
Abbreviation Inv := (Inv ticks orders).

(** ** Shrinking in place *)

(** The tail of [modify_order]: the order's quantity, then its level's total. *)
Definition shrink (x new_qty : Z) (qty_reduction : Z) : prog (OrderBook Bits) unit :=
  store (Some x) (set_o_quantity new_qty);;
  o ← load (Some x);
  level ← level_at (o_is_buy o) (o_price o);
  level_store level (fun l => set_total_quantity (total_quantity l - qty_reduction) l).

Lemma best_of_middle s (A B : list entry) x r q :
  best_of s (A ++ (x, mkResting (r_id r) (r_price r) q) :: B) = best_of s (A ++ (x, r) :: B).
Proof. by destruct A. Qed.

Lemma prices_requantify (A B : list entry) x r q :
  prices (A ++ (x, mkResting (r_id r) (r_price r) q) :: B) = prices (A ++ (x, r) :: B).
Proof. unfold prices. by rewrite !fmap_app. Qed.

Lemma wp_shrink b G s x r A B q Phi :
  Inv b G -> G s = A ++ (x, r) :: B -> 0 < q <= r_qty r ->
  (forall b', Inv b' (ghost_set s (A ++ (x, mkResting (r_id r) (r_price r) q) :: B) G) ->
     _order_map b' = _order_map b -> Phi tt b') ->
  wp (shrink x q (u32 (r_qty r - q))) b Phi.
Proof.
  intros [HC HX] HG Hq HP.
  destruct (entry_level ticks orders b G s x r A B HC HG)
    as (lv & o & Hlv & Ho & Hoid & Hop & Hoq & Hob & (Hp & Hrq & Hrid) & Hok & _).
  pose proof (vget_Some_range _ _ _ Ho) as Hx.
  apply wp_bind. eapply wp_store; [done|].
  set (b1 := set_pool _ b).
  assert (vget (heap b1) x = Some (set_o_quantity q o)) as Ho1 by by apply vget_set_eq.
  apply wp_bind. eapply wp_load; [done|]. simpl. rewrite Hob, Hop.
  apply wp_bind. eapply (wp_level_at s _ lv); [by destruct s|].
  eapply (wp_level_store s _ lv); [by destruct s|].
  intros b' [Hlu1 Hlu2] (Hh & Hf & Hm & [Hi1 Hi2]). rewrite wrap_small in Hlu2 by lia.
  apply HP; [|by rewrite Hm].
  split.
  - eapply (core_requantify ticks orders b b' G s (r_price r) x r A B); try done; [lia|].
    exists lv. split_and!; try done. simpl.
    rewrite (total_sub ticks orders b G s x r A B) by (done || lia).
    destruct Hok as (_ & _ & -> & _). rewrite !fmap_app, !total_qty_app. csimpl. lia.
  - intros s'. unfold IndexSide. rewrite Hi1, Hi2.
    destruct (HX s') as [(S & HS1 & HS2) HS3]. unfold ghost_set. destruct (decide (s' = s)) as [->|].
    + rewrite prices_requantify, best_of_middle, <- HG. split; [by exists S|exact HS3].
    + split; [by exists S|exact HS3].
Qed.

(** ** What modifying does, in general: the id table says which order changes. *)
Inductive modified id new_price new_qty b G : abook -> Prop :=
| modified_none :
    vget (_order_map b) id = Some None -> modified id new_price new_qty b G (erase G)
| modified_requeue s x r A B :
    vget (_order_map b) id = Some (Some x) -> G s = A ++ (x, r) :: B -> r_id r = id ->
    new_price <> r_price r \/ r_qty r < new_qty ->
    modified id new_price new_qty b G
      (spec_add orders id new_price new_qty s (erase (ghost_set s (A ++ B) G)))
| modified_cancel s x r A B :
    vget (_order_map b) id = Some (Some x) -> G s = A ++ (x, r) :: B -> r_id r = id ->
    new_price = r_price r -> new_qty = 0 ->
    modified id new_price new_qty b G (erase (ghost_set s (A ++ B) G))
| modified_shrink s x r A B :
    vget (_order_map b) id = Some (Some x) -> G s = A ++ (x, r) :: B -> r_id r = id ->
    new_price = r_price r -> 0 < new_qty <= r_qty r ->
    modified id new_price new_qty b G
      (erase (ghost_set s (A ++ (x, mkResting (r_id r) (r_price r) new_qty) :: B) G)).

(** The side a modification keeps; its new price must not look like a match
    against an empty opposite side. *)
Definition modify_ok id new_price G : Prop :=
  forall s x r, (x, r) ∈ G s -> r_id r = id -> limit_ok s new_price.

Lemma wp_modify_found fuel id new_price new_qty b G s x r A B Phi :
  Inv b G -> 0 <= new_price < ticks -> 0 <= new_qty < 2 ^ 31 -> modify_ok id new_price G ->
  (forall s, (length (G s) < fuel)%nat) ->
  vget (_order_map b) id = Some (Some x) -> G s = A ++ (x, r) :: B -> r_id r = id ->
  (forall b' G', Inv b' G' -> modified id new_price new_qty b G (erase G') ->
     (Indexed b G -> Indexed b' G') -> Phi tt b') ->
  wp (modify_order fuel id new_price new_qty) b Phi.
Proof.
  intros HI Hp Hq Hok Hfuel Hmap HG Hid HP. pose proof (inv_core _ _ _ _ HI) as HC.
  destruct (entry_level ticks orders b G s x r A B HC HG)
    as (lv & o & _ & Ho & Hoid & Hop & Hoq & Hob & (_ & Hrq & Hrid) & _).
  rewrite Hid in Hrid.
  apply wp_bind. eapply wp_map_get; [done|]. apply wp_bind. eapply wp_load; [done|].
  rewrite Hop, Hoq, Hob.
  zcase (negb (new_price =? r_price r) || (new_qty >? r_qty r)).
  - apply wp_bind. eapply (wp_cancel_found ticks orders); try done. intros b1 HI1 Hix1.
    eapply (wp_add_order ticks orders); try done.
    { eapply (Hok s x r); [rewrite HG; set_solver|done]. }
    { rewrite ghost_set_ne by by destruct s. apply Hfuel. }
    intros b' G' HI' He Hix'. apply (HP b' G'); [done| |].
    + rewrite He. econstructor; try done. apply orb_true_iff in E as [E|E]; [left|right].
      * apply negb_true_iff in E. by zb.
      * by zb.
    + intros Hix. apply Hix'; [auto|]. intros s' y r' Hin.
      destruct (Indexed_others ticks orders b G s x r A B HC Hix HG) as [Ho1 Ho2]. subst id.
      destruct (decide (s' = s)) as [->|Hs].
      * rewrite ghost_set_eq in Hin. apply Ho1, list_elem_of_fmap. by exists (y, r').
      * rewrite ghost_set_ne in Hin by done. assert (s' = negb s) as -> by by destruct s, s'.
        apply Ho2, list_elem_of_fmap. by exists (y, r').
  - apply negb_false_iff in H0. zb. zcase (new_qty =? 0).
    + eapply (wp_cancel_found ticks orders); try done. intros b1 HI1 Hix1.
      apply (HP b1 (ghost_set s (A ++ B) G)); [done| |done]. by eapply modified_cancel.
    + change (wp (shrink x new_qty (u32 (r_qty r - new_qty))) b Phi).
      eapply (wp_shrink b G s x r A B); [done|done|lia|]. intros b' HI' Hm.
      eapply HP; [done|eapply modified_shrink; try done; lia|].
      intros Hix s' y r' Hin. rewrite Hm. destruct (decide (s' = s)) as [->|Hs].
      * rewrite ghost_set_eq in Hin. apply elem_of_app in Hin as [Hin|[[= -> ->]|Hin]%elem_of_cons].
        -- apply (Hix s). rewrite HG. set_solver.
        -- by rewrite <- Hmap, <- Hid.
        -- apply (Hix s). rewrite HG. set_solver.
      * rewrite ghost_set_ne in Hin by done. by apply (Hix s').
Qed.

Lemma wp_modify_order fuel id new_price new_qty b G Phi :
  Inv b G -> 0 <= id < orders -> 0 <= new_price < ticks -> 0 <= new_qty < 2 ^ 31 ->
  modify_ok id new_price G -> (forall s, (length (G s) < fuel)%nat) ->
  (forall b' G', Inv b' G' -> modified id new_price new_qty b G (erase G') ->
     (Indexed b G -> Indexed b' G') -> Phi tt b') ->
  wp (modify_order fuel id new_price new_qty) b Phi.
Proof.
  intros HI Hid Hp Hq Hok Hfuel HP. pose proof HI as [HC _].
  destruct (vget_lookup (_order_map b) id) as [[x|] Hm]; [by rewrite (core_map_size _ _ _ _ HC)| |].
  - destruct (core_map _ _ _ _ HC id x Hm) as (s & r & Hin & Hr).
    apply list_elem_of_split in Hin as (A & B & HG).
    by eapply (wp_modify_found fuel id new_price new_qty b G s x r A B).
  - apply wp_bind. eapply wp_map_get; [done|]. apply wp_ret, (HP b G); [done|by constructor|done].
Qed.

(** ** With unique ids, that is the specification's modification *)

Lemma spec_find_none id b G :
  Indexed b G -> vget (_order_map b) id = Some None -> spec_find id (erase G) = None.
Proof.
  intros Hix Hm.
  assert (forall s r, r ∈ (G s).*2 -> r_id r <> id) as Hn.
  { intros s r ([y r0] & -> & He)%list_elem_of_fmap Hr. simpl in Hr. apply Hix in He. rewrite Hr in He. congruence. }
  unfold spec_find, erase. simpl. by rewrite !find_id_none by eauto.
Qed.

Lemma spec_find_some b G s x r A B :
  Core b G -> Indexed b G -> G s = A ++ (x, r) :: B -> spec_find (r_id r) (erase G) = Some (s, r).
Proof.
  intros HC Hix HG. destruct (Indexed_others ticks orders b G s x r A B HC Hix HG) as [Ho1 Ho2].
  assert (find_id (r_id r) (G s).*2 = Some r) as E1.
  { rewrite HG, fmap_app. apply find_id_middle. intros r' Hr'. apply Ho1. rewrite fmap_app. set_solver. }
  assert (find_id (r_id r) (G (negb s)).*2 = None) as E2 by by apply find_id_none.
  unfold spec_find, erase. destruct s; simpl in *; by rewrite ?E1, ?E2.
Qed.

Lemma erase_cancelled b G s x r A B :
  Inv b G -> Indexed b G -> G s = A ++ (x, r) :: B -> vget (_order_map b) (r_id r) = Some (Some x) ->
  0 <= r_id r < orders -> erase (ghost_set s (A ++ B) G) = spec_cancel (r_id r) (erase G).
Proof.
  intros HI Hix HG Hm Hid. eapply (cancelled_spec ticks orders); try done. by econstructor.
Qed.

Lemma modified_spec id new_price new_qty b G a :
  Inv b G -> Indexed b G -> 0 <= id < orders -> modified id new_price new_qty b G a ->
  a = spec_modify orders id new_price new_qty (erase G).
Proof.
  intros HI Hix Hid Hmod. pose proof (inv_core _ _ _ _ HI) as HC. unfold spec_modify.
  inversion Hmod as [Hm|s x r A B Hm HG Hr Hc|s x r A B Hm HG Hr Hp Hc|s x r A B Hm HG Hr Hp Hc]; subst.
  - by rewrite (spec_find_none id b G).
  - rewrite (spec_find_some b G s x r A B), (erase_cancelled b G s x r A B) by done.
    destruct (_ || _) eqn:E; [done|]. zb. apply negb_false_iff in H0. zb. lia.
  - rewrite (spec_find_some b G s x r A B), (erase_cancelled b G s x r A B) by done.
    rewrite Z.eqb_refl. simpl. zcase (r_qty r <? 0); [|done].
    destruct (core_order _ _ _ _ HC s (x, r)) as [_ (_ & Hv & _)]; [rewrite HG; set_solver|]. simpl in *. lia.
  - rewrite (spec_find_some b G s x r A B) by done.
    destruct (Indexed_others ticks orders b G s x r A B HC Hix HG) as [Ho1 _].
    rewrite Z.eqb_refl. simpl. zcase (r_qty r <? new_qty); [lia|]. zcase (new_qty =? 0); [lia|].
    rewrite erase_set, a_side_erase, HG, !fmap_app. csimpl. rewrite requantify_middle; [done|].
    by rewrite <- fmap_app.
Qed.
End modify.
