(* ===== verification/BookSpecFacts.v ===== *)
(** * Facts about the specification: priority, conservation, no crossed book

    What price-time priority means for [sweep] and [enqueue], that trading
    neither creates nor loses quantity, and that the operations keep the two
    sides ordered and uncrossed. *)

From S2P Require Import Prelude.
From S2P Require Import BookSpec.
From S2P Require Import BookCore.
From S2P Require Import BookOps.

Implicit Types (l : list resting) (r : resting) (a : abook).

(** The opposite side of an incoming order is walked in its own order. *)
Lemma crosses_no_worse s limit p q :
  no_worse (negb s) p q -> crosses s limit q = true -> crosses s limit p = true.
Proof. unfold no_worse, beats, crosses. destruct s; simpl; intros; zb; apply Z.leb_le; lia. Qed.

Lemma sweep_conserves s limit q l :
  q - (sweep s limit q l).1 = total_qty l - total_qty (sweep s limit q l).2.
Proof.
  revert q. induction l as [|r l IH]; intros q; simpl; [lia|].
  destruct ((0 <? q) && _); simpl; [|lia]. zcase (r_qty r <=? q); simpl; [|lia].
  specialize (IH (q - r_qty r)). lia.
Qed.

Lemma sweep_range s limit q l : positive_qty l -> 0 <= q -> 0 <= (sweep s limit q l).1 <= q.
Proof.
  intros Hl. revert q. induction Hl as [|r l Hr Hl IH]; intros q Hq; simpl; [lia|].
  destruct ((0 <? q) && _); simpl; [|lia]. zcase (r_qty r <=? q); simpl; [|lia].
  specialize (IH (q - r_qty r) ltac:(lia)). lia.
Qed.

(** The shape of a sweep: whole orders from the front, then at most one
    partial fill, and then the limit or the quantity stops it. *)
Lemma sweep_shape s limit q l :
  positive_qty l -> 0 <= q ->
  exists filled rest, l = filled ++ rest /\ Forall (fun r => crosses s limit (r_price r) = true) filled /\
    ((sweep s limit q l).2 = rest \/
     exists r t rest', rest = r :: rest' /\ crosses s limit (r_price r) = true /\ 0 < t < r_qty r /\
       sweep s limit q l = (0, reduce r t :: rest')) /\
    (0 < (sweep s limit q l).1 ->
       match rest with [] => True | r :: _ => crosses s limit (r_price r) = false end).
Proof.
  intros Hl. revert q. induction Hl as [|r l Hr Hl IH]; intros q Hq; simpl.
  { exists [], []. repeat split; eauto. }
  destruct ((0 <? q) && _) eqn:E.
  - zb. zcase (r_qty r <=? q).
    + destruct (IH (q - r_qty r) ltac:(lia)) as (f & rest & -> & Hf & Hs & Hstop).
      exists (r :: f), rest. repeat split; eauto.
    + exists [], (r :: l). repeat split; simpl; [constructor| |lia].
      right. exists r, q, l. repeat split; try done.
  - exists [], (r :: l). repeat split; simpl; [constructor|by left|]. intros Hq'.
    apply andb_false_iff in E as [E|E]; [zb; lia|done].
Qed.

Lemma sweep_positive s limit q l : positive_qty l -> positive_qty (sweep s limit q l).2.
Proof.
  intros Hl. revert q. induction Hl as [|r l Hr Hl IH]; intros q; simpl; [constructor|].
  destruct ((0 <? q) && _); simpl; [|by constructor]. zcase (r_qty r <=? q); simpl; [apply IH|].
  constructor; [simpl; lia|done].
Qed.

Lemma ordered_inv s r l : ordered s (r :: l) -> ordered s l /\ forall r', r' ∈ l -> no_worse s (r_price r) (r_price r').
Proof. intros [H1 H2]%StronglySorted_inv. rewrite Forall_forall in H2. done. Qed.

Lemma sweep_ordered s limit q l side : ordered side l -> ordered side (sweep s limit q l).2.
Proof.
  revert q. induction l as [|r l IH]; intros q Ho; simpl; [constructor|].
  destruct ((0 <? q) && _); simpl; [|done].
  zcase (r_qty r <=? q); simpl; [apply IH; by apply ordered_inv in Ho as [? _]|].
  by apply (ordered_replace side [] r).
Qed.

(** When quantity is left, nothing that still rests accepts the limit. *)
Lemma sweep_exhausts s limit q l r :
  ordered (negb s) l -> positive_qty l -> 0 < (sweep s limit q l).1 -> r ∈ (sweep s limit q l).2 ->
  crosses s limit (r_price r) = false.
Proof.
  intros Ho Hl. revert q. induction Hl as [|x l Hx Hl IH]; intros q; simpl; [set_solver|].
  apply ordered_inv in Ho as [Ho Hn].
  destruct ((0 <? q) && _) eqn:E; [|].
  - zcase (r_qty x <=? q); simpl; [by apply IH|lia].
  - simpl. intros Hq Hin. apply andb_false_iff in E as [E|E]; [zb; lia|].
    apply elem_of_cons in Hin as [->|Hin]; [done|].
    destruct (crosses s limit (r_price r)) eqn:Hc; [|done].
    by rewrite (crosses_no_worse s limit (r_price x) (r_price r)) in E by auto.
Qed.

(** ** The new order's place *)

Lemma enqueue_in s r l x : x ∈ enqueue s r l <-> x = r \/ x ∈ l.
Proof.
  induction l as [|y l IH]; simpl; [set_solver|].
  destruct (beats _ _ _); rewrite ?elem_of_cons, ?IH; set_solver.
Qed.

Lemma enqueue_total s r l : total_qty (enqueue s r l) = r_qty r + total_qty l.
Proof. induction l as [|y l IH]; simpl; [done|]. destruct (beats _ _ _); simpl; lia. Qed.

Lemma enqueue_ordered s r l : ordered s l -> ordered s (enqueue s r l).
Proof.
  intros Ho. destruct (enqueue_split s r l Ho) as (A & B & -> & -> & HA & HB).
  apply ordered_app_inv in Ho as (H1 & H2 & H3).
  apply StronglySorted_app_intro; [done| |].
  - constructor; [done|]. apply Forall_forall. intros x Hx. by apply beats_no_worse, HB.
  - intros x y Hx [->|Hy]%elem_of_cons; [by apply HA|by apply H3].
Qed.

(** Time priority: orders of one price keep their order, the new one last. *)
Lemma enqueue_fifo s r l p :
  ordered s l ->
  filter (fun x => r_price x = p) (enqueue s r l) =
    filter (fun x => r_price x = p) l ++ (if decide (r_price r = p) then [r] else []).
Proof.
  intros Ho. destruct (enqueue_split s r l Ho) as (A & B & -> & -> & HA & HB).
  rewrite !filter_app, filter_cons. case_decide; [|by rewrite app_nil_r].
  assert (filter (fun x => r_price x = p) B = []) as ->; [|by rewrite !app_nil_r].
  subst. clear -HB. induction B as [|x B IH]; [done|]. rewrite filter_cons, decide_False.
  - apply IH. set_solver.
  - intros E. specialize (HB x ltac:(set_solver)). rewrite E in HB. unfold beats in HB. destruct s; zb; lia.
Qed.

(** ** Books *)

Record proper (a : abook) : Prop := {
  proper_ordered : forall s, ordered s (a_side s a);
  proper_positive : forall s, positive_qty (a_side s a);
  proper_uncrossed : uncrossed a;
}.

Lemma uncrossed_side s a :
  uncrossed a <-> forall r1 r2, r1 ∈ a_side s a -> r2 ∈ a_side (negb s) a -> beats (negb s) (r_price r1) (r_price r2) = true.
Proof.
  unfold uncrossed, beats. destruct s; simpl; split; intros Hu r1 r2 H1 H2;
    try (apply Z.ltb_lt); specialize (Hu _ _ H1 H2) || specialize (Hu _ _ H2 H1); zb; lia.
Qed.

Lemma proper_empty : proper a_empty.
Proof. split; [intros []; constructor|intros []; constructor|intros r1 r2 H1; set_solver]. Qed.

Lemma a_side_set s l a : a_side s (set_a_side s l a) = l.
Proof. by destruct s. Qed.

Lemma a_side_set_other s l a : a_side (negb s) (set_a_side s l a) = a_side (negb s) a.
Proof. by destruct s. Qed.

(** Replacing one side. *)
Lemma proper_set_side s l a :
  proper a -> ordered s l -> positive_qty l ->
  (forall r1 r2, r1 ∈ l -> r2 ∈ a_side (negb s) a -> beats (negb s) (r_price r1) (r_price r2) = true) ->
  proper (set_a_side s l a).
Proof.
  intros [P1 P2 P3] Ho Hp Hu. split.
  - intros s'. destruct (decide (s' = s)) as [->|Hs]; [by rewrite a_side_set|].
    assert (s' = negb s) as -> by by destruct s, s'. rewrite a_side_set_other. apply P1.
  - intros s'. destruct (decide (s' = s)) as [->|Hs]; [by rewrite a_side_set|].
    assert (s' = negb s) as -> by by destruct s, s'. rewrite a_side_set_other. apply P2.
  - apply (uncrossed_side s). rewrite a_side_set, a_side_set_other. exact Hu.
Qed.

(** A side whose prices were all there stays on its side of the spread. *)
Lemma proper_shrink_side s l a :
  proper a -> ordered s l -> positive_qty l ->
  (forall r, r ∈ l -> exists r', r' ∈ a_side s a /\ r_price r' = r_price r) ->
  proper (set_a_side s l a).
Proof.
  intros HP Ho Hp Hsub. apply proper_set_side; try done. intros r1 r2 (r' & Hr' & <-)%Hsub Hr2.
  revert Hr' Hr2. apply uncrossed_side, HP.
Qed.

Lemma proper_match price qty s a : proper a -> proper (spec_match price qty s a).2.
Proof.
  intros HP. unfold spec_match. destruct (sweep _ _ _ _) as [rem l] eqn:E. simpl.
  assert (l = (sweep s price qty (a_side (negb s) a)).2) as El by by rewrite E. rewrite El. clear El.
  apply proper_shrink_side; [done|apply sweep_ordered, HP|apply sweep_positive, HP|].
  intros r (r' & ? & _ & ? & _)%sweep_sub. eauto.
Qed.

Lemma proper_add capacity id price qty s a : proper a -> 0 <= qty -> proper (spec_add capacity id price qty s a).
Proof.
  intros HP Hq. pose proof (proper_match price qty s a HP) as HP'. unfold spec_add.
  destruct (spec_match price qty s a) as [rem a'] eqn:E. simpl in HP'.
  zcase (rem =? 0); [done|]. zcase (a_count a' <? capacity); [|done].
  unfold spec_match in E. destruct (sweep s price qty (a_side (negb s) a)) as [rem' l] eqn:Es.
  injection E as -> Ea.
  assert (0 <= rem) by (pose proof (sweep_range s price qty _ (proper_positive _ HP (negb s)) Hq) as Hr; rewrite Es in Hr; simpl in Hr; lia).
  assert (a_side (negb s) a' = l) as Hl by by rewrite <- Ea, a_side_set.
  apply proper_set_side; [done|apply enqueue_ordered, HP'| |].
  - apply Forall_forall. intros r [->|Hr]%enqueue_in; [simpl; lia|].
    pose proof (proper_positive _ HP' s) as Hpos. unfold positive_qty in Hpos. rewrite Forall_forall in Hpos. auto.
  - intros r1 r2 [->|Hr1]%enqueue_in Hr2; [|revert Hr1 Hr2; apply uncrossed_side, HP'].
    assert (crosses s price (r_price r2) = false) as Hc.
    { apply (sweep_exhausts s price qty (a_side (negb s) a)); rewrite ?Es; simpl; try apply HP; [lia|by rewrite <- Hl]. }
    simpl. unfold crosses, beats in *. destruct s; simpl; zb; apply Z.ltb_lt; lia.
Qed.

Lemma remove_id_in id l r : r ∈ remove_id id l <-> r_id r <> id /\ r ∈ l.
Proof. unfold remove_id. by rewrite list_elem_of_filter. Qed.

Lemma remove_id_ordered s id l : ordered s l -> ordered s (remove_id id l).
Proof.
  induction l as [|r l IH]; intros Ho; [done|]. apply ordered_inv in Ho as [Ho Hn].
  unfold remove_id. rewrite filter_cons. case_decide; [|by apply IH].
  constructor; [by apply IH|]. apply Forall_forall. intros x Hx. apply remove_id_in in Hx as [_ Hx]. auto.
Qed.

Lemma remove_id_positive id l : positive_qty l -> positive_qty (remove_id id l).
Proof.
  unfold positive_qty. rewrite !Forall_forall. intros Hl r Hr. apply remove_id_in in Hr as [_ Hr]. auto.
Qed.

Lemma proper_cancel id a : proper a -> proper (spec_cancel id a).
Proof.
  intros [P1 P2 P3]. split.
  - intros []; [apply remove_id_ordered, (P1 true)|apply remove_id_ordered, (P1 false)].
  - intros []; [apply remove_id_positive, (P2 true)|apply remove_id_positive, (P2 false)].
  - intros r1 r2 [_ H1]%remove_id_in [_ H2]%remove_id_in. auto.
Qed.

Lemma requantify_ordered s id q l : ordered s l -> ordered s (requantify id q l).
Proof.
  induction l as [|r l IH]; intros Ho; [constructor|]. apply ordered_inv in Ho as [Ho Hn].
  unfold requantify. simpl. constructor; [by apply IH|]. apply Forall_forall.
  intros x (y & -> & Hy)%list_elem_of_fmap. specialize (Hn y Hy).
  by destruct (r_id r =? id), (r_id y =? id).
Qed.

Lemma proper_requantify s id q a :
  proper a -> 0 < q -> proper (set_a_side s (requantify id q (a_side s a)) a).
Proof.
  intros HP Hq. apply proper_shrink_side; [done|apply requantify_ordered, HP| |].
  - unfold positive_qty, requantify. pose proof (proper_positive _ HP s) as Hp. unfold positive_qty in Hp.
    rewrite Forall_forall in *. intros r (y & -> & Hy)%list_elem_of_fmap. destruct (r_id y =? id); [done|auto].
  - intros r (y & -> & Hy)%list_elem_of_fmap. exists y. split; [done|]. by destruct (r_id y =? id).
Qed.

Lemma proper_modify capacity id new_price new_qty a :
  proper a -> 0 <= new_qty -> proper (spec_modify capacity id new_price new_qty a).
Proof.
  intros HP Hq. unfold spec_modify. destruct (spec_find id a) as [[s r]|]; [|done].
  destruct (_ || _); [by apply proper_add, Hq; apply proper_cancel|].
  zcase (new_qty =? 0); [by apply proper_cancel|]. apply proper_requantify; [done|lia].
Qed.
