(* ===== verification/BookCommands.v ===== *)
(** * The book's contract: commands and the refinement relation

    [implements b a] says that the concrete book [b] stands for the
    specification's book [a].  The three commands a client gives the book are
    put together here, run one after another, and shown to preserve the
    relation; [sound] is the weaker relation that survives the reuse of an
    order id. *)

From S2P Require Import Prelude.
From S2P Require Import PriceIndex.
From S2P Require Import OrderBook.
From S2P Require Import BookSpec.
From S2P Require Import BookInv.
From S2P Require Import BookRules.
From S2P Require Import BookCore.
From S2P Require Import BookRemove.
From S2P Require Import BookMatch.
From S2P Require Import BookOps.
From S2P Require Import BookModify.
From S2P Require Import BookSpecFacts.

(** What a client asks of the book, and the program that does it. *)
Inductive command :=
| Add (id price qty : Z) (is_buy : bool)
| Cancel (id : Z)
| Modify (id new_price new_qty : Z)
| Ignored.

Definition run_command {Bits} `{PriceIndex Bits} (fuel : nat) (c : command) : prog (OrderBook Bits) unit :=
  match c with
  | Add id price qty is_buy => add_order fuel id price qty is_buy
  | Cancel id => cancel_order id
  | Modify id new_price new_qty => modify_order fuel id new_price new_qty
  | Ignored => mret tt
  end.

Fixpoint run_commands {Bits} `{PriceIndex Bits} (fuel : nat) (cs : list command) : prog (OrderBook Bits) unit :=
  match cs with
  | [] => mret tt
  | c :: cs => run_command fuel c;; run_commands fuel cs
  end.

Definition spec_command (capacity : Z) (c : command) (a : abook) : abook :=
  match c with
  | Add id price qty is_buy => spec_add capacity id price qty is_buy a
  | Cancel id => spec_cancel id a
  | Modify id new_price new_qty => spec_modify capacity id new_price new_qty a
  | Ignored => a
  end.

Definition spec_commands (capacity : Z) (cs : list command) (a : abook) : abook :=
  foldl (fun a c => spec_command capacity c a) a cs.

Definition a_ids (a : abook) : list Z := r_id <$> (a_bids a ++ a_asks a).

Lemma proper_command capacity c a :
  proper a -> match c with Add _ _ qty _ => 0 <= qty | Modify _ _ qty => 0 <= qty | _ => True end ->
  proper (spec_command capacity c a).
Proof.
  intros HP Hq. destruct c; simpl; [by apply proper_add|by apply proper_cancel|by apply proper_modify|done].
Qed.

Section commands.
Context (ticks orders : Z).

(** The ranges the code relies on and does not check: the id table and the
    levels are indexed by unvalidated ids and prices, quantities must fit the
    31-bit field, and price 0 is the sentinel of an empty bid side. *)
Definition valid_command (c : command) : bool :=
  match c with
  | Add id price qty _ =>
      in_range orders id && (0 <? price) && (price <? ticks) && in_range (2 ^ 31) qty
  | Cancel id => in_range orders id
  | Modify id new_price new_qty =>
      in_range orders id && (0 <? new_price) && (new_price <? ticks) && in_range (2 ^ 31) new_qty
  | Ignored => true
  end.

(** No [Add] reuses the id of an order that rests at that time. *)
Fixpoint fresh_adds (a : abook) (cs : list command) : bool :=
  match cs with
  | [] => true
  | c :: cs =>
      match c with Add id _ _ _ => negb (bool_decide (id ∈ a_ids a)) | _ => true end &&
      fresh_adds (spec_command orders c a) cs
  end.

Lemma proper_commands capacity cs a :
  proper a -> forallb valid_command cs = true -> proper (spec_commands capacity cs a).
Proof.
  revert a. induction cs as [|c cs IH]; intros a HP Hv; simpl in *; [done|]. zb. apply IH; [|done].
  apply proper_command; [done|]. destruct c; simpl in *; zb; rewrite ?in_range_true in *; lia || done.
Qed.

Context {Bits : Type} `{PriceIndex Bits} `{!PriceIndexLaws Bits ticks}.
Implicit Types (b : OrderBook Bits) (G : ghost) (a : abook).

Definition sound b a : Prop := exists G, Inv ticks orders b G /\ erase G = a.
Definition implements b a : Prop := exists G, Inv ticks orders b G /\ Indexed b G /\ erase G = a.

Lemma implements_sound b a : implements b a -> sound b a.
Proof. intros (G & ? & _ & ?). by exists G. Qed.

Hypothesis orders_range : 0 <= orders <= 2 ^ 32.
Hypothesis ticks_range : 0 < ticks <= UINT32_MAX.

(** ** The constructor *)

Lemma free_list_new n : foldl (fun free i => i :: free) [] (seqZ 0 n) = reverse (seqZ 0 n).
Proof.
  assert (forall (l acc : list Z), foldl (fun free i => i :: free) acc l = reverse l ++ acc) as ->.
  { induction l as [|x l IH]; intros acc; [done|]. simpl. rewrite IH, reverse_cons, <- app_assoc. done. }
  apply app_nil_r.
Qed.

Lemma Inv_new : Inv ticks orders (OrderBook_new ticks orders : OrderBook Bits) (fun _ => []).
Proof.
  split.
  - split; try done.
    + by intros [].
    + intros s e He. set_solver.
    + intros s. constructor.
    + intros s p Hp. exists PriceLevel_empty. split; [by destruct s; apply vget_new|done].
    + simpl. rewrite app_nil_r. unfold free. simpl. rewrite free_list_new. apply reverse_Permutation.
    + intros x Hx. unfold free in Hx. simpl in Hx. rewrite free_list_new, elem_of_reverse, elem_of_seqZ in Hx.
      exists Order_zero. split; [apply vget_new; lia|done].
    + intros id x Hx. pose proof (vget_Some_range _ _ _ Hx) as Hr. unfold OrderBook_new in *. simpl in *.
      by rewrite vget_new in Hx.
  - intros s. split; [|by destruct s]. exists ∅. split; [|set_solver].
    destruct s; apply represents_new.
Qed.

Lemma implements_new : implements (OrderBook_new ticks orders) a_empty.
Proof. exists (fun _ => []). split; [apply Inv_new|]. split; [intros s x r Hin; set_solver|done]. Qed.

(** ** Ghost and specification states *)

Lemma elem_a_ids id G : id ∈ a_ids (erase G) <-> exists s x r, (x, r) ∈ G s /\ r_id r = id.
Proof.
  unfold a_ids, erase. simpl. rewrite list_elem_of_fmap. split.
  - intros (r & -> & [Hr|Hr]%elem_of_app); apply list_elem_of_fmap in Hr as ([x r'] & -> & He); eauto.
  - intros (s & x & r & He & <-). exists r. split; [done|]. apply elem_of_app.
    destruct s; [left|right]; apply list_elem_of_fmap; by exists (x, r).
Qed.

Lemma fresh_a_ids id G : id ∉ a_ids (erase G) -> fresh_id id G.
Proof. intros Hn s x r Hin Hid. apply Hn, elem_a_ids. eauto. Qed.

Lemma side_fits b G s : Inv ticks orders b G -> Z.of_nat (length (G s)) <= orders.
Proof. intros HI. eapply (core_length ticks orders b); [apply HI|lia]. Qed.

Lemma limit_positive s price : 0 < price < ticks -> limit_ok s price.
Proof. intros Hp. destruct s; simpl; lia. Qed.

(** ** One command *)

Lemma sound_command fuel c b a :
  sound b a -> valid_command c = true -> orders < Z.of_nat fuel ->
  wp (run_command fuel c) b (fun _ b' => exists a', sound b' a').
Proof.
  intros (G & HI & <-) Hv Hf.
  assert (forall s, (length (G s) < fuel)%nat) as Hlen by (intros s; pose proof (side_fits b G s HI); lia).
  destruct c as [id price qty is_buy|id|id new_price new_qty|]; simpl in *; zb;
    rewrite ?in_range_true in *.
  - eapply (wp_add_order ticks orders); try done; [lia|lia|apply limit_positive; lia|].
    intros b' G' HI' _ _. by exists (erase G'), G'.
  - eapply (wp_cancel_order ticks orders); try done; [lia|].
    intros b' G' HI' _ _. by exists (erase G'), G'.
  - eapply (wp_modify_order ticks orders); try done; [lia|lia|intros ? ? ? _ _; apply limit_positive; lia|].
    intros b' G' HI' _ _. by exists (erase G'), G'.
  - apply wp_ret. by exists (erase G), G.
Qed.

Lemma implements_add fuel id price qty is_buy b a :
  implements b a -> 0 <= id < orders -> 0 <= price < ticks -> limit_ok is_buy price -> 0 <= qty < 2 ^ 31 ->
  id ∉ a_ids a -> a_count a < Z.of_nat fuel ->
  wp (add_order fuel id price qty is_buy) b (fun _ b' => implements b' (spec_add orders id price qty is_buy a)).
Proof.
  intros (G & HI & Hix & <-) Hid Hp Hl Hq Hfr Hf.
  eapply (wp_add_order ticks orders); try done; [lia| |].
  { unfold a_count, erase in Hf. simpl in Hf. rewrite !length_fmap in Hf. destruct is_buy; simpl; lia. }
  intros b' G' HI' He Hix'. exists G'. split; [done|]. split; [|done]. by apply Hix', fresh_a_ids.
Qed.

Lemma implements_cancel id b a :
  implements b a -> 0 <= id < orders ->
  wp (cancel_order id) b (fun _ b' => implements b' (spec_cancel id a)).
Proof.
  intros (G & HI & Hix & <-) Hid. eapply (wp_cancel_order ticks orders); try done; [lia|].
  intros b' G' HI' Hc Hix'. exists G'. split; [done|]. split; [auto|]. by eapply (cancelled_spec ticks orders).
Qed.

Lemma implements_modify fuel id new_price new_qty b a :
  implements b a -> 0 <= id < orders -> 0 <= new_price < ticks -> 0 <= new_qty < 2 ^ 31 ->
  (forall s r, r ∈ a_side s a -> r_id r = id -> limit_ok s new_price) -> a_count a < Z.of_nat fuel ->
  wp (modify_order fuel id new_price new_qty) b
    (fun _ b' => implements b' (spec_modify orders id new_price new_qty a)).
Proof.
  intros (G & HI & Hix & <-) Hid Hp Hq Hl Hf.
  unfold a_count, erase in Hf. simpl in Hf. rewrite !length_fmap in Hf.
  eapply (wp_modify_order ticks orders); try done; [lia| | |].
  { intros s x r Hin Hr. eapply Hl; [|done]. rewrite a_side_erase. apply list_elem_of_fmap. by exists (x, r). }
  { intros []; lia. }
  intros b' G' HI' Hm Hix'. exists G'. split; [done|]. split; [auto|].
  eapply (modified_spec ticks orders); (done || lia).
Qed.

Lemma implements_match fuel price qty is_buy b a :
  implements b a -> 0 <= qty < 2 ^ 32 -> limit_ok is_buy price -> a_count a < Z.of_nat fuel ->
  wp (match_order fuel price qty is_buy) b (fun rem b' =>
    rem = (spec_match price qty is_buy a).1 /\ implements b' (spec_match price qty is_buy a).2).
Proof.
  intros (G & HI & Hix & <-) Hq Hl Hf. eapply (wp_match_order ticks orders); try done.
  { unfold a_count, erase in Hf. simpl in Hf. rewrite !length_fmap in Hf. destruct is_buy; simpl; lia. }
  intros rem b' G' HM. rewrite (erase_matched _ _ _ _ _ _ _ _ _ _ HM).
  destruct HM as [HI' _ Hix' _ _]. split; [done|]. exists G'. auto.
Qed.

Lemma a_count_bound b a : implements b a -> a_count a <= orders.
Proof. intros (G & HI & _ & <-). 
  enough (Z.of_nat (length (free b)) + a_count (erase G) = orders) by lia.
  eapply (free_count ticks orders); (done || lia). Qed.

Lemma implements_command fuel c b a :
  implements b a -> valid_command c = true -> orders < Z.of_nat fuel ->
  match c with Add id _ _ _ => id ∉ a_ids a | _ => True end ->
  wp (run_command fuel c) b (fun _ b' => implements b' (spec_command orders c a)).
Proof.
  intros Hi Hv Hf Hfr. pose proof (a_count_bound b a Hi) as Hc.
  destruct c as [id price qty is_buy|id|id new_price new_qty|]; simpl in *; zb; rewrite ?in_range_true in *.
  - apply implements_add; try done; [lia|apply limit_positive; lia|lia].
  - by apply implements_cancel.
  - apply implements_modify; try done; [lia|intros s r _ _; apply limit_positive; lia|lia].
  - by apply wp_ret.
Qed.

(** ** Sequences *)

Lemma sound_commands fuel cs b a :
  sound b a -> forallb valid_command cs = true -> orders < Z.of_nat fuel ->
  wp (run_commands fuel cs) b (fun _ b' => exists a', sound b' a').
Proof.
  revert b a. induction cs as [|c cs IH]; intros b a Hs Hv Hf; simpl in *; [apply wp_ret; eauto|].
  zb. apply wp_bind. eapply wp_mono; [by eapply sound_command|]. intros _ b' (a' & Hs'). by eapply IH.
Qed.

Lemma implements_commands fuel cs b a :
  implements b a -> forallb valid_command cs = true -> fresh_adds a cs = true -> orders < Z.of_nat fuel ->
  wp (run_commands fuel cs) b (fun _ b' => implements b' (spec_commands orders cs a)).
Proof.
  revert b a. induction cs as [|c cs IH]; intros b a Hs Hv Hfr Hf; simpl in *; [by apply wp_ret|].
  zb. apply wp_bind. apply (wp_mono _ _ (fun _ b' => implements b' (spec_command orders c a))).
  - apply implements_command; try done. destruct c; try done. by eapply bool_decide_eq_false, negb_true_iff.
  - intros _ b' Hs'. by eapply IH.
Qed.

(** The cached best prices. *)
Lemma implements_best b a :
  implements b a -> _best_bid b = default 0 (a_best true a) /\ _best_ask b = default UINT32_MAX (a_best false a).
Proof.
  intros (G & HI & _ & <-). destruct (inv_index _ _ _ _ HI true) as [_ H1], (inv_index _ _ _ _ HI false) as [_ H2].
  unfold side_best in *. rewrite H1, H2. unfold a_best, erase. simpl.
  by destruct (G true), (G false).
Qed.
End commands.
