(* ===== verification/BookTheorems.v ===== *)
(** * Properties of the order book

    The theorems about OrderBook.h, proved once against the price-index
    interface and applied to the book of the program, whose index is
    [PriceBitSet MAX_TICKS]. *)

From S2P Require Import Prelude.
From S2P Require Import PriceIndex.
From S2P Require Import PriceBitSet.
From S2P Require Import OrderBook.
From S2P Require Import BookSpec.
From S2P Require Import BookInv.
From S2P Require Import BookRules.
From S2P Require Import BookOps.
From S2P Require Import BookMatch.
From S2P Require Import BookSpecFacts.
From S2P Require Import BookCommands.

(** ** The book of the program, with a pool of any size *)

Abbreviation Book := (OrderBook (PriceBitSet MAX_TICKS)).

Lemma MAX_TICKS_range : 0 < MAX_TICKS <= 262144.
Proof. unfold MAX_TICKS. lia. Qed.

#[export] Instance book_laws : PriceIndexLaws (PriceBitSet MAX_TICKS) MAX_TICKS :=
  PriceBitSet_laws MAX_TICKS_range.

Section book.
Context (orders : Z).
Hypothesis orders_range : 0 <= orders <= 2 ^ 32.
Implicit Types (b : Book) (a : abook).

Abbreviation implements := (implements MAX_TICKS orders).
Abbreviation sound := (sound MAX_TICKS orders).

Lemma ticks_fit : 0 < MAX_TICKS <= UINT32_MAX.
Proof. unfold MAX_TICKS, UINT32_MAX. lia. Qed.

(** C1: [add_order] matches the incoming order against the opposite side and
    rests what is left at the end of its price's queue, exactly as the
    specification says (the remainder is dropped when the pool is empty); it
    finishes, without undefined behaviour, within as many loop iterations as
    there are resting orders, plus one. *)
Theorem add_order_refines fuel b a id price qty is_buy :
  implements b a -> 0 <= id < orders -> 0 <= price < MAX_TICKS -> limit_ok is_buy price ->
  0 <= qty < 2 ^ 31 -> id ∉ a_ids a -> a_count a < Z.of_nat fuel ->
  exists b', add_order fuel id price qty is_buy b = Ok (tt, b') /\
    implements b' (spec_add orders id price qty is_buy a).
Proof.
  intros. destruct (implements_add MAX_TICKS orders orders_range ticks_fit fuel id price qty is_buy b a)
    as ([] & b' & Hr & Hb'); try done. by exists b'.
Qed.

(** C2: [modify_order] is the specification's modification: unknown ids are
    ignored, a smaller quantity at the same price keeps the order's place in
    the queue, quantity 0 cancels, and any other change cancels and re-adds
    (and so may trade). *)
Theorem modify_order_refines fuel b a id new_price new_qty :
  implements b a -> 0 <= id < orders -> 0 <= new_price < MAX_TICKS -> 0 <= new_qty < 2 ^ 31 ->
  (forall s r, r ∈ a_side s a -> r_id r = id -> limit_ok s new_price) -> a_count a < Z.of_nat fuel ->
  exists b', modify_order fuel id new_price new_qty b = Ok (tt, b') /\
    implements b' (spec_modify orders id new_price new_qty a).
Proof.
  intros. destruct (implements_modify MAX_TICKS orders orders_range ticks_fit fuel id new_price new_qty b a)
    as ([] & b' & Hr & Hb'); try done. by exists b'.
Qed.

(** C3: [cancel_order] removes the order with that id, wherever it rests, and
    nothing else. *)
Theorem cancel_order_refines b a id :
  implements b a -> 0 <= id < orders ->
  exists b', cancel_order id b = Ok (tt, b') /\ implements b' (spec_cancel id a).
Proof.
  intros. destruct (implements_cancel MAX_TICKS orders orders_range ticks_fit id b a)
    as ([] & b' & Hr & Hb'); try done. by exists b'.
Qed.

(** C4: [match_order] terminates and fills in price-time priority: the
    opposite side loses a prefix [filled] of whole orders, all acceptable to
    the limit, and then at most one order is reduced; quantity is left over
    only when the next order does not accept the limit; and what was traded
    is what left the book. *)
Theorem match_order_priority fuel b a price qty is_buy :
  implements b a -> proper a -> 0 <= qty < 2 ^ 32 -> limit_ok is_buy price -> a_count a < Z.of_nat fuel ->
  exists rem b' a' filled rest,
    match_order fuel price qty is_buy b = Ok (rem, b') /\ implements b' a' /\ proper a' /\
    a_side is_buy a' = a_side is_buy a /\ a_side (negb is_buy) a = filled ++ rest /\
    Forall (fun r => crosses is_buy price (r_price r) = true) filled /\
    (a_side (negb is_buy) a' = rest \/
     exists r t rest', rest = r :: rest' /\ crosses is_buy price (r_price r) = true /\ 0 < t < r_qty r /\
       a_side (negb is_buy) a' = reduce r t :: rest' /\ rem = 0) /\
    (0 < rem -> match rest with [] => True | r :: _ => crosses is_buy price (r_price r) = false end) /\
    qty - rem = total_qty (a_side (negb is_buy) a) - total_qty (a_side (negb is_buy) a').
Proof.
  intros Hi HP Hq Hl Hf.
  destruct (implements_match MAX_TICKS orders orders_range fuel price qty is_buy b a)
    as (rem & b' & Hr & -> & Hb'); try done.
  pose proof (sweep_conserves is_buy price qty (a_side (negb is_buy) a)) as Hc.
  destruct (sweep_shape is_buy price qty (a_side (negb is_buy) a)) as (f & rest & E & Hcr & Hs & Hstop);
    [apply HP|lia|].
  pose proof (proper_match price qty is_buy a HP) as HP'.
  exists (spec_match price qty is_buy a).1, b', (spec_match price qty is_buy a).2, f, rest.
  split; [done|]. split; [done|]. split; [done|]. clear Hr Hb' HP'. revert Hc Hs Hstop.
  unfold spec_match. destruct (sweep is_buy price qty (a_side (negb is_buy) a)) as [rem l]. simpl.
  intros Hc Hs Hstop. rewrite a_side_set. split_and!; try done; [by destruct is_buy|].
  destruct Hs as [->|(r & t & rest' & ? & ? & ? & [= -> ->])]; [by left|right].
  by exists r, t, rest'.
Qed.

(** C5: From the constructor on, any sequence of commands with arguments in
    range that never adds an id still resting runs to the end and computes
    the specification; the book it leaves is ordered, holds positive
    quantities and is uncrossed, and the two getters return the best prices
    of its sides (0 and [UINT32_MAX] when empty). *)
Theorem book_refines_commands fuel cs :
  forallb (valid_command MAX_TICKS orders) cs = true -> fresh_adds orders a_empty cs = true ->
  orders < Z.of_nat fuel ->
  exists b', run_commands fuel cs (OrderBook_new MAX_TICKS orders : Book) = Ok (tt, b') /\
    let a := spec_commands orders cs a_empty in
    implements b' a /\ proper a /\
    get_best_bid b' = default 0 (a_best true a) /\ get_best_ask b' = default UINT32_MAX (a_best false a).
Proof.
  intros Hv Hfr Hf.
  pose proof (implements_new MAX_TICKS orders orders_range ticks_fit (Bits := PriceBitSet MAX_TICKS)) as Hn.
  destruct (implements_commands MAX_TICKS orders orders_range ticks_fit fuel cs _ _ Hn Hv Hfr Hf)
    as ([] & b' & Hr & Hb').
  exists b'. split; [done|]. split; [done|]. split; [apply (proper_commands MAX_TICKS orders), Hv; apply proper_empty|].
  by eapply (implements_best MAX_TICKS orders).
Qed.

(** C6: Memory safety and termination do not depend on ids being unique: any
    sequence of commands with arguments in range, duplicate ids included,
    runs to the end without undefined behaviour, and leaves the pool, the
    queues, the level totals, the bitmaps and the caches consistent. *)
Theorem book_safe_commands fuel cs b a :
  sound b a -> forallb (valid_command MAX_TICKS orders) cs = true -> orders < Z.of_nat fuel ->
  exists b' a', run_commands fuel cs b = Ok (tt, b') /\ sound b' a'.
Proof.
  intros. destruct (sound_commands MAX_TICKS orders orders_range ticks_fit fuel cs b a)
    as ([] & b' & Hr & a' & Hs); try done. by exists b', a'.
Qed.

(** C7: The cached best bid stays below the cached best ask after any such
    sequence of commands, as long as both sides hold orders. *)
Theorem best_prices_uncrossed fuel cs b' :
  forallb (valid_command MAX_TICKS orders) cs = true -> fresh_adds orders a_empty cs = true ->
  orders < Z.of_nat fuel ->
  run_commands fuel cs (OrderBook_new MAX_TICKS orders : Book) = Ok (tt, b') ->
  get_best_bid b' <> 0 -> get_best_ask b' <> UINT32_MAX -> get_best_bid b' < get_best_ask b'.
Proof.
  intros Hv Hfr Hf Hrun.
  pose proof (implements_new MAX_TICKS orders orders_range ticks_fit (Bits := PriceBitSet MAX_TICKS)) as Hn.
  destruct (implements_commands MAX_TICKS orders orders_range ticks_fit fuel cs _ _ Hn Hv Hfr Hf)
    as ([] & b'' & Hr & Hb'). rewrite Hrun in Hr. injection Hr as <-.
  destruct (implements_best MAX_TICKS orders b' _ Hb') as [Eb Ea].
  pose proof (proper_uncrossed _ (proper_commands MAX_TICKS orders orders cs a_empty proper_empty Hv)) as Hu.
  unfold get_best_bid, get_best_ask. rewrite Eb, Ea. unfold a_best, a_side.
  destruct (a_bids _) as [|r1 l1] eqn:E1; [done|]. destruct (a_asks _) as [|r2 l2] eqn:E2; [done|].
  intros _ _. simpl. apply Hu; rewrite ?E1, ?E2; set_solver.
Qed.
End book.

(** ** Concrete books for the witnesses: a pool of 16 orders *)

Lemma range_16 : 0 <= 16 <= 2 ^ 32.
Proof. lia. Qed.

Definition example_commands : list command :=
  [Add 1 100 10 true; Add 2 120 20 false; Add 3 120 30 false; Add 4 110 40 false].

Definition example_abook : abook :=
  mkABook [mkResting 1 100 10] [mkResting 4 110 40; mkResting 2 120 20; mkResting 3 120 30].

Lemma example_book : exists b : Book, implements MAX_TICKS 16 b example_abook.
Proof.
  pose proof (implements_new MAX_TICKS 16 range_16 ticks_fit (Bits := PriceBitSet MAX_TICKS)) as Hn.
  destruct (implements_commands MAX_TICKS 16 range_16 ticks_fit 20 example_commands _ _ Hn)
    as (_ & b & _ & Hb); [done..|]. by exists b.
Qed.

Lemma example_proper : proper example_abook.
Proof.
  assert (example_abook = spec_commands 16 example_commands a_empty) as -> by done.
  by apply (proper_commands MAX_TICKS 16 16 example_commands a_empty proper_empty).
Qed.

Lemma add_order_refines_witness :
  exists b b' : Book, implements MAX_TICKS 16 b example_abook /\
    add_order 20 5 115 50 true b = Ok (tt, b') /\
    implements MAX_TICKS 16 b' (mkABook [mkResting 5 115 10; mkResting 1 100 10]
      [mkResting 2 120 20; mkResting 3 120 30]).
Proof.
  destruct example_book as (b & Hb).
  destruct (add_order_refines 16 range_16 20 b example_abook 5 115 50 true Hb) as (b' & Hr & Hb').
  - lia.
  - unfold MAX_TICKS; lia.
  - done.
  - lia.
  - refine (bool_decide_unpack _ _). by vm_compute.
  - done.
  - exists b, b'. done.
Defined.

Lemma modify_order_refines_witness :
  exists b b' : Book, implements MAX_TICKS 16 b example_abook /\
    modify_order 20 2 120 5 b = Ok (tt, b') /\
    implements MAX_TICKS 16 b' (mkABook [mkResting 1 100 10]
      [mkResting 4 110 40; mkResting 2 120 5; mkResting 3 120 30]).
Proof.
  destruct example_book as (b & Hb).
  destruct (modify_order_refines 16 range_16 20 b example_abook 2 120 5 Hb) as (b' & Hr & Hb').
  - lia.
  - unfold MAX_TICKS; lia.
  - lia.
  - intros [] r _ _; done.
  - done.
  - exists b, b'. done.
Defined.

Lemma cancel_order_refines_witness :
  exists b b' : Book, implements MAX_TICKS 16 b example_abook /\
    cancel_order 2 b = Ok (tt, b') /\
    implements MAX_TICKS 16 b' (mkABook [mkResting 1 100 10] [mkResting 4 110 40; mkResting 3 120 30]).
Proof.
  destruct example_book as (b & Hb).
  destruct (cancel_order_refines 16 range_16 b example_abook 2 Hb) as (b' & Hr & Hb'); [lia|].
  exists b, b'. done.
Defined.

Lemma match_order_priority_witness :
  exists (b : Book) rem b' a' filled rest, implements MAX_TICKS 16 b example_abook /\
    match_order 20 120 70 true b = Ok (rem, b') /\ implements MAX_TICKS 16 b' a' /\
    a_asks example_abook = filled ++ rest /\ 70 - rem = 90 - total_qty (a_asks a').
Proof.
  destruct example_book as (b & Hb).
  destruct (match_order_priority 16 range_16 20 b example_abook 120 70 true Hb example_proper)
    as (rem & b' & a' & filled & rest & H1 & H2 & H3 & H4 & H5 & H6 & H7 & H8 & H9); [lia|done|done|].
  exists b, rem, b', a', filled, rest. done.
Defined.

Lemma book_refines_commands_witness :
  exists b' : Book, run_commands 20 example_commands (OrderBook_new MAX_TICKS 16) = Ok (tt, b') /\
    implements MAX_TICKS 16 b' example_abook /\ get_best_bid b' = 100 /\ get_best_ask b' = 110.
Proof.
  assert (spec_commands 16 example_commands a_empty = example_abook) as E by by vm_compute.
  destruct (book_refines_commands 16 range_16 20 example_commands) as (b' & Hr & Hi & _ & Hb & Ha); [done..|].
  rewrite E in Hi, Hb, Ha. exists b'. split_and!; [exact Hr|exact Hi|exact Hb|exact Ha].
Defined.

Definition reused_id : list command := [Add 1 100 10 true; Add 1 120 10 true; Cancel 1; Add 2 90 15 false].

Lemma book_safe_commands_witness :
  exists (b' : Book) a', run_commands 20 reused_id (OrderBook_new MAX_TICKS 16) = Ok (tt, b') /\
    sound MAX_TICKS 16 b' a'.
Proof.
  apply (book_safe_commands 16 range_16 20 reused_id _ a_empty); [|done..].
  apply implements_sound, implements_new; [exact range_16|exact ticks_fit].
Defined.

Lemma best_prices_uncrossed_witness :
  exists b' : Book, run_commands 20 example_commands (OrderBook_new MAX_TICKS 16) = Ok (tt, b') /\
    get_best_bid b' < get_best_ask b'.
Proof.
  destruct (run_commands 20 example_commands (OrderBook_new MAX_TICKS 16 : Book)) as [[[] b']| |] eqn:E;
    [|exfalso; vm_compute in E; discriminate E..].
  assert (get_best_bid b' = 100 /\ get_best_ask b' = 110) as [Eb Ea].
  { vm_compute in E. injection E as <-. by vm_compute. }
  exists b'. split; [done|].
  refine (best_prices_uncrossed 16 range_16 20 example_commands b' _ _ _ E _ _);
    rewrite ?Eb, ?Ea; vm_compute; congruence.
Defined.
