(* ===== verification/BookLimits.v ===== *)
(** * Where the order book stops being safe

    The book takes its arguments straight from the network.  These theorems
    state what it does outside of the ranges that the refinement theorems
    assume: ids beyond the table are read and written out of bounds, a sell at
    price 0 never returns when there are no bids, and a quantity of [2^31] or more
    is cut to 31 bits and makes a later match spin forever.  Ids that are used
    twice are in BookReuse.v. *)

From S2P Require Import Prelude.
From S2P Require Import PriceIndex.
From S2P Require Import PriceBitSet.
From S2P Require Import OrderBook.
From S2P Require Import BookSpec.
From S2P Require Import BookInv.
From S2P Require Import BookRules.
From S2P Require Import BookCore.
From S2P Require Import BookOps.
From S2P Require Import BookMatch.
From S2P Require Import BookCommands.
From S2P Require Import BookTheorems.

Section limits.
Context (orders : Z).
Hypothesis orders_range : 0 <= orders <= 2 ^ 32.
Implicit Types (b : Book) (a : abook) (G : ghost).

(** ** Ids beyond the table *)

Lemma map_get_beyond b a id : sound MAX_TICKS orders b a -> orders <= id -> map_get id b = Undefined OutOfBounds.
Proof.
  intros (G & HI & _) Hid. unfold map_get. unfold mbind, prog_bind, get_state, lift. unfold vread.
  destruct (vget (_order_map b) id) as [v|] eqn:E; [|done].
  apply vget_Some_range in E. rewrite (core_map_size _ _ _ _ (inv_core _ _ _ _ HI)) in E. lia.
Qed.

Lemma map_set_beyond b id v : vsize (_order_map b) <= id -> map_set id v b = Undefined OutOfBounds.
Proof.
  intros Hid. unfold map_set, mbind, prog_bind, get_state, lift, vwrite.
  destruct (vget (_order_map b) id) as [w|] eqn:E; [|done]. apply vget_Some_range in E. lia.
Qed.

(** Resting an order under such an id: the slot is taken and filled in, and
    then the table is written. *)
Lemma rest_order_beyond id price rem is_buy x fr b G :
  Inv MAX_TICKS orders b G -> orders <= id -> free b = x :: fr ->
  rest_order id price rem is_buy x (set_pool (mkOrderPool (heap b) fr) b) = Undefined OutOfBounds.
Proof.
  intros HI Hid Hfree. pose proof (inv_core _ _ _ _ HI) as HC.
  destruct (core_free _ _ _ _ HC x) as (o & Ho & _); [rewrite Hfree; set_solver|].
  set (b0 := set_pool _ b). assert (vget (heap b0) x = Some o) as Ho0 by done.
  assert (vsize (_order_map b0) = orders) as Hm0 by apply (core_map_size _ _ _ _ HC).
  clearbody b0. unfold rest_order.
  assert (forall f b1 o1 (k : prog Book unit), vget (heap b1) x = Some o1 -> vsize (_order_map b1) = orders ->
    (forall b2 o2, vget (heap b2) x = Some o2 -> vsize (_order_map b2) = orders -> k b2 = Undefined OutOfBounds) ->
    (store (Some x) f;; k) b1 = Undefined OutOfBounds) as Hstep.
  { intros f b1 o1 k Ho1 Hm1 Hk.
    apply (bind_result _ _ _ (fun _ b2 => exists o2, vget (heap b2) x = Some o2 /\ vsize (_order_map b2) = orders)).
    - eapply wp_store; [done|]. exists (f o1). split; [|done].
      apply vget_set_eq. by apply vget_Some_range in Ho1.
    - intros _ b2 (o2 & ? & ?). by eapply Hk. }
  eapply Hstep; [done..|]. intros b1 o1 Ho1 Hm1. eapply Hstep; [done..|]. intros b2 o2 Ho2 Hm2.
  eapply Hstep; [done..|]. intros b3 o3 Ho3 Hm3. eapply Hstep; [done..|]. intros b4 o4 _ Hm4.
  apply bind_undefined, map_set_beyond. lia.
Qed.

Lemma add_order_beyond fuel b a id price qty is_buy :
  sound MAX_TICKS orders b a -> orders <= id -> a_count a < Z.of_nat fuel -> limit_ok is_buy price -> 0 <= qty < 2 ^ 32 ->
  let '(rem, a') := spec_match price qty is_buy a in
  rem <> 0 -> a_count a' < orders -> add_order fuel id price qty is_buy b = Undefined OutOfBounds.
Proof.
  intros Hs Hid Hf Hl Hq. destruct (spec_match price qty is_buy a) as [rem a'] eqn:Hsp.
  intros Hrem Hroom. destruct Hs as (G & HI & <-).
  apply (bind_result _ _ _ (fun rem' b' => rem' = rem /\ exists G', Inv MAX_TICKS orders b' G' /\ erase G' = a')).
  - eapply (wp_match_order MAX_TICKS orders); try done.
    { unfold a_count, erase in Hf. simpl in Hf. rewrite !length_fmap in Hf. destruct is_buy; simpl; lia. }
    intros rem' b' G' HM. rewrite (erase_matched _ _ _ _ _ _ _ _ _ _ HM) in Hsp.
    injection Hsp as <- <-. split; [done|]. exists G'. split; [apply HM|done].
  - intros rem' b' (-> & G' & HI' & <-). zcase (rem =? 0); [done|].
    enough (Z.of_nat (length (free b')) + a_count (erase G') = orders) as Hcnt.
    2: { eapply (free_count MAX_TICKS orders); (done || lia || apply ticks_fit). }
    destruct (free b') as [|x fr] eqn:Hfree; simpl in Hcnt; [lia|].
    apply (bind_result _ _ _ (fun order b1 => order = Some x /\ b1 = set_pool (mkOrderPool (heap b') fr) b')).
    + unfold allocate. apply wp_bind, wp_get. unfold OrderPool_allocate.
      change (_free_list (book_pool b')) with (free b'). rewrite Hfree. by apply wp_bind, wp_put, wp_ret.
    + intros order b1 [-> ->]. by eapply rest_order_beyond.
Qed.

(** C8: Order ids are not validated: on any consistent book, cancelling or
    modifying an id beyond the table reads out of bounds, and so does adding
    one whenever a remainder comes to rest (the id is only harmless when the
    order trades completely). *)
Theorem id_out_of_range fuel b a id :
  sound MAX_TICKS orders b a -> orders <= id -> a_count a < Z.of_nat fuel ->
  cancel_order id b = Undefined OutOfBounds /\
  (forall new_price new_qty, modify_order fuel id new_price new_qty b = Undefined OutOfBounds) /\
  (forall price qty is_buy, limit_ok is_buy price -> 0 <= qty < 2 ^ 32 ->
     let '(rem, a') := spec_match price qty is_buy a in
     rem <> 0 -> a_count a' < orders ->
     add_order fuel id price qty is_buy b = Undefined OutOfBounds).
Proof.
  intros Hs Hid Hf. split_and!.
  - apply bind_undefined. by eapply map_get_beyond.
  - intros new_price new_qty. apply bind_undefined. by eapply map_get_beyond.
  - intros price qty is_buy. by apply add_order_beyond.
Qed.

(** ** Sells at price 0 *)

(** C9: A sell at price 0 against an empty bid side never returns: the cached
    best bid of an empty side is 0, so the code takes level 0 for a match,
    finds nothing in it, and starts over, whatever the number of iterations
    allowed. *)
Theorem sell_at_zero_spins fuel b a qty :
  sound MAX_TICKS orders b a -> a_bids a = [] -> 0 < qty ->
  match_order fuel 0 qty false b = OutOfFuel.
Proof.
  intros (G & HI & <-) Hb Hq. unfold erase in Hb. simpl in Hb. apply fmap_nil_inv in Hb.
  unfold match_order. revert b HI. induction fuel as [|fuel IH]; intros b HI; [done|].
  cbn [match_loop]. zcase (qty >? 0); [|lia].
  apply (bind_result _ _ _ (fun b' b'' => b' = b /\ b'' = b)); [by apply wp_get|]. intros _ ? [-> ->].
  pose proof (inv_core _ _ _ _ HI) as HC.
  destruct (inv_index _ _ _ _ HI true) as [_ Ebest]. unfold side_best in Ebest. rewrite Hb in Ebest. simpl in Ebest.
  rewrite Ebest. simpl.
  destruct (core_level _ _ _ _ HC true 0) as (lv & Hlv & Hhd & _ & Htot & _); [unfold MAX_TICKS; lia|].
  rewrite Hb in Hhd, Htot. simpl in Hhd, Htot.
  apply (bind_result _ _ _ (fun l b' => l = (true, 0) /\ b' = b)); [by eapply wp_level_at|]. intros _ ? [-> ->].
  apply (bind_result _ _ _ (fun l b' => l = lv /\ b' = b)); [by eapply wp_level_load|]. intros _ ? [-> ->].
  rewrite Hhd. apply (bind_result _ _ _ (fun r b' => r = qty /\ b' = b)); [by apply wp_ret|]. intros _ ? [-> ->].
  apply (bind_result _ _ _ (fun l b' => l = lv /\ b' = b)); [by eapply wp_level_load|]. intros _ ? [-> ->].
  rewrite Htot. simpl.
  apply (bind_result _ _ _ (fun _ b' => Inv MAX_TICKS orders b' G)); [|intros [] b' HI'; by apply IH].
  eapply (wp_clear_refresh MAX_TICKS true 0 b G []); try (unfold MAX_TICKS; lia).
  - intros s. unfold ghost_set. destruct (decide (s = true)) as [->|]; [constructor|apply HC].
  - intros s. apply HI.
  - intros q. rewrite Hb. unfold prices. simpl. set_solver.
  - intros b' Hh Hfr Hm Hl HX.
    assert (forall s, ghost_set true [] G s = G s) as Hg.
    { intros s. unfold ghost_set. by destruct (decide (s = true)) as [->|]. }
    split.
    + destruct HC. split; rewrite ?Hh, ?Hfr, ?Hm; try done; intros; rewrite ?Hl; auto.
    + intros s. specialize (HX s). unfold IndexSide in *. by rewrite Hg in HX.
Qed.

End limits.

Lemma empty_16 : sound MAX_TICKS 16 (OrderBook_new MAX_TICKS 16 : Book) a_empty.
Proof. apply implements_sound, implements_new; [exact range_16|exact ticks_fit]. Qed.

Lemma id_out_of_range_witness :
  cancel_order 16 (OrderBook_new MAX_TICKS 16 : Book) = Undefined OutOfBounds /\
  add_order 3 16 100 10 true (OrderBook_new MAX_TICKS 16 : Book) = Undefined OutOfBounds.
Proof.
  destruct (id_out_of_range 16 range_16 3 _ _ 16 empty_16 ltac:(lia) ltac:(done)) as (H1 & _ & H2).
  split; [exact H1|]. refine (H2 100 10 true _ _ _ _); [done|lia|lia|done].
Defined.

Lemma sell_at_zero_spins_witness :
  match_order 1000 0 10 false (OrderBook_new MAX_TICKS 16 : Book) = OutOfFuel.
Proof. refine (sell_at_zero_spins 16 range_16 1000 _ a_empty 10 empty_16 _ _); done. Defined.

(** ** Quantities of 2^31 and more *)

(** Fuel that is enough stays enough. *)
Lemma fill_level_more n fuel level order rem (b : Book) x :
  fill_level fuel level order rem b = Ok x -> fill_level (fuel + n) level order rem b = Ok x.
Proof.
  revert order rem b. induction fuel as [|fuel IH]; intros order rem b; [done|].
  cbn [fill_level Nat.add]. destruct order as [y|]; [|done]. destruct (rem >? 0); [|done].
  intros (o & b1 & E1 & (t1 & b2 & E2 & (t2 & b3 & E3 & (o' & b4 & E4 & E)%bind_Ok_inv)%bind_Ok_inv)%bind_Ok_inv)%bind_Ok_inv.
  rewrite (bind_Ok _ _ _ _ _ E1), (bind_Ok _ _ _ _ _ E2), (bind_Ok _ _ _ _ _ E3), (bind_Ok _ _ _ _ _ E4).
  destruct (o_quantity o' =? 0); [|by apply IH].
  apply bind_Ok_inv in E as (t5 & b5 & E5 & (o6 & b6 & E6 & (t7 & b7 & E7 & (t8 & b8 & E8 & E)%bind_Ok_inv)%bind_Ok_inv)%bind_Ok_inv).
  rewrite (bind_Ok _ _ _ _ _ E5), (bind_Ok _ _ _ _ _ E6), (bind_Ok _ _ _ _ _ E7), (bind_Ok _ _ _ _ _ E8).
  by apply IH.
Qed.

(** A best bid whose level has a total and no orders. *)
Lemma hollow_level_spins fuel price qty (b : Book) lv :
  0 < qty -> price <= _best_bid b -> vget (_bids b) (_best_bid b) = Some lv ->
  head lv = None -> total_quantity lv <> 0 -> match_loop fuel price false qty b = OutOfFuel.
Proof.
  intros Hq Hp Hlv Hhd Htot. induction fuel as [|fuel IH]; [done|].
  assert (vget (side_levels true b) (_best_bid b) = Some lv) as Hlv' by done.
  cbn [match_loop]. zcase (qty >? 0); [|lia].
  apply (bind_result _ _ _ (fun b' b'' => b' = b /\ b'' = b)); [by apply wp_get|]. intros _ ? [-> ->].
  cbn [negb]. zcase (price <=? _best_bid b); [|lia]. cbn [negb].
  apply (bind_result _ _ _ (fun l b' => l = (true, _best_bid b) /\ b' = b)); [by eapply wp_level_at|]. intros _ ? [-> ->].
  apply (bind_result _ _ _ (fun l b' => l = lv /\ b' = b)); [by eapply wp_level_load|]. intros _ ? [-> ->].
  rewrite Hhd. apply (bind_result _ _ _ (fun r b' => r = qty /\ b' = b)); [by apply wp_ret|]. intros _ ? [-> ->].
  apply (bind_result _ _ _ (fun l b' => l = lv /\ b' = b)); [by eapply wp_level_load|]. intros _ ? [-> ->].
  zcase (total_quantity lv =? 0); [done|].
  apply (bind_result _ _ _ (fun _ b' => b' = b)); [by apply wp_ret|]. by intros [] ? ->.
Qed.

(** A bid of quantity [2^31] at price 100, on the empty book. *)
Definition huge_bid : outcome (unit * Book) := add_order 3 1 100 (2 ^ 31) true (OrderBook_new MAX_TICKS 16).

Definition book_or_new (m : outcome (unit * Book)) : Book :=
  match m with Ok (_, b) => b | _ => OrderBook_new MAX_TICKS 16 end.

(** The first pass of a sell over that bid: the order (whose quantity is 0)
    leaves, its level keeps the total. *)
Lemma huge_bid_pass :
  exists b2 lv, fill_level 3 (true, 100) (Some 15) 5 (book_or_new huge_bid) = Ok (5, b2) /\
    _best_bid b2 = 100 /\ vget (_bids b2) 100 = Some lv /\ head lv = None /\ total_quantity lv = 2 ^ 31.
Proof.
  destruct (fill_level 3 (true, 100) (Some 15) 5 (book_or_new huge_bid)) as [[rem b2]| |] eqn:E;
    [|exfalso; vm_compute in E; discriminate E..].
  vm_compute in E. injection E as <- <-. eexists _, (mkPriceLevel None None (2 ^ 31)).
  split; [reflexivity|]. split_and!; vm_compute; reflexivity.
Qed.

(** C10: The 31-bit quantity field: a bid whose quantity is [2^31] (a valid
    [uint32_t] of the message) rests with quantity 0, while its level's total
    counts [2^31]; the next sell that matches it removes the order, trades
    nothing, keeps the level's bit, and then spins forever on the empty
    level. *)
Theorem huge_quantity_spins :
  exists b1, huge_bid = Ok (tt, b1) /\ get_best_bid b1 = 100 /\
    forall fuel, add_order fuel 2 100 5 false b1 = OutOfFuel.
Proof.
  exists (book_or_new huge_bid). split; [by vm_compute|]. split; [by vm_compute|].
  intros fuel. unfold add_order.
  assert (match_order fuel 100 5 false (book_or_new huge_bid) = OutOfFuel) as E.
  2: { unfold mbind at 1, prog_bind at 1. by rewrite E. }
  unfold match_order. destruct fuel as [|[|[|n]]]; [by vm_compute..|].
  destruct huge_bid_pass as (b2 & lv & Efill & Ebest & Elv & Ehd & Etot).
  assert (_best_bid (book_or_new huge_bid) = 100) as Eb by by vm_compute.
  assert (vget (side_levels true (book_or_new huge_bid)) 100 = Some (mkPriceLevel (Some 15) (Some 15) (2 ^ 31)))
    as El by by vm_compute.
  set (b1 := book_or_new huge_bid) in *. clearbody b1. remember (S (S n)) as m eqn:Hm.
  cbn [match_loop]. change (5 >? 0) with true. cbv iota.
  rewrite (bind_Ok get_state _ _ b1 b1) by done. rewrite Eb. change (negb (100 <=? 100)) with false. cbn [negb].
  rewrite (bind_Ok (level_at true 100) _ _ (true, 100) b1); [|unfold level_at, mbind, prog_bind, get_state, lift; by rewrite (vread_Ok _ _ _ El)].
  rewrite (bind_Ok (level_load (true, 100)) _ _ (mkPriceLevel (Some 15) (Some 15) (2 ^ 31)) b1); [|unfold level_load, mbind, prog_bind, get_state, lift; simpl fst; simpl snd; by rewrite (vread_Ok _ _ _ El)].
  rewrite (bind_Ok _ _ _ 5 b2); [|subst m; by apply (fill_level_more n 3)].
  assert (vget (side_levels true b2) 100 = Some lv) as Elv' by done.
  apply (bind_result _ _ _ (fun l b' => l = lv /\ b' = b2)); [by eapply wp_level_load|]. intros _ ? [-> ->].
  rewrite Etot. apply (bind_result _ _ _ (fun _ b' => b' = b2)); [by apply wp_ret|]. intros [] ? ->.
  apply (hollow_level_spins _ _ _ _ lv); try done; rewrite ?Ebest; [lia|done|lia].
Qed.
