(* ===== verification/BookReuse.v ===== *)
(** * A reused order id

    The id table has one entry for an id.  When [add_order] is given the id
    of an order that rests, the entry comes to point to the new order; when
    that one leaves, the entry is cleared, and stays so until the id is added
    once more: the first order rests in the book and cannot be cancelled or
    modified. *)

From S2P Require Import Prelude PriceIndex PriceBitSet OrderBook BookSpec BookInv BookRules BookCore BookMatch BookOps BookCommands BookTheorems.

(** ** An entry that stays clear *)

Create HintDb keeps discriminated.

Section keeps.
Context {Bits : Type} `{PriceIndex Bits} (id : Z).
Implicit Types (b : OrderBook Bits) (order : ptr).
Abbreviation M := (prog (OrderBook Bits)).

(** The table has no order for [id]. *)
Definition unindexed b : Prop := vget (_order_map b) id = Some None.

(** [m] does not give it one. *)
Definition keeps {A} (m : M A) : Prop := forall b x b', unindexed b -> m b = Ok (x, b') -> unindexed b'.

Lemma keeps_ret {A} (x : A) : keeps (mret x).
Proof. by intros b y b' Hb [= _ <-]. Qed.

Lemma keeps_bind {A B} (m : M A) (k : A -> M B) : keeps m -> (forall x, keeps (k x)) -> keeps (m ≫= k).
Proof. intros Hm Hk b y b' Hb (x & b1 & E1 & E2)%bind_Ok_inv. eapply Hk; [|exact E2]. by eapply Hm. Qed.

Lemma keeps_get : keeps get_state.
Proof. by intros b y b' Hb [= _ <-]. Qed.

Lemma keeps_lift {A} (o : outcome A) : keeps (lift o).
Proof. intros b y b' Hb E. unfold lift in E. destruct o; by simplify_eq. Qed.

(** A change of the book that leaves the table as it is. *)
Lemma keeps_change {A} (m : OrderBook Bits -> outcome A) (f : A -> OrderBook Bits -> OrderBook Bits) :
  (forall y b, _order_map (f y b) = _order_map b) -> keeps (b ← get_state; y ← lift (m b); put_state (f y b)).
Proof.
  intros Hf b x b' Hb E. unfold mbind, prog_bind, get_state, lift, put_state in E.
  destruct (m b) as [y| |] eqn:Em; simplify_eq/=. unfold unindexed. by rewrite Hf.
Qed.
#[local] Hint Resolve keeps_ret keeps_bind keeps_get keeps_lift : keeps.

#[local] Hint Extern 1 (_ \/ None = None) => by right : keeps.
#[local] Hint Extern 1 (_ \/ Some _ = None) => left; assumption : keeps.

Lemma keeps_load order : keeps (load order).
Proof. unfold load. auto with keeps. Qed.
Lemma keeps_store order f : keeps (store order f).
Proof. by apply (keeps_change (fun b => assign order f (book_pool b)) set_pool). Qed.
Lemma keeps_deallocate order : keeps (deallocate order).
Proof. by apply (keeps_change (fun b => OrderPool_deallocate order (book_pool b)) set_pool). Qed.
Lemma keeps_level_at s p : keeps (level_at s p).
Proof. unfold level_at. auto with keeps. Qed.
Lemma keeps_level_load l : keeps (level_load l).
Proof. unfold level_load. auto with keeps. Qed.
Lemma keeps_level_store l f : keeps (level_store l f).
Proof.
  apply (keeps_change (fun b => vread (side_levels l.1 b) l.2)
    (fun lv b => set_side_levels l.1 (vset (side_levels l.1 b) l.2 (f lv)) b)). done.
Qed.
Lemma keeps_bits_set s p : keeps (bits_set s p).
Proof. by apply (keeps_change (fun b => set p (side_bits s b)) (fun t => set_side_bits s t)). Qed.
Lemma keeps_bits_clear s p : keeps (bits_clear s p).
Proof. by apply (keeps_change (fun b => clear p (side_bits s b)) (fun t => set_side_bits s t)). Qed.

Lemma keeps_refresh_best : keeps refresh_best.
Proof.
  intros b x b' Hb E. unfold refresh_best, mbind, prog_bind, get_state, lift, put_state in E.
  destruct (get_highest (_bid_bits b)); simplify_eq/=. by destruct (get_lowest _); simplify_eq/=.
Qed.

(** The comparison at the end of [add_order]. *)
Lemma keeps_note_best is_buy price :
  keeps (b ← get_state;
    if is_buy : bool then if price >? _best_bid b then put_state (set_side_best true price b) else mret tt
    else if price <? _best_ask b then put_state (set_side_best false price b) else mret tt).
Proof.
  intros b x b' Hb E. unfold mbind, prog_bind, get_state, put_state in E.
  destruct is_buy; case_match; by injection E as _ <-.
Qed.

Lemma keeps_allocate : keeps allocate.
Proof. intros b x b' Hb E. unfold allocate, OrderPool_allocate, mbind, prog_bind, get_state in E. destruct (_free_list _); by injection E as _ <-. Qed.

Lemma keeps_map_get i : keeps (map_get i).
Proof. unfold map_get. auto with keeps. Qed.

Lemma keeps_map_set i v : i <> id \/ v = None -> keeps (map_set i v).
Proof.
  intros Hv b x b' Hb E. unfold map_set, mbind, prog_bind, get_state, lift, vwrite, put_state in E.
  destruct (vget (_order_map b) i) eqn:Ei; simplify_eq/=. apply vget_Some_range in Ei. unfold unindexed. simpl.
  rewrite vget_set by done. case_decide; [|done]. by destruct Hv as [Hv| ->].
Qed.
#[local] Hint Resolve keeps_load keeps_store keeps_deallocate keeps_level_at keeps_level_load keeps_level_store
  keeps_bits_set keeps_bits_clear keeps_refresh_best keeps_note_best keeps_allocate keeps_map_get keeps_map_set : keeps.

(** One step of the program after another. *)
#[local] Ltac keeps_step := first [ solve [auto with keeps] | simple apply keeps_bind; [|intros ?] | case_match ].
#[local] Ltac keeps_steps := repeat keeps_step.

Lemma keeps_unlink l order : keeps (unlink l order).
Proof. unfold unlink. keeps_steps. Qed.
#[local] Hint Resolve keeps_unlink : keeps.

Lemma keeps_fill_level fuel l : forall order rem, keeps (fill_level fuel l order rem).
Proof. induction fuel as [|fuel IH]; intros order rem; cbn [fill_level]; [done|]. keeps_steps; apply IH. Qed.
#[local] Hint Resolve keeps_fill_level : keeps.

Lemma keeps_match_order fuel price is_buy : forall qty, keeps (match_order fuel price qty is_buy).
Proof.
  unfold match_order. induction fuel as [|fuel IH]; intros qty; cbn [match_loop]; [done|]. keeps_steps; apply IH.
Qed.
#[local] Hint Resolve keeps_match_order : keeps.

Lemma keeps_cancel_order i : keeps (cancel_order i).
Proof. unfold cancel_order. keeps_steps. Qed.
#[local] Hint Resolve keeps_cancel_order : keeps.

Lemma keeps_add_order fuel i price qty is_buy : i <> id -> keeps (add_order fuel i price qty is_buy).
Proof. intros Hi. unfold add_order. keeps_steps. Qed.
#[local] Hint Resolve keeps_add_order : keeps.

Lemma keeps_modify_order fuel i new_price new_qty : keeps (modify_order fuel i new_price new_qty).
Proof.
  destruct (decide (i = id)) as [->|Hi].
  - intros b x b' Hb. unfold modify_order, map_get, vread. unfold mbind, prog_bind, get_state, lift.
    rewrite Hb. by intros [= _ <-].
  - unfold modify_order. keeps_steps.
Qed.
#[local] Hint Resolve keeps_modify_order : keeps.

(** No command but an addition of the id itself indexes it again. *)
Definition adds_no (c : command) : bool := match c with Add i _ _ _ => negb (i =? id) | _ => true end.

Lemma keeps_commands fuel cs : forallb adds_no cs = true -> keeps (run_commands fuel cs).
Proof.
  induction cs as [|c cs IH]; simpl; [auto with keeps|]. intros [Hc Hcs]%andb_true_iff.
  apply keeps_bind; [|auto]. destruct c as [i price qty is_buy|i|i p q|]; simpl in *; [|auto with keeps..].
  apply keeps_add_order. intros ->. by rewrite Z.eqb_refl in Hc.
Qed.

(** A cancellation leaves it without one. *)
Lemma cancel_unindexes b x b' : cancel_order id b = Ok (x, b') -> unindexed b'.
Proof.
  intros (order & b1 & E1 & E2)%bind_Ok_inv. destruct order as [y|].
  - do 6 apply bind_Ok_inv in E2 as (? & ? & ? & E2).
    apply bind_Ok_inv in E2 as ([] & b2 & E2 & E3). eapply keeps_deallocate; [|exact E3].
    unfold map_set, mbind, prog_bind, get_state, lift, vwrite, put_state in E2.
    destruct (vget _ id) eqn:Ei; simplify_eq/=. apply vget_Some_range in Ei. by apply vget_set_eq.
  - injection E2 as _ <-. unfold map_get, vread, mbind, prog_bind, get_state, lift in E1.
    unfold unindexed. by destruct (vget (_order_map b) id) eqn:Ei; simplify_eq/=.
Qed.

Lemma unindexed_cancel b : unindexed b -> cancel_order id b = Ok (tt, b).
Proof. intros Hb. unfold cancel_order, map_get, vread, mbind, prog_bind, get_state, lift. by rewrite Hb. Qed.

Lemma unindexed_modify b fuel p q : unindexed b -> modify_order fuel id p q b = Ok (tt, b).
Proof. intros Hb. unfold modify_order, map_get, vread, mbind, prog_bind, get_state, lift. by rewrite Hb. Qed.
End keeps.

(** ** The two orders *)

Section reuse.
Context {Bits : Type} `{PriceIndex Bits} (ticks orders : Z) `{!PriceIndexLaws Bits ticks}.
Hypothesis orders_range : 0 <= orders <= 2 ^ 32.
Hypothesis ticks_range : 0 < ticks <= UINT32_MAX.
Implicit Types (b : OrderBook Bits) (G : ghost) (a : abook).

(** The cached best prices are those of the orders that rest, whether the
    table has them or not. *)
Lemma sound_best b a : sound ticks orders b a ->
  _best_bid b = default 0 (a_best true a) /\ _best_ask b = default UINT32_MAX (a_best false a).
Proof.
  intros (G & HI & <-). destruct (inv_index _ _ _ _ HI true) as [_ H1], (inv_index _ _ _ _ HI false) as [_ H2].
  unfold side_best in *. rewrite H1, H2. unfold a_best, erase. simpl. by destruct (G true), (G false).
Qed.

(** [add_order] and then [cancel_order], when the order comes to rest: what
    remains is what its trades left, whoever else has the id. *)
Lemma wp_add_cancel fuel id price qty is_buy b G Phi :
  Inv ticks orders b G -> 0 <= id < orders -> 0 < price < ticks -> 0 <= qty < 2 ^ 31 -> orders < Z.of_nat fuel ->
  (spec_match price qty is_buy (erase G)).1 <> 0 -> a_count (spec_match price qty is_buy (erase G)).2 < orders ->
  (forall b1, sound ticks orders b1 (spec_add orders id price qty is_buy (erase G)) ->
     wp (cancel_order id) b1 (fun _ b2 => sound ticks orders b2 (spec_match price qty is_buy (erase G)).2) -> Phi tt b1) ->
  wp (add_order fuel id price qty is_buy) b Phi.
Proof.
  intros HI Hid Hp Hq Hf Hrem Hroom HP.
  eapply (wp_add_cases ticks orders); try done; [lia|lia|by apply (limit_positive ticks)| |].
  { pose proof (side_fits ticks orders orders_range b G (negb is_buy) HI). lia. }
  intros b1 G1 HI1 Had. apply HP; [exists G1; split; [done|by eapply (added_spec ticks orders)]|].
  destruct Had as [rem b1 G1 HM Hend|rem b2 G1 x A B b1 lv HM _ _ HR HG _];
    rewrite (erase_matched ticks orders _ _ _ _ _ _ _ _ HM) in *; simpl in *; [lia|].
  eapply (wp_cancel_found ticks orders ltac:(lia) ltac:(lia) id b1 _ is_buy x (mkResting id price rem) A B);
    [exact HI1|by rewrite ghost_set_eq|done| |].
  { rewrite (rs_map _ _ _ _ _ _ _ _ HR). by rewrite decide_True. }
  intros b3 HI3 _. eexists. split; [exact HI3|]. rewrite !erase_set, <- HG, <- (a_side_erase is_buy).
  by destruct is_buy, (erase G1).
Qed.
End reuse.

(** ** The book of the program *)

Section program.
Context (orders : Z).
Hypothesis orders_range : 0 <= orders <= 2 ^ 32.
Implicit Types (b : Book) (a : abook).

Abbreviation sound := (sound MAX_TICKS orders).

(** C11: Ids are not checked for reuse.  When an order is added with the id
    of one that rests, and both rest after the trades, one of the two can no
    longer be reached: cancelling the id removes the new order alone, and
    the old one stays, and counts for the best prices.  From then on, and
    whatever else the book is told, until the id is added once more, to
    cancel or modify the id changes nothing. *)
Theorem reused_id_orphans fuel b a id price qty is_buy s old cs :
  sound b a -> 0 <= id < orders -> 0 < price < MAX_TICKS -> 0 <= qty < 2 ^ 31 -> orders < Z.of_nat fuel ->
  (spec_match price qty is_buy a).1 <> 0 -> a_count (spec_match price qty is_buy a).2 < orders ->
  old ∈ a_side s (spec_match price qty is_buy a).2 -> r_id old = id ->
  forallb (valid_command MAX_TICKS orders) cs = true -> forallb (adds_no id) cs = true ->
  exists b1 b2 b3 a2 a3,
    add_order fuel id price qty is_buy b = Ok (tt, b1) /\ sound b1 (spec_add orders id price qty is_buy a) /\
    cancel_order id b1 = Ok (tt, b2) /\ sound b2 a2 /\ old ∈ a_side s a2 /\ a2 = (spec_match price qty is_buy a).2 /\
    get_best_bid b2 = default 0 (a_best true a2) /\ get_best_ask b2 = default UINT32_MAX (a_best false a2) /\
    run_commands fuel cs b2 = Ok (tt, b3) /\ sound b3 a3 /\
    cancel_order id b3 = Ok (tt, b3) /\
    forall new_price new_qty, modify_order fuel id new_price new_qty b3 = Ok (tt, b3).
Proof.
  intros (G & HI & <-) Hid Hp Hq Hf Hrem Hroom Hold Hoid Hv Hno.
  assert (wp (add_order fuel id price qty is_buy) b (fun _ b1 =>
    sound b1 (spec_add orders id price qty is_buy (erase G)) /\
    wp (cancel_order id) b1 (fun _ b2 => sound b2 (spec_match price qty is_buy (erase G)).2))) as Hadd.
  { eapply (wp_add_cancel MAX_TICKS orders orders_range ticks_fit); done. }
  destruct Hadd as ([] & b1 & E1 & Hs1 & ([] & b2 & E2 & Hs2)).
  destruct (sound_commands MAX_TICKS orders orders_range ticks_fit fuel cs b2 _ Hs2 Hv Hf) as ([] & b3 & E3 & a3 & Hs3).
  pose proof (keeps_commands id fuel cs Hno b2 tt b3 (cancel_unindexes id b1 tt b2 E2) E3) as Hnone.
  destruct (sound_best MAX_TICKS orders b2 _ Hs2) as [Hbid Hask].
  exists b1, b2, b3, (spec_match price qty is_buy (erase G)).2, a3. split_and!; try done.
  - by apply unindexed_cancel.
  - intros new_price new_qty. by apply unindexed_modify.
Qed.
End program.

(** A bid of 100, another with its id, and then the rest of the day. *)
Lemma reused_id_orphans_witness :
  exists b b1 b2 b3 : Book, sound MAX_TICKS 16 b example_abook /\
    add_order 20 1 105 15 true b = Ok (tt, b1) /\
    sound MAX_TICKS 16 b1 (mkABook [mkResting 1 105 15; mkResting 1 100 10] (a_asks example_abook)) /\
    cancel_order 1 b1 = Ok (tt, b2) /\ sound MAX_TICKS 16 b2 example_abook /\ get_best_bid b2 = 100 /\
    run_commands 20 [Cancel 1; Add 5 130 5 false; Modify 1 90 10] b2 = Ok (tt, b3) /\
    cancel_order 1 b3 = Ok (tt, b3).
Proof.
  destruct example_book as (b & Hb).
  destruct (reused_id_orphans 16 range_16 20 b example_abook 1 105 15 true true (mkResting 1 100 10)
    [Cancel 1; Add 5 130 5 false; Modify 1 90 10]) as (b1 & b2 & b3 & a2 & a3 & E1 & H1 & E2 & H2 & _ & Ea & Hbid & _ & E3 & _ & E4 & _).
  - by apply implements_sound.
  - lia.
  - unfold MAX_TICKS; lia.
  - lia.
  - lia.
  - by vm_compute.
  - by vm_compute.
  - simpl. set_solver.
  - done.
  - done.
  - done.
  - assert ((spec_match 105 15 true example_abook).2 = example_abook) as Em by by vm_compute.
    rewrite Em in Ea. subst a2. exists b, b1, b2, b3. split_and!; [by apply implements_sound|exact E1|exact H1|exact E2|exact H2|exact Hbid|exact E3|exact E4].
Defined.
