(* ===== verification/BookHarness.v ===== *)
(** * The tests and the benchmarks of the book

    src/tests/test_orderbook.cpp and src/benchmarks/bench_orderbook.cpp on the
    model: the expectations of every test hold, and each benchmark works as
    long as the ids that it counts up fit the table of the book, and no
    longer. *)

From S2P Require Import Prelude PriceIndex PriceBitSet OrderBook BookSpec BookInv BookCommands BookTheorems BookLimits.

(** ** The tests *)

(** The body of a test: calls of the fixture's book, and what is expected of
    the two getters. *)
Inductive statement :=
| Call (c : command)
| ExpectBid (price : Z)
| ExpectAsk (price : Z).

Definition InitialStateIsEmpty : list statement := [ExpectBid 0; ExpectAsk UINT32_MAX].

Definition AddAndCancelUpdatesBBO : list statement :=
  [Call (Add 1 100500 100 true); ExpectBid 100500;
   Call (Add 2 100600 100 false); ExpectAsk 100600;
   Call (Cancel 1); ExpectBid 0;
   Call (Cancel 2); ExpectAsk UINT32_MAX].

Definition ExactCrossFillsCompletely : list statement :=
  [Call (Add 1 100500 100 false); Call (Add 2 100500 100 true); ExpectAsk UINT32_MAX; ExpectBid 0].

Definition PartialFillLeavesRestingOrder : list statement :=
  [Call (Add 1 100500 1000 false); Call (Add 2 100500 100 true); ExpectAsk 100500].

Definition AggressiveOrderSweepsMultipleLevels : list statement :=
  [Call (Add 1 100500 100 false); Call (Add 2 100505 100 false); ExpectAsk 100500;
   Call (Add 3 100510 200 true); ExpectAsk UINT32_MAX].

Definition ModifyDownMaintainsBBO : list statement :=
  [Call (Add 1 100500 100 true); Call (Modify 1 100500 50); ExpectBid 100500].

Definition ModifyPriceTriggersCancelAndReplace : list statement :=
  [Call (Add 1 100500 100 true); Call (Modify 1 100400 100); ExpectBid 100400].

Definition order_book_tests : list (list statement) :=
  [InitialStateIsEmpty; AddAndCancelUpdatesBBO; ExactCrossFillsCompletely; PartialFillLeavesRestingOrder;
   AggressiveOrderSweepsMultipleLevels; ModifyDownMaintainsBBO; ModifyPriceTriggersCancelAndReplace].

(** The results of the expectations. *)
Fixpoint run_test (fuel : nat) (test : list statement) : prog Book (list bool) :=
  match test with
  | [] => mret []
  | Call c :: test => run_command fuel c;; run_test fuel test
  | ExpectBid p :: test => b ← get_state; results ← run_test fuel test; mret ((get_best_bid b =? p) :: results)
  | ExpectAsk p :: test => b ← get_state; results ← run_test fuel test; mret ((get_best_ask b =? p) :: results)
  end.

(** ** The benchmarks *)

(** An iteration, from an id to the next. *)
Definition BM_Modify_InPlace (fuel : nat) (id : Z) : prog Book Z :=
  add_order fuel id 100000 100 true;; modify_order fuel id 100000 50;; cancel_order id;; mret (u64 (id + 1)).

Definition BM_Modify_CancelReplace (fuel : nat) (id : Z) : prog Book Z :=
  add_order fuel id 100000 100 true;; modify_order fuel id 100005 100;; cancel_order id;; mret (u64 (id + 1)).

Definition BM_Match_AggressiveOrder (fuel : nat) (id : Z) : prog Book Z :=
  add_order fuel id 100500 100 false;; add_order fuel (u64 (id + 1)) 100500 100 true;; mret (u64 (u64 (id + 1) + 1)).

Fixpoint bench_loop (iteration : Z -> prog Book Z) (n : nat) (id : Z) : prog Book Z :=
  match n with
  | O => mret id
  | Datatypes.S n => id ← iteration id; bench_loop iteration n id
  end.

(** ** The specification of a test *)

Fixpoint spec_test (test : list statement) (a : abook) : list bool :=
  match test with
  | [] => []
  | Call c :: test => spec_test test (spec_command MAX_ORDERS c a)
  | ExpectBid p :: test => (default 0 (a_best true a) =? p) :: spec_test test a
  | ExpectAsk p :: test => (default UINT32_MAX (a_best false a) =? p) :: spec_test test a
  end.

Fixpoint valid_test (test : list statement) (a : abook) : bool :=
  match test with
  | [] => true
  | Call c :: test =>
      valid_command MAX_TICKS MAX_ORDERS c && match c with Add id _ _ _ => negb (bool_decide (id ∈ a_ids a)) | _ => true end &&
      valid_test test (spec_command MAX_ORDERS c a)
  | _ :: test => valid_test test a
  end.

Lemma harness_orders : 0 <= MAX_ORDERS <= 2 ^ 32.
Proof. unfold MAX_ORDERS. lia. Qed.

Section harness.
Context (fuel : nat) (Hfuel : MAX_ORDERS < Z.of_nat fuel).
Implicit Types (b : Book) (a : abook).

Abbreviation holds := (implements MAX_TICKS MAX_ORDERS).

Lemma run_test_spec test b a : holds b a -> valid_test test a = true ->
  wp (run_test fuel test) b (fun results _ => results = spec_test test a).
Proof.
  revert b a. induction test as [|st test IH]; intros b a Hb Hv; [by apply wp_ret|].
  destruct (implements_best MAX_TICKS MAX_ORDERS b a Hb) as [Ebid Eask].
  destruct st as [c|p|p]; cbn [run_test spec_test valid_test] in *.
  - zb. apply wp_bind. eapply wp_mono; [apply (implements_command MAX_TICKS MAX_ORDERS harness_orders ticks_fit fuel c b a); try done|].
    + destruct c; try done. by eapply bool_decide_eq_false, negb_true_iff.
    + intros ? b' Hb'. by apply IH.
  - apply wp_bind, wp_get, wp_bind. eapply wp_mono; [by apply (IH b a)|]. intros results b' ->. apply wp_ret.
    unfold get_best_bid. by rewrite Ebid.
  - apply wp_bind, wp_get, wp_bind. eapply wp_mono; [by apply (IH b a)|]. intros results b' ->. apply wp_ret.
    unfold get_best_ask. by rewrite Eask.
Qed.

(** ** The benchmarks count ids up *)

Lemma wp_bench_loop iteration (step : Z) (ok : Z -> Prop) n id b :
  (forall id b, ok id -> holds b a_empty -> wp (iteration id) b (fun id' b' => id' = id + step /\ holds b' a_empty)) ->
  holds b a_empty -> (forall i, (i < n)%nat -> ok (id + Z.of_nat i * step)) ->
  wp (bench_loop iteration n id) b (fun id' b' => id' = id + Z.of_nat n * step /\ holds b' a_empty).
Proof.
  intros Hit. revert id b. induction n as [|n IH]; intros id b Hb Hok; simpl.
  { apply wp_ret. split; [lia|done]. }
  apply wp_bind. eapply wp_mono; [apply Hit; [|done]|].
  { specialize (Hok 0%nat). rewrite Z.add_0_r in Hok. apply Hok. lia. }
  intros id' b' [-> Hb']. eapply wp_mono; [apply IH; [done|]|].
  { intros i Hi. specialize (Hok (Datatypes.S i)). replace (id + step + Z.of_nat i * step) with (id + Z.of_nat (Datatypes.S i) * step) by lia.
    apply Hok. lia. }
  intros id' b2 [-> Hb2]. split; [lia|done].
Qed.

Lemma bench_loop_add iteration n m id b id' b' : bench_loop iteration n id b = Ok (id', b') ->
  bench_loop iteration (n + m) id b = bench_loop iteration m id' b'.
Proof.
  revert id b. induction n as [|n IH]; intros id b Hrun; [by injection Hrun as -> ->|].
  cbn [bench_loop Nat.add] in *. apply bind_Ok_inv in Hrun as (id1 & b1 & H1 & H2). rewrite (bind_Ok _ _ _ _ _ H1). by apply IH.
Qed.

(** A book with one order, on each side. *)
Lemma add_to_empty id p q (s : bool) : 0 < q -> spec_add MAX_ORDERS id p q s a_empty = set_a_side s [mkResting id p q] a_empty.
Proof. intros Hq. unfold spec_add, spec_match. destruct s; simpl; rewrite (proj2 (Z.eqb_neq q 0)) by lia; done. Qed.

Lemma cancel_only id p q (s : bool) : spec_cancel id (set_a_side s [mkResting id p q] a_empty) = a_empty.
Proof.
  unfold spec_cancel, remove_id. destruct s; simpl; rewrite filter_cons_False by tauto; done.
Qed.

Lemma modify_only id p q p' q' : spec_modify MAX_ORDERS id p' q' (set_a_side true [mkResting id p q] a_empty) =
  if negb (p' =? p) || (q <? q') then spec_add MAX_ORDERS id p' q' true a_empty
  else if q' =? 0 then a_empty else set_a_side true [mkResting id p q'] a_empty.
Proof.
  assert (spec_find id (set_a_side true [mkResting id p q] a_empty) = Some (true, mkResting id p q)) as Hfind.
  { unfold spec_find. simpl. by rewrite Z.eqb_refl. }
  unfold spec_modify. rewrite Hfind, (cancel_only id p q true). cbn [r_price r_qty].
  destruct (negb _ || _), (q' =? 0); try done. unfold requantify. simpl. by rewrite Z.eqb_refl.
Qed.

Lemma not_elem_ids_empty id : id ∉ a_ids a_empty.
Proof. apply not_elem_of_nil. Qed.

(** Adding an order, and changing it, as the first two benchmarks do. *)
Lemma wp_modify_iteration id p' q' b : 0 <= id < MAX_ORDERS -> 0 < p' < MAX_TICKS -> 0 < q' <= 100 -> holds b a_empty ->
  wp (add_order fuel id 100000 100 true;; modify_order fuel id p' q';; cancel_order id;; mret (u64 (id + 1))) b
    (fun id' b' => id' = id + 1 /\ holds b' a_empty).
Proof.
  intros Hid Hp Hq Hb. apply wp_bind. eapply wp_mono.
  { apply (implements_add MAX_TICKS MAX_ORDERS harness_orders ticks_fit); [exact Hb|done|unfold MAX_TICKS; lia|apply (limit_positive MAX_TICKS ticks_fit); unfold MAX_TICKS; lia|lia|apply not_elem_ids_empty|unfold a_count; simpl; lia]. }
  intros ? b1 H1. rewrite add_to_empty in H1 by lia. apply wp_bind. eapply wp_mono.
  { apply (implements_modify MAX_TICKS MAX_ORDERS harness_orders ticks_fit); [exact H1|done|lia|lia| |unfold a_count; simpl; lia].
    intros s r _ _. by apply (limit_positive MAX_TICKS ticks_fit). }
  intros ? b2 H2. assert (exists p q, holds b2 (set_a_side true [mkResting id p q] a_empty)) as (p & q & H2').
  { rewrite modify_only in H2. destruct (negb _ || _); [rewrite add_to_empty in H2 by lia; eauto|].
    rewrite (proj2 (Z.eqb_neq q' 0)) in H2 by lia. eauto. }
  apply wp_bind. eapply wp_mono; [apply (implements_cancel MAX_TICKS MAX_ORDERS harness_orders ticks_fit); [exact H2'|done]|].
  intros ? b3 H3. rewrite cancel_only in H3. apply wp_ret. split; [|done]. apply wrap_small. unfold MAX_ORDERS in Hid. lia.
Qed.

Lemma wp_match_iteration id b : 0 <= id < MAX_ORDERS -> holds b a_empty ->
  wp (BM_Match_AggressiveOrder fuel id) b (fun id' b' => id' = id + 2 /\ holds b' a_empty).
Proof.
  intros Hid Hb. unfold BM_Match_AggressiveOrder. rewrite !wrap_small by (rewrite ?wrap_small; unfold MAX_ORDERS in *; lia). apply wp_bind. eapply wp_mono.
  { apply (implements_add MAX_TICKS MAX_ORDERS harness_orders ticks_fit); [exact Hb|lia|unfold MAX_TICKS; lia|apply (limit_positive MAX_TICKS ticks_fit); unfold MAX_TICKS; lia|lia|apply not_elem_ids_empty|unfold a_count; simpl; lia]. }
  intros ? b1 H1. rewrite add_to_empty in H1 by lia.
  assert (spec_match 100500 100 true (set_a_side false [mkResting id 100500 100] a_empty) = (0, a_empty)) as Em by reflexivity.
  apply wp_bind. unfold add_order at 1. apply wp_bind. eapply wp_mono.
  { apply (implements_match MAX_TICKS MAX_ORDERS harness_orders fuel 100500 100 true b1 _ H1);
      [lia|apply (limit_positive MAX_TICKS ticks_fit); unfold MAX_TICKS; lia|unfold a_count; simpl; unfold MAX_ORDERS in *; lia]. }
  rewrite Em. intros rem b2 [-> H2]. simpl. apply wp_ret, wp_ret. split; [lia|done].
Qed.

(** ** Too many iterations *)

(** The first order of an iteration has an id beyond the table. *)
Lemma add_first_beyond id p (s : bool) b : MAX_ORDERS <= id -> 0 < p < MAX_TICKS -> holds b a_empty ->
  add_order fuel id p 100 s b = Undefined OutOfBounds.
Proof.
  intros Hid Hp Hb. pose proof (add_order_beyond MAX_ORDERS harness_orders fuel b a_empty id p 100 s (implements_sound _ _ _ _ Hb) Hid) as Hadd.
  assert (spec_match p 100 s a_empty = (100, a_empty)) as Em by by destruct s. rewrite Em in Hadd.
  apply Hadd; [unfold a_count; simpl; unfold MAX_ORDERS in *; lia|by apply (limit_positive MAX_TICKS ticks_fit)|lia|done|].
  unfold a_count, MAX_ORDERS. simpl. lia.
Qed.

(** The benchmark works for [limit] iterations, which count the id up by
    [step], and leave the book empty. *)
Definition works_up_to (iteration : Z -> prog Book Z) (step limit : Z) : Prop := forall m,
  if Z.of_nat m <=? limit then
    exists b', bench_loop iteration m 1 (OrderBook_new MAX_TICKS MAX_ORDERS) = Ok (1 + Z.of_nat m * step, b') /\ holds b' a_empty
  else bench_loop iteration m 1 (OrderBook_new MAX_TICKS MAX_ORDERS) = Undefined OutOfBounds.

(** Counting up from 1, [n] iterations are as many as the table allows. *)
Lemma bench_runs iteration step n m :
  (forall id b, 0 <= id < MAX_ORDERS -> holds b a_empty -> wp (iteration id) b (fun id' b' => id' = id + step /\ holds b' a_empty)) ->
  (forall id b, MAX_ORDERS <= id -> holds b a_empty -> iteration id b = Undefined OutOfBounds) ->
  0 < step -> (forall i, (i < n)%nat -> 1 + Z.of_nat i * step < MAX_ORDERS) -> MAX_ORDERS <= 1 + Z.of_nat n * step ->
  (m <= n)%nat /\ (exists b', bench_loop iteration m 1 (OrderBook_new MAX_TICKS MAX_ORDERS) = Ok (1 + Z.of_nat m * step, b') /\ holds b' a_empty) \/
  (n < m)%nat /\ bench_loop iteration m 1 (OrderBook_new MAX_TICKS MAX_ORDERS) = Undefined OutOfBounds.
Proof.
  intros Hit Hbad Hstep Hn Hend.
  pose proof (implements_new MAX_TICKS MAX_ORDERS harness_orders ticks_fit (Bits := PriceBitSet MAX_TICKS)) as Hnew.
  assert (forall k, (k <= n)%nat -> exists b', bench_loop iteration k 1 (OrderBook_new MAX_TICKS MAX_ORDERS) = Ok (1 + Z.of_nat k * step, b') /\ holds b' a_empty) as Hk.
  { intros k Hle. destruct (wp_bench_loop iteration step (fun id => 0 <= id < MAX_ORDERS) k 1 _ Hit Hnew) as (id' & b' & Hrun & -> & Hb').
    - intros i Hi. split; [lia|]. apply Hn. lia.
    - by exists b'. }
  destruct (le_lt_dec m n) as [Hle|Hlt]; [left; by auto|right]. split; [done|].
  destruct (Hk n) as (b' & Hrun & Hb'); [done|]. replace m with (n + Datatypes.S (m - n - 1))%nat by lia.
  rewrite (bench_loop_add _ _ _ _ _ _ _ Hrun). cbn [bench_loop]. by apply bind_undefined, Hbad.
Qed.

Lemma works_bench_runs iteration step limit :
  (forall id b, 0 <= id < MAX_ORDERS -> holds b a_empty -> wp (iteration id) b (fun id' b' => id' = id + step /\ holds b' a_empty)) ->
  (forall id b, MAX_ORDERS <= id -> holds b a_empty -> iteration id b = Undefined OutOfBounds) ->
  0 < step -> 0 <= limit -> 1 + (limit - 1) * step < MAX_ORDERS <= 1 + limit * step -> works_up_to iteration step limit.
Proof.
  intros Hit Hbad Hstep Hlim Hl m. destruct (bench_runs iteration step (Z.to_nat limit) m Hit Hbad Hstep) as [[Hle Hrun]|[Hlt Hrun]]; [nia|nia|..].
  - rewrite (proj2 (Z.leb_le _ _)) by lia. done.
  - rewrite (proj2 (Z.leb_gt _ _)) by lia. done.
Qed.
End harness.

(** ** The theorems *)

Lemma harness_fuel : MAX_ORDERS < Z.of_nat (Z.to_nat 1500001).
Proof. rewrite Z2Nat.id by lia. unfold MAX_ORDERS. lia. Qed.

(** Every expectation of the repository's tests of the book holds. *)
Theorem order_book_tests_pass fuel : MAX_ORDERS < Z.of_nat fuel ->
  Forall (fun test => exists results b', run_test fuel test (OrderBook_new MAX_TICKS MAX_ORDERS) = Ok (results, b') /\
    Forall (fun passed => passed = true) results) order_book_tests.
Proof.
  intros Hf. pose proof (implements_new MAX_TICKS MAX_ORDERS harness_orders ticks_fit (Bits := PriceBitSet MAX_TICKS)) as Hnew.
  assert (forallb (fun test => valid_test test a_empty && forallb id (spec_test test a_empty)) order_book_tests = true) as Hall by by vm_compute.
  apply Forall_forall. intros test Hin. rewrite forallb_forall in Hall. apply list_elem_of_In, Hall, andb_true_iff in Hin as [Hv Hs].
  destruct (run_test_spec fuel Hf test _ _ Hnew Hv) as (results & b' & Hrun & ->). eexists _, b'. split; [exact Hrun|].
  apply Forall_forall. rewrite forallb_forall in Hs. intros x Hx%list_elem_of_In. by apply (Hs x).
Qed.

(** The benchmarks count their ids up without bound, while the table of
    the book has MAX_ORDERS entries: the two benchmarks of [modify_order] work
    for 1,499,999 iterations, that of matching, which takes two ids each time,
    for 750,000, and read or write out of bounds after that. *)
Theorem benchmarks_overrun fuel : MAX_ORDERS < Z.of_nat fuel ->
  works_up_to (BM_Modify_InPlace fuel) 1 1499999 /\ works_up_to (BM_Modify_CancelReplace fuel) 1 1499999 /\
  works_up_to (BM_Match_AggressiveOrder fuel) 2 750000.
Proof.
  intros Hf. split_and!; apply (works_bench_runs fuel Hf); try (unfold MAX_ORDERS; lia).
  - intros id b Hid. apply (wp_modify_iteration fuel Hf); (unfold MAX_TICKS; lia || done).
  - intros id b Hid Hb. apply bind_undefined, (add_first_beyond fuel Hf); (done || unfold MAX_TICKS; lia).
  - intros id b Hid. apply (wp_modify_iteration fuel Hf); (unfold MAX_TICKS; lia || done).
  - intros id b Hid Hb. apply bind_undefined, (add_first_beyond fuel Hf); (done || unfold MAX_TICKS; lia).
  - intros id b Hid. by apply (wp_match_iteration fuel Hf).
  - intros id b Hid Hb. apply bind_undefined, (add_first_beyond fuel Hf); (done || unfold MAX_TICKS; lia).
Qed.

Lemma order_book_tests_pass_witness :
  Forall (fun test => exists results b', run_test (Z.to_nat 1500001) test (OrderBook_new MAX_TICKS MAX_ORDERS) = Ok (results, b') /\
    Forall (fun passed => passed = true) results) order_book_tests.
Proof. exact (order_book_tests_pass (Z.to_nat 1500001) harness_fuel). Defined.

Lemma benchmarks_overrun_witness : works_up_to (BM_Match_AggressiveOrder (Z.to_nat 1500001)) 2 750000.
Proof. exact (proj2 (proj2 (benchmarks_overrun (Z.to_nat 1500001) harness_fuel))). Defined.
