(* ===== verification/SPSCQueue.v ===== *)
(** * SPSCQueue.h, one operation at a time

    The ring buffer with its two published cursors and the two cached copies.
    A slot of the ring is raw storage ([None]) or holds a live object.  The
    operations are run here without interference (a load returns the last
    value stored); SPSCConcurrent.v has the two threads. *)

From S2P Require Import Prelude.

Record SPSCQueue (T : Type) := mkSPSCQueue {
  _capacity : Z;
  _index_mask : Z;
  _ring : vec (option T);
  _push_cursor : Z;
  _pop_cursor : Z;
  _push_cursor_cached : Z;
  _pop_cursor_cached : Z;
}.
Arguments mkSPSCQueue {T} _ _ _ _ _ _ _.
Arguments _capacity {T} _.
Arguments _index_mask {T} _.
Arguments _ring {T} _.
Arguments _push_cursor {T} _.
Arguments _pop_cursor {T} _.
Arguments _push_cursor_cached {T} _.
Arguments _pop_cursor_cached {T} _.

(** [std::has_single_bit]. *)
Definition has_single_bit (x : Z) : bool := negb (x =? 0) && (Z.land x (x - 1) =? 0).

(** The private overloads of [full] and [empty]. *)
Definition full_at (capacity push_cursor pop_cursor : Z) : bool := u64 (push_cursor - pop_cursor) >=? capacity.
Definition empty_at (push_cursor pop_cursor : Z) : bool := push_cursor =? pop_cursor.

Section SPSCQueue.
Context {T : Type}.
Implicit Types (q : SPSCQueue T) (value : T).

(** [assert] is compiled out when [NDEBUG] is defined. *)
Definition assert_ {S} (ndebug c : bool) : prog S unit :=
  if ndebug || c then mret tt else throw AssertFailed.

Definition SPSCQueue_new (ndebug : bool) (capacity : Z) : outcome (SPSCQueue T) :=
  let q := mkSPSCQueue capacity (if capacity >? 0 then capacity - 1 else 0) (vnew capacity None) 0 0 0 0 in
  if ndebug || has_single_bit capacity then Ok q else Undefined AssertFailed.

Definition set_ring (r : vec (option T)) q : SPSCQueue T :=
  mkSPSCQueue (_capacity q) (_index_mask q) r (_push_cursor q) (_pop_cursor q)
    (_push_cursor_cached q) (_pop_cursor_cached q).
Definition set_push_cursor (v : Z) q : SPSCQueue T :=
  mkSPSCQueue (_capacity q) (_index_mask q) (_ring q) v (_pop_cursor q)
    (_push_cursor_cached q) (_pop_cursor_cached q).
Definition set_pop_cursor (v : Z) q : SPSCQueue T :=
  mkSPSCQueue (_capacity q) (_index_mask q) (_ring q) (_push_cursor q) v
    (_push_cursor_cached q) (_pop_cursor_cached q).
Definition set_push_cursor_cached (v : Z) q : SPSCQueue T :=
  mkSPSCQueue (_capacity q) (_index_mask q) (_ring q) (_push_cursor q) (_pop_cursor q)
    v (_pop_cursor_cached q).
Definition set_pop_cursor_cached (v : Z) q : SPSCQueue T :=
  mkSPSCQueue (_capacity q) (_index_mask q) (_ring q) (_push_cursor q) (_pop_cursor q)
    (_push_cursor_cached q) v.

Abbreviation M := (prog (SPSCQueue T)).

(** [construct] and [destroy] of the allocator, and moving out of a slot:
    the last two need a live object. *)
Definition construct (idx : Z) (value : T) : M unit :=
  q ← get_state; r ← lift (vwrite (_ring q) idx (Some value)); put_state (set_ring r q).
Definition move_out (idx : Z) : M T :=
  q ← get_state; s ← lift (vread (_ring q) idx);
  match s with Some v => mret v | None => throw OutOfBounds end.
Definition destroy (idx : Z) : M unit :=
  move_out idx;; q ← get_state; r ← lift (vwrite (_ring q) idx None); put_state (set_ring r q).

Definition size (ndebug : bool) : M Z :=
  q ← get_state;
  let push_cursor := _push_cursor q in
  let pop_cursor := _pop_cursor q in
  assert_ ndebug (pop_cursor <=? push_cursor);;
  mret (u64 (push_cursor - pop_cursor)).

Definition empty_ (ndebug : bool) : M bool := n ← size ndebug; mret (n =? 0).
Definition full (ndebug : bool) : M bool := n ← size ndebug; q ← get_state; mret (n =? _capacity q).

Definition push (value : T) : M bool :=
  q ← get_state;
  if _capacity q =? 0 then mret false else
  let push_cursor := _push_cursor q in
  has_room ←
    (if full_at (_capacity q) push_cursor (_pop_cursor_cached q) then
       q ← get_state;
       put_state (set_pop_cursor_cached (_pop_cursor q) q);;
       q ← get_state;
       mret (negb (full_at (_capacity q) push_cursor (_pop_cursor_cached q)))
     else mret true);
  if negb has_room then mret false else
  q ← get_state;
  let idx := Z.land push_cursor (_index_mask q) in
  construct idx value;;
  q ← get_state;
  put_state (set_push_cursor (u64 (push_cursor + 1)) q);;
  mret true.

(** [pop] returns what it assigned to its argument when it returns true. *)
Definition pop : M (option T) :=
  q ← get_state;
  let pop_cursor := _pop_cursor q in
  has_item ←
    (if empty_at (_push_cursor_cached q) pop_cursor then
       q ← get_state;
       put_state (set_push_cursor_cached (_push_cursor q) q);;
       q ← get_state;
       mret (negb (empty_at (_push_cursor_cached q) pop_cursor))
     else mret true);
  if negb has_item then mret None else
  q ← get_state;
  let idx := Z.land pop_cursor (_index_mask q) in
  value ← move_out idx;
  destroy idx;;
  q ← get_state;
  put_state (set_pop_cursor (u64 (pop_cursor + 1)) q);;
  mret (Some value).

(** The loop of the destructor. *)
Fixpoint destroy_all (ndebug : bool) (fuel : nat) : M unit :=
  match fuel with
  | O => loop_out
  | S fuel =>
      e ← empty_ ndebug;
      if (e : bool) then mret tt else
      q ← get_state;
      let idx := Z.land (_pop_cursor q) (_index_mask q) in
      destroy idx;;
      q ← get_state;
      put_state (set_pop_cursor (u64 (_pop_cursor q + 1)) q);;
      destroy_all ndebug fuel
  end.

(** [deallocate] of the allocator, which must be given the size that was
    allocated: there is no storage afterwards. *)
Definition deallocate_ring : M unit :=
  q ← get_state;
  if vsize (_ring q) =? _capacity q then put_state (set_ring (vnew 0 None) q) else throw OutOfBounds.

(** The destructor ([_ring] is null when nothing was allocated). *)
Definition SPSCQueue_destroy (ndebug : bool) (fuel : nat) : M unit :=
  destroy_all ndebug fuel;;
  q ← get_state;
  if negb (vsize (_ring q) =? 0) then deallocate_ring else mret tt.
End SPSCQueue.

(** ** Cursors

    A cursor counts the elements ever pushed (or popped) modulo [2^64]; the
    invariant speaks of the counts themselves. *)

(** A window of [capacity] consecutive counts has distinct slots. *)
Section cursors.
Context (k : Z).
Hypothesis k_range : 0 <= k <= 63.

Lemma pow_k : 0 < 2 ^ k < 2 ^ 64.
Proof. split; [apply Z.pow_pos_nonneg; lia|apply Z.pow_lt_mono_r; lia]. Qed.

Lemma mask_index n : Z.land (u64 n) (2 ^ k - 1) = n mod 2 ^ k.
Proof.
  assert (2 ^ k - 1 = Z.ones k) as -> by (rewrite Z.ones_equiv; lia).
  rewrite Z.land_ones by lia. unfold wrap. rewrite Z.mod_mod_divide; [done|].
  exists (2 ^ (64 - k)). rewrite <- Z.pow_add_r by lia. f_equal. lia.
Qed.

Lemma cursor_diff n m : u64 (u64 n - u64 m) = u64 (n - m).
Proof. unfold wrap. by rewrite <- Zminus_mod. Qed.

Lemma cursor_next n : u64 (u64 n + 1) = u64 (n + 1).
Proof. unfold wrap. by rewrite Zplus_mod_idemp_l. Qed.

Lemma full_at_spec n m : m <= n <= m + 2 ^ k -> full_at (2 ^ k) (u64 n) (u64 m) = (n - m =? 2 ^ k).
Proof.
  intros H. pose proof pow_k. unfold full_at. rewrite cursor_diff, wrap_small by lia.
  rewrite Z.geb_leb. destruct (Z.eqb_spec (n - m) (2 ^ k)); [apply Z.leb_le|apply Z.leb_gt]; lia.
Qed.

Lemma empty_at_spec n m : m <= n <= m + 2 ^ k -> empty_at (u64 n) (u64 m) = (n =? m).
Proof.
  intros H. pose proof pow_k. unfold empty_at. destruct (Z.eqb_spec n m) as [->|Hne]; [apply Z.eqb_refl|].
  apply Z.eqb_neq. intros E. apply Hne.
  assert (u64 (n - m) = 0) as Hz by (rewrite <- cursor_diff, E, Z.sub_diag; done).
  rewrite wrap_small in Hz by lia. lia.
Qed.

Lemma slot_distinct i j : 0 < Z.abs (i - j) < 2 ^ k -> i mod 2 ^ k <> j mod 2 ^ k.
Proof.
  intros H E. pose proof pow_k as [Hk _]. revert H E Hk. generalize (2 ^ k). intros P H E Hk.
  pose proof (Z.div_mod i P ltac:(lia)) as Hi. pose proof (Z.div_mod j P ltac:(lia)) as Hj.
  assert (i - j = P * (i / P - j / P)) as Hd by lia. rewrite Hd, Z.abs_mul in H.
  destruct (decide (i / P - j / P = 0)) as [Hz|Hz]; [rewrite Hz in H; lia|].
  assert (1 <= Z.abs (i / P - j / P)) by lia. nia.
Qed.

Lemma slot_range i : 0 <= i mod 2 ^ k < 2 ^ k.
Proof. pose proof pow_k. apply Z.mod_pos_bound. lia. Qed.
End cursors.

(** ** The contents *)

Section contents.
Context {T : Type} (k : Z).
Hypothesis k_range : 0 <= k <= 63.
Implicit Types (q : SPSCQueue T) (value : T) (l : list T).

(** [n] elements have been pushed and [m] popped; the cached cursors are old
    values [c] and [p] of the published ones. *)
Record ring_inv q n m c p l : Prop := {
  ri_capacity : _capacity q = 2 ^ k;
  ri_mask : _index_mask q = 2 ^ k - 1;
  ri_ring : vsize (_ring q) = 2 ^ k;
  ri_push : _push_cursor q = u64 n;
  ri_pop : _pop_cursor q = u64 m;
  ri_push_cached : _push_cursor_cached q = u64 c;
  ri_pop_cached : _pop_cursor_cached q = u64 p;
  ri_bounds : p <= m <= c /\ c <= n <= p + 2 ^ k;
  ri_length : Z.of_nat (length l) = n - m;
  ri_live : forall i x, l !! i = Some x -> vget (_ring q) ((m + Z.of_nat i) mod 2 ^ k) = Some (Some x);
  ri_raw : forall i, n <= i < m + 2 ^ k -> vget (_ring q) (i mod 2 ^ k) = Some None;
}.

(** The queue holds [l], oldest first. *)
Definition contents q l : Prop := exists n m c p, ring_inv q n m c p l.

Lemma contents_bound q l : contents q l -> Z.of_nat (length l) <= 2 ^ k.
Proof. intros (n & m & c & p & HR). rewrite (ri_length _ _ _ _ _ _ HR). pose proof (ri_bounds _ _ _ _ _ _ HR). lia. Qed.

Lemma contents_new ndebug :
  exists q, SPSCQueue_new ndebug (2 ^ k) = Ok q /\ contents q [].
Proof.
  pose proof (pow_k k k_range). eexists. split.
  - unfold SPSCQueue_new. assert (has_single_bit (2 ^ k) = true) as ->; [|by rewrite orb_true_r].
    unfold has_single_bit. apply andb_true_iff. split; [apply negb_true_iff, Z.eqb_neq; lia|].
    assert (2 ^ k - 1 = Z.ones k) as -> by (rewrite Z.ones_equiv; lia). rewrite Z.land_ones by lia.
    by rewrite Z.mod_same by lia.
  - exists 0, 0, 0, 0. zcase (2 ^ k >? 0); [|lia]. split; simpl; try done; [lia|].
    intros i _. apply vget_new. apply slot_range; lia.
Qed.

(** ** Pushing *)

Lemma ring_push q n m c p l value :
  ring_inv q n m c p l -> n < p + 2 ^ k ->
  ring_inv (set_push_cursor (u64 (_push_cursor q + 1))
    (set_ring (vset (_ring q) (n mod 2 ^ k) (Some value)) q)) (n + 1) m c p (l ++ [value]).
Proof.
  intros [H1 H2 H3 H4 H5 H6 H7 H8 H9 H10 H11] Hn. pose proof (slot_range k k_range n) as Hs.
  split; simpl; try done; [by rewrite vsize_set|by rewrite H4, cursor_next|lia|rewrite length_app; simpl; lia| |].
  - intros i x Hi. apply lookup_app_Some in Hi as [Hi|[Hi Hx]].
    + rewrite vget_set_ne; [by apply H10|]. apply lookup_lt_Some in Hi. apply slot_distinct; lia.
    + apply list_lookup_singleton_Some in Hx as [Hx <-]. assert (m + Z.of_nat i = n) as -> by lia.
      apply vget_set_eq. lia.
  - intros i Hi. rewrite vget_set_ne; [by apply H11; lia|]. apply slot_distinct; lia.
Qed.

(** Catching up with the published pop cursor. *)
Lemma ring_refresh_pop q n m c p l :
  ring_inv q n m c p l -> ring_inv (set_pop_cursor_cached (_pop_cursor q) q) n m c m l.
Proof. intros [H1 H2 H3 H4 H5 H6 H7 H8 H9 H10 H11]. split; simpl; try done. lia. Qed.

Lemma ring_refresh_push q n m c p l :
  ring_inv q n m c p l -> ring_inv (set_push_cursor_cached (_push_cursor q) q) n m n p l.
Proof. intros [H1 H2 H3 H4 H5 H6 H7 H8 H9 H10 H11]. split; simpl; try done. lia. Qed.

Lemma wp_push q l value (Phi : bool -> SPSCQueue T -> Prop) :
  contents q l ->
  (forall q', contents q' (if Z.of_nat (length l) <? 2 ^ k then l ++ [value] else l) ->
     Phi (Z.of_nat (length l) <? 2 ^ k) q') ->
  wp (push value) q Phi.
Proof.
  intros (n & m & c & p & HR) HP. pose proof (pow_k k k_range).
  pose proof (ri_length _ _ _ _ _ _ HR) as Hlen. pose proof (ri_bounds _ _ _ _ _ _ HR) as Hb.
  apply wp_bind, wp_get. rewrite (ri_capacity _ _ _ _ _ _ HR). zcase (2 ^ k =? 0); [lia|].
  rewrite (ri_push _ _ _ _ _ _ HR), (ri_pop_cached _ _ _ _ _ _ HR). cbv zeta. rewrite (full_at_spec k) by lia.
  apply wp_bind.
  assert (forall q1 p1, ring_inv q1 n m c p1 l -> n < p1 + 2 ^ k ->
    wp (q2 ← get_state; construct (Z.land (u64 n) (_index_mask q2)) value;;
        q3 ← get_state; put_state (set_push_cursor (u64 (u64 n + 1)) q3);; mret true) q1 Phi) as Hstore.
  { intros q1 p1 HR1 Hn. apply wp_bind, wp_get. rewrite (ri_mask _ _ _ _ _ _ HR1), mask_index by done.
    pose proof (ri_bounds _ _ _ _ _ _ HR1) as Hb1. assert (n - m < 2 ^ k) as Hroom by lia.
    apply wp_bind, wp_bind, wp_get, wp_bind. eapply wp_lift.
    { apply vwrite_Ok. rewrite (ri_ring _ _ _ _ _ _ HR1). by apply slot_range. }
    apply wp_put, wp_bind, wp_get, wp_bind, wp_put, wp_ret.
    rewrite Hlen in HP. assert ((n - m <? 2 ^ k) = true) as El by (apply Z.ltb_lt; lia). rewrite El in HP. apply HP.
    exists (n + 1), m, c, p1. rewrite <- (ri_push _ _ _ _ _ _ HR1) at 1. by apply ring_push. }
  zcase (n - p =? 2 ^ k).
  - apply wp_bind, wp_get, wp_bind, wp_put, wp_bind, wp_get, wp_ret. simpl.
    rewrite (ri_capacity _ _ _ _ _ _ HR), (ri_pop _ _ _ _ _ _ HR), (full_at_spec k) by lia. pose proof (ring_refresh_pop _ _ _ _ _ _ HR) as HR'.
    rewrite (ri_pop _ _ _ _ _ _ HR) in HR'. zcase (n - m =? 2 ^ k); simpl.
    + apply wp_ret. rewrite Hlen in HP. assert ((n - m <? 2 ^ k) = false) as El by (apply Z.ltb_ge; lia).
      rewrite El in HP. apply HP. by exists n, m, c, m.
    + apply (Hstore _ m); [done|lia].
  - apply wp_ret. simpl. apply (Hstore _ p); [done|lia].
Qed.

(** ** Popping *)

Lemma ring_pop q n m c p x l :
  ring_inv q n m c p (x :: l) -> m < c ->
  ring_inv (set_pop_cursor (u64 (_pop_cursor q + 1))
    (set_ring (vset (_ring q) (m mod 2 ^ k) None) q)) n (m + 1) c p l.
Proof.
  intros [H1 H2 H3 H4 H5 H6 H7 H8 H9 H10 H11] Hc. pose proof (slot_range k k_range m) as Hs. simpl in H9.
  split; simpl; try done; [by rewrite vsize_set|by rewrite H5, cursor_next|lia|lia| |].
  - intros i y Hi. rewrite vget_set_ne.
    + replace (m + 1 + Z.of_nat i) with (m + Z.of_nat (S i)) by lia. by apply H10.
    + apply lookup_lt_Some in Hi. apply slot_distinct; lia.
  - intros i Hi. destruct (decide (i = m + 2 ^ k)) as [->|Hne].
    + replace (m + 2 ^ k) with (m + 1 * 2 ^ k) by lia. rewrite Z.mod_add by lia. apply vget_set_eq. lia.
    + rewrite vget_set_ne; [apply H11; lia|]. apply slot_distinct; lia.
Qed.

(** Ending the life of the oldest element. *)
Lemma wp_destroy q n m c p x l (Phi : unit -> SPSCQueue T -> Prop) :
  ring_inv q n m c p (x :: l) -> Phi tt (set_ring (vset (_ring q) (m mod 2 ^ k) None) q) ->
  wp (destroy (m mod 2 ^ k)) q Phi.
Proof.
  intros HR HP. pose proof (ri_live _ _ _ _ _ _ HR 0%nat x eq_refl) as Hx. rewrite Z.add_0_r in Hx.
  apply wp_bind, wp_bind, wp_get, wp_bind. eapply wp_lift; [by apply vread_Ok|].
  apply wp_ret, wp_bind, wp_get, wp_bind. eapply wp_lift; [|by apply wp_put].
  apply vwrite_Ok. by apply vget_Some_range in Hx.
Qed.

Lemma wp_pop q l (Phi : option T -> SPSCQueue T -> Prop) :
  contents q l ->
  (forall q', contents q' (tail l) -> Phi (head l) q') ->
  wp pop q Phi.
Proof.
  intros (n & m & c & p & HR) HP. pose proof (pow_k k k_range).
  pose proof (ri_length _ _ _ _ _ _ HR) as Hlen. pose proof (ri_bounds _ _ _ _ _ _ HR) as Hb.
  apply wp_bind, wp_get.
  rewrite (ri_pop _ _ _ _ _ _ HR), (ri_push_cached _ _ _ _ _ _ HR). cbv zeta. rewrite (empty_at_spec k) by lia.
  apply wp_bind.
  assert (forall q1 c1, ring_inv q1 n m c1 p l -> m < c1 ->
    wp (q2 ← get_state; value ← move_out (Z.land (u64 m) (_index_mask q2));
        destroy (Z.land (u64 m) (_index_mask q2));;
        q3 ← get_state; put_state (set_pop_cursor (u64 (u64 m + 1)) q3);; mret (Some value)) q1 Phi) as Htake.
  { intros q1 c1 HR1 Hc. apply wp_bind, wp_get. rewrite (ri_mask _ _ _ _ _ _ HR1), mask_index by done.
    pose proof (ri_bounds _ _ _ _ _ _ HR1) as Hb1. destruct l as [|x l]; [simpl in *; lia|].
    pose proof (ri_live _ _ _ _ _ _ HR1 0%nat x eq_refl) as Hx. rewrite Z.add_0_r in Hx.
    apply wp_bind, wp_bind, wp_get, wp_bind. eapply wp_lift; [by apply vread_Ok|]. apply wp_ret.
    apply wp_bind. eapply wp_destroy; [done|]. apply wp_bind, wp_get, wp_bind, wp_put, wp_ret, HP.
    exists n, (m + 1), c1, p. rewrite <- (ri_pop _ _ _ _ _ _ HR1) at 1. by eapply ring_pop. }
  zcase (c =? m).
  - apply wp_bind, wp_get, wp_bind, wp_put, wp_bind, wp_get, wp_ret. simpl.
    rewrite (ri_push _ _ _ _ _ _ HR), (empty_at_spec k) by lia. pose proof (ring_refresh_push _ _ _ _ _ _ HR) as HR'.
    rewrite (ri_push _ _ _ _ _ _ HR) in HR'. zcase (n =? m); simpl.
    + apply wp_ret. destruct l as [|x l]; [|simpl in *; lia]. apply HP. by exists n, m, n, p.
    + apply (Htake _ n); [done|lia].
  - apply wp_ret. simpl. apply (Htake _ c); [done|lia].
Qed.
End contents.

(** ** The contract: a bounded queue *)

Inductive queue_op (T : Type) := QPush (value : T) | QPop.
Arguments QPush {T} value.
Arguments QPop {T}.

(** What an operation returned. *)
Inductive queue_result (T : Type) := Pushed (accepted : bool) | Popped (value : option T).
Arguments Pushed {T} accepted.
Arguments Popped {T} value.

Definition run_queue_op {T} (op : queue_op T) : prog (SPSCQueue T) (queue_result T) :=
  match op with
  | QPush value => accepted ← push value; mret (Pushed accepted)
  | QPop => value ← pop; mret (Popped value)
  end.

Fixpoint run_queue {T} (ops : list (queue_op T)) : prog (SPSCQueue T) (list (queue_result T)) :=
  match ops with
  | [] => mret []
  | op :: ops => r ← run_queue_op op; rs ← run_queue ops; mret (r :: rs)
  end.

Definition spec_queue_op {T} (capacity : Z) (op : queue_op T) (l : list T) : queue_result T * list T :=
  match op with
  | QPush value =>
      let accepted := Z.of_nat (length l) <? capacity in
      (Pushed accepted, if accepted then l ++ [value] else l)
  | QPop => (Popped (head l), tail l)
  end.

Fixpoint spec_queue {T} (capacity : Z) (ops : list (queue_op T)) (l : list T) : list (queue_result T) * list T :=
  match ops with
  | [] => ([], l)
  | op :: ops =>
      let '(r, l) := spec_queue_op capacity op l in
      let '(rs, l) := spec_queue capacity ops l in
      (r :: rs, l)
  end.

Section contract.
Context {T : Type} (k : Z).
Hypothesis k_range : 0 <= k <= 63.
Implicit Types (q : SPSCQueue T) (value : T) (l : list T).

Lemma wp_queue_op op q l (Phi : queue_result T -> SPSCQueue T -> Prop) :
  contents k q l ->
  (forall q', contents k q' (spec_queue_op (2 ^ k) op l).2 -> Phi (spec_queue_op (2 ^ k) op l).1 q') ->
  wp (run_queue_op op) q Phi.
Proof.
  intros Hq HP. destruct op as [value|]; apply wp_bind.
  - eapply (wp_push k); [done..|]. intros q' Hq'. by apply wp_ret, HP.
  - eapply (wp_pop k); [done..|]. intros q' Hq'. by apply wp_ret, HP.
Qed.

Lemma run_queue_refines ops q l :
  contents k q l ->
  exists q', run_queue ops q = Ok ((spec_queue (2 ^ k) ops l).1, q') /\ contents k q' (spec_queue (2 ^ k) ops l).2.
Proof.
  revert q l. induction ops as [|op ops IH]; intros q l Hq; [by exists q|]. simpl.
  destruct (wp_queue_op op q l (fun r q' => r = (spec_queue_op (2 ^ k) op l).1 /\
    contents k q' (spec_queue_op (2 ^ k) op l).2) Hq) as (r & q1 & Hr & -> & Hq1); [auto|].
  destruct (spec_queue_op (2 ^ k) op l) as [r1 l1]. simpl in *.
  destruct (IH q1 l1 Hq1) as (q2 & Hr2 & Hq2). destruct (spec_queue (2 ^ k) ops l1) as [rs l2]. simpl in *.
  exists q2. split; [|done]. rewrite (bind_Ok _ _ _ _ _ Hr), (bind_Ok _ _ _ _ _ Hr2). done.
Qed.

(** C14: On a queue of any power-of-two capacity up to [2^63], every sequence
    of [push] and [pop] returns what a bounded first-in-first-out queue
    returns, and leaves its contents: the cached cursors, the masking and the
    wrap-around of the cursors at [2^64] are not observable, no slot is
    overwritten while it holds an element and none is read empty. *)
Theorem queue_refines_fifo ndebug (ops : list (queue_op T)) :
  exists q q', SPSCQueue_new ndebug (2 ^ k) = Ok q /\
    run_queue ops q = Ok ((spec_queue (2 ^ k) ops []).1, q') /\
    contents k q' (spec_queue (2 ^ k) ops []).2.
Proof.
  destruct (contents_new k k_range (T := T) ndebug) as (q & Hnew & Hq).
  destruct (run_queue_refines ops q [] Hq) as (q' & Hr & Hq'). by exists q, q'.
Qed.

(** ** Destruction *)

(** The destructor does not look at the cached cursors, and lets the pop
    cursor run past its cached counterpart. *)
Definition drains q n m l : Prop :=
  exists p, ring_inv k (set_push_cursor_cached (_push_cursor q) q) n m n p l.

Lemma contents_drains q l : contents k q l -> exists n m, drains q n m l.
Proof. intros (n & m & c & p & HR). exists n, m, p. by eapply ring_refresh_push. Qed.

(** The cursors are compared as they are, wrapped. *)
Definition comparable (ndebug : bool) q : Prop := ndebug = true \/ _pop_cursor q <= _push_cursor q.

Lemma drains_size ndebug q n m l : drains q n m l -> comparable ndebug q -> size ndebug q = Ok (Z.of_nat (length l), q).
Proof.
  intros (p & HR) Hc. pose proof (pow_k k k_range). unfold size, assert_, mbind, prog_bind, get_state.
  assert ((ndebug || (_pop_cursor q <=? _push_cursor q)) = true) as ->.
  { destruct Hc as [->|Hc]; [done|]. apply Z.leb_le in Hc. rewrite Hc. apply orb_true_r. }
  pose proof (ri_push _ _ _ _ _ _ _ HR) as Hn. pose proof (ri_pop _ _ _ _ _ _ _ HR) as Hm. simpl in Hn, Hm.
  pose proof (ri_bounds _ _ _ _ _ _ _ HR). pose proof (ri_length _ _ _ _ _ _ _ HR) as Hl.
  simpl. rewrite Hn, Hm, cursor_diff, wrap_small by lia. by rewrite Hl.
Qed.

(** Popping one of the elements keeps them so: the pop cursor does not pass
    the push cursor, nor the end of its range before it. *)
Lemma comparable_next ndebug q n m l : drains q n m l -> l <> [] -> comparable ndebug q ->
  ndebug = true \/ u64 (_pop_cursor q + 1) <= _push_cursor q.
Proof.
  intros (p & HR) Hne [->|Hc]; [by left|right]. pose proof (pow_k k k_range).
  pose proof (ri_push _ _ _ _ _ _ _ HR) as Hn. pose proof (ri_pop _ _ _ _ _ _ _ HR) as Hm. simpl in Hn, Hm.
  pose proof (ri_bounds _ _ _ _ _ _ _ HR). pose proof (ri_length _ _ _ _ _ _ _ HR) as Hl.
  assert (0 < n - m) by (destruct l; [done|simpl in Hl; lia]).
  assert (u64 (u64 n - u64 m) = n - m) as Hd by (rewrite cursor_diff, wrap_small; lia).
  pose proof (Z.mod_pos_bound n (2 ^ 64) ltac:(lia)). pose proof (Z.mod_pos_bound m (2 ^ 64) ltac:(lia)).
  rewrite Hn, Hm in *. unfold wrap in *. rewrite Z.mod_small in Hd by lia. rewrite Z.mod_small; lia.
Qed.

Lemma drains_empty q n m : drains q n m [] -> forall i, 0 <= i < 2 ^ k -> vget (_ring q) i = Some None.
Proof.
  intros (p & HR) i Hi. pose proof (ri_length _ _ _ _ _ _ _ HR) as Hl. simpl in Hl.
  pose proof (pow_k k k_range). pose proof (slot_range k k_range (i - n)) as Hs.
  pose proof (ri_raw _ _ _ _ _ _ _ HR (n + (i - n) mod 2 ^ k) ltac:(lia)) as Hr. simpl in Hr.
  rewrite Zplus_mod_idemp_r in Hr. replace (n + (i - n)) with i in Hr by lia.
  by rewrite Z.mod_small in Hr by lia.
Qed.

Lemma wp_empty_ ndebug q n m l (Phi : bool -> SPSCQueue T -> Prop) :
  drains q n m l -> comparable ndebug q -> Phi (Z.of_nat (length l) =? 0) q -> wp (empty_ ndebug) q Phi.
Proof.
  intros Hd Hc HP. apply wp_bind. eexists _, q. split; [by eapply drains_size|]. by apply wp_ret.
Qed.

Lemma wp_destroy_all ndebug fuel q n m l (Phi : unit -> SPSCQueue T -> Prop) :
  drains q n m l -> comparable ndebug q -> (length l < fuel)%nat -> (forall q' n' m', drains q' n' m' [] -> Phi tt q') ->
  wp (destroy_all ndebug fuel) q Phi.
Proof.
  revert fuel q m. induction l as [|x l IH]; intros [|fuel] q m Hd Hc Hf HP; simpl in Hf; try lia; cbn [destroy_all];
    apply wp_bind; (eapply wp_empty_; [done..|]).
  - simpl. by eapply wp_ret, HP.
  - zcase (Z.of_nat (length (x :: l)) =? 0); [done|].
    pose proof (comparable_next ndebug q n m (x :: l) Hd ltac:(done) Hc) as Hnext. destruct Hd as (p & HR).
    pose proof (ri_length _ _ _ _ _ _ _ HR) as Hl. simpl in Hl.
    pose proof (ri_pop _ _ _ _ _ _ _ HR) as Hm. pose proof (ri_mask _ _ _ _ _ _ _ HR) as Hk. simpl in Hm, Hk.
    apply wp_bind, wp_get. rewrite Hm, Hk, (mask_index k) by done.
    pose proof (ri_live _ _ _ _ _ _ _ HR 0%nat x eq_refl) as Hx. rewrite Z.add_0_r in Hx. simpl in Hx.
    apply wp_bind, wp_bind, wp_bind, wp_get, wp_bind. eapply wp_lift; [by apply vread_Ok|].
    apply wp_ret, wp_bind, wp_get, wp_bind. eapply wp_lift; [apply vwrite_Ok; by apply vget_Some_range in Hx|].
    apply wp_put, wp_bind, wp_get, wp_bind, wp_put.
    apply (IH fuel _ (m + 1)); [|done|lia|done]. exists p.
    apply (ring_pop k k_range _ _ _ _ _ _ _ HR). lia.
Qed.

Lemma wp_SPSCQueue_destroy ndebug fuel q l (Phi : unit -> SPSCQueue T -> Prop) :
  contents k q l -> comparable ndebug q -> (length l < fuel)%nat ->
  (forall q' : SPSCQueue T, vsize (_ring q') = 0 -> Phi tt q') -> wp (SPSCQueue_destroy ndebug fuel) q Phi.
Proof.
  intros Hq Hc Hf HP. destruct (contents_drains q l Hq) as (n & m & Hd). pose proof (pow_k k k_range).
  apply wp_bind. eapply wp_destroy_all; [done..|]. intros q1 n1 m1 (p & HR).
  pose proof (ri_ring _ _ _ _ _ _ _ HR) as Hring. pose proof (ri_capacity _ _ _ _ _ _ _ HR) as Hcap. simpl in Hring, Hcap.
  apply wp_bind, wp_get. rewrite Hring. zcase (2 ^ k =? 0); [lia|]. simpl.
  apply wp_bind, wp_get. rewrite Hring, Hcap, Z.eqb_refl. by apply wp_put, HP.
Qed.

(** C15: The destructor, of a queue with any contents.  When assertions are
    compiled out, or the cursors have not wrapped apart, it terminates: its
    loop takes one iteration per element and ends the life of every element
    exactly once (every slot is raw storage after it, and no slot that was
    raw before is destroyed), and then the storage is returned.  With
    assertions, and a push cursor that has wrapped while the pop cursor has
    not, the assertion of [size] fails. *)
Theorem destructor_destroys_all ndebug q l fuel :
  contents k q l -> (length l < fuel)%nat ->
  (ndebug = true \/ _pop_cursor q <= _push_cursor q ->
   exists q1 q', destroy_all ndebug fuel q = Ok (tt, q1) /\
     (forall i, 0 <= i < 2 ^ k -> vget (_ring q1) i = Some None) /\
     SPSCQueue_destroy ndebug fuel q = Ok (tt, q') /\ vsize (_ring q') = 0) /\
  (_push_cursor q < _pop_cursor q -> SPSCQueue_destroy false fuel q = Undefined AssertFailed).
Proof.
  intros Hq Hf. split.
  - intros Hc. destruct (contents_drains q l Hq) as (n & m & Hd).
    destruct (wp_destroy_all ndebug fuel q n m l (fun _ q' => forall i, 0 <= i < 2 ^ k -> vget (_ring q') i = Some None) Hd Hc Hf)
      as ([] & q1 & Hr & Hq1); [intros q' n' m' Hd'; by eapply drains_empty|].
    destruct (wp_SPSCQueue_destroy ndebug fuel q l (fun _ q' => vsize (_ring q') = 0) Hq Hc Hf) as ([] & q' & Hr' & Hq'); [done|].
    by exists q1, q'.
  - intros Hlt. destruct fuel as [|fuel]; [lia|]. do 3 apply bind_undefined.
    unfold size, assert_, mbind, prog_bind, get_state. simpl. zcase (_pop_cursor q <=? _push_cursor q); [lia|done].
Qed.
End contract.

Lemma range_2 : 0 <= 2 <= 63.
Proof. lia. Qed.

Lemma queue_refines_fifo_witness :
  exists q q' : SPSCQueue Z, SPSCQueue_new false 4 = Ok q /\
    run_queue [QPush 1; QPush 2; QPop; QPush 3; QPush 4; QPush 5; QPush 6; QPop] q =
      Ok ([Pushed true; Pushed true; Popped (Some 1); Pushed true; Pushed true; Pushed true; Pushed false;
           Popped (Some 2)], q') /\
    contents 2 q' [3; 4; 5].
Proof.
  exact (queue_refines_fifo 2 range_2 false
    [QPush 1; QPush 2; QPop; QPush 3; QPush 4; QPush 5; QPush 6; QPop]).
Defined.

Lemma destructor_destroys_all_witness :
  exists q q1 q' : SPSCQueue Z, contents 2 q [1; 2; 3] /\ destroy_all false 4 q = Ok (tt, q1) /\
    vget (_ring q1) 2 = Some None /\ SPSCQueue_destroy false 4 q = Ok (tt, q') /\ vsize (_ring q') = 0.
Proof.
  assert (contents 2 (mkSPSCQueue 4 3 (vset (vset (vset (vnew 4 None) 0 (Some 1)) 1 (Some 2)) 2 (Some 3)) 3 0 0 0) [1; 2; 3]) as Hq.
  { exists 3, 0, 0, 0. split; try done.
    - intros i x Hi. destruct i as [|[|[|i]]]; simpl in Hi; [injection Hi as <-; by vm_compute..|done].
    - intros i Hi. assert (i = 3) as -> by lia. by vm_compute. }
  destruct (destructor_destroys_all 2 range_2 false _ [1; 2; 3] 4 Hq ltac:(simpl; lia)) as [H1 _].
  destruct (H1 ltac:(right; simpl; lia)) as (q1 & q' & Hr & Hall & Hr' & Hz).
  eexists _, q1, q'. split; [exact Hq|]. split; [exact Hr|]. split; [apply (Hall 2); lia|]. split; [exact Hr'|exact Hz].
Defined.

(** The assertion in [size] compares raw cursors, so it is not safe
    under the wrap-around that [push] and [pop] handle: a queue that has just
    pushed its 2^64-th element holds that element and reports size 1 in a
    release build, and fails the assertion in a debug build. *)
Theorem size_assert_wraps :
  exists q : SPSCQueue Z, contents 2 q [7] /\
    size true q = Ok (1, q) /\ size false q = Undefined AssertFailed.
Proof.
  exists (mkSPSCQueue 4 3 (vset (vnew 4 None) 3 (Some 7)) 0 UINT64_MAX UINT64_MAX UINT64_MAX).
  split; [|by split; vm_compute].
  exists (2 ^ 64), (2 ^ 64 - 1), (2 ^ 64 - 1), (2 ^ 64 - 1).
  split; [reflexivity|reflexivity|reflexivity|by vm_compute|by vm_compute|by vm_compute|by vm_compute|lia|done| |].
  - intros i x Hi. apply list_lookup_singleton_Some in Hi as [-> <-]. by vm_compute.
  - intros i Hi. assert (i = 2 ^ 64 \/ i = 2 ^ 64 + 1 \/ i = 2 ^ 64 + 2) as [-> | [-> | ->]] by lia; by vm_compute.
Qed.
