(* ===== verification/SPSCConcurrent.v ===== *)
(** * SPSCQueue.h with its two threads

    [push] and [pop] cut at their accesses to shared memory, as a step
    relation.  A published cursor is the list of all values stored to it (its
    modification order); an acquire load may return any of them that is not
    older than what the thread has seen before, and makes the thread see
    everything its writer did up to that store.  Ring slots are not atomic:
    an access that is not ordered after the last access of the other thread
    is a data race. *)

From S2P Require Import Prelude.
From S2P Require Import SPSCQueue.

Section concurrent.
Context {T : Type} (capacity : Z).

(** Where a thread is inside of [push] or [pop], with its local variables. *)
Inductive push_pc :=
| PushIdle
| PushCheck (value : T) (push_cursor : Z)      (* if (full(push_cursor, _pop_cursor_cached)) *)
| PushReload (value : T) (push_cursor : Z)     (* _pop_cursor_cached = _pop_cursor.load(acquire) *)
| PushConstruct (value : T) (push_cursor : Z)  (* construct(_ring + idx, value) *)
| PushStore (value : T) (push_cursor : Z).     (* _push_cursor.store(push_cursor + 1, release) *)

Inductive pop_pc :=
| PopIdle
| PopCheck (pop_cursor : Z)                    (* if (empty(_push_cursor_cached, pop_cursor)) *)
| PopReload (pop_cursor : Z)                   (* _push_cursor_cached = _push_cursor.load(acquire) *)
| PopTake (pop_cursor : Z)                     (* value = std::move(_ring[idx]); destroy(_ring + idx) *)
| PopStore (value : T) (pop_cursor : Z).       (* _pop_cursor.store(pop_cursor + 1, release) *)

Record cstate := mkC {
  c_ring : vec (option T);
  push_hist : list Z;        (* stores to _push_cursor, oldest first *)
  pop_hist : list Z;         (* stores to _pop_cursor *)
  push_cached : Z;           (* _push_cursor_cached, of the pop thread *)
  pop_cached : Z;            (* _pop_cursor_cached, of the push thread *)
  push_view : nat;           (* the store to _pop_cursor the push thread has seen *)
  pop_view : nat;            (* the store to _push_cursor the pop thread has seen *)
  push_at : push_pc;
  pop_at : pop_pc;
  wrote : gmap Z nat;        (* the push that last accessed a slot *)
  took : gmap Z nat;         (* the pop that last accessed a slot *)
  sent : list T;             (* elements published so far *)
  received : list T;         (* elements popped so far *)
}.

Definition c_init : cstate :=
  mkC (vnew capacity None) [0] [0] 0 0 0 0 PushIdle PopIdle ∅ ∅ [] [].

Definition c_mask : Z := if capacity >? 0 then capacity - 1 else 0.

(** The last access of the other thread, number [j], is ordered before the
    accesses of a thread that has seen store number [view]: access [j] is
    followed by store [j + 1]. *)
Definition ordered_after (last : gmap Z nat) (idx : Z) (view : nat) : bool :=
  match last !! idx with Some j => bool_decide (S j <= view)%nat | None => true end.

Definition set_push_at (pc : push_pc) (s : cstate) : cstate :=
  mkC (c_ring s) (push_hist s) (pop_hist s) (push_cached s) (pop_cached s) (push_view s) (pop_view s)
    pc (pop_at s) (wrote s) (took s) (sent s) (received s).
Definition set_pop_at (pc : pop_pc) (s : cstate) : cstate :=
  mkC (c_ring s) (push_hist s) (pop_hist s) (push_cached s) (pop_cached s) (push_view s) (pop_view s)
    (push_at s) pc (wrote s) (took s) (sent s) (received s).

(** The effects of the accesses. *)
Definition push_reload (i : nat) (x : Z) (s : cstate) : cstate :=
  mkC (c_ring s) (push_hist s) (pop_hist s) (push_cached s) x i (pop_view s)
    (push_at s) (pop_at s) (wrote s) (took s) (sent s) (received s).
Definition pop_reload (i : nat) (x : Z) (s : cstate) : cstate :=
  mkC (c_ring s) (push_hist s) (pop_hist s) x (pop_cached s) (push_view s) i
    (push_at s) (pop_at s) (wrote s) (took s) (sent s) (received s).
Definition push_construct (idx : Z) (value : T) (s : cstate) : cstate :=
  mkC (vset (c_ring s) idx (Some value)) (push_hist s) (pop_hist s) (push_cached s) (pop_cached s)
    (push_view s) (pop_view s) (push_at s) (pop_at s)
    (<[idx := length (sent s)]> (wrote s)) (took s) (sent s) (received s).
Definition pop_take (idx : Z) (s : cstate) : cstate :=
  mkC (vset (c_ring s) idx None) (push_hist s) (pop_hist s) (push_cached s) (pop_cached s)
    (push_view s) (pop_view s) (push_at s) (pop_at s)
    (wrote s) (<[idx := length (received s)]> (took s)) (sent s) (received s).
Definition push_publish (x : Z) (value : T) (s : cstate) : cstate :=
  mkC (c_ring s) (push_hist s ++ [x]) (pop_hist s) (push_cached s) (pop_cached s) (push_view s) (pop_view s)
    (push_at s) (pop_at s) (wrote s) (took s) (sent s ++ [value]) (received s).
Definition pop_publish (x : Z) (value : T) (s : cstate) : cstate :=
  mkC (c_ring s) (push_hist s) (pop_hist s ++ [x]) (push_cached s) (pop_cached s) (push_view s) (pop_view s)
    (push_at s) (pop_at s) (wrote s) (took s) (sent s) (received s ++ [value]).

(** One step of the push thread; [None] is a data race or an access to a slot
    in the wrong state. *)
Inductive push_step (s : cstate) : option cstate -> Prop :=
| push_enter value c :
    push_at s = PushIdle -> capacity <> 0 -> last (push_hist s) = Some c ->
    push_step s (Some (set_push_at (PushCheck value c) s))
| push_check value c :
    push_at s = PushCheck value c ->
    push_step s (Some (set_push_at
      (if full_at capacity c (pop_cached s) then PushReload value c else PushConstruct value c) s))
| push_load value c i x :
    push_at s = PushReload value c -> (push_view s <= i)%nat -> pop_hist s !! i = Some x ->
    push_step s (Some (set_push_at
      (if full_at capacity c x then PushIdle else PushConstruct value c) (push_reload i x s)))
| push_write value c (idx := Z.land c c_mask) :
    push_at s = PushConstruct value c ->
    push_step s
      (if ordered_after (took s) idx (push_view s) then
         match vget (c_ring s) idx with
         | Some None => Some (set_push_at (PushStore value c) (push_construct idx value s))
         | _ => None
         end
       else None)
| push_release value c :
    push_at s = PushStore value c ->
    push_step s (Some (set_push_at PushIdle (push_publish (u64 (c + 1)) value s))).

Inductive pop_step (s : cstate) : option cstate -> Prop :=
| pop_enter c :
    pop_at s = PopIdle -> last (pop_hist s) = Some c ->
    pop_step s (Some (set_pop_at (PopCheck c) s))
| pop_check c :
    pop_at s = PopCheck c ->
    pop_step s (Some (set_pop_at (if empty_at (push_cached s) c then PopReload c else PopTake c) s))
| pop_load c i x :
    pop_at s = PopReload c -> (pop_view s <= i)%nat -> push_hist s !! i = Some x ->
    pop_step s (Some (set_pop_at (if empty_at x c then PopIdle else PopTake c) (pop_reload i x s)))
| pop_read c (idx := Z.land c c_mask) :
    pop_at s = PopTake c ->
    pop_step s
      (if ordered_after (wrote s) idx (pop_view s) then
         match vget (c_ring s) idx with
         | Some (Some value) => Some (set_pop_at (PopStore value c) (pop_take idx s))
         | _ => None
         end
       else None)
| pop_release value c :
    pop_at s = PopStore value c ->
    pop_step s (Some (set_pop_at PopIdle (pop_publish (u64 (c + 1)) value s))).

Definition c_step (s : cstate) (r : option cstate) : Prop := push_step s r \/ pop_step s r.

Inductive c_reachable : cstate -> Prop :=
| reach_init : c_reachable c_init
| reach_step s s' : c_reachable s -> c_step s (Some s') -> c_reachable s'.
End concurrent.
Arguments cstate T : clear implicits.
Arguments push_pc T : clear implicits.
Arguments pop_pc T : clear implicits.

(** ** The invariant *)

Section invariant.
Context {T : Type} (k : Z).
Hypothesis k_range : 0 <= k <= 63.
Abbreviation cap := (2 ^ k).
Implicit Types (s : cstate T) (value : T).

(** Elements constructed, and elements taken out, published or not. *)
Definition built s : Z :=
  Z.of_nat (length (sent s)) + match push_at s with PushStore _ _ => 1 | _ => 0 end.
Definition taken s : Z :=
  Z.of_nat (length (received s)) + match pop_at s with PopStore _ _ => 1 | _ => 0 end.

Definition push_local s : Prop :=
  let n := Z.of_nat (length (sent s)) in
  match push_at s with
  | PushIdle => True
  | PushCheck _ c | PushReload _ c => c = u64 n
  | PushConstruct _ c => c = u64 n /\ n < Z.of_nat (push_view s) + cap
  | PushStore value c => c = u64 n /\ n < Z.of_nat (push_view s) + cap /\
      vget (c_ring s) (n mod cap) = Some (Some value)
  end.

Definition pop_local s : Prop :=
  let m := Z.of_nat (length (received s)) in
  match pop_at s with
  | PopIdle => True
  | PopCheck c | PopReload c => c = u64 m
  | PopTake c => c = u64 m /\ m < Z.of_nat (pop_view s)
  | PopStore value c => c = u64 m /\ m < Z.of_nat (pop_view s) /\ sent s !! length (received s) = Some value
  end.

(** A cursor's history counts up from 0. *)
Definition counts (hist : list Z) (n : nat) : Prop :=
  length hist = S n /\ forall i x, hist !! i = Some x -> x = u64 (Z.of_nat i).

Definition last_access (last : gmap Z nat) (bound : Z) : Prop :=
  forall idx j, last !! idx = Some j -> Z.of_nat j mod cap = idx /\ Z.of_nat j < bound.

Record c_inv s : Prop := {
  ci_push_hist : counts (push_hist s) (length (sent s));
  ci_pop_hist : counts (pop_hist s) (length (received s));
  ci_push_view : (push_view s <= length (received s))%nat /\ pop_cached s = u64 (Z.of_nat (push_view s));
  ci_pop_view : (length (received s) <= pop_view s <= length (sent s))%nat /\
    push_cached s = u64 (Z.of_nat (pop_view s));
  ci_room : Z.of_nat (length (sent s)) <= Z.of_nat (push_view s) + cap;
  ci_fifo : received s `prefix_of` sent s;
  ci_push_local : push_local s;
  ci_pop_local : pop_local s;
  ci_size : vsize (c_ring s) = cap;
  ci_live : forall i x, sent s !! i = Some x -> taken s <= Z.of_nat i ->
    vget (c_ring s) (Z.of_nat i mod cap) = Some (Some x);
  ci_raw : forall i, built s <= i < taken s + cap -> vget (c_ring s) (i mod cap) = Some None;
  ci_wrote : last_access (wrote s) (built s);
  ci_took : last_access (took s) (taken s);
}.

Lemma counts_last hist n c : counts hist n -> last hist = Some c -> c = u64 (Z.of_nat n).
Proof. intros [Hl Hc] Hlast. rewrite last_lookup, Hl in Hlast. by apply Hc. Qed.

Lemma counts_snoc hist n : counts hist n -> counts (hist ++ [u64 (u64 (Z.of_nat n) + 1)]) (S n).
Proof.
  intros [Hl Hc]. split; [rewrite length_app; simpl; lia|]. intros i x Hi.
  apply lookup_app_Some in Hi as [Hi|[Hge Hi]]; [by apply Hc|].
  apply list_lookup_singleton_Some in Hi as [Hi <-]. rewrite cursor_next. f_equal. lia.
Qed.

Lemma counts_lookup hist n i x : counts hist n -> hist !! i = Some x -> x = u64 (Z.of_nat i) /\ (i <= n)%nat.
Proof. intros [Hl Hc] Hi. split; [by apply Hc|]. apply lookup_lt_Some in Hi. lia. Qed.

Lemma c_mask_pow : c_mask cap = cap - 1.
Proof. pose proof (pow_k k k_range). unfold c_mask. zcase (cap >? 0); lia. Qed.

(** Two counts of the same slot in a window are the same count. *)
Lemma same_slot i j : i mod cap = j mod cap -> Z.abs (i - j) < cap -> i = j.
Proof.
  intros E H. destruct (decide (i = j)) as [|Hne]; [done|]. exfalso. by apply (slot_distinct k k_range i j); [lia|].
Qed.

Lemma c_inv_init : c_inv (c_init cap).
Proof.
  assert (counts [0] 0) as H0.
  { split; [done|]. intros i x Hi. by apply list_lookup_singleton_Some in Hi as [-> <-]. }
  pose proof (pow_k k k_range). split; try done; simpl; try lia.
  - intros i _. apply vget_new, slot_range. done.
Qed.

(** *** The push thread *)

(** The slot the push thread is about to write: the other thread has left it
    for good, and is known to have. *)
Lemma push_slot s value c :
  c_inv s -> push_at s = PushConstruct value c ->
  ordered_after (took s) (Z.land c (c_mask cap)) (push_view s) = true /\
  vget (c_ring s) (Z.land c (c_mask cap)) = Some None.
Proof.
  intros HI Hpc. pose proof (ci_push_local _ HI) as Hl. unfold push_local in Hl. rewrite Hpc in Hl.
  destruct Hl as [-> Hn]. rewrite c_mask_pow, mask_index by done.
  pose proof (ci_push_view _ HI) as [Hpv _]. pose proof (ci_pop_view _ HI) as [Hcv _].
  assert (taken s <= Z.of_nat (length (sent s))) as Ht.
  { pose proof (ci_pop_local _ HI) as Hpl. unfold taken, pop_local in *.
    destruct (pop_at s); lia. }
  split.
  - unfold ordered_after. destruct (took s !! _) as [j|] eqn:Ej; [|done]. apply bool_decide_eq_true_2.
    destruct (ci_took _ HI _ _ Ej) as [Hslot Hj].
    destruct (decide (Z.of_nat j <= Z.of_nat (length (sent s)) - cap)) as [|Hne]; [lia|].
    apply same_slot in Hslot; lia.
  - apply (ci_raw _ HI). unfold built, taken. rewrite Hpc. destruct (pop_at s); lia.
Qed.

Lemma push_write_inv s value c :
  c_inv s -> push_at s = PushConstruct value c ->
  c_inv (set_push_at (PushStore value c) (push_construct (Z.land c (c_mask cap)) value s)).
Proof.
  intros HI Hpc. pose proof (ci_push_local _ HI) as Hl. unfold push_local in Hl. rewrite Hpc in Hl.
  destruct Hl as [-> Hn]. rewrite c_mask_pow, mask_index by done.
  pose proof (pow_k k k_range). pose proof (slot_range k k_range (Z.of_nat (length (sent s)))) as Hs.
  destruct HI as [H1 H2 H3 H4 H5 H6 H7 H8 H9 H10 H11 H12 H13].
  split; simpl; try done; unfold built, taken in *; rewrite ?Hpc in *; simpl in *.
  - split_and!; try done. apply vget_set_eq. by rewrite H9.
  - by rewrite vsize_set.
  - intros i x Hi Hge. rewrite vget_set_ne; [by apply H10|]. apply lookup_lt_Some in Hi.
    apply slot_distinct; [done|]. destruct H3 as [H3 _], (pop_at s); lia.
  - intros i Hi. rewrite vget_set_ne; [apply H11; lia|]. apply slot_distinct; [done|].
    unfold pop_local in H8. destruct H3 as [H3 _], H4 as [H4 _], (pop_at s); simpl in *; lia.
  - intros idx j Hj. apply lookup_insert_Some in Hj as [[<- <-]|[_ Hj]]; [split; [done|lia]|].
    apply H12 in Hj. lia.
Qed.

Lemma push_release_inv s value c :
  c_inv s -> push_at s = PushStore value c ->
  c_inv (set_push_at PushIdle (push_publish (u64 (c + 1)) value s)).
Proof.
  intros HI Hpc. pose proof (ci_push_local _ HI) as Hl. unfold push_local in Hl. rewrite Hpc in Hl.
  destruct Hl as (-> & Hn & Hv). destruct HI as [H1 H2 H3 H4 H5 H6 H7 H8 H9 H10 H11 H12 H13].
  split; simpl; try done; unfold built, taken in *; rewrite ?Hpc in *; simpl in *; rewrite ?length_app in *; simpl in *.
  - rewrite Nat.add_1_r. by apply counts_snoc.
  - split; [lia|apply H4].
  - lia.
  - by apply prefix_app_r.
  - unfold pop_local in *. simpl. destruct (pop_at s); try done. destruct H8 as (? & ? & Hlk).
    split_and!; try done. by apply lookup_app_l_Some.
  - intros i x Hi Hge. apply lookup_app_Some in Hi as [Hi|[Hge' Hi]]; [by apply H10|].
    apply list_lookup_singleton_Some in Hi as [Hi <-]. by replace (Z.of_nat i) with (Z.of_nat (length (sent s))) by lia.
  - intros i Hi. apply H11. lia.
  - intros idx j Hj. apply H12 in Hj. lia.
Qed.

Lemma push_preserves s s' : c_inv s -> push_step cap s (Some s') -> c_inv s'.
Proof.
  intros HI Hstep. inversion Hstep as [value c Hpc _ Hlast| value c Hpc | value c i x Hpc Hge Hx | value c idx Hpc E | value c Hpc]; subst.
  - pose proof (counts_last _ _ _ (ci_push_hist _ HI) Hlast) as ->.
    destruct HI as [H1 H2 H3 H4 H5 H6 H7 H8 H9 H10 H11 H12 H13].
    split; try done; unfold built, taken in *; rewrite Hpc in *; done.
  - pose proof (ci_push_local _ HI) as Hl. unfold push_local in Hl. rewrite Hpc in Hl. subst c.
    destruct HI as [H1 H2 [H3 H3'] H4 H5 H6 H7 H8 H9 H10 H11 H12 H13].
    rewrite H3', full_at_spec by lia.
    destruct (_ =? _) eqn:E; zb; split; try done; unfold built, taken in *; rewrite ?Hpc in *; try done.
    unfold push_local. simpl. split; [done|lia].
  - pose proof (ci_push_local _ HI) as Hl. unfold push_local in Hl. rewrite Hpc in Hl. subst c.
    destruct HI as [H1 H2 [H3 H3'] H4 H5 H6 H7 H8 H9 H10 H11 H12 H13].
    destruct (counts_lookup _ _ _ _ H2 Hx) as [-> Hi]. rewrite full_at_spec by lia.
    destruct (_ =? _) eqn:E; zb; split; try done; unfold built, taken in *; rewrite ?Hpc in *; simpl; try done; try lia.
    unfold push_local. simpl. split; [done|lia].
  - destruct (push_slot s value c HI Hpc) as [E1 E2]. unfold idx in E. rewrite E1, E2 in E. injection E as <-.
    by apply push_write_inv.
  - by apply push_release_inv.
Qed.

(** *** The pop thread *)

Lemma pop_slot s c :
  c_inv s -> pop_at s = PopTake c ->
  ordered_after (wrote s) (Z.land c (c_mask cap)) (pop_view s) = true /\
  exists value, sent s !! length (received s) = Some value /\
    vget (c_ring s) (Z.land c (c_mask cap)) = Some (Some value).
Proof.
  intros HI Hpc. pose proof (ci_pop_local _ HI) as Hl. unfold pop_local in Hl. rewrite Hpc in Hl.
  destruct Hl as [-> Hm]. rewrite c_mask_pow, mask_index by done.
  pose proof (ci_push_view _ HI) as [Hpv _]. pose proof (ci_pop_view _ HI) as [Hcv _].
  assert (built s <= Z.of_nat (length (received s)) + cap) as Hb.
  { pose proof (ci_push_local _ HI) as Hpl. pose proof (ci_room _ HI). unfold built, push_local in *.
    destruct (push_at s); lia. }
  split.
  - unfold ordered_after. destruct (wrote s !! _) as [j|] eqn:Ej; [|done]. apply bool_decide_eq_true_2.
    destruct (ci_wrote _ HI _ _ Ej) as [Hslot Hj].
    destruct (decide (Z.of_nat j <= Z.of_nat (length (received s)))) as [|Hne]; [lia|].
    apply same_slot in Hslot; lia.
  - destruct (lookup_lt_is_Some_2 (sent s) (length (received s))) as [value Hv]; [lia|]. exists value.
    split; [done|]. apply (ci_live _ HI); [done|]. unfold taken. rewrite Hpc. lia.
Qed.

Lemma pop_read_inv s value c :
  c_inv s -> pop_at s = PopTake c -> sent s !! length (received s) = Some value ->
  c_inv (set_pop_at (PopStore value c) (pop_take (Z.land c (c_mask cap)) s)).
Proof.
  intros HI Hpc Hv. pose proof (ci_pop_local _ HI) as Hl. unfold pop_local in Hl. rewrite Hpc in Hl.
  destruct Hl as [-> Hm]. rewrite c_mask_pow, mask_index by done.
  pose proof (pow_k k k_range). pose proof (slot_range k k_range (Z.of_nat (length (received s)))) as Hs.
  destruct HI as [H1 H2 H3 H4 H5 H6 H7 H8 H9 H10 H11 H12 H13].
  split; simpl; try done; unfold built, taken in *; rewrite ?Hpc in *; simpl in *.
  - unfold push_local in *. simpl. destruct (push_at s); try done. destruct H7 as (? & ? & Hlk).
    split_and!; try done. rewrite vget_set_ne; [done|]. apply slot_distinct; [done|lia].
  - by rewrite vsize_set.
  - intros i x Hi Hge. rewrite vget_set_ne; [apply H10; [done|lia]|]. apply lookup_lt_Some in Hi.
    apply slot_distinct; [done|]. lia.
  - intros i Hi. destruct (decide (i = Z.of_nat (length (received s)) + cap)) as [->|Hne].
    + replace (Z.of_nat (length (received s)) + cap) with (Z.of_nat (length (received s)) + 1 * cap) by lia.
      rewrite Z.mod_add by lia. apply vget_set_eq. by rewrite H9.
    + rewrite vget_set_ne; [apply H11; lia|]. apply slot_distinct; [done|].
      assert (Z.of_nat (length (received s)) < i) by (destruct (push_at s); lia). lia.
  - intros idx j Hj. apply lookup_insert_Some in Hj as [[<- <-]|[_ Hj]]; [split; [done|lia]|].
    apply H13 in Hj. lia.
Qed.

Lemma pop_release_inv s value c :
  c_inv s -> pop_at s = PopStore value c ->
  c_inv (set_pop_at PopIdle (pop_publish (u64 (c + 1)) value s)).
Proof.
  intros HI Hpc. pose proof (ci_pop_local _ HI) as Hl. unfold pop_local in Hl. rewrite Hpc in Hl.
  destruct Hl as (-> & Hm & Hv). destruct HI as [H1 H2 H3 H4 H5 H6 H7 H8 H9 H10 H11 H12 H13].
  split; simpl; try done; unfold built, taken in *; rewrite ?Hpc in *; simpl in *; rewrite ?length_app in *; simpl in *.
  - rewrite Nat.add_1_r. by apply counts_snoc.
  - split; [lia|apply H3].
  - split; [lia|apply H4].
  - destruct H6 as [rest Hrest]. rewrite Hrest, lookup_app_r, Nat.sub_diag in Hv by lia.
    destruct rest as [|y rest]; [done|]. injection Hv as ->. rewrite Hrest. exists rest. by rewrite <- app_assoc.
  - intros i x Hi Hge. apply H10; [done|lia].
  - intros i Hi. apply H11. lia.
  - intros idx j Hj. apply H13 in Hj. lia.
Qed.

Lemma pop_preserves s s' : c_inv s -> pop_step cap s (Some s') -> c_inv s'.
Proof.
  intros HI Hstep. inversion Hstep as [c Hpc Hlast| c Hpc | c i x Hpc Hge Hx | c idx Hpc E | value c Hpc]; subst.
  - pose proof (counts_last _ _ _ (ci_pop_hist _ HI) Hlast) as ->.
    destruct HI as [H1 H2 H3 H4 H5 H6 H7 H8 H9 H10 H11 H12 H13].
    split; try done; unfold built, taken in *; rewrite Hpc in *; done.
  - pose proof (ci_pop_local _ HI) as Hl. unfold pop_local in Hl. rewrite Hpc in Hl. subst c.
    destruct HI as [H1 H2 H3 [H4 H4'] H5 H6 H7 H8 H9 H10 H11 H12 H13].
    rewrite H4', (empty_at_spec k) by lia.
    destruct (_ =? _) eqn:E; zb; split; try done; unfold built, taken in *; rewrite ?Hpc in *; try done.
    unfold pop_local. simpl. split; [done|lia].
  - pose proof (ci_pop_local _ HI) as Hl. unfold pop_local in Hl. rewrite Hpc in Hl. subst c.
    destruct HI as [H1 H2 H3 [H4 H4'] H5 H6 H7 H8 H9 H10 H11 H12 H13].
    destruct (counts_lookup _ _ _ _ H1 Hx) as [-> Hi]. rewrite (empty_at_spec k) by lia.
    destruct (_ =? _) eqn:E; zb; split; try done; unfold built, taken in *; rewrite ?Hpc in *; simpl; try done; try lia.
    unfold pop_local. simpl. split; [done|lia].
  - destruct (pop_slot s c HI Hpc) as [E1 (value & Hv & E2)]. unfold idx in E. rewrite E1, E2 in E. injection E as <-.
    by apply pop_read_inv.
  - by apply pop_release_inv.
Qed.

Lemma c_reachable_inv s : c_reachable cap s -> c_inv s.
Proof.
  induction 1 as [|s s' _ IH [Hp|Hp]]; [apply c_inv_init|by eapply push_preserves|by eapply pop_preserves].
Qed.
End invariant.

(** ** Safety *)

Section theorems.
Context {T : Type} (k : Z).
Hypothesis k_range : 0 <= k <= 63.
Implicit Types (s : cstate T) (value : T).

(** C17: With one pushing and one popping thread, in any interleaving and
    with loads of the other thread's cursor as stale as acquire/release
    ordering allows, no step is a data race on a ring slot, constructs over a
    live element, or reads a slot that holds none; and nothing is lost,
    duplicated or reordered: at any time what has been popped is a prefix of
    what has been pushed, and at most [capacity] elements are in between. *)
Theorem queue_race_free_fifo s :
  c_reachable (2 ^ k) s ->
  ~ c_step (2 ^ k) s None /\
  received s `prefix_of` sent s /\
  Z.of_nat (length (sent s)) - Z.of_nat (length (received s)) <= 2 ^ k /\
  (forall value c, pop_at s = PopStore value c -> sent s !! length (received s) = Some value).
Proof.
  intros Hr. pose proof (c_reachable_inv k k_range s Hr) as HI. split_and!.
  - intros [Hs|Hs].
    + inversion Hs as [| | |value c idx Hpc E|]; subst.
      destruct (push_slot k k_range s value c HI Hpc) as [E1 E2]. unfold idx in E. by rewrite E1, E2 in E.
    + inversion Hs as [| | |c idx Hpc E|]; subst.
      destruct (pop_slot k k_range s c HI Hpc) as [E1 (value & _ & E2)]. unfold idx in E. by rewrite E1, E2 in E.
  - apply HI.
  - pose proof (ci_room _ _ HI). pose proof (ci_push_view _ _ HI). lia.
  - intros value c Hpc. pose proof (ci_pop_local _ _ HI) as Hl. unfold pop_local in Hl. rewrite Hpc in Hl. apply Hl.
Qed.

(** ** Progress *)

(** How many of its own steps a thread still needs to finish its call. *)
Definition push_left s : nat :=
  match push_at s with PushIdle => 0 | PushStore _ _ => 1 | PushConstruct _ _ => 2 | PushReload _ _ => 3 | PushCheck _ _ => 4 end.
Definition pop_left s : nat :=
  match pop_at s with PopIdle => 0 | PopStore _ _ => 1 | PopTake _ => 2 | PopReload _ => 3 | PopCheck _ => 4 end.

Lemma counts_lookup_lt hist n i : counts hist n -> (i <= n)%nat -> exists x, hist !! i = Some x.
Proof. intros [Hl _] Hi. destruct (lookup_lt_is_Some_2 hist i) as [x Hx]; [lia|eauto]. Qed.

(** C19: Both operations are wait-free: a thread inside of [push] or [pop]
    can always take its next step, each of its steps brings it closer to the
    end of the call (at most 4 steps after entering), and the steps of the
    other thread do not set it back. *)
Theorem queue_wait_free s :
  c_reachable (2 ^ k) s ->
  (push_at s <> PushIdle -> exists s', push_step (2 ^ k) s (Some s')) /\
  (forall s', push_step (2 ^ k) s (Some s') -> push_at s <> PushIdle -> (push_left s' < push_left s)%nat) /\
  (pop_at s <> PopIdle -> exists s', pop_step (2 ^ k) s (Some s')) /\
  (forall s', pop_step (2 ^ k) s (Some s') -> pop_at s <> PopIdle -> (pop_left s' < pop_left s)%nat) /\
  (forall s', push_step (2 ^ k) s (Some s') -> pop_at s' = pop_at s) /\
  (forall s', pop_step (2 ^ k) s (Some s') -> push_at s' = push_at s).
Proof.
  intros Hr. pose proof (c_reachable_inv k k_range s Hr) as HI. split_and!.
  - intros Hne. destruct (push_at s) as [|value c|value c|value c|value c] eqn:Hpc; [done| | | |].
    + eexists. by apply push_check.
    + destruct (counts_lookup_lt _ _ (push_view s) (ci_pop_hist _ _ HI)) as [x Hx]; [apply HI|].
      eexists. eapply push_load; [done| |exact Hx]. done.
    + destruct (push_slot k k_range s value c HI Hpc) as [E1 E2].
      pose proof (push_write (2 ^ k) s value c Hpc) as Hs. cbv zeta in Hs. rewrite E1, E2 in Hs. by eexists.
    + eexists. by eapply push_release.
  - intros s' Hs Hne. unfold push_left. inversion Hs as [? ? Hpc|? ? Hpc|? ? ? ? Hpc|? ? idx Hpc E|? ? Hpc]; subst;
      rewrite Hpc; [done|simpl; destruct (full_at _ _ _); lia|simpl; destruct (full_at _ _ _); lia| |simpl; lia].
    destruct (ordered_after _ _ _); [|done]. destruct (vget _ _) as [[|]|]; [done| |done]. injection E as <-. simpl. lia.
  - intros Hne. destruct (pop_at s) as [|c|c|c|value c] eqn:Hpc; [done| | | |].
    + eexists. by apply pop_check.
    + destruct (counts_lookup_lt _ _ (pop_view s) (ci_push_hist _ _ HI)) as [x Hx]; [apply HI|].
      eexists. eapply pop_load; [done| |exact Hx]. done.
    + destruct (pop_slot k k_range s c HI Hpc) as [E1 (value & _ & E2)].
      pose proof (pop_read (2 ^ k) s c Hpc) as Hs. cbv zeta in Hs. rewrite E1, E2 in Hs. by eexists.
    + eexists. by eapply pop_release.
  - intros s' Hs Hne. unfold pop_left. inversion Hs as [? Hpc|? Hpc|? ? ? Hpc|? idx Hpc E|? ? Hpc]; subst;
      rewrite Hpc; [done|simpl; destruct (empty_at _ _); lia|simpl; destruct (empty_at _ _); lia| |simpl; lia].
    destruct (ordered_after _ _ _); [|done]. destruct (vget _ _) as [[|]|]; [|done..]. injection E as <-. simpl. lia.
  - intros s' Hs. inversion Hs as [? ? Hpc|? ? Hpc|? ? ? ? Hpc|? ? idx Hpc E|? ? Hpc]; subst; try done.
    destruct (ordered_after _ _ _); [|done]. destruct (vget _ _) as [[|]|]; [done| |done]. by injection E as <-.
  - intros s' Hs. inversion Hs as [? Hpc|? Hpc|? ? ? Hpc|? idx Hpc E|? ? Hpc]; subst; try done.
    destruct (ordered_after _ _ _); [|done]. destruct (vget _ _) as [[|]|]; [|done..]. by injection E as <-.
Qed.

(** ** The two models of the code agree *)

(** The queue object that a state of the two threads holds. *)
Definition queue_of s : SPSCQueue T :=
  mkSPSCQueue (2 ^ k) (c_mask (2 ^ k)) (c_ring s) (default 0 (last (push_hist s))) (default 0 (last (pop_hist s)))
    (push_cached s) (pop_cached s).

Lemma last_counts hist n : counts hist n -> last hist = Some (u64 (Z.of_nat n)) /\ hist !! n = Some (u64 (Z.of_nat n)).
Proof.
  intros Hc. destruct (counts_lookup_lt hist n n Hc) as [x Hx]; [lia|].
  pose proof Hc as [Hl Hv]. rewrite last_lookup, Hl. simpl. by rewrite Hx, (Hv _ _ Hx).
Qed.

(** The last two steps of a push. *)
Lemma push_finish s value c :
  c_inv k s -> push_at s = PushConstruct value c ->
  exists s', rtc (fun s s' => push_step (2 ^ k) s (Some s')) s s' /\ push_at s' = PushIdle /\
    (construct (Z.land c (_index_mask (queue_of s))) value;;
     q ← get_state; put_state (set_push_cursor (u64 (c + 1)) q);; mret true) (queue_of s) = Ok (true, queue_of s').
Proof.
  intros HI Hpc. destruct (push_slot k k_range s value c HI Hpc) as [E1 E2].
  pose proof (push_write (2 ^ k) s value c Hpc) as Hw. cbv zeta in Hw. rewrite E1, E2 in Hw.
  set (s1 := set_push_at _ _) in Hw. pose proof (push_release (2 ^ k) s1 value c eq_refl) as Hrel.
  eexists. split; [eapply rtc_l; [exact Hw|]; by apply rtc_once|]. split; [done|].
  unfold construct, mbind, prog_bind, get_state, lift, put_state, mret, prog_ret. simpl.
  unfold vwrite. rewrite E2. unfold queue_of, set_push_cursor, set_ring. simpl. by rewrite last_snoc.
Qed.

(** C20: The thread-level steps are those of the sequential program: started
    between two calls, the pushing thread can run to the end of a [push] on
    its own and leaves the queue as [push] computes it. *)
Theorem push_steps_refine s value :
  c_reachable (2 ^ k) s -> push_at s = PushIdle ->
  exists s' accepted, rtc (fun s s' => push_step (2 ^ k) s (Some s')) s s' /\ push_at s' = PushIdle /\
    push value (queue_of s) = Ok (accepted, queue_of s').
Proof.
  intros Hr Hpc. pose proof (c_reachable_inv k k_range s Hr) as HI. pose proof (pow_k k k_range) as Hk.
  destruct (last_counts _ _ (ci_push_hist _ _ HI)) as [Hl _].
  destruct (last_counts _ _ (ci_pop_hist _ _ HI)) as [Hl' Hlk'].
  assert (push_step (2 ^ k) s (Some (set_push_at (PushCheck value (u64 (Z.of_nat (length (sent s))))) s))) as S1
    by (apply push_enter; (done || lia)).
  pose proof (push_preserves k k_range _ _ HI S1) as HI1. set (s1 := set_push_at _ _) in *.
  pose proof (push_check (2 ^ k) s1 value _ eq_refl) as S2.
  assert ((2 ^ k =? 0) = false) as Ek by (apply Z.eqb_neq; lia).
  unfold push. rewrite (bind_Ok _ _ _ (queue_of s) (queue_of s)) by done.
  simpl (_capacity _). simpl (_push_cursor _). simpl (_pop_cursor_cached _). rewrite Ek, Hl. simpl (default _ _).
  cbv zeta. change (pop_cached s1) with (pop_cached s) in S2.
  pose proof (push_preserves k k_range _ _ HI1 S2) as HI2.
  destruct (full_at (2 ^ k) _ (pop_cached s)) eqn:Efull.
  - set (s2 := set_push_at (PushReload value _) s1) in *.
    assert (push_view s2 <= length (received s))%nat as Hv by apply (ci_push_view _ _ HI).
    pose proof (push_load (2 ^ k) s2 value _ _ _ eq_refl Hv Hlk') as S3.
    pose proof (push_preserves k k_range _ _ HI2 S3) as HI3.
    assert ((q ← get_state; put_state (set_pop_cursor_cached (_pop_cursor q) q);;
             q ← get_state; mret (negb (full_at (_capacity q) (u64 (Z.of_nat (length (sent s)))) (_pop_cursor_cached q))))
            (queue_of s) = Ok (negb (full_at (2 ^ k) (u64 (Z.of_nat (length (sent s)))) (u64 (Z.of_nat (length (received s))))),
              set_pop_cursor_cached (u64 (Z.of_nat (length (received s)))) (queue_of s))) as E.
    { unfold mbind, prog_bind, get_state, put_state, mret, prog_ret. simpl. by rewrite Hl'. }
    rewrite (bind_Ok _ _ _ _ _ E). clear E.
    destruct (full_at (2 ^ k) _ (u64 (Z.of_nat (length (received s))))) eqn:Efull'; simpl negb; cbv iota.
    + eexists _, false. split; [eapply rtc_l; [exact S1|]; eapply rtc_l; [exact S2|]; apply rtc_once; exact S3|].
      split; [done|]. done.
    + set (s3 := set_push_at (PushConstruct value _) _) in *. destruct (push_finish s3 value _ HI3 eq_refl) as (s' & Hs' & Hidle & E).
      exists s', true. split; [eapply rtc_l; [exact S1|]; eapply rtc_l; [exact S2|]; eapply rtc_l; [exact S3|done]|].
      split; [done|]. exact E.
  - set (s2 := set_push_at (PushConstruct value _) s1) in *. destruct (push_finish s2 value _ HI2 eq_refl) as (s' & Hs' & Hidle & E).
    exists s', true. split; [eapply rtc_l; [exact S1|]; eapply rtc_l; [exact S2|done]|]. split; [done|]. exact E.
Qed.
End theorems.

(** One element pushed, step by step. *)
Definition pushed_check : cstate Z := set_push_at (PushCheck 7 0) (c_init 4).
Definition pushed_construct : cstate Z := set_push_at (PushConstruct 7 0) pushed_check.
Definition pushed_store : cstate Z := set_push_at (PushStore 7 0) (push_construct 0 7 pushed_construct).
Definition pushed_one : cstate Z := set_push_at PushIdle (push_publish (u64 (0 + 1)) 7 pushed_store).

Lemma pushed_check_reachable : c_reachable 4 pushed_check.
Proof. eapply reach_step; [apply reach_init|]. left. by apply push_enter. Qed.

Lemma pushed_one_reachable : c_reachable 4 pushed_one.
Proof.
  eapply reach_step; [|left; exact (push_release 4 pushed_store 7 0 eq_refl)].
  eapply reach_step; [|left; exact (push_write 4 pushed_construct 7 0 eq_refl)].
  eapply reach_step; [|left; exact (push_check 4 pushed_check 7 0 eq_refl)].
  apply pushed_check_reachable.
Qed.

Lemma queue_race_free_fifo_witness :
  ~ c_step 4 pushed_one None /\
  received pushed_one `prefix_of` [7] /\ Z.of_nat (length (sent pushed_one)) - Z.of_nat (length (received pushed_one)) <= 4.
Proof.
  destruct (queue_race_free_fifo 2 range_2 pushed_one pushed_one_reachable) as (H1 & H2 & H3 & _).
  split; [exact H1|]. split; [exact H2|exact H3].
Defined.

Lemma queue_wait_free_witness : exists s', push_step 4 pushed_check (Some s').
Proof. exact (proj1 (queue_wait_free 2 range_2 pushed_check pushed_check_reachable) ltac:(done)). Defined.

Lemma push_steps_refine_witness :
  exists s' accepted, push_at s' = PushIdle /\ push 8 (queue_of 2 pushed_one) = Ok (accepted, queue_of 2 s').
Proof.
  destruct (push_steps_refine 2 range_2 pushed_one 8 pushed_one_reachable eq_refl) as (s' & a & _ & H1 & H2).
  exists s', a. split; [exact H1|exact H2].
Defined.
