(* ===== verification/Protocol.v ===== *)
(** * Protocol.h: the wire format

    The packed message structs as field layouts, a packet as its timestamp
    and the 56 bytes of its union, and reading and writing the members of the
    union (little-endian, at the offsets the packing gives them).  The
    encoders of scripts/simulator.py and the burst generator of
    benchmarks/bench_worker.cpp produce such packets. *)

From stdpp Require Import strings.
From S2P Require Import Prelude.
From S2P Require Import BookCommands.

(** ** Layouts *)

(** The members of a packed struct, in order, with their sizes. *)
Definition layout := list (string * Z).

Definition sizeof (l : layout) : Z := foldr (fun m n => m.2 + n) 0 l.

(** The offset and size of a member. *)
Fixpoint member (name : string) (l : layout) : option (Z * Z) :=
  match l with
  | [] => None
  | (name', n) :: l =>
      if bool_decide (name = name') then Some (0, n)
      else '(off, m) ← member name l; Some (n + off, m)
  end.

Definition MessageHeader : layout := [("message_type"%string, 1)].
Definition AddOrderMsg : layout :=
  [("header"%string, sizeof MessageHeader); ("order_id"%string, 8); ("price"%string, 4); ("quantity"%string, 4);
   ("is_buy"%string, 1)].
Definition CancelOrderMsg : layout := [("header"%string, sizeof MessageHeader); ("order_id"%string, 8)].
Definition ModifyOrderMsg : layout :=
  [("header"%string, sizeof MessageHeader); ("order_id"%string, 8); ("new_price"%string, 4); ("new_quantity"%string, 4)].

(** The anonymous union is as large as its largest member. *)
Definition payload_size : Z :=
  foldr Z.max 0 [sizeof MessageHeader; sizeof AddOrderMsg; sizeof CancelOrderMsg; sizeof ModifyOrderMsg; 56].

Record PacketPayload := mkPacket {
  ingress_tsc : Z;       (* uint64_t *)
  payload : list Z;      (* the bytes of the union *)
}.

(** [alignas(64)] rounds the size up to a multiple of 64. *)
Definition sizeof_PacketPayload : Z := (8 + payload_size + 63) / 64 * 64.

(** ** Little-endian integers *)

Fixpoint le_bytes (n : nat) (z : Z) : list Z :=
  match n with O => [] | S n => z mod 256 :: le_bytes n (z / 256) end.

Fixpoint le_value (bs : list Z) : Z :=
  match bs with [] => 0 | b :: bs => b + 256 * le_value bs end.

(** ** Members of the union *)

Definition read_member (name : string) (l : layout) (bs : list Z) : Z :=
  match member name l with
  | Some (off, n) => le_value (take (Z.to_nat n) (drop (Z.to_nat off) bs))
  | None => 0
  end.

Definition write_at (off : nat) (new bs : list Z) : list Z :=
  take off bs ++ new ++ drop (off + length new) bs.

Definition write_member (name : string) (l : layout) (v : Z) (bs : list Z) : list Z :=
  match member name l with
  | Some (off, n) => write_at (Z.to_nat off) (le_bytes (Z.to_nat n) v) bs
  | None => bs
  end.

Definition CHAR_A : Z := 65.
Definition CHAR_X : Z := 88.
Definition CHAR_M : Z := 77.
Definition CHAR_B : Z := 66.
Definition CHAR_S : Z := 83.

Definition message_type (p : PacketPayload) : Z := read_member "message_type" MessageHeader (payload p).

(** ** The encoders of scripts/simulator.py *)

(** [struct.pack] raises [struct.error] when a value does not fit. *)
Definition pack_uint (n : nat) (z : Z) : option (list Z) :=
  if (0 <=? z) && (z <? 256 ^ Z.of_nat n) then Some (le_bytes n z) else None.

Definition create_add_order (order_id price qty side : Z) : option (list Z) :=
  id ← pack_uint 8 order_id; p ← pack_uint 4 price; q ← pack_uint 4 qty; s ← pack_uint 1 side;
  Some ([CHAR_A] ++ id ++ p ++ q ++ s ++ repeat 0 38).

Definition create_cancel_order (order_id : Z) : option (list Z) :=
  id ← pack_uint 8 order_id; Some ([CHAR_X] ++ id ++ repeat 0 47).

Definition create_modify_order (order_id new_price new_qty : Z) : option (list Z) :=
  id ← pack_uint 8 order_id; p ← pack_uint 4 new_price; q ← pack_uint 4 new_qty;
  Some ([CHAR_M] ++ id ++ p ++ q ++ repeat 0 39).

(** ** What a packet asks for *)

(** The command the engine takes a packet for. *)
Definition command_of (p : PacketPayload) : command :=
  let bs := payload p in
  if message_type p =? CHAR_A then
    Add (read_member "order_id" AddOrderMsg bs) (read_member "price" AddOrderMsg bs)
      (read_member "quantity" AddOrderMsg bs) (read_member "is_buy" AddOrderMsg bs =? CHAR_B)
  else if message_type p =? CHAR_X then Cancel (read_member "order_id" CancelOrderMsg bs)
  else if message_type p =? CHAR_M then
    Modify (read_member "order_id" ModifyOrderMsg bs) (read_member "new_price" ModifyOrderMsg bs)
      (read_member "new_quantity" ModifyOrderMsg bs)
  else Ignored.

(** ** The burst generator of benchmarks/bench_worker.cpp

    One packet, given the three draws and the (uninitialised) packet it
    writes over. *)
Definition generate_packet (i roll price qty : Z) (p : PacketPayload) : PacketPayload :=
  let bs := payload p in
  if roll <=? 70 then
    let bs := write_member "message_type" MessageHeader CHAR_A bs in
    let bs := write_member "order_id" AddOrderMsg i bs in
    let bs := write_member "price" AddOrderMsg price bs in
    let bs := write_member "quantity" AddOrderMsg qty bs in
    mkPacket (ingress_tsc p)
      (write_member "is_buy" AddOrderMsg (if Z.rem roll 2 =? 0 then CHAR_B else CHAR_S) bs)
  else if roll <=? 85 then
    let bs := write_member "message_type" MessageHeader CHAR_X bs in
    mkPacket (ingress_tsc p) (write_member "order_id" CancelOrderMsg (Z.max 1 (u64 (i - 5))) bs)
  else
    let bs := write_member "message_type" MessageHeader CHAR_M bs in
    let bs := write_member "order_id" ModifyOrderMsg (Z.max 1 (u64 (i - 5))) bs in
    let bs := write_member "new_price" ModifyOrderMsg price bs in
    mkPacket (ingress_tsc p) (write_member "new_quantity" ModifyOrderMsg 50 bs).

(** ** Facts *)

Lemma length_le_bytes n z : length (le_bytes n z) = n.
Proof. revert z. induction n as [|n IH]; intros z; simpl; [done|by rewrite IH]. Qed.

Lemma le_value_bytes n z : le_value (le_bytes n z) = z mod 256 ^ Z.of_nat n.
Proof.
  revert z. induction n as [|n IH]; intros z; [simpl; by rewrite Z.mod_1_r|].
  cbn [le_bytes le_value]. rewrite IH, Nat2Z.inj_succ, Z.pow_succ_r by lia.
  rewrite (Z.rem_mul_r z 256) by (try apply Z.pow_pos_nonneg; lia). lia.
Qed.

Lemma le_value_bytes_small n z : 0 <= z < 256 ^ Z.of_nat n -> le_value (le_bytes n z) = z.
Proof. intros Hz. by rewrite le_value_bytes, Z.mod_small. Qed.

(** The bytes of a value, for any value of the right length: decoding and
    encoding again. *)
Lemma le_bytes_value bs :
  Forall (fun b => 0 <= b < 256) bs -> le_bytes (length bs) (le_value bs) = bs.
Proof.
  induction 1 as [|b bs Hb _ IH]; [done|]. cbn [length le_bytes le_value].
  rewrite (Z.mul_comm 256), Z.mod_add, Z.div_add by lia.
  by rewrite Z.mod_small, Z.div_small, Z.add_0_l, IH by lia.
Qed.

Lemma pack_uint_Some n z bs :
  pack_uint n z = Some bs <-> 0 <= z < 256 ^ Z.of_nat n /\ bs = le_bytes n z.
Proof.
  unfold pack_uint. destruct ((0 <=? z) && _) eqn:E.
  - zb. split; [intros [= <-]; done|]. intros [_ ->]. done.
  - split; [done|]. intros [Hz _]. apply andb_false_iff in E as [E|E]; zb; lia.
Qed.

(** *** Overwriting part of a byte list *)

Lemma length_write_at off new bs : (off + length new <= length bs)%nat -> length (write_at off new bs) = length bs.
Proof. intros H. unfold write_at. rewrite !length_app, length_take, length_drop. lia. Qed.

Lemma read_write_same off new bs :
  (off + length new <= length bs)%nat -> take (length new) (drop off (write_at off new bs)) = new.
Proof.
  intros H. unfold write_at. rewrite drop_app_length' by (rewrite length_take; lia).
  by rewrite take_app_length.
Qed.

Lemma read_write_before off new bs o n :
  (o + n <= off)%nat -> (off <= length bs)%nat ->
  take n (drop o (write_at off new bs)) = take n (drop o bs).
Proof.
  intros H Hl. apply list_eq. intros i. destruct (decide (i < n)%nat) as [Hi|Hi].
  - rewrite !lookup_take_lt, !lookup_drop by lia. unfold write_at.
    rewrite lookup_app_l by (rewrite length_take; lia). by rewrite lookup_take_lt by lia.
  - by rewrite !lookup_take_ge by lia.
Qed.

Lemma read_write_after off new bs o n :
  (off + length new <= o)%nat -> (off + length new <= length bs)%nat ->
  take n (drop o (write_at off new bs)) = take n (drop o bs).
Proof.
  intros H Hl. unfold write_at. rewrite app_assoc. f_equal.
  rewrite drop_app_ge by (rewrite length_app, length_take; lia).
  rewrite drop_drop. f_equal. rewrite length_app, length_take. lia.
Qed.

(** *** Members of the structs *)

Lemma member_size name l off n :
  member name l = Some (off, n) -> Forall (fun m => 0 <= m.2) l -> 0 <= off /\ 0 <= n /\ off + n <= sizeof l.
Proof.
  revert off n. induction l as [|[name' n'] l IH]; intros off n; simpl; [done|].
  intros Hm [Hn' Hl]%Forall_cons. simpl in Hn'.
  assert (0 <= sizeof l) as Hs by (clear -Hl; induction Hl; simpl; lia).
  case_bool_decide; [injection Hm as <- <-; lia|].
  destruct (member name l) as [[off0 n0]|] eqn:E; [|done]. simpl in Hm. injection Hm as <- <-.
  destruct (IH _ _ eq_refl Hl) as (? & ? & ?). lia.
Qed.

(** Two members of one struct do not overlap. *)
Lemma member_disjoint name1 name2 l off1 n1 off2 n2 :
  name1 <> name2 -> Forall (fun m => 0 <= m.2) l ->
  member name1 l = Some (off1, n1) -> member name2 l = Some (off2, n2) ->
  off1 + n1 <= off2 \/ off2 + n2 <= off1.
Proof.
  intros Hne Hl. revert off1 n1 off2 n2. induction Hl as [|[name n] l Hn Hl IH]; intros off1 n1 off2 n2; [done|].
  simpl in *. case_bool_decide as E1; case_bool_decide as E2; [congruence| | |].
  - intros [= <- <-]. destruct (member name2 l) as [[o m]|] eqn:E; [|done]. intros [= <- <-].
    apply member_size in E; [left; lia|done].
  - destruct (member name1 l) as [[o m]|] eqn:E; [|done]. intros [= <- <-] [= <- <-].
    apply member_size in E; [right; lia|done].
  - destruct (member name1 l) as [[o1 m1]|] eqn:E3; [|done]. destruct (member name2 l) as [[o2 m2]|] eqn:E4; [|done].
    intros [= <- <-] [= <- <-]. destruct (IH _ _ _ _ eq_refl eq_refl); [left|right]; lia.
Qed.

Section members.
Context (l : layout) (bs : list Z).
Hypothesis sizes : Forall (fun m => 0 <= m.2) l.
Hypothesis fits : sizeof l <= Z.of_nat (length bs).

Lemma length_write_member name v : length (write_member name l v bs) = length bs.
Proof.
  unfold write_member. destruct (member name l) as [[off n]|] eqn:E; [|done].
  apply member_size in E as (? & ? & ?); [|done]. apply length_write_at. rewrite length_le_bytes. lia.
Qed.

Lemma read_write_member name v off n :
  member name l = Some (off, n) -> 0 <= v < 256 ^ n ->
  read_member name l (write_member name l v bs) = v.
Proof.
  intros E Hv. unfold read_member, write_member. rewrite E. apply member_size in E as (? & ? & ?); [|done].
  rewrite <- (length_le_bytes (Z.to_nat n) v) at 1. rewrite read_write_same by (rewrite length_le_bytes; lia).
  apply le_value_bytes_small. by rewrite Z2Nat.id by lia.
Qed.

Lemma read_write_member_ne name name' v :
  name <> name' -> read_member name l (write_member name' l v bs) = read_member name l bs.
Proof.
  intros Hne. unfold read_member, write_member.
  destruct (member name l) as [[off n]|] eqn:E; [|done]. destruct (member name' l) as [[off' n']|] eqn:E'; [|done].
  pose proof (member_size _ _ _ _ E sizes) as (? & ? & ?). pose proof (member_size _ _ _ _ E' sizes) as (? & ? & ?).
  destruct (member_disjoint _ _ _ _ _ _ _ Hne sizes E E').
  - rewrite read_write_before by lia. done.
  - rewrite read_write_after by (rewrite length_le_bytes; lia). done.
Qed.
End members.

(** All three messages start with the header. *)
Lemma header_Add bs : read_member "message_type" MessageHeader bs = read_member "header" AddOrderMsg bs.
Proof. done. Qed.
Lemma header_Cancel bs : read_member "message_type" MessageHeader bs = read_member "header" CancelOrderMsg bs.
Proof. done. Qed.
Lemma header_Modify bs : read_member "message_type" MessageHeader bs = read_member "header" ModifyOrderMsg bs.
Proof. done. Qed.

Lemma Add_sizes : Forall (fun m : string * Z => 0 <= m.2) AddOrderMsg.
Proof. repeat constructor; simpl; lia. Qed.
Lemma Cancel_sizes : Forall (fun m : string * Z => 0 <= m.2) CancelOrderMsg.
Proof. repeat constructor; simpl; lia. Qed.
Lemma Modify_sizes : Forall (fun m : string * Z => 0 <= m.2) ModifyOrderMsg.
Proof. repeat constructor; simpl; lia. Qed.

(** ** Packets of the simulator *)

Lemma create_add_order_command tsc id price qty side bs :
  create_add_order id price qty side = Some bs ->
  Z.of_nat (length bs) = sizeof_PacketPayload - 8 /\
  command_of (mkPacket tsc bs) = Add id price qty (side =? CHAR_B).
Proof.
  intros H. unfold create_add_order in H.
  destruct (pack_uint 8 id) as [b1|] eqn:E1; [|done]. destruct (pack_uint 4 price) as [b2|] eqn:E2; [|done].
  destruct (pack_uint 4 qty) as [b3|] eqn:E3; [|done]. destruct (pack_uint 1 side) as [b4|] eqn:E4; [|done].
  apply pack_uint_Some in E1 as [R1 ->], E2 as [R2 ->], E3 as [R3 ->], E4 as [R4 ->]. injection H as <-.
  split; [done|]. change (Add (le_value (le_bytes 8 id)) (le_value (le_bytes 4 price)) (le_value (le_bytes 4 qty))
    (le_value (le_bytes 1 side) =? CHAR_B) = Add id price qty (side =? CHAR_B)).
  by rewrite !le_value_bytes_small.
Qed.

Lemma create_cancel_order_command tsc id bs :
  create_cancel_order id = Some bs ->
  Z.of_nat (length bs) = sizeof_PacketPayload - 8 /\ command_of (mkPacket tsc bs) = Cancel id.
Proof.
  intros H. unfold create_cancel_order in H. destruct (pack_uint 8 id) as [b1|] eqn:E1; [|done].
  apply pack_uint_Some in E1 as [R1 ->]. injection H as <-. split; [done|].
  change (Cancel (le_value (le_bytes 8 id)) = Cancel id). by rewrite le_value_bytes_small.
Qed.

Lemma create_modify_order_command tsc id price qty bs :
  create_modify_order id price qty = Some bs ->
  Z.of_nat (length bs) = sizeof_PacketPayload - 8 /\ command_of (mkPacket tsc bs) = Modify id price qty.
Proof.
  intros H. unfold create_modify_order in H. destruct (pack_uint 8 id) as [b1|] eqn:E1; [|done].
  destruct (pack_uint 4 price) as [b2|] eqn:E2; [|done]. destruct (pack_uint 4 qty) as [b3|] eqn:E3; [|done].
  apply pack_uint_Some in E1 as [R1 ->], E2 as [R2 ->], E3 as [R3 ->]. injection H as <-. split; [done|].
  change (Modify (le_value (le_bytes 8 id)) (le_value (le_bytes 4 price)) (le_value (le_bytes 4 qty)) = Modify id price qty).
  by rewrite !le_value_bytes_small.
Qed.

Lemma pack_uint_None n z : pack_uint n z = None <-> ~ (0 <= z < 256 ^ Z.of_nat n).
Proof.
  split.
  - intros H Hz. assert (pack_uint n z = Some (le_bytes n z)) as E by by apply pack_uint_Some. congruence.
  - intros Hz. destruct (pack_uint n z) as [bs|] eqn:E; [|done]. by apply pack_uint_Some in E as [? _].
Qed.

Lemma create_add_order_None id price qty side :
  create_add_order id price qty side = None <->
  ~ (0 <= id < 2 ^ 64 /\ 0 <= price < 2 ^ 32 /\ 0 <= qty < 2 ^ 32 /\ 0 <= side < 256).
Proof.
  unfold create_add_order.
  destruct (pack_uint 8 id) as [b1|] eqn:E1; [apply pack_uint_Some in E1 as [E1 _]|apply pack_uint_None in E1];
  (destruct (pack_uint 4 price) as [b2|] eqn:E2; [apply pack_uint_Some in E2 as [E2 _]|apply pack_uint_None in E2]);
  (destruct (pack_uint 4 qty) as [b3|] eqn:E3; [apply pack_uint_Some in E3 as [E3 _]|apply pack_uint_None in E3]);
  (destruct (pack_uint 1 side) as [b4|] eqn:E4; [apply pack_uint_Some in E4 as [E4 _]|apply pack_uint_None in E4]);
  simpl in *; (split; [intros H; first [discriminate H|lia]|intros H; first [done|exfalso; lia]]).
Qed.

(** C21: What scripts/simulator.py encodes is what the engine decodes: for
    values that fit their fields each encoder produces exactly the 56 bytes
    that the feed handler asks for, and the packed structs of Protocol.h read
    the same message, with the same values, back from them; values that do
    not fit are refused by the encoder. *)
Theorem simulator_roundtrip (tsc id price qty side : Z) :
  (forall bs, create_add_order id price qty side = Some bs ->
     Z.of_nat (length bs) = sizeof_PacketPayload - 8 /\
     command_of (mkPacket tsc bs) = Add id price qty (side =? CHAR_B)) /\
  (forall bs, create_cancel_order id = Some bs ->
     Z.of_nat (length bs) = sizeof_PacketPayload - 8 /\ command_of (mkPacket tsc bs) = Cancel id) /\
  (forall bs, create_modify_order id price qty = Some bs ->
     Z.of_nat (length bs) = sizeof_PacketPayload - 8 /\ command_of (mkPacket tsc bs) = Modify id price qty) /\
  (create_add_order id price qty side = None <->
     ~ (0 <= id < 2 ^ 64 /\ 0 <= price < 2 ^ 32 /\ 0 <= qty < 2 ^ 32 /\ 0 <= side < 256)).
Proof.
  split; [apply create_add_order_command|]. split; [apply create_cancel_order_command|].
  split; [apply create_modify_order_command|apply create_add_order_None].
Qed.

Lemma simulator_roundtrip_witness :
  exists bs, create_add_order 7 100500 100 CHAR_B = Some bs /\ command_of (mkPacket 0 bs) = Add 7 100500 100 true.
Proof.
  destruct (simulator_roundtrip 0 7 100500 100 CHAR_B) as (H & _). eexists. split; [reflexivity|].
  exact (proj2 (H _ eq_refl)).
Defined.

(** ** Packets of the burst generator *)

(** The command a generated packet stands for. *)
Definition generated_command (i roll price qty : Z) : command :=
  if roll <=? 70 then Add i price qty (Z.rem roll 2 =? 0)
  else if roll <=? 85 then Cancel (Z.max 1 (u64 (i - 5)))
  else Modify (Z.max 1 (u64 (i - 5))) price 50.

Lemma length_packet_write name l v bs :
  Forall (fun m : string * Z => 0 <= m.2) l -> sizeof l <= 56 -> length bs = 56%nat ->
  length (write_member name l v bs) = 56%nat.
Proof. intros Hs Hl Hb. by rewrite length_write_member by (done || lia). Qed.

(** Reads through the writes of a packet. *)
Ltac len56 := repeat (apply length_packet_write; [assumption|by vm_compute|]); assumption.
Ltac read_packet :=
  repeat match goal with
         | |- context [read_member ?name ?l (write_member ?name' ?l ?v ?bs)] =>
             let Hl := fresh in
             assert (sizeof l <= Z.of_nat (length bs)) as Hl
               by (replace (length bs) with 56%nat by (symmetry; len56); by vm_compute);
             first
               [ rewrite (read_write_member_ne l bs ltac:(assumption) Hl name name' v ltac:(done))
               | erewrite (read_write_member l bs ltac:(assumption) Hl name v) by (reflexivity || assumption) ];
             clear Hl
         end.

Lemma generate_packet_command i roll price qty p :
  length (payload p) = 56%nat -> 0 <= i < 2 ^ 64 -> 0 <= price < 2 ^ 32 -> 0 <= qty < 2 ^ 32 ->
  command_of (generate_packet i roll price qty p) = generated_command i roll price qty /\
  length (payload (generate_packet i roll price qty p)) = 56%nat.
Proof.
  intros Hlen Hi Hp Hq. pose proof (wrap_range 64 (i - 5) ltac:(lia)) as Hw.
  assert (0 <= Z.max 1 (u64 (i - 5)) < 256 ^ 8) by (change (256 ^ 8) with (2 ^ 64); lia).
  pose proof Add_sizes. pose proof Cancel_sizes. pose proof Modify_sizes.
  unfold generate_packet, generated_command.
  destruct (roll <=? 70); [|destruct (roll <=? 85)]; unfold command_of, message_type; simpl payload.
  - change (write_member "message_type" MessageHeader CHAR_A (payload p))
      with (write_member "header" AddOrderMsg CHAR_A (payload p)).
    rewrite header_Add. split; [|len56].
    assert (0 <= (if Z.rem roll 2 =? 0 then CHAR_B else CHAR_S) < 256 ^ 1) by by destruct (_ =? _).
    assert (0 <= CHAR_A < 256 ^ 1) by done.
    read_packet. simpl. by destruct (Z.rem roll 2 =? 0).
  - change (write_member "message_type" MessageHeader CHAR_X (payload p))
      with (write_member "header" CancelOrderMsg CHAR_X (payload p)).
    rewrite header_Cancel. split; [|len56]. assert (0 <= CHAR_X < 256 ^ 1) by done. by read_packet.
  - change (write_member "message_type" MessageHeader CHAR_M (payload p))
      with (write_member "header" ModifyOrderMsg CHAR_M (payload p)).
    rewrite header_Modify. split; [|len56]. assert (0 <= CHAR_M < 256 ^ 1) by done.
    assert (0 <= 50 < 256 ^ 4) by done. by read_packet.
Qed.
