(* ===== verification/FeedHandler.v ===== *)
(** * FeedHandler.h: from datagrams to the queue

    The completion handler of [async_receive_from] and the loop it makes by
    re-arming itself.  What the socket delivers is an argument: an error, or
    a datagram, of which the kernel has written at most the 56 bytes of the
    buffer it was given (the rest of a longer datagram is discarded, the
    buffer keeps its old bytes past the end of a shorter one). *)

From S2P Require Import Prelude.
From S2P Require Import SPSCQueue.
From S2P Require Import Protocol.

(** A completion: what arrived, and the time stamp [__rdtsc] then returned. *)
Inductive completion :=
| RecvError (tsc : Z)
| Datagram (tsc : Z) (bytes : list Z).

Record FeedHandler := mkFeedHandler {
  _queue : SPSCQueue PacketPayload;
  _recv_buffer : PacketPayload;
  dropped_packets : Z;   (* uint64_t *)
  errors_logged : Z;     (* lines written to std::cerr *)
}.

Definition BUFFER_SIZE : Z := sizeof_PacketPayload - 8.

(** What the receive operation leaves in the buffer, and [bytes_recvd]. *)
Definition received_into (bytes : list Z) (buffer : list Z) : list Z * Z :=
  let data := take (Z.to_nat BUFFER_SIZE) bytes in
  (write_at 0 data buffer, Z.of_nat (length data)).

Definition set_queue (q : SPSCQueue PacketPayload) (h : FeedHandler) : FeedHandler :=
  mkFeedHandler q (_recv_buffer h) (dropped_packets h) (errors_logged h).
Definition set_recv_buffer (b : PacketPayload) (h : FeedHandler) : FeedHandler :=
  mkFeedHandler (_queue h) b (dropped_packets h) (errors_logged h).
Definition set_dropped_packets (n : Z) (h : FeedHandler) : FeedHandler :=
  mkFeedHandler (_queue h) (_recv_buffer h) n (errors_logged h).
Definition log_error (h : FeedHandler) : FeedHandler :=
  mkFeedHandler (_queue h) (_recv_buffer h) (dropped_packets h) (errors_logged h + 1).

(** [_queue.push(_recv_buffer)]. *)
Definition push_buffer : prog FeedHandler bool := fun h =>
  match push (_recv_buffer h) (_queue h) with
  | Ok (accepted, q) => Ok (accepted, set_queue q h)
  | Undefined f => Undefined f
  | OutOfFuel => OutOfFuel
  end.

(** The lambda of [start_receive], without its last statement, run on what
    the receive operation wrote. *)
Definition on_receive (ec : bool) (tsc bytes_recvd : Z) : prog FeedHandler unit :=
  h ← get_state;
  put_state (set_recv_buffer (mkPacket tsc (payload (_recv_buffer h))) h);;
  if negb ec && (bytes_recvd =? BUFFER_SIZE) then
    pushed ← push_buffer;
    if negb pushed then
      h ← get_state;
      put_state (set_dropped_packets (u64 (dropped_packets h + 1)) h)
    else mret tt
  else if ec then h ← get_state; put_state (log_error h)
  else mret tt.

Definition handle (c : completion) : prog FeedHandler unit :=
  match c with
  | RecvError tsc => on_receive true tsc 0
  | Datagram tsc bytes =>
      h ← get_state;
      let '(buffer, n) := received_into bytes (payload (_recv_buffer h)) in
      put_state (set_recv_buffer (mkPacket (ingress_tsc (_recv_buffer h)) buffer) h);;
      on_receive false tsc n
  end.

(** [start_receive()] at the end of the handler: the next completion is
    handled in turn, for as long as the io_context delivers them. *)
Fixpoint feed (cs : list completion) : prog FeedHandler unit :=
  match cs with
  | [] => mret tt
  | c :: cs => handle c;; feed cs
  end.

(** ** What each completion means *)

(** The packet a completion carries, if it is one the handler accepts. *)
Definition packet_of (c : completion) : option PacketPayload :=
  match c with
  | RecvError _ => None
  | Datagram tsc bytes =>
      if Z.of_nat (length bytes) <? BUFFER_SIZE then None
      else Some (mkPacket tsc (take (Z.to_nat BUFFER_SIZE) bytes))
  end.

Definition is_error (c : completion) : bool := match c with RecvError _ => true | _ => false end.

(** Feeding a bounded queue: what gets in, and how many do not. *)
Fixpoint admit_packets (capacity : Z) (cs : list completion) (l : list PacketPayload) : list PacketPayload * Z :=
  match cs with
  | [] => (l, 0)
  | c :: cs =>
      match packet_of c with
      | None => admit_packets capacity cs l
      | Some p =>
          if Z.of_nat (length l) <? capacity then admit_packets capacity cs (l ++ [p])
          else let '(l', n) := admit_packets capacity cs l in (l', n + 1)
      end
  end.

Section feed.
Context (k : Z).
Hypothesis k_range : 0 <= k <= 63.

(** The handler between two completions: its queue holds [l], and its buffer
    has the size of the union. *)
Record feeding (h : FeedHandler) (l : list PacketPayload) : Prop := {
  fd_contents : contents k (_queue h) l;
  fd_buffer : length (payload (_recv_buffer h)) = Z.to_nat BUFFER_SIZE;
}.

Lemma buffer_size : BUFFER_SIZE = 56.
Proof. done. Qed.

Lemma wp_push_buffer h l (Phi : bool -> FeedHandler -> Prop) :
  feeding h l ->
  (forall q', let accepted := Z.of_nat (length l) <? 2 ^ k in
     contents k q' (if accepted then l ++ [_recv_buffer h] else l) -> Phi accepted (set_queue q' h)) ->
  wp push_buffer h Phi.
Proof.
  intros [Hq _] HP.
  destruct (wp_push k k_range (_queue h) l (_recv_buffer h) (fun a q' => Phi a (set_queue q' h)) Hq)
    as (a & q' & Hr & Ha); [exact HP|].
  exists a, (set_queue q' h). split; [|done]. unfold push_buffer. by rewrite Hr.
Qed.

(** A full datagram: into the queue, or counted as dropped. *)
Lemma wp_on_receive_full tsc h l (Phi : unit -> FeedHandler -> Prop) :
  feeding h l ->
  (forall h', let accepted := Z.of_nat (length l) <? 2 ^ k in
     feeding h' (if accepted then l ++ [mkPacket tsc (payload (_recv_buffer h))] else l) ->
     dropped_packets h' = (if accepted then dropped_packets h else u64 (dropped_packets h + 1)) ->
     errors_logged h' = errors_logged h -> Phi tt h') ->
  wp (on_receive false tsc BUFFER_SIZE) h Phi.
Proof.
  intros [Hq Hb] HP. unfold on_receive. apply wp_bind, wp_get, wp_bind, wp_put. rewrite Z.eqb_refl. simpl.
  apply wp_bind. eapply wp_push_buffer; [split; [exact Hq|exact Hb]|]. simpl. intros q' Hq'.
  destruct (Z.of_nat (length l) <? 2 ^ k); simpl.
  - apply wp_ret, HP; [split; [done|exact Hb]|done|done].
  - apply wp_bind, wp_get, wp_put, HP; [split; [done|exact Hb]|done|done].
Qed.

Lemma wp_handle c h l (Phi : unit -> FeedHandler -> Prop) :
  feeding h l ->
  (forall h', let '(l', n) := admit_packets (2 ^ k) [c] l in
     feeding h' l' -> dropped_packets h' = u64 (dropped_packets h + n) \/ n = 0 /\ dropped_packets h' = dropped_packets h ->
     errors_logged h' = errors_logged h + (if is_error c then 1 else 0) -> Phi tt h') ->
  wp (handle c) h Phi.
Proof.
  intros [Hq Hb] HP. destruct c as [tsc|tsc bytes]; simpl in *.
  - apply wp_bind, wp_get, wp_bind, wp_put, wp_bind, wp_get, wp_put, HP; [split; [exact Hq|exact Hb]|by right|done].
  - apply wp_bind, wp_get. unfold received_into. cbv zeta.
    assert (length (take (Z.to_nat BUFFER_SIZE) bytes) = Nat.min (Z.to_nat BUFFER_SIZE) (length bytes)) as Hlen by apply length_take.
    rewrite buffer_size in *. change (Z.to_nat 56) with 56%nat in *.
    apply wp_bind, wp_put. zcase (Z.of_nat (length bytes) <? 56).
    + unfold on_receive. apply wp_bind, wp_get, wp_bind, wp_put. rewrite Hlen, buffer_size.
      zcase (Z.of_nat (56 `min` length bytes) =? 56); [lia|]. simpl. apply wp_ret, HP; [|by right|simpl; lia].
      split; [exact Hq|]. simpl. rewrite length_write_at by lia. exact Hb.
    + assert (Z.of_nat (length (take 56 bytes)) = BUFFER_SIZE) as -> by (rewrite Hlen, buffer_size; lia).
      eapply wp_on_receive_full.
      { split; [exact Hq|]. simpl. rewrite length_write_at by lia. exact Hb. }
      simpl. unfold write_at. simpl. rewrite drop_ge, app_nil_r by lia. intros h' Hf Hd He.
      destruct (Z.of_nat (length l) <? 2 ^ k); (apply HP; [exact Hf| |simpl in *; lia]).
      * by right.
      * by left.
Qed.

Lemma admit_packets_cons c cs l :
  admit_packets (2 ^ k) (c :: cs) l =
    let '(l1, n1) := admit_packets (2 ^ k) [c] l in
    let '(l2, n2) := admit_packets (2 ^ k) cs l1 in (l2, n1 + n2).
Proof.
  simpl. destruct (packet_of c) as [p|].
  - destruct (Z.of_nat (length l) <? 2 ^ k).
    + by destruct (admit_packets (2 ^ k) cs (l ++ [p])).
    + destruct (admit_packets (2 ^ k) cs l) as [l' n]. by rewrite Z.add_comm.
  - by destruct (admit_packets (2 ^ k) cs l).
Qed.

(** C22: Every completion is accounted for: datagrams of at least 56 bytes
    enter the queue in order of arrival, each with its own 56 bytes and its
    own time stamp and nothing of an earlier one, as long as the queue has
    room; the others of them are counted in [dropped_packets]; errors are
    logged, shorter datagrams ignored; and the handler never stops
    re-arming. *)
Theorem feed_accounts h l cs :
  feeding h l -> 0 <= dropped_packets h < 2 ^ 64 ->
  exists h', feed cs h = Ok (tt, h') /\
    feeding h' (admit_packets (2 ^ k) cs l).1 /\
    dropped_packets h' = u64 (dropped_packets h + (admit_packets (2 ^ k) cs l).2) /\
    errors_logged h' = errors_logged h + Z.of_nat (length (filter (fun c => is_error c = true) cs)).
Proof.
  revert h l. induction cs as [|c cs IH]; intros h l Hf Hd.
  { exists h. simpl. rewrite Z.add_0_r, Z.add_0_r. by rewrite wrap_small. }
  rewrite admit_packets_cons. destruct (admit_packets (2 ^ k) [c] l) as [l1 n1] eqn:E1.
  destruct (wp_handle c h l (fun _ h' => feeding h' l1 /\ dropped_packets h' = u64 (dropped_packets h + n1) /\
    errors_logged h' = errors_logged h + (if is_error c then 1 else 0)) Hf) as ([] & h1 & Hr1 & Hf1 & Hd1 & He1).
  { rewrite E1. intros h' Hf' Hd' He'. split; [done|]. split; [|done].
    destruct Hd' as [|[-> Hd']]; [done|]. by rewrite Z.add_0_r, wrap_small. }
  destruct (IH h1 l1 Hf1) as (h' & Hr & Hf' & Hd' & He').
  { rewrite Hd1. apply wrap_range. lia. }
  destruct (admit_packets (2 ^ k) cs l1) as [l2 n2]. simpl in *. exists h'.
  rewrite (bind_Ok _ _ _ _ _ Hr1). split; [done|]. split; [done|]. split.
  - rewrite Hd', Hd1. unfold wrap. rewrite Zplus_mod_idemp_l. by rewrite Z.add_assoc.
  - rewrite He', He1, filter_cons. destruct (is_error c); simpl; lia.
Qed.
End feed.

Definition zero_packet : PacketPayload := mkPacket 0 (repeat 0 (Z.to_nat BUFFER_SIZE)).

Lemma new_feeding : exists q, SPSCQueue_new false 4 = Ok q /\ feeding 2 (mkFeedHandler q zero_packet 0 0) [].
Proof. destruct (contents_new 2 range_2 (T := PacketPayload) false) as (q & H & Hq). by exists q. Qed.

Lemma feed_accounts_witness :
  exists h h', feed [Datagram 1 (repeat 65 56); RecvError 2; Datagram 3 (repeat 88 60); Datagram 4 [1; 2]] h = Ok (tt, h') /\
    feeding 2 h' [mkPacket 1 (repeat 65 56); mkPacket 3 (repeat 88 56)] /\ errors_logged h' = 1.
Proof.
  destruct new_feeding as (q & _ & Hf).
  destruct (feed_accounts 2 range_2 _ []
    [Datagram 1 (repeat 65 56); RecvError 2; Datagram 3 (repeat 88 60); Datagram 4 [1; 2]] Hf) as (h' & Hr & Hf' & _ & He);
    [simpl; lia|].
  eexists _, h'. split; [exact Hr|]. split; [exact Hf'|exact He].
Defined.
