(* ===== verification/Engine.v ===== *)
(** * The matching engine: [run_matching_engine] of main.cpp

    The worker thread's loop over the queue, the dispatch of a packet to the
    book, and the latency samples.  What the loop reads from outside (the
    flag [running], the time stamp counter, and the packets the other thread
    has pushed in the meantime) is the list of its inputs, one per
    iteration. *)

From stdpp Require Import strings.
From S2P Require Import Prelude.
From S2P Require Import PriceIndex.
From S2P Require Import PriceBitSet.
From S2P Require Import OrderBook.
From S2P Require Import SPSCQueue.
From S2P Require Import BookSpec.
From S2P Require Import BookCommands.
From S2P Require Import BookTheorems.
From S2P Require Import Protocol.

Definition MAX_SAMPLES : Z := 1000000.

Record Engine := mkEngine {
  queue : SPSCQueue PacketPayload;
  book : Book;
  packet : PacketPayload;
  messages_processed : Z;    (* uint64_t *)
  cycle_deltas : vec Z;
  sample_count : Z;          (* size_t *)
  idle_polls : Z;            (* uint64_t *)
  pauses : Z;                (* calls of _mm_pause *)
}.

Definition Engine_new (q : SPSCQueue PacketPayload) (b : Book) (uninitialised : PacketPayload) : Engine :=
  mkEngine q b uninitialised 0 (vnew MAX_SAMPLES 0) 0 0 0.

(** Running an operation on a member of the state. *)
Definition on_queue {A} (m : prog (SPSCQueue PacketPayload) A) : prog Engine A := fun e =>
  match m (queue e) with
  | Ok (a, q) => Ok (a, mkEngine q (book e) (packet e) (messages_processed e) (cycle_deltas e) (sample_count e)
                          (idle_polls e) (pauses e))
  | Undefined f => Undefined f
  | OutOfFuel => OutOfFuel
  end.
Definition on_book {A} (m : prog Book A) : prog Engine A := fun e =>
  match m (book e) with
  | Ok (a, b) => Ok (a, mkEngine (queue e) b (packet e) (messages_processed e) (cycle_deltas e) (sample_count e)
                          (idle_polls e) (pauses e))
  | Undefined f => Undefined f
  | OutOfFuel => OutOfFuel
  end.

Definition set_packet (p : PacketPayload) (e : Engine) : Engine :=
  mkEngine (queue e) (book e) p (messages_processed e) (cycle_deltas e) (sample_count e) (idle_polls e) (pauses e).
Definition set_idle_polls (n : Z) (e : Engine) : Engine :=
  mkEngine (queue e) (book e) (packet e) (messages_processed e) (cycle_deltas e) (sample_count e) n (pauses e).
Definition set_messages_processed (n : Z) (e : Engine) : Engine :=
  mkEngine (queue e) (book e) (packet e) n (cycle_deltas e) (sample_count e) (idle_polls e) (pauses e).
Definition set_samples (deltas : vec Z) (n : Z) (e : Engine) : Engine :=
  mkEngine (queue e) (book e) (packet e) (messages_processed e) deltas n (idle_polls e) (pauses e).
Definition mm_pause (e : Engine) : Engine :=
  mkEngine (queue e) (book e) (packet e) (messages_processed e) (cycle_deltas e) (sample_count e) (idle_polls e)
    (pauses e + 1).

(** The [switch] of the loop. *)
Definition dispatch_packet (fuel : nat) (p : PacketPayload) : prog Book unit :=
  let bs := payload p in
  let t := message_type p in
  if t =? CHAR_A then
    add_order fuel (read_member "order_id" AddOrderMsg bs) (read_member "price" AddOrderMsg bs)
      (read_member "quantity" AddOrderMsg bs) (read_member "is_buy" AddOrderMsg bs =? CHAR_B)
  else if t =? CHAR_X then
    cancel_order (read_member "order_id" CancelOrderMsg bs)
  else if t =? CHAR_M then
    modify_order fuel (read_member "order_id" ModifyOrderMsg bs) (read_member "new_price" ModifyOrderMsg bs)
      (read_member "new_quantity" ModifyOrderMsg bs)
  else mret tt.

(** [if (sample_count < MAX_SAMPLES) cycle_deltas[sample_count++] = ...]. *)
Definition take_sample (egress_tsc : Z) : prog Engine unit :=
  e ← get_state;
  if sample_count e <? MAX_SAMPLES then
    deltas ← lift (vwrite (cycle_deltas e) (sample_count e) (u64 (egress_tsc - ingress_tsc (packet e))));
    put_state (set_samples deltas (u64 (sample_count e + 1)) e)
  else mret tt.

(** One iteration of the loop body. *)
Definition poll (fuel : nat) (tsc : Z) : prog Engine unit :=
  popped ← on_queue pop;
  match popped with
  | Some p =>
      e ← get_state; put_state (set_idle_polls 0 (set_packet p e));;
      on_book (dispatch_packet fuel p);;
      take_sample tsc;;
      e ← get_state; put_state (set_messages_processed (u64 (messages_processed e + 1)) e)
  | None =>
      e ← get_state;
      let n := u64 (idle_polls e + 1) in
      put_state (set_idle_polls n e);;
      if n >? 64 then e ← get_state; put_state (mm_pause e) else mret tt
  end.

(** What an iteration sees: packets pushed since the last one, the value of
    [running], and the time stamp counter. *)
Record input := mkInput { arrivals : list PacketPayload; running : bool; tsc : Z }.

(** The other thread's pushes; it counts what is refused. *)
Fixpoint arrive (ps : list PacketPayload) : prog Engine unit :=
  match ps with
  | [] => mret tt
  | p :: ps => _ ← on_queue (push p); arrive ps
  end.

(** [while (running.load(acquire))]; true when the loop has ended. *)
Fixpoint run_loop (fuel : nat) (ins : list input) : prog Engine bool :=
  match ins with
  | [] => mret false
  | i :: ins =>
      arrive (arrivals i);;
      if running i then poll fuel (tsc i);; run_loop fuel ins else mret true
  end.

(** ** The latency report *)

(** Sorting, and rounding a product to a double: [round53] keeps 53
    significant bits, ties to even. *)
Definition round53 (z : Z) : Z :=
  let e := Z.max 0 (Z.log2 z - 52) in
  let p := 2 ^ e in
  let q := z / p in
  let r := z mod p in
  let up := if 2 * r <? p then false else if p <? 2 * r then true else Z.odd q in
  (if up then q + 1 else q) * p.

(** The double nearest to 0.99 is [DOUBLE_099 * 2^-53]. *)
Definition DOUBLE_099 : Z := 8917127262193582.

(** [static_cast<size_t>(sample_count * 0.99)]. *)
Definition p99_index (n : Z) : Z := round53 (n * DOUBLE_099) / 2 ^ 53.

Record report := mkReport { median_cycles : Z; p99_cycles : Z; max_cycles : Z }.

(** The report on the samples taken, when there are any. *)
Definition latency_report (samples : list Z) : option report :=
  let n := Z.of_nat (length samples) in
  if n >? 0 then
    let sorted := merge_sort Z.le samples in
    median ← sorted !! Z.to_nat (n / 2);
    p99 ← sorted !! Z.to_nat (p99_index n);
    max ← sorted !! Z.to_nat (n - 1);
    Some (mkReport median p99 max)
  else None.
