(* ===== verification/EngineTheorems.v ===== *)
(** * Properties of the matching engine

    The loop processes exactly the packets that the queue accepted, in order,
    and keeps the book that the specification computes from their commands;
    the samples and the report stay inside of their arrays. *)

From S2P Require Import Prelude.
From S2P Require Import PriceIndex.
From S2P Require Import PriceBitSet.
From S2P Require Import OrderBook.
From S2P Require Import SPSCQueue.
From S2P Require Import BookSpec.
From S2P Require Import BookCommands.
From S2P Require Import BookTheorems.
From S2P Require Import Protocol.
From S2P Require Import Engine.

Lemma dispatch_command fuel p b : dispatch_packet fuel p b = run_command fuel (command_of p) b.
Proof.
  unfold dispatch_packet, command_of. destruct (message_type p =? CHAR_A); [done|].
  destruct (message_type p =? CHAR_X); [done|]. by destruct (message_type p =? CHAR_M).
Qed.

(** ** What a run of the loop does, abstractly *)

Definition admit_all {A} (capacity : Z) (ps l : list A) : list A :=
  foldl (fun l p => if Z.of_nat (length l) <? capacity then l ++ [p] else l) l ps.

(** From the packets waiting: whether the loop ended, the packets still
    waiting, and those processed, each with its time stamp. *)
Fixpoint engine_spec (capacity : Z) (ins : list input) (pending : list PacketPayload) :
    bool * list PacketPayload * list (PacketPayload * Z) :=
  match ins with
  | [] => (false, pending, [])
  | i :: ins =>
      let pending := admit_all capacity (arrivals i) pending in
      if running i then
        match pending with
        | [] => engine_spec capacity ins []
        | p :: pending =>
            let '(stopped, pending, processed) := engine_spec capacity ins pending in
            (stopped, pending, (p, tsc i) :: processed)
        end
      else (true, pending, [])
  end.

Definition commands_of (processed : list (PacketPayload * Z)) : list command :=
  (fun x => command_of x.1) <$> processed.

Section engine.
Context (k orders : Z).
Hypothesis k_range : 0 <= k <= 63.
Hypothesis orders_range : 0 <= orders <= 2 ^ 32.

(** The engine after it has processed [processed], with [pending] in the
    queue and [a] in the book. *)
Record engine_at (e : Engine) (a : abook) (pending : list PacketPayload) (processed : list (PacketPayload * Z)) : Prop := {
  en_queue : contents k (queue e) pending;
  en_book : implements MAX_TICKS orders (book e) a;
  en_processed : messages_processed e = u64 (Z.of_nat (length processed));
  en_deltas : vsize (cycle_deltas e) = MAX_SAMPLES;
  en_count : sample_count e = Z.min (Z.of_nat (length processed)) MAX_SAMPLES;
  en_samples : forall j p t, processed !! j = Some (p, t) -> Z.of_nat j < MAX_SAMPLES ->
    vget (cycle_deltas e) (Z.of_nat j) = Some (u64 (t - ingress_tsc p));
}.

Lemma wp_arrive ps e a pending processed Phi :
  engine_at e a pending processed ->
  (forall e', engine_at e' a (admit_all (2 ^ k) ps pending) processed -> Phi tt e') ->
  wp (arrive ps) e Phi.
Proof.
  revert e pending. induction ps as [|p ps IH]; intros e pending He HP; simpl; [by apply wp_ret, HP|].
  apply wp_bind.
  destruct (wp_push k k_range (queue e) pending p (fun _ q' =>
    contents k q' (if Z.of_nat (length pending) <? 2 ^ k then pending ++ [p] else pending)) (en_queue _ _ _ _ He))
    as (acc & q' & Hr & Hq'); [done|].
  eexists acc, _. split; [unfold on_queue; by rewrite Hr|].
  apply (IH _ (if Z.of_nat (length pending) <? 2 ^ k then pending ++ [p] else pending)); [|exact HP].
  destruct He. split; try done.
Qed.

Lemma wp_take_sample t p e a pending processed Phi :
  engine_at e a pending processed -> packet e = p ->
  (forall e', messages_processed e' = messages_processed e -> 
     (forall n, messages_processed e' = n ->
        engine_at (set_messages_processed (u64 (n + 1)) e') a pending (processed ++ [(p, t)])) -> Phi tt e') ->
  wp (take_sample t) e Phi.
Proof.
  intros [H1 H2 H3 H4 H5 H6] Hp HP. apply wp_bind, wp_get. rewrite H5, Hp.
  assert (forall n, u64 (Z.of_nat (length processed)) = n ->
    u64 (n + 1) = u64 (Z.of_nat (length (processed ++ [(p, t)])))) as Hn.
  { intros n <-. rewrite cursor_next, length_app. f_equal. simpl. lia. }
  zcase (Z.min (Z.of_nat (length processed)) MAX_SAMPLES <? MAX_SAMPLES).
  - assert (Z.min (Z.of_nat (length processed)) MAX_SAMPLES = Z.of_nat (length processed)) as -> by lia.
    apply wp_bind. eapply wp_lift; [apply vwrite_Ok; lia|]. apply wp_put, HP; [done|].
    intros n Hen. simpl in Hen. split; simpl; try done.
    + apply Hn. by rewrite <- Hen, H3.
    + by rewrite vsize_set.
    + rewrite length_app. simpl. rewrite wrap_small by (unfold MAX_SAMPLES in *; lia). lia.
    + intros j p' t' Hj Hlt. apply lookup_app_Some in Hj as [Hj|[Hge Hj]].
      * rewrite vget_set_ne; [by apply H6|]. apply lookup_lt_Some in Hj. lia.
      * apply list_lookup_singleton_Some in Hj as [Hj [= <- <-]].
        assert (Z.of_nat j = Z.of_nat (length processed)) as -> by lia. apply vget_set_eq. lia.
  - apply wp_ret, HP; [done|]. intros n Hen. split; simpl; try done.
    + apply Hn. by rewrite <- Hen, H3.
    + rewrite H5, length_app. simpl. lia.
    + intros j p' t' Hj Hlt. apply lookup_app_Some in Hj as [Hj|[Hge Hj]]; [by apply (H6 j)|].
      apply list_lookup_singleton_Some in Hj as [Hj _]. lia.
Qed.

Definition add_fresh (c : command) (a : abook) : Prop :=
  match c with Add id _ _ _ => id ∉ a_ids a | _ => True end.

Lemma wp_poll_packet fuel t p e a pending processed Phi :
  engine_at e a (p :: pending) processed -> valid_command MAX_TICKS orders (command_of p) = true ->
  add_fresh (command_of p) a -> orders < Z.of_nat fuel ->
  (forall e', engine_at e' (spec_command orders (command_of p) a) pending (processed ++ [(p, t)]) -> Phi tt e') ->
  wp (poll fuel t) e Phi.
Proof.
  intros [H1 H2 H3 H4 H5 H6] Hv Hfr Hf HP. apply wp_bind.
  destruct (wp_pop k k_range (queue e) (p :: pending) (fun x q' => x = Some p /\ contents k q' pending) H1)
    as (x & q' & Hr & -> & Hq'); [done|].
  eexists (Some p), _. split; [unfold on_queue; by rewrite Hr|].
  apply wp_bind, wp_get, wp_bind, wp_put, wp_bind. simpl.
  destruct (implements_command MAX_TICKS orders orders_range ticks_fit fuel (command_of p) (book e) a H2 Hv Hf Hfr)
    as ([] & b' & Hb & Hb'). rewrite <- dispatch_command in Hb.
  eexists tt, _. split; [unfold on_book; simpl; by rewrite Hb|].
  apply wp_bind. eapply (wp_take_sample t p); [split; simpl; done|done|].
  intros e' Hm He'. apply wp_bind, wp_get, wp_put, HP. by apply He'.
Qed.

Lemma wp_poll_idle fuel t e a processed Phi :
  engine_at e a [] processed -> (forall e', engine_at e' a [] processed -> Phi tt e') -> wp (poll fuel t) e Phi.
Proof.
  intros [H1 H2 H3 H4 H5 H6] HP. apply wp_bind.
  destruct (wp_pop k k_range (queue e) [] (fun x q' => x = None /\ contents k q' []) H1)
    as (x & q' & Hr & -> & Hq'); [done|].
  eexists None, _. split; [unfold on_queue; by rewrite Hr|].
  apply wp_bind, wp_get, wp_bind, wp_put. destruct (_ >? 64).
  - apply wp_bind, wp_get, wp_put, HP. by split.
  - apply wp_ret, HP. by split.
Qed.

Lemma fresh_adds_cons a c cs :
  fresh_adds orders a (c :: cs) = true -> add_fresh c a /\ fresh_adds orders (spec_command orders c a) cs = true.
Proof.
  simpl. intros [H1 H2]%andb_true_iff. split; [|done]. destruct c; try done.
  by eapply bool_decide_eq_false, negb_true_iff.
Qed.

Lemma wp_run_loop fuel ins e a pending processed (Phi : bool -> Engine -> Prop) :
  engine_at e a pending processed ->
  let '(stopped, pending', new) := engine_spec (2 ^ k) ins pending in
  forallb (valid_command MAX_TICKS orders) (commands_of new) = true ->
  fresh_adds orders a (commands_of new) = true -> orders < Z.of_nat fuel ->
  (forall e', engine_at e' (spec_commands orders (commands_of new) a) pending' (processed ++ new) -> Phi stopped e') ->
  wp (run_loop fuel ins) e Phi.
Proof.
  revert e a pending processed. induction ins as [|i ins IH]; intros e a pending processed He; simpl.
  { intros _ _ _ HP. apply wp_ret, HP. by rewrite app_nil_r. }
  destruct (running i) eqn:Ei.
  2: { intros _ _ _ HP. apply wp_bind. eapply wp_arrive; [done|]. intros e1 He1.
       apply wp_ret, HP. by rewrite app_nil_r. }
  destruct (admit_all (2 ^ k) (arrivals i) pending) as [|p pending1] eqn:Ead.
  - destruct (engine_spec (2 ^ k) ins []) as [[stopped pending'] new] eqn:Es. intros Hv Hfr Hf HP.
    apply wp_bind. eapply wp_arrive; [done|]. rewrite Ead. intros e1 He1.
    apply wp_bind. eapply wp_poll_idle; [done|]. intros e2 He2.
    specialize (IH e2 a [] processed He2). rewrite Es in IH. by apply IH.
  - destruct (engine_spec (2 ^ k) ins pending1) as [[stopped pending'] new] eqn:Es. intros Hv Hfr Hf HP.
    simpl in Hv. zb. apply fresh_adds_cons in Hfr as [Hfr1 Hfr2].
    apply wp_bind. eapply wp_arrive; [done|]. rewrite Ead. intros e1 He1.
    apply wp_bind. eapply wp_poll_packet; [done..|]. intros e2 He2.
    specialize (IH e2 _ pending1 _ He2). rewrite Es in IH. apply IH; [done..|].
    intros e3 He3. apply HP. by rewrite <- app_assoc in He3.
Qed.

Lemma engine_new_at q p : contents k q [] -> engine_at (Engine_new q (OrderBook_new MAX_TICKS orders) p) a_empty [] [].
Proof.
  intros Hq. split; try done. apply implements_new; [exact orders_range|exact ticks_fit].
Qed.

(** C23: The loop of the matching engine, started on an empty queue and a
    new book and run against any schedule of arrivals: it processes the
    packets that the queue accepted, each once, in their order, until
    [running] is cleared; the book is the one the specification computes from
    their commands; [messages_processed] and the samples count them; and each
    of the first million samples is the time from a packet's ingress to the
    end of its processing, no write falling outside of the array. *)
Theorem engine_refines fuel ins q p0 :
  contents k q [] -> orders < Z.of_nat fuel ->
  let '(stopped, pending, processed) := engine_spec (2 ^ k) ins [] in
  forallb (valid_command MAX_TICKS orders) (commands_of processed) = true ->
  fresh_adds orders a_empty (commands_of processed) = true ->
  exists e, run_loop fuel ins (Engine_new q (OrderBook_new MAX_TICKS orders) p0) = Ok (stopped, e) /\
    contents k (queue e) pending /\
    implements MAX_TICKS orders (book e) (spec_commands orders (commands_of processed) a_empty) /\
    messages_processed e = u64 (Z.of_nat (length processed)) /\
    sample_count e = Z.min (Z.of_nat (length processed)) MAX_SAMPLES /\
    (forall j p t, processed !! j = Some (p, t) -> Z.of_nat j < MAX_SAMPLES ->
       vget (cycle_deltas e) (Z.of_nat j) = Some (u64 (t - ingress_tsc p))).
Proof.
  intros Hq Hf.
  pose proof (fun Phi => wp_run_loop fuel ins _ _ _ _ Phi (engine_new_at q p0 Hq)) as H.
  destruct (engine_spec (2 ^ k) ins []) as [[stopped pending] processed]. intros Hv Hfr.
  destruct (H (fun s e' => s = stopped /\ engine_at e' (spec_commands orders (commands_of processed) a_empty) pending processed))
    as (s & e & Hr & -> & [H1 H2 H3 H4 H5 H6]); [done..|].
  exists e. done.
Qed.
End engine.

(** ** The report *)

Lemma round53_spec z :
  0 < z -> exists P q, 0 < P /\ round53 z = q * P /\ - P <= 2 * (q * P - z) <= P /\
    z < P * 2 ^ 53 /\ P = 2 ^ Z.max 0 (Z.log2 z - 52).
Proof.
  intros Hz. exists (2 ^ Z.max 0 (Z.log2 z - 52)).
  assert (0 < 2 ^ Z.max 0 (Z.log2 z - 52)) as HP by (apply Z.pow_pos_nonneg; lia).
  assert (z < 2 ^ Z.max 0 (Z.log2 z - 52) * 2 ^ 53) as Hlt.
  { rewrite <- Z.pow_add_r by lia. destruct (Z.log2_spec z Hz) as [_ Hl]. eapply Z.lt_le_trans; [exact Hl|].
    apply Z.pow_le_mono_r; lia. }
  revert HP Hlt. unfold round53. generalize (2 ^ Z.max 0 (Z.log2 z - 52)). intros P HP Hlt.
  pose proof (Z.div_mod z P ltac:(lia)) as Hd. pose proof (Z.mod_pos_bound z P HP) as Hm.
  exists (if (if 2 * (z mod P) <? P then false else if P <? 2 * (z mod P) then true else Z.odd (z / P))
          then z / P + 1 else z / P).
  zcase (2 * (z mod P) <? P); [split_and!; lia|]. zcase (P <? 2 * (z mod P)); [split_and!; lia|].
  destruct (Z.odd (z / P)); split_and!; lia.
Qed.

(** The double arithmetic of the percentile index is exact after truncation. *)
Lemma p99_index_floor n : 1 <= n <= MAX_SAMPLES -> p99_index n = 99 * n / 100.
Proof.
  intros Hn. unfold MAX_SAMPLES in Hn. unfold p99_index.
  destruct (round53_spec (n * DOUBLE_099)) as (P & q & HP & -> & Hq & Hz & HPe); [unfold DOUBLE_099; lia|].
  assert (Z.log2 (n * DOUBLE_099) <= 72) as Hlog.
  { assert (Z.log2 (n * DOUBLE_099) <= Z.log2 (2 ^ 73 - 1)) as Hl by (apply Z.log2_le_mono; unfold DOUBLE_099; lia).
    by rewrite <- Hl. }
  assert (exists T, 2 ^ 53 = T * P /\ 2 ^ 33 <= T) as (T & HT & HT33).
  { exists (2 ^ (53 - Z.max 0 (Z.log2 (n * DOUBLE_099) - 52))). rewrite HPe, <- Z.pow_add_r by lia.
    split; [f_equal; lia|]. apply Z.pow_le_mono_r; lia. }
  assert (P <= 2 ^ 20) as HP20 by nia. clear HPe Hlog HT33.
  pose proof (Z.div_mod (99 * n) 100 ltac:(lia)) as Hd. pose proof (Z.mod_pos_bound (99 * n) 100 ltac:(lia)) as Hm.
  set (t := 99 * n / 100) in *. set (r := (99 * n) mod 100) in *. clearbody t r.
  assert (t * 2 ^ 53 <= q * P < (t + 1) * 2 ^ 53) as Hfloor.
  { unfold DOUBLE_099 in *. split; [|lia]. destruct (decide (r = 0)) as [->|Hr]; [|lia].
    destruct (Z_lt_le_dec (q * P) (t * 2 ^ 53)) as [Hlt|]; [|done]. exfalso.
    assert (q + 1 <= t * T) as Hqt by (rewrite HT in Hlt; nia).
    assert (q * P + P <= t * 2 ^ 53) by (rewrite HT; nia). lia. }
  symmetry. apply (Z.div_unique _ _ _ (q * P - t * 2 ^ 53)); lia.
Qed.

Lemma sorted_lookup_le (l : list Z) i j x y :
  StronglySorted Z.le l -> l !! i = Some x -> l !! j = Some y -> (i <= j)%nat -> x <= y.
Proof.
  intros Hs. revert i j. induction Hs as [|z l Hs IH Hf]; intros i j Hi Hj Hij; [done|].
  rewrite Forall_forall in Hf. destruct i as [|i], j as [|j]; simpl in *; simplify_eq; try lia.
  - apply Hf. by eapply list_elem_of_lookup_2.
  - by apply (IH i j); try lia.
Qed.

(** What the report says of the samples [xs]: in sorted order, the median is
    the one with rank [n / 2], the 99th percentile the one with rank
    [99 n / 100] rounded down, and the maximum the last one. *)
Record report_on (xs : list Z) (r : report) : Prop := {
  ro_ranks : exists sorted, sorted ≡ₚ xs /\ StronglySorted Z.le sorted /\
    let n := Z.of_nat (length xs) in
    sorted !! Z.to_nat (n / 2) = Some (median_cycles r) /\
    sorted !! Z.to_nat (99 * n / 100) = Some (p99_cycles r) /\
    sorted !! Z.to_nat (n - 1) = Some (max_cycles r);
  ro_max : max_cycles r ∈ xs /\ forall x, x ∈ xs -> x <= max_cycles r;
  ro_order : median_cycles r <= p99_cycles r <= max_cycles r;
}.

(** There is one whenever a sample was taken: the code reads inside of the
    samples (the double product [n * 0.99] truncates to [99 n / 100] for
    every possible [n]). *)
Lemma latency_report_ok (xs : list Z) : Z.of_nat (length xs) <= MAX_SAMPLES ->
  match latency_report xs with None => xs = [] | Some r => report_on xs r end.
Proof.
  intros Hmax. unfold latency_report. cbv zeta. set (n := Z.of_nat (length xs)) in *.
  zcase (n >? 0); [|destruct xs; [done|simpl in n; lia]].
  pose proof (merge_sort_Permutation Z.le xs) as Hp.
  pose proof (StronglySorted_merge_sort Z.le xs) as Hs.
  set (l := merge_sort Z.le xs) in *. clearbody l.
  assert (length l = length xs) as Hlen by by apply Permutation_length.
  assert (forall i, 0 <= i < n -> exists x, l !! Z.to_nat i = Some x) as Hlk.
  { intros i Hi. apply lookup_lt_is_Some_2. lia. }
  destruct (Hlk (n / 2)) as [m Hm]; [Z.to_euclidean_division_equations; lia|].
  destruct (Hlk (99 * n / 100)) as [p Hp99]; [Z.to_euclidean_division_equations; lia|].
  destruct (Hlk (n - 1)) as [x Hx]; [lia|].
  rewrite p99_index_floor by lia. rewrite Hm, Hp99, Hx. simpl. split; simpl.
  - by exists l.
  - split; [rewrite <- Hp; by eapply list_elem_of_lookup_2|].
    intros y Hy. rewrite <- Hp in Hy. apply list_elem_of_lookup_1 in Hy as [j Hj].
    eapply (sorted_lookup_le l j); try done. apply lookup_lt_Some in Hj. lia.
  - split; eapply (sorted_lookup_le l); try done; Z.to_euclidean_division_equations; lia.
Qed.

(** Two adds and a cancel, polled once too often. *)
Definition example_inputs : list input :=
  let packet_at t bs := mkPacket t (default [] bs) in
  [mkInput [packet_at 10 (create_add_order 1 100 10 CHAR_B)] true 25;
   mkInput [] true 26;
   mkInput [packet_at 30 (create_add_order 2 120 20 CHAR_S); packet_at 31 (create_cancel_order 1)] true 40;
   mkInput [] true 50;
   mkInput [packet_at 60 (create_cancel_order 2)] false 70].

Lemma engine_refines_witness :
  exists q e, contents 2 q [] /\
    run_loop 20 example_inputs (Engine_new q (OrderBook_new MAX_TICKS 16) (mkPacket 0 [])) = Ok (true, e) /\
    implements MAX_TICKS 16 (book e) (mkABook [] [mkResting 2 120 20]) /\ messages_processed e = 3.
Proof.
  destruct (contents_new 2 range_2 (T := PacketPayload) false) as (q & _ & Hq). exists q.
  destruct (engine_refines 2 16 range_2 range_16 20 example_inputs q (mkPacket 0 []) Hq) as (e & Hr & _ & Hb & Hm & _);
    [done|by vm_compute|by vm_compute|].
  exists e. split; [exact Hq|]. split; [exact Hr|]. split; [|exact Hm].
  match type of Hb with implements _ _ _ ?a =>
    assert (a = mkABook [] [mkResting 2 120 20]) as E by by vm_compute end.
  rewrite <- E. exact Hb.
Defined.
