(* ===== verification/Traffic.v ===== *)
(** * Traffic: scripts/simulator.py and benchmarks/bench_worker.cpp

    The two sources of packets in the repository, with their random draws as
    arguments, and the benchmark's loop that pushes a burst through the queue
    into the book. *)

From stdpp Require Import strings.
From S2P Require Import Prelude.
From S2P Require Import PriceIndex.
From S2P Require Import PriceBitSet.
From S2P Require Import OrderBook.
From S2P Require Import SPSCQueue.
From S2P Require Import BookSpec.
From S2P Require Import BookInv.
From S2P Require Import BookOps.
From S2P Require Import BookSpecFacts.
From S2P Require Import BookCommands.
From S2P Require Import BookTheorems.
From S2P Require Import BookLimits.
From S2P Require Import Protocol.
From S2P Require Import Engine.
From S2P Require Import EngineTheorems.

(** ** scripts/simulator.py *)

(** One message of [run_simulation]: which of the three, and its draws. *)
Inductive draw :=
| DrawAdd (price : Z) (buy : bool)
| DrawCancel (target : Z)
| DrawModify (target price : Z).

Definition simulate_message (i : Z) (d : draw) : option (list Z) :=
  match d with
  | DrawAdd price buy => create_add_order i price 100 (if buy then CHAR_B else CHAR_S)
  | DrawCancel target => create_cancel_order target
  | DrawModify target price => create_modify_order target price 50
  end.

(** The ranges of [random.randint]. *)
Definition draw_ok (i : Z) (d : draw) : bool :=
  match d with
  | DrawAdd price _ => (100000 <=? price) && (price <=? 101000)
  | DrawCancel target => (1 <=? target) && (target <=? Z.max 1 (i - 1))
  | DrawModify target price =>
      (1 <=? target) && (target <=? Z.max 1 (i - 1)) && (100000 <=? price) && (price <=? 101000)
  end.

Definition draw_command (i : Z) (d : draw) : command :=
  match d with
  | DrawAdd price buy => Add i price 100 buy
  | DrawCancel target => Cancel target
  | DrawModify target price => Modify target price 50
  end.

(** [for i in range(1, num_messages + 1)], from message [i] on. *)
Fixpoint run_simulation (i : Z) (ds : list draw) : list (option (list Z)) :=
  match ds with
  | [] => []
  | d :: ds => simulate_message i d :: run_simulation (i + 1) ds
  end.

(** ** benchmarks/bench_worker.cpp *)

(** The three draws of one packet of [generate_market_burst]. *)
Record burst_draw := mkBurstDraw { roll : Z; price_draw : Z; qty_draw : Z }.

Definition burst_draw_ok (d : burst_draw) : bool :=
  (1 <=? roll d) && (roll d <=? 100) && (100000 <=? price_draw d) && (price_draw d <=? 100500) &&
  (10 <=? qty_draw d) && (qty_draw d <=? 100).

Fixpoint generate_market_burst (i : Z) (uninitialised : PacketPayload) (ds : list burst_draw) : list PacketPayload :=
  match ds with
  | [] => []
  | d :: ds =>
      generate_packet i (roll d) (price_draw d) (qty_draw d) uninitialised ::
      generate_market_burst (i + 1) uninitialised ds
  end.

Definition dispatch (fuel : nat) (p : PacketPayload) : prog Book unit :=
  let bs := payload p in
  if message_type p =? CHAR_A then
    add_order fuel (read_member "order_id" AddOrderMsg bs) (read_member "price" AddOrderMsg bs)
      (read_member "quantity" AddOrderMsg bs) (read_member "is_buy" AddOrderMsg bs =? CHAR_B)
  else if message_type p =? CHAR_X then
    cancel_order (read_member "order_id" CancelOrderMsg bs)
  else if message_type p =? CHAR_M then
    modify_order fuel (read_member "order_id" ModifyOrderMsg bs) (read_member "new_price" ModifyOrderMsg bs)
      (read_member "new_quantity" ModifyOrderMsg bs)
  else mret tt.

Abbreviation BenchQueue := (SPSCQueue PacketPayload).

(** [for (const auto& p : burst) queue.push(p);] *)
Fixpoint push_burst (ps : list PacketPayload) : prog BenchQueue unit :=
  match ps with
  | [] => mret tt
  | p :: ps => _ ← push p; push_burst ps
  end.

(** [while (!queue.pop(pkt)) {}] *)
Fixpoint pop_spin (fuel : nat) : prog BenchQueue PacketPayload :=
  match fuel with
  | O => loop_out
  | S fuel => x ← pop; match x with Some p => mret p | None => pop_spin fuel end
  end.

(** The timed loop over [burst_size] packets. *)
Fixpoint drain (fuel : nat) (n : nat) (q : BenchQueue) : prog Book unit :=
  match n with
  | O => mret tt
  | S n =>
      '(p, q) ← lift (pop_spin fuel q);
      dispatch fuel p;; drain fuel n q
  end.

Definition bench_iteration (fuel : nat) (burst : list PacketPayload) (q : BenchQueue) : prog Book unit :=
  '(_, q) ← lift (push_burst burst q);
  drain fuel (length burst) q.

(** ** Streams whose adds count up *)

Fixpoint adds_above (lo : Z) (cs : list command) : Prop :=
  match cs with
  | [] => True
  | Add id _ _ _ :: cs => lo < id /\ adds_above id cs
  | _ :: cs => adds_above lo cs
  end.

Definition ids_below (hi : Z) (a : abook) : Prop := forall id, id ∈ a_ids a -> id <= hi.

Lemma ids_below_sides hi a :
  ids_below hi a <-> forall s r, r ∈ a_side s a -> r_id r <= hi.
Proof.
  unfold ids_below, a_ids. split.
  - intros H s r Hr. apply H, list_elem_of_fmap. exists r. split; [done|].
    apply elem_of_app. destruct s; auto.
  - intros H id (r & -> & [Hr|Hr]%elem_of_app)%list_elem_of_fmap; [by apply (H true)|by apply (H false)].
Qed.

Lemma ids_below_in hi a s r : ids_below hi a -> r ∈ a_side s a -> r_id r <= hi.
Proof. intros Ha. by apply ids_below_sides. Qed.

Lemma ids_below_set_side hi s l a :
  ids_below hi a -> (forall r, r ∈ l -> r_id r <= hi) -> ids_below hi (set_a_side s l a).
Proof.
  rewrite !ids_below_sides. intros Ha Hl s' r Hr. destruct (decide (s' = s)) as [->|Hs].
  - rewrite a_side_set in Hr. auto.
  - assert (s' = negb s) as -> by by destruct s, s'. rewrite a_side_set_other in Hr. by apply (Ha (negb s)).
Qed.

Lemma ids_below_match hi price qty s a : ids_below hi a -> ids_below hi (spec_match price qty s a).2.
Proof.
  intros Ha. unfold spec_match. destruct (sweep _ _ _ _) as [rem l] eqn:E. simpl.
  apply ids_below_set_side; [done|]. intros r Hr.
  assert (r ∈ (sweep s price qty (a_side (negb s) a)).2) as Hr' by by rewrite E.
  apply sweep_sub in Hr' as (r' & Hr' & <- & _). by eapply ids_below_in.
Qed.

Lemma ids_below_add hi capacity id price qty s a :
  ids_below hi a -> id <= hi -> ids_below hi (spec_add capacity id price qty s a).
Proof.
  intros Ha Hid. pose proof (ids_below_match hi price qty s a Ha) as Hm. unfold spec_add.
  destruct (spec_match price qty s a) as [rem a']. simpl in Hm.
  destruct (rem =? 0); [done|]. destruct (a_count a' <? capacity); [|done].
  apply ids_below_set_side; [done|]. intros r [->|Hr]%enqueue_in; [done|]. by eapply ids_below_in.
Qed.

Lemma ids_below_cancel hi id a : ids_below hi a -> ids_below hi (spec_cancel id a).
Proof.
  rewrite !ids_below_sides. intros Ha s r Hr.
  assert (r ∈ remove_id id (a_side s a)) as [_ Hr']%remove_id_in by by destruct s. by apply (Ha s).
Qed.

Lemma find_id_in id l r : find_id id l = Some r -> r ∈ l /\ r_id r = id.
Proof. intros H. apply List.find_some in H as [Hin Hid]. zb. split; [by apply list_elem_of_In|done]. Qed.

Lemma ids_below_modify hi capacity id new_price new_qty a :
  ids_below hi a -> ids_below hi (spec_modify capacity id new_price new_qty a).
Proof.
  intros Ha. unfold spec_modify. destruct (spec_find id a) as [[s r]|] eqn:E; [|done].
  assert (r ∈ a_side s a /\ r_id r = id) as [Hr Hid].
  { unfold spec_find in E. destruct (find_id id (a_bids a)) as [r1|] eqn:E1.
    - injection E as <- <-. by apply find_id_in.
    - destruct (find_id id (a_asks a)) as [r2|] eqn:E2; [|done]. injection E as <- <-. by apply find_id_in. }
  assert (id <= hi) as Hle by (rewrite <- Hid; by eapply ids_below_in).
  destruct (_ || _); [by apply ids_below_add; [apply ids_below_cancel|]|].
  destruct (new_qty =? 0); [by apply ids_below_cancel|]. apply ids_below_set_side; [done|].
  intros r' (r0 & -> & Hr0)%list_elem_of_fmap. destruct (r_id r0 =? id); [done|]. by eapply ids_below_in.
Qed.

(** Adds that count up never meet their own id in the book. *)
Lemma adds_above_fresh capacity lo cs a :
  ids_below lo a -> adds_above lo cs -> fresh_adds capacity a cs = true.
Proof.
  revert lo a. induction cs as [|c cs IH]; intros lo a Ha Hc; [done|]. simpl.
  destruct c as [id price qty s|id|id price qty|]; simpl in *.
  - destruct Hc as [Hlt Hc]. apply andb_true_iff. split.
    + apply negb_true_iff, bool_decide_eq_false. intros Hin%Ha. lia.
    + apply (IH id); [|done]. apply ids_below_add; [|lia]. intros id' Hid'%Ha. lia.
  - apply (IH lo); [by apply ids_below_cancel|done].
  - apply (IH lo); [by apply ids_below_modify|done].
  - by apply (IH lo).
Qed.

Lemma adds_above_sublist lo cs cs' : sublist cs' cs -> adds_above lo cs -> adds_above lo cs'.
Proof.
  intros Hs. revert lo.
  assert (forall cs lo lo', lo <= lo' -> adds_above lo' cs -> adds_above lo cs) as Hmono.
  { clear. induction cs as [|c cs IH]; intros lo lo' Hle Hc; [done|].
    destruct c; simpl in *; try (by eapply IH). split; [lia|apply Hc]. }
  induction Hs as [|c cs' cs Hs IH|c cs' cs Hs IH]; intros lo Hc; [done| |].
  - destruct c; simpl in *; try (by apply IH). split; [apply Hc|apply IH, Hc].
  - apply IH. destruct c; simpl in *; try done. destruct Hc as [Hlt Hc]. eapply Hmono; [|done]. lia.
Qed.

(** ** The simulator's stream *)

Lemma simulate_message_command i d tsc bs :
  simulate_message i d = Some bs -> length bs = 56%nat /\ command_of (mkPacket tsc bs) = draw_command i d.
Proof.
  intros H. destruct d as [price buy|target|target price]; simpl in H.
  - destruct (create_add_order_command tsc _ _ _ _ _ H) as [Hl ->]. change (sizeof_PacketPayload - 8) with 56 in Hl.
    split; [lia|]. by destruct buy.
  - destruct (create_cancel_order_command tsc _ _ H) as [Hl ->]. change (sizeof_PacketPayload - 8) with 56 in Hl.
    split; [lia|done].
  - destruct (create_modify_order_command tsc _ _ _ _ H) as [Hl ->]. change (sizeof_PacketPayload - 8) with 56 in Hl.
    split; [lia|done].
Qed.

Lemma pack_uint_in_range n z : 0 <= z < 256 ^ Z.of_nat n -> pack_uint n z = Some (le_bytes n z).
Proof. intros Hz. by apply pack_uint_Some. Qed.

Lemma simulate_message_Some i d :
  1 <= i < 2 ^ 64 -> draw_ok i d = true -> exists bs, simulate_message i d = Some bs.
Proof.
  intros Hi Hd. destruct d as [price buy|target|target price]; simpl in Hd; zb; simpl.
  - unfold create_add_order. rewrite !pack_uint_in_range by first [simpl; lia|by destruct buy]. by eexists.
  - unfold create_cancel_order. rewrite pack_uint_in_range by (simpl; lia). by eexists.
  - unfold create_modify_order. rewrite !pack_uint_in_range by (simpl; lia). by eexists.
Qed.

(** The commands of the stream, the draws that are in range, and the bytes
    that are sent. *)
Fixpoint draw_commands (i : Z) (ds : list draw) : list command :=
  match ds with [] => [] | d :: ds => draw_command i d :: draw_commands (i + 1) ds end.

Fixpoint draws_ok (i : Z) (ds : list draw) : bool :=
  match ds with [] => true | d :: ds => draw_ok i d && draws_ok (i + 1) ds end.

Definition sent_bytes (ds : list draw) : list (list Z) := omap id (run_simulation 1 ds).

Lemma run_simulation_commands i ds :
  1 <= i -> i + Z.of_nat (length ds) <= 2 ^ 64 -> draws_ok i ds = true ->
  (fun bs => command_of (mkPacket 0 bs)) <$> omap id (run_simulation i ds) = draw_commands i ds /\
  length (omap id (run_simulation i ds)) = length ds.
Proof.
  revert i. induction ds as [|d ds IH]; intros i Hi Hl Hd; [done|]. cbn [draws_ok length] in *. zb.
  destruct (simulate_message_Some i d) as [bs E]; [lia|done|].
  destruct (simulate_message_command i d 0 bs E) as [_ Ec].
  cbn [run_simulation]. rewrite E. csimpl. destruct (IH (i + 1)) as [H1 H2]; [lia|lia|done|].
  rewrite Ec, H1, H2. done.
Qed.

Lemma draw_commands_above i ds : adds_above (i - 1) (draw_commands i ds).
Proof.
  assert (forall ds i lo, lo < i -> adds_above lo (draw_commands i ds)) as H; [|apply H; lia].
  clear. induction ds as [|d ds IH]; intros i lo Hlo; simpl; [done|].
  destruct d; simpl; [split; [done|]|..]; apply IH; lia.
Qed.

Lemma draw_commands_valid i ds :
  1 <= i -> i + Z.of_nat (length ds) <= MAX_ORDERS -> draws_ok i ds = true ->
  forallb (valid_command MAX_TICKS MAX_ORDERS) (draw_commands i ds) = true.
Proof.
  revert i. induction ds as [|d ds IH]; intros i Hi Hl Hd; [done|].
  cbn [draws_ok draw_commands forallb length] in *. apply andb_true_iff in Hd as [Hd1 Hd2].
  apply andb_true_iff. split; [|apply IH; [lia|lia|done]]. unfold MAX_ORDERS in *.
  destruct d as [price buy|target|target price]; simpl in *; zb;
    rewrite ?andb_true_iff; unfold in_range, MAX_TICKS; rewrite ?andb_true_iff, ?Z.leb_le, ?Z.ltb_lt; lia.
Qed.

Lemma forallb_sublist {A} (f : A -> bool) l l' : sublist l' l -> forallb f l = true -> forallb f l' = true.
Proof. induction 1; simpl; [done| |]; intros; zb; [apply andb_true_iff|]; auto. Qed.

Lemma max_orders_range : 0 <= MAX_ORDERS <= 2 ^ 32.
Proof. unfold MAX_ORDERS. lia. Qed.

(** C25: The simulator's traffic is safe for the engine whatever the network
    loses: for any draws in their ranges and any number of messages below
    [MAX_ORDERS], every message is encoded in 56 bytes, and every subsequence
    of them, decoded and run on a new book of the program's size, stays
    inside of the tables, never reuses a resting id, and computes the
    specification. *)
Theorem simulator_traffic_safe fuel (ds : list draw) (ps : list PacketPayload) :
  draws_ok 1 ds = true -> Z.of_nat (length ds) < MAX_ORDERS ->
  sublist (payload <$> ps) (sent_bytes ds) -> MAX_ORDERS < Z.of_nat fuel ->
  length (sent_bytes ds) = length ds /\
  exists b' : Book, run_commands fuel (command_of <$> ps) (OrderBook_new MAX_TICKS MAX_ORDERS) = Ok (tt, b') /\
    implements MAX_TICKS MAX_ORDERS b' (spec_commands MAX_ORDERS (command_of <$> ps) a_empty).
Proof.
  intros Hd Hl Hps Hf. unfold sent_bytes in *.
  destruct (run_simulation_commands 1 ds) as [Hc Hlen]; [lia|unfold MAX_ORDERS in *; lia|done|].
  split; [done|].
  apply (fmap_sublist (fun bs => command_of (mkPacket 0 bs))) in Hps. rewrite Hc, <- list_fmap_compose in Hps.
  change (compose (fun bs => command_of (mkPacket 0 bs)) payload <$> ps) with (command_of <$> ps) in Hps.
  pose proof (implements_new MAX_TICKS MAX_ORDERS max_orders_range ticks_fit (Bits := PriceBitSet MAX_TICKS)) as Hn.
  destruct (implements_commands MAX_TICKS MAX_ORDERS max_orders_range ticks_fit fuel (command_of <$> ps) _ _ Hn)
    as ([] & b' & Hr & Hb'); [| |done|by exists b'].
  - eapply forallb_sublist; [exact Hps|]. apply draw_commands_valid; [lia|lia|done].
  - apply (adds_above_fresh _ 0); [intros id Hid; by apply elem_of_nil in Hid|].
    eapply adds_above_sublist; [exact Hps|]. apply (draw_commands_above 1).
Qed.

(** ** The burst *)

Section burst.
Context (k : Z).
Hypothesis k_range : 0 <= k <= 63.

Lemma push_burst_contents ps q l :
  contents k q l -> Z.of_nat (length l + length ps) <= 2 ^ k ->
  exists q', push_burst ps q = Ok (tt, q') /\ contents k q' (l ++ ps).
Proof.
  revert q l. induction ps as [|p ps IH]; intros q l Hq Hl; simpl in *; [exists q; by rewrite app_nil_r|].
  destruct (wp_push k k_range q l p (fun _ q' => contents k q' (l ++ [p])) Hq) as (acc & q1 & Hr & Hq1).
  { intros q'. zcase (Z.of_nat (length l) <? 2 ^ k); [done|lia]. }
  destruct (IH q1 (l ++ [p]) Hq1) as (q' & Hr' & Hq'); [rewrite length_app; simpl; lia|].
  exists q'. rewrite (bind_Ok _ _ _ _ _ Hr). split; [done|]. by rewrite <- app_assoc in Hq'.
Qed.

Lemma bench_dispatch_command fuel p b : dispatch fuel p b = run_command fuel (command_of p) b.
Proof. rewrite <- dispatch_command. done. Qed.

(** The timed loop, on a queue that holds the burst, is the run of its commands. *)
Lemma drain_run fuel ps q b :
  contents k q ps -> (0 < fuel)%nat -> drain fuel (length ps) q b = run_commands fuel (command_of <$> ps) b.
Proof.
  revert q b. induction ps as [|p ps IH]; intros q b Hq Hf; [done|]. cbn [drain length].
  destruct (wp_pop k k_range q (p :: ps) (fun x q' => x = Some p /\ contents k q' ps) Hq) as (x & q' & Hr & -> & Hq');
    [done|].
  assert (pop_spin fuel q = Ok (p, q')) as Es.
  { destruct fuel as [|fuel]; [lia|]. cbn [pop_spin]. by rewrite (bind_Ok _ _ _ _ _ Hr). }
  rewrite (bind_Ok _ _ _ (p, q') b) by (unfold lift; by rewrite Es). csimpl.
  unfold mbind, prog_bind. rewrite bench_dispatch_command.
  destruct (run_command fuel (command_of p) b) as [[[] b']| |]; [|done..]. by apply IH.
Qed.

Lemma bench_iteration_run fuel burst q b :
  contents k q [] -> Z.of_nat (length burst) <= 2 ^ k -> (0 < fuel)%nat ->
  bench_iteration fuel burst q b = run_commands fuel (command_of <$> burst) b.
Proof.
  intros Hq Hl Hf. destruct (push_burst_contents burst q [] Hq Hl) as (q' & Hr & Hq').
  unfold bench_iteration. rewrite (bind_Ok _ _ _ (tt, q') b) by (unfold lift; by rewrite Hr).
  by apply drain_run.
Qed.
End burst.

Fixpoint burst_commands (i : Z) (ds : list burst_draw) : list command :=
  match ds with
  | [] => []
  | d :: ds => generated_command i (roll d) (price_draw d) (qty_draw d) :: burst_commands (i + 1) ds
  end.

Lemma generate_burst_commands i p ds :
  length (payload p) = 56%nat -> 1 <= i -> i + Z.of_nat (length ds) <= 2 ^ 64 ->
  forallb burst_draw_ok ds = true ->
  command_of <$> generate_market_burst i p ds = burst_commands i ds.
Proof.
  intros Hp. revert i. induction ds as [|d ds IH]; intros i Hi Hl Hd; [done|]. cbn [forallb length] in *.
  apply andb_true_iff in Hd as [Hd1 Hd2]. unfold burst_draw_ok in Hd1. zb.
  csimpl. rewrite (IH (i + 1)) by (lia || done).
  destruct (generate_packet_command i (roll d) (price_draw d) (qty_draw d) p Hp) as [-> _]; [lia..|done].
Qed.

Lemma length_generate i p ds : length (generate_market_burst i p ds) = length ds.
Proof. revert i. induction ds as [|d ds IH]; intros i; simpl; [done|by rewrite IH]. Qed.

Lemma burst_commands_above i ds : adds_above (i - 1) (burst_commands i ds).
Proof.
  assert (forall ds i lo, lo < i -> adds_above lo (burst_commands i ds)) as H; [|apply H; lia].
  clear. induction ds as [|d ds IH]; intros i lo Hlo; simpl; [done|]. unfold generated_command.
  destruct (roll d <=? 70); [simpl; split; [done|apply IH; lia]|].
  destruct (roll d <=? 85); apply IH; lia.
Qed.

Lemma burst_commands_valid i ds :
  5 <= i -> i + Z.of_nat (length ds) <= MAX_ORDERS -> forallb burst_draw_ok ds = true ->
  forallb (valid_command MAX_TICKS MAX_ORDERS) (burst_commands i ds) = true.
Proof.
  revert i. induction ds as [|d ds IH]; intros i Hi Hl Hd; [done|]. cbn [forallb burst_commands length] in *.
  apply andb_true_iff in Hd as [Hd1 Hd2]. apply andb_true_iff. split; [|apply IH; [lia|lia|done]].
  unfold MAX_ORDERS, burst_draw_ok, generated_command in *. zb.
  assert (u64 (i - 5) = i - 5) as -> by (apply wrap_small; lia).
  destruct (roll d <=? 70); [|destruct (roll d <=? 85)]; simpl;
    rewrite ?andb_true_iff; unfold in_range, MAX_TICKS; rewrite ?andb_true_iff, ?Z.leb_le, ?Z.ltb_lt; lia.
Qed.

Lemma burst_commands_app i ds1 ds2 :
  burst_commands i (ds1 ++ ds2) = burst_commands i ds1 ++ burst_commands (i + Z.of_nat (length ds1)) ds2.
Proof.
  revert i. induction ds1 as [|d ds1 IH]; intros i; [by rewrite Z.add_0_r|].
  cbn [burst_commands app length]. rewrite IH, Nat2Z.inj_succ. by replace (i + 1 + Z.of_nat (length ds1)) with (i + Z.succ (Z.of_nat (length ds1))) by lia.
Qed.

(** A burst that starts with adds only. *)
Lemma burst_adds_valid i ds :
  1 <= i -> i + Z.of_nat (length ds) <= MAX_ORDERS -> forallb burst_draw_ok ds = true ->
  forallb (fun d => roll d <=? 70) ds = true ->
  forallb (valid_command MAX_TICKS MAX_ORDERS) (burst_commands i ds) = true.
Proof.
  revert i. induction ds as [|d ds IH]; intros i Hi Hl Hd Ha; [done|]. cbn [forallb burst_commands length] in *.
  apply andb_true_iff in Hd as [Hd1 Hd2]. apply andb_true_iff in Ha as [Ha1 Ha2].
  apply andb_true_iff. split; [|apply IH; (lia || done)].
  unfold MAX_ORDERS, burst_draw_ok, generated_command in *. rewrite Ha1. zb. simpl.
  rewrite ?andb_true_iff; unfold in_range, MAX_TICKS; rewrite ?andb_true_iff, ?Z.leb_le, ?Z.ltb_lt; lia.
Qed.

Lemma run_commands_app fuel cs1 cs2 (b b' : Book) :
  run_commands fuel cs1 b = Ok (tt, b') -> run_commands fuel (cs1 ++ cs2) b = run_commands fuel cs2 b'.
Proof.
  revert b. induction cs1 as [|c cs1 IH]; intros b H; [by injection H as ->|]. cbn [app run_commands] in *.
  apply bind_Ok_inv in H as ([] & b1 & H1 & H2). rewrite (bind_Ok _ _ _ _ _ H1). by apply IH.
Qed.

(** One iteration of the throughput benchmark: when the first four
    packets of the burst are adds, the burst fits the queue and its ids the
    table, the pushes all succeed, no pop spins, and the book ends as the
    specification of the burst's commands. *)
Theorem bench_burst_safe fuel first rest p q :
  let ds := first ++ rest in
  length (payload p) = 56%nat -> length first = 4%nat -> forallb (fun d => roll d <=? 70) first = true ->
  forallb burst_draw_ok ds = true -> Z.of_nat (length ds) <= 2 ^ 17 -> contents 17 q [] ->
  MAX_ORDERS < Z.of_nat fuel ->
  exists b' : Book,
    bench_iteration fuel (generate_market_burst 1 p ds) q (OrderBook_new MAX_TICKS MAX_ORDERS) = Ok (tt, b') /\
    implements MAX_TICKS MAX_ORDERS b' (spec_commands MAX_ORDERS (burst_commands 1 ds) a_empty).
Proof.
  intros ds Hp Hfirst Ha Hd Hl Hq Hf.
  rewrite (bench_iteration_run 17 ltac:(lia) fuel _ q) by (rewrite ?length_generate; (done || unfold MAX_ORDERS in *; lia)).
  rewrite generate_burst_commands by (done || lia).
  pose proof (implements_new MAX_TICKS MAX_ORDERS max_orders_range ticks_fit (Bits := PriceBitSet MAX_TICKS)) as Hn.
  destruct (implements_commands MAX_TICKS MAX_ORDERS max_orders_range ticks_fit fuel (burst_commands 1 ds) _ _ Hn)
    as ([] & b' & Hr & Hb'); [| |done|by exists b'].
  - unfold ds in *. rewrite forallb_app in Hd. apply andb_true_iff in Hd as [Hd1 Hd2]. rewrite length_app in Hl.
    rewrite burst_commands_app, forallb_app. apply andb_true_iff. unfold MAX_ORDERS in *.
    split; [apply burst_adds_valid|apply burst_commands_valid]; unfold MAX_ORDERS; (done || lia).
  - apply (adds_above_fresh _ 0); [intros id Hid; by apply elem_of_nil in Hid|]. apply (burst_commands_above 1).
Qed.

(** The generator means to clamp the target of a cancel or a modify to
    at least 1, but computes [i - 5] in an unsigned type first: when one of
    the first four packets of a burst is not an add, its target wraps to
    almost [2^64] and the book reads its id table out of bounds. *)
Theorem bench_burst_wraps fuel first d rest p q :
  let ds := first ++ d :: rest in
  length (payload p) = 56%nat -> (length first < 4)%nat -> forallb (fun d => roll d <=? 70) first = true ->
  70 < roll d -> forallb burst_draw_ok ds = true -> Z.of_nat (length ds) <= 2 ^ 17 -> contents 17 q [] ->
  MAX_ORDERS < Z.of_nat fuel ->
  bench_iteration fuel (generate_market_burst 1 p ds) q (OrderBook_new MAX_TICKS MAX_ORDERS : Book) =
    Undefined OutOfBounds.
Proof.
  intros ds Hp Hfirst Ha Hroll Hd Hl Hq Hf.
  rewrite (bench_iteration_run 17 ltac:(lia) fuel _ q) by (rewrite ?length_generate; (done || unfold MAX_ORDERS in *; lia)).
  rewrite generate_burst_commands by (done || lia).
  pose proof (implements_new MAX_TICKS MAX_ORDERS max_orders_range ticks_fit (Bits := PriceBitSet MAX_TICKS)) as Hn.
  unfold ds in *. rewrite forallb_app in Hd. apply andb_true_iff in Hd as [Hd1 Hd2].
  rewrite length_app in Hl. cbn [length] in Hl. rewrite burst_commands_app.
  destruct (implements_commands MAX_TICKS MAX_ORDERS max_orders_range ticks_fit fuel (burst_commands 1 first) _ _ Hn)
    as ([] & b' & Hr & Hb'); [| |done|].
  { apply burst_adds_valid; unfold MAX_ORDERS; (done || lia). }
  { apply (adds_above_fresh _ 0); [intros id Hid; by apply elem_of_nil in Hid|]. apply (burst_commands_above 1). }
  rewrite (run_commands_app _ _ _ _ _ Hr). cbn [burst_commands run_commands].
  assert (Z.max 1 (u64 (1 + Z.of_nat (length first) - 5)) = 2 ^ 64 + Z.of_nat (length first) - 4) as Ew.
  { assert (u64 (1 + Z.of_nat (length first) - 5) = 2 ^ 64 + Z.of_nat (length first) - 4) as ->; [|lia].
    unfold wrap. symmetry. apply (Z.mod_unique _ _ (-1)); lia. }
  apply bind_undefined. unfold generated_command. zcase (roll d <=? 70); [lia|]. rewrite Ew.
  assert (map_get (2 ^ 64 + Z.of_nat (length first) - 4) b' = Undefined OutOfBounds) as Em.
  { eapply (map_get_beyond MAX_ORDERS); [by apply implements_sound|unfold MAX_ORDERS; lia]. }
  destruct (roll d <=? 85); apply bind_undefined, Em.
Qed.

(** Concrete bursts. *)
Definition add_draw : burst_draw := mkBurstDraw 10 100200 50.
Definition cancel_draw : burst_draw := mkBurstDraw 80 100200 50.
Definition empty_packet : PacketPayload := mkPacket 0 (repeat 0 56).

Lemma enough_fuel : MAX_ORDERS < Z.of_nat (Z.to_nat 1500001).
Proof. rewrite Z2Nat.id by lia. unfold MAX_ORDERS. lia. Qed.

Lemma range_17 : 0 <= 17 <= 63.
Proof. lia. Qed.

Lemma bench_burst_safe_witness :
  exists q (b' : Book), bench_iteration (Z.to_nat 1500001)
      (generate_market_burst 1 empty_packet [add_draw; add_draw; add_draw; add_draw; cancel_draw]) q
      (OrderBook_new MAX_TICKS MAX_ORDERS) = Ok (tt, b').
Proof.
  destruct (contents_new 17 range_17 (T := PacketPayload) true) as (q & _ & Hq). exists q.
  destruct (bench_burst_safe (Z.to_nat 1500001) [add_draw; add_draw; add_draw; add_draw] [cancel_draw] empty_packet q
    eq_refl eq_refl eq_refl eq_refl ltac:(done) Hq enough_fuel) as (b' & Hr & _).
  exists b'. exact Hr.
Defined.

Lemma bench_burst_wraps_witness :
  exists q, bench_iteration (Z.to_nat 1500001) (generate_market_burst 1 empty_packet [add_draw; cancel_draw]) q
      (OrderBook_new MAX_TICKS MAX_ORDERS : Book) = Undefined OutOfBounds.
Proof.
  destruct (contents_new 17 range_17 (T := PacketPayload) true) as (q & _ & Hq). exists q.
  refine (bench_burst_wraps (Z.to_nat 1500001) [add_draw] cancel_draw [] empty_packet q
    eq_refl _ eq_refl _ eq_refl _ Hq enough_fuel); simpl; lia.
Defined.

Lemma simulator_traffic_safe_witness :
  exists bs1 bs2 (b' : Book),
    sent_bytes [DrawAdd 100500 true; DrawAdd 100400 false; DrawCancel 1] = [bs1; bs2; default [] (create_cancel_order 1)] /\
    run_commands (Z.to_nat 1500001) (command_of <$> [mkPacket 1 bs1; mkPacket 2 (default [] (create_cancel_order 1))])
      (OrderBook_new MAX_TICKS MAX_ORDERS) = Ok (tt, b').
Proof.
  destruct (sent_bytes [DrawAdd 100500 true; DrawAdd 100400 false; DrawCancel 1]) as [|bs1 [|bs2 [|bs3 [|]]]] eqn:E;
    try (exfalso; vm_compute in E; discriminate E).
  assert (bs3 = default [] (create_cancel_order 1)) as Hbs3 by (vm_compute in E; injection E as <- <- <-; by vm_compute).
  destruct (simulator_traffic_safe (Z.to_nat 1500001) [DrawAdd 100500 true; DrawAdd 100400 false; DrawCancel 1]
    [mkPacket 1 bs1; mkPacket 2 bs3]) as (_ & b' & Hr & _); [done|done| |apply enough_fuel|].
  { rewrite E. simpl. apply sublist_skip, sublist_cons, sublist_skip, sublist_nil. }
  exists bs1, bs2, b'. rewrite Hbs3 in Hr. split; [by rewrite Hbs3|exact Hr].
Defined.
