(* ===== verification/System.v ===== *)
(** * The program's two threads around their queue

    The feed handler and the matching engine around the queue they share,
    interleaved in any order, and the book that results from the datagrams. *)

From stdpp Require Import strings.
From S2P Require Import Prelude.
From S2P Require Import PriceIndex.
From S2P Require Import PriceBitSet.
From S2P Require Import OrderBook.
From S2P Require Import SPSCQueue.
From S2P Require Import BookSpec.
From S2P Require Import BookCommands.
From S2P Require Import BookTheorems.
From S2P Require Import Protocol.
From S2P Require Import FeedHandler.
From S2P Require Import Engine.
From S2P Require Import EngineTheorems.

(** ** The two threads around the queue *)

(** What happens next: a receive operation completes on the network thread,
    or the worker goes around its loop. *)
Inductive event := Completes (c : completion) | Polls (tsc : Z).

Record System := mkSystem { network : FeedHandler; worker : Engine }.

Definition set_engine_queue (q : SPSCQueue PacketPayload) (e : Engine) : Engine :=
  mkEngine q (book e) (packet e) (messages_processed e) (cycle_deltas e) (sample_count e) (idle_polls e) (pauses e).

(** Both hold a reference to the one queue. *)
Definition system_step (fuel : nat) (ev : event) : prog System unit := fun s =>
  match ev with
  | Completes c =>
      match handle c (set_queue (queue (worker s)) (network s)) with
      | Ok (_, h) => Ok (tt, mkSystem h (set_engine_queue (_queue h) (worker s)))
      | Undefined f => Undefined f
      | OutOfFuel => OutOfFuel
      end
  | Polls t =>
      match poll fuel t (worker s) with
      | Ok (_, e) => Ok (tt, mkSystem (set_queue (queue e) (network s)) e)
      | Undefined f => Undefined f
      | OutOfFuel => OutOfFuel
      end
  end.

Fixpoint run_system (fuel : nat) (evs : list event) : prog System unit :=
  match evs with
  | [] => mret tt
  | ev :: evs => system_step fuel ev;; run_system fuel evs
  end.

(** The packets waiting, those processed, and the number dropped. *)
Fixpoint system_spec (capacity : Z) (evs : list event) (pending : list PacketPayload) :
    list PacketPayload * list (PacketPayload * Z) * Z :=
  match evs with
  | [] => (pending, [], 0)
  | Completes c :: evs =>
      let '(pending, n) := admit_packets capacity [c] pending in
      let '(pending, processed, m) := system_spec capacity evs pending in
      (pending, processed, n + m)
  | Polls t :: evs =>
      match pending with
      | [] => system_spec capacity evs []
      | p :: pending =>
          let '(pending, processed, m) := system_spec capacity evs pending in
          (pending, (p, t) :: processed, m)
      end
  end.

(** The packets that the network delivered and the handler accepts. *)
Definition delivered (evs : list event) : list PacketPayload :=
  omap (fun ev => match ev with Completes c => packet_of c | Polls _ => None end) evs.

Section system.
Context (k orders : Z).
Hypothesis k_range : 0 <= k <= 63.
Hypothesis orders_range : 0 <= orders <= 2 ^ 32.

Record system_at (s : System) (a : abook) (pending : list PacketPayload)
    (processed : list (PacketPayload * Z)) (dropped : Z) : Prop := {
  sy_engine : engine_at k orders (worker s) a pending processed;
  sy_buffer : length (payload (_recv_buffer (network s))) = Z.to_nat BUFFER_SIZE;
  sy_dropped : dropped_packets (network s) = u64 dropped;
}.

Lemma wp_completes fuel c s a pending processed dropped Phi :
  system_at s a pending processed dropped ->
  (let '(pending', n) := admit_packets (2 ^ k) [c] pending in
   forall s', system_at s' a pending' processed (dropped + n) -> Phi tt s') ->
  wp (system_step fuel (Completes c)) s Phi.
Proof.
  intros [[H1 H2 H3 H4 H5 H6] Hb Hd] HP.
  destruct (wp_handle k k_range c (set_queue (queue (worker s)) (network s)) pending
    (fun _ h' => let '(pending', n) := admit_packets (2 ^ k) [c] pending in
       feeding k h' pending' /\ dropped_packets h' = u64 (dropped + n))) as ([] & h' & Hr & Hh').
  { split; [exact H1|exact Hb]. }
  { intros h'. destruct (admit_packets (2 ^ k) [c] pending) as [pending' n]. intros Hf Hdr _. split; [done|].
    simpl in Hdr. rewrite Hd in Hdr. destruct Hdr as [->|[-> ->]].
    - unfold wrap. by rewrite Zplus_mod_idemp_l.
    - by rewrite Z.add_0_r. }
  eexists tt, _. split; [unfold system_step; by rewrite Hr|].
  destruct (admit_packets (2 ^ k) [c] pending) as [pending' n]. destruct Hh' as [[Hq' Hb'] Hd'].
  apply HP. split; [|exact Hb'|exact Hd']. split; done.
Qed.

Lemma wp_polls fuel t s a pending processed dropped Phi :
  system_at s a pending processed dropped -> orders < Z.of_nat fuel ->
  match pending with
  | [] => forall s', system_at s' a [] processed dropped -> Phi tt s'
  | p :: pending =>
      valid_command MAX_TICKS orders (command_of p) = true /\ add_fresh (command_of p) a /\
      forall s', system_at s' (spec_command orders (command_of p) a) pending (processed ++ [(p, t)]) dropped -> Phi tt s'
  end ->
  wp (system_step fuel (Polls t)) s Phi.
Proof.
  intros [He Hb Hd] Hf HP. destruct pending as [|p pending].
  - destruct (wp_poll_idle k orders k_range fuel t (worker s) a processed
      (fun _ e' => engine_at k orders e' a [] processed) He) as ([] & e' & Hr & He'); [done|].
    eexists tt, _. split; [unfold system_step; by rewrite Hr|]. apply HP. by split.
  - destruct HP as (Hv & Hfr & HP).
    destruct (wp_poll_packet k orders k_range orders_range fuel t p (worker s) a pending processed
      (fun _ e' => engine_at k orders e' (spec_command orders (command_of p) a) pending (processed ++ [(p, t)])) He Hv Hfr Hf)
      as ([] & e' & Hr & He'); [done|].
    eexists tt, _. split; [unfold system_step; by rewrite Hr|]. apply HP. by split.
Qed.

Lemma wp_run_system fuel evs s a pending processed dropped (Phi : unit -> System -> Prop) :
  system_at s a pending processed dropped -> orders < Z.of_nat fuel ->
  let '(pending', new, n) := system_spec (2 ^ k) evs pending in
  forallb (valid_command MAX_TICKS orders) (commands_of new) = true ->
  fresh_adds orders a (commands_of new) = true ->
  (forall s', system_at s' (spec_commands orders (commands_of new) a) pending' (processed ++ new) (dropped + n) -> Phi tt s') ->
  wp (run_system fuel evs) s Phi.
Proof.
  revert s a pending processed dropped. induction evs as [|[c|t] evs IH]; intros s a pending processed dropped Hs Hf;
    cbn [system_spec].
  - intros _ _ HP. apply wp_ret, HP. by rewrite app_nil_r, Z.add_0_r.
  - destruct (admit_packets (2 ^ k) [c] pending) as [pending1 n1] eqn:E1.
    destruct (system_spec (2 ^ k) evs pending1) as [[pending' new] n2] eqn:E2. intros Hv Hfr HP.
    apply wp_bind. eapply wp_completes; [done|]. rewrite E1. intros s1 Hs1.
    specialize (IH s1 a pending1 processed _ Hs1 Hf). rewrite E2 in IH. apply IH; [done..|].
    intros s2 Hs2. apply HP. by rewrite Z.add_assoc.
  - destruct pending as [|p pending].
    + destruct (system_spec (2 ^ k) evs []) as [[pending' new] n2] eqn:E2. intros Hv Hfr HP.
      apply wp_bind. eapply wp_polls; [done|done|]. intros s1 Hs1.
      specialize (IH s1 a [] processed _ Hs1 Hf). rewrite E2 in IH. by apply IH.
    + destruct (system_spec (2 ^ k) evs pending) as [[pending' new] n2] eqn:E2. intros Hv Hfr HP.
      change (commands_of ((p, t) :: new)) with (command_of p :: commands_of new) in *.
      cbn [forallb] in Hv. apply andb_true_iff in Hv as [Hv1 Hv2]. apply fresh_adds_cons in Hfr as [Hfr1 Hfr2].
      apply wp_bind. eapply wp_polls; [done|done|]. split; [done|]. split; [done|]. intros s1 Hs1.
      specialize (IH s1 _ pending _ _ Hs1 Hf). rewrite E2 in IH. apply IH; [done..|].
      intros s2 Hs2. apply HP. by rewrite <- app_assoc in Hs2.
Qed.

(** Nothing is invented or reordered between the socket and the book. *)
Lemma system_spec_delivered capacity evs pending :
  let '(pending', processed, n) := system_spec capacity evs pending in
  sublist (processed.*1 ++ pending') (pending ++ delivered evs) /\ 0 <= n /\
  Z.of_nat (length processed + length pending') + n = Z.of_nat (length pending + length (delivered evs)).
Proof.
  revert pending. induction evs as [|[c|t] evs IH]; intros pending; cbn [system_spec].
  - rewrite app_nil_r. simpl. split; [done|lia].
  - unfold delivered. cbn [admit_packets omap list_omap]. fold (delivered evs). destruct (packet_of c) as [p|].
    + zcase (Z.of_nat (length pending) <? capacity).
      * specialize (IH (pending ++ [p])). destruct (system_spec capacity evs (pending ++ [p])) as [[pending' new] m].
        rewrite <- app_assoc, length_app in IH. simpl in *. destruct IH as (IH1 & IH2 & IH3). split; [exact IH1|].
        fold (delivered evs). lia.
      * specialize (IH pending). destruct (system_spec capacity evs pending) as [[pending' new] m].
        destruct IH as (IH1 & IH2 & IH3). simpl. split; [|fold (delivered evs); lia].
        etrans; [exact IH1|]. apply sublist_app; [done|]. by apply sublist_cons.
    + specialize (IH pending). destruct (system_spec capacity evs pending) as [[pending' new] m]. simpl.
      destruct IH as (IH1 & IH2 & IH3). split; [exact IH1|]. fold (delivered evs). lia.
  - destruct pending as [|p pending].
    + specialize (IH []). by destruct (system_spec capacity evs []) as [[pending' new] m].
    + specialize (IH pending). destruct (system_spec capacity evs pending) as [[pending' new] m].
      destruct IH as (IH1 & IH2 & IH3). unfold delivered. cbn [omap list_omap]. fold (delivered evs).
      split; [|simpl; lia]. cbn. by apply sublist_skip.
Qed.

(** C28: End to end, from the socket to the book: for any interleaving of
    completions on the network thread and iterations of the worker, started
    with an empty queue and a new book, the book is the specification's for
    the packets processed so far; these and the packets still queued are, in
    order of arrival, the accepted datagrams less the ones that
    [dropped_packets] counts. *)
Theorem system_refines fuel evs h q p0 :
  contents k q [] -> length (payload (_recv_buffer h)) = Z.to_nat BUFFER_SIZE -> dropped_packets h = 0 ->
  orders < Z.of_nat fuel ->
  let '(pending, processed, n) := system_spec (2 ^ k) evs [] in
  forallb (valid_command MAX_TICKS orders) (commands_of processed) = true ->
  fresh_adds orders a_empty (commands_of processed) = true ->
  exists s, run_system fuel evs (mkSystem h (Engine_new q (OrderBook_new MAX_TICKS orders) p0)) = Ok (tt, s) /\
    contents k (queue (worker s)) pending /\
    implements MAX_TICKS orders (book (worker s)) (spec_commands orders (commands_of processed) a_empty) /\
    dropped_packets (network s) = u64 n /\
    sublist (processed.*1 ++ pending) (delivered evs) /\
    Z.of_nat (length processed + length pending) + n = Z.of_nat (length (delivered evs)).
Proof.
  intros Hq Hb Hd Hf.
  assert (system_at (mkSystem h (Engine_new q (OrderBook_new MAX_TICKS orders) p0)) a_empty [] [] 0) as Hs.
  { split; [by apply engine_new_at|exact Hb|simpl; by rewrite Hd]. }
  pose proof (fun Phi => wp_run_system fuel evs _ _ _ _ _ Phi Hs Hf) as H.
  pose proof (system_spec_delivered (2 ^ k) evs []) as Hdel.
  destruct (system_spec (2 ^ k) evs []) as [[pending processed] n]. intros Hv Hfr.
  destruct (H (fun _ s => system_at s (spec_commands orders (commands_of processed) a_empty) pending processed n))
    as ([] & s & Hr & [[H1 H2 H3 H4 H5 H6] Hb' Hd']); [done..|].
  exists s. destruct Hdel as (D1 & _ & D3). done.
Qed.
End system.

Definition message_bytes (m : option (list Z)) : list Z := default [] m.

(** Three datagrams, one of them short, around two polls. *)
Definition example_events : list event :=
  [Completes (Datagram 10 (message_bytes (create_add_order 1 100 10 CHAR_B))); Polls 12;
   Completes (Datagram 20 [65; 66]); Completes (RecvError 21);
   Completes (Datagram 30 (message_bytes (create_modify_order 1 101 5))); Polls 35; Polls 36].

Lemma system_refines_witness :
  exists q s, run_system 20 example_events
      (mkSystem (mkFeedHandler q zero_packet 0 0) (Engine_new q (OrderBook_new MAX_TICKS 16) zero_packet)) = Ok (tt, s) /\
    implements MAX_TICKS 16 (book (worker s)) (mkABook [mkResting 1 101 5] []).
Proof.
  destruct (contents_new 2 range_2 (T := PacketPayload) false) as (q & _ & Hq). exists q.
  destruct (system_refines 2 16 range_2 range_16 20 example_events (mkFeedHandler q zero_packet 0 0) q zero_packet Hq)
    as (s & Hr & _ & Hb & _); [done|done|done|by vm_compute|by vm_compute|].
  exists s. split; [exact Hr|].
  match type of Hb with implements _ _ _ ?a => assert (a = mkABook [mkResting 1 101 5] []) as E by by vm_compute end.
  rewrite <- E. exact Hb.
Defined.
