(* ===== verification/Main.v ===== *)
(** * [main], thread pinning and the worker's report

    [main] as a program that logs, throws and unwinds: the results of the
    operating system and of the constructors are its arguments.  Destroying
    a [std::thread] that is still joinable ends the process, also when an
    exception is on its way to a handler. *)

From stdpp Require Import strings pretty.
From S2P Require Import Prelude.
From S2P Require Import PriceIndex.
From S2P Require Import PriceBitSet.
From S2P Require Import OrderBook.
From S2P Require Import SPSCQueue.
From S2P Require Import BookSpec.
From S2P Require Import BookCommands.
From S2P Require Import BookTheorems.
From S2P Require Import Protocol.
From S2P Require Import Engine.
From S2P Require Import EngineTheorems.

Open Scope string_scope.
Open Scope Z_scope.

(** ** ThreadUtils.h *)

(** The messages of [pin_current_thread_to_core], given what
    [pthread_setaffinity_np] and [pthread_setschedparam] return. *)
Definition pin_current_thread_to_core (core_id : Z) (setaffinity setschedparam : Z) : list string :=
  (if negb (setaffinity =? 0) then ["Failed to pin to core " +:+ pretty core_id] else []) ++
  (if negb (setschedparam =? 0)
   then ["Warning: Failed to set SCHED_FIFO priority. Run as root or set CAP_SYS_NICE."] else []).

(** ** The worker thread *)

(** The samples that the loop has taken. *)
Definition samples (e : Engine) : list Z :=
  omap (vget (cycle_deltas e)) (seqZ 0 (sample_count e)).

(** The whole of [run_matching_engine]: the messages processed and the report
    (when the loop has ended). *)
Definition run_matching_engine (fuel : nat) (ins : list input) : prog Engine (option (Z * option report)) :=
  stopped ← run_loop fuel ins;
  if (stopped : bool) then
    e ← get_state;
    mret (Some (messages_processed e, latency_report (samples e)))
  else mret None.

(** ** main *)

(** What the environment decides: the return values of the scheduler calls,
    and which constructor or call throws, with what message. *)
Record environment := mkEnv {
  setscheduler : Z;
  pin_results : Z * Z;
  queue_throws : option string;     (* SPSCQueue<PacketPayload> queue(1048576) *)
  book_throws : option string;      (* OrderBook book *)
  thread_throws : option string;    (* std::thread worker_thread(...) *)
  io_context_throws : option string;
  feed_handler_throws : option string;  (* e.g. the port is in use *)
  signals_throws : option string;
  run_throws : option string;       (* io_context.run(), when it does not return *)
}.

(** How the process ends. *)
Inductive exit := Exited (code : Z) | Terminated.

Record main_state := mkMain {
  log : list string;
  worker_joinable : bool;
  running_flag : bool;
}.

(** A statement finishes or throws. *)
Definition mainM (A : Type) : Type := main_state -> (A + string) * main_state.
#[export] Instance mainM_ret : MRet mainM := fun A a s => (inl a, s).
#[export] Instance mainM_bind : MBind mainM := fun A B k m s =>
  match m s with (inl a, s) => k a s | (inr w, s) => (inr w, s) end.

Definition print (lines : list string) : mainM unit := fun s =>
  (inl tt, mkMain (log s ++ lines)%list (worker_joinable s) (running_flag s)).
Definition may_throw (w : option string) : mainM unit := fun s =>
  match w with Some w => (inr w, s) | None => (inl tt, s) end.
Definition set_joinable (j : bool) : mainM unit := fun s => (inl tt, mkMain (log s) j (running_flag s)).
Definition store_running (r : bool) : mainM unit := fun s => (inl tt, mkMain (log s) (worker_joinable s) r).
Definition joinable : mainM bool := fun s => (inl (worker_joinable s), s).

(** The body of the [try] block. [io_context.run()] returns after the signal
    handler has cleared [running] and stopped it. *)
Definition try_block (env : environment) : mainM unit :=
  (if setscheduler env =? -1 then
     print ["[Warning] Failed to set real-time priority"] else mret tt);;
  may_throw (queue_throws env);;
  may_throw (book_throws env);;
  may_throw (thread_throws env);;
  set_joinable true;;
  print (pin_current_thread_to_core 2 (fst (pin_results env)) (snd (pin_results env)));;
  may_throw (io_context_throws env);;
  may_throw (feed_handler_throws env);;
  print ["[Network Thread] Listening on UDP port 12345..."];;
  may_throw (signals_throws env);;
  may_throw (run_throws env);;
  print ["[Main Thread] Signal received, shutting down..."];;
  store_running false;;
  j ← joinable;
  if (j : bool) then set_joinable false else mret tt.

(** Leaving the block, by either way, destroys [worker_thread]: a joinable
    thread calls [std::terminate]. Otherwise [catch] prints. *)
Definition main (env : environment) : exit * main_state :=
  match try_block env (mkMain [] false true) with
  | (inl _, s) => if worker_joinable s then (Terminated, s) else (Exited 0, s)
  | (inr what, s) =>
      if worker_joinable s then (Terminated, s)
      else (Exited 0, mkMain (log s ++ ["Exception: " +:+ what])%list false (running_flag s))
  end.

(** ** Theorems *)

(** C29: [main] handles its exceptions only until the worker thread exists.
    A failure of the queue, the book or the thread itself is caught, printed,
    and the process exits with code 0; any failure after that (an unavailable
    port in the feed handler's constructor, the signal set, the event loop)
    unwinds past the running worker thread, so the process is terminated,
    [running] is never cleared, and the [catch] clause's message is never
    printed; without failures the worker is stopped, joined, and the process
    exits with code 0. *)
Theorem main_exceptions (env : environment) :
  let early := [queue_throws env; book_throws env; thread_throws env] in
  let late := [io_context_throws env; feed_handler_throws env; signals_throws env; run_throws env] in
  let '(how, s) := main env in
  (forall what, List.hd_error (omap id early) = Some what ->
     how = Exited 0 /\ last (log s) = Some ("Exception: " +:+ what)) /\
  (omap id early = [] -> omap id late <> [] ->
     how = Terminated /\ running_flag s = true /\
     forall line, line ∈ log s -> String.prefix "Exception" line = false) /\
  (omap id early = [] -> omap id late = [] -> how = Exited 0 /\ running_flag s = false /\ worker_joinable s = false).
Proof.
  destruct env as [sched [aff prio] eq eb et ei ef es er]. unfold main, try_block.
  assert (forall core a p line, line ∈ pin_current_thread_to_core core a p -> String.prefix "Exception" line = false) as Hpin.
  { intros core a p line. unfold pin_current_thread_to_core. destruct (a =? 0), (p =? 0); simpl;
      rewrite ?elem_of_cons, ?elem_of_nil; intros H; destruct_or?; subst; done. }
  unfold mbind, mainM_bind, mret, mainM_ret, may_throw, set_joinable, store_running, joinable, print. simpl.
  destruct (sched =? -1), eq as [weq|], eb as [web|], et as [wet|]; simpl;
    try (split_and!; [intros what [= <-]; split; [done|]; by rewrite ?last_snoc|done|done]);
    destruct ei as [wei|], ef as [wef|], es as [wes|], er as [wer|]; simpl;
    (split_and!; [done| |]); try done; intros _ _; split_and!; try done;
    intros line; repeat (rewrite elem_of_app || rewrite elem_of_cons || rewrite elem_of_nil); intros H;
    destruct_or?; subst; try done; by eapply Hpin.
Qed.

Definition no_failure : environment := mkEnv 0 (0, 0) None None None None None None None.

(** ** The report of a run *)

Lemma omap_seqZ (v : vec Z) (f : nat -> Z) (n : nat) :
  (forall j, (j < n)%nat -> vget v (Z.of_nat j) = Some (f j)) ->
  omap (vget v) (seqZ 0 (Z.of_nat n)) = f <$> seq 0 n.
Proof.
  induction n as [|n IH]; intros Hv; [done|]. rewrite seqZ_S, seq_S.
  rewrite omap_app, fmap_app, IH by (intros j Hj; apply Hv; lia). rewrite Z.add_0_l. cbn [omap list_omap]. by rewrite Hv by lia.
Qed.

(** The time from ingress to the end of processing, for each packet. *)
Definition delta (x : PacketPayload * Z) : Z := u64 (x.2 - ingress_tsc x.1).

Lemma samples_spec k orders e a pending processed :
  engine_at k orders e a pending processed -> samples e = take (Z.to_nat MAX_SAMPLES) (delta <$> processed).
Proof.
  intros He. unfold samples. rewrite (en_count _ _ _ _ _ _ He).
  set (n := Nat.min (length processed) (Z.to_nat MAX_SAMPLES)).
  assert (Z.min (Z.of_nat (length processed)) MAX_SAMPLES = Z.of_nat n) as ->.
  { unfold n. rewrite Nat2Z.inj_min, Z2Nat.id by (unfold MAX_SAMPLES; lia). done. }
  rewrite (omap_seqZ _ (fun j => default 0 (delta <$> processed !! j))).
  - apply list_eq. intros j. rewrite list_lookup_fmap. destruct (decide (j < n)%nat) as [Hj|Hj].
    + rewrite lookup_seq_lt, lookup_take_lt by lia. simpl. rewrite list_lookup_fmap.
      destruct (lookup_lt_is_Some_2 processed j) as [x ->]; [lia|]. done.
    + rewrite lookup_seq_ge by lia. symmetry. apply lookup_ge_None_2. rewrite length_take, length_fmap. lia.
  - intros j Hj. destruct (lookup_lt_is_Some_2 processed j) as [[p t] Hx]; [lia|].
    rewrite Hx. apply (en_samples _ _ _ _ _ _ He _ _ _ Hx).
    assert (Z.of_nat n <= MAX_SAMPLES) by (unfold n; rewrite Nat2Z.inj_min, Z2Nat.id by (unfold MAX_SAMPLES; lia); lia). lia.
Qed.

(** C30: The worker function as a whole: once [running] is cleared it returns
    the number of packets it processed, and a report unless there were none.
    The report is on the latencies of the first million of them, from ingress
    to the end of processing: its median has the rank [n / 2] in sorted order,
    its 99th percentile the rank [99 n / 100] rounded down, and no latency is
    above its maximum. *)
Theorem worker_reports k orders fuel ins q p0 :
  0 <= k <= 63 -> 0 <= orders <= 2 ^ 32 -> contents k q [] -> orders < Z.of_nat fuel ->
  let '(stopped, pending, processed) := engine_spec (2 ^ k) ins [] in
  forallb (valid_command MAX_TICKS orders) (commands_of processed) = true ->
  fresh_adds orders a_empty (commands_of processed) = true ->
  exists e r, run_matching_engine fuel ins (Engine_new q (OrderBook_new MAX_TICKS orders) p0) =
      Ok (if stopped then Some (u64 (Z.of_nat (length processed)), r) else None, e) /\
    match r with
    | None => processed = []
    | Some r => report_on (take (Z.to_nat MAX_SAMPLES) (delta <$> processed)) r
    end.
Proof.
  intros Hk Ho Hq Hf.
  pose proof (fun Phi => wp_run_loop k orders Hk Ho fuel ins _ _ _ _ Phi (engine_new_at k orders Ho q p0 Hq)) as H.
  destruct (engine_spec (2 ^ k) ins []) as [[stopped pending] processed]. intros Hv Hfr.
  destruct (H (fun s e' => s = stopped /\
    engine_at k orders e' (spec_commands orders (commands_of processed) a_empty) pending processed))
    as (s & e & Hr & -> & He); [done..|].
  exists e, (latency_report (take (Z.to_nat MAX_SAMPLES) (delta <$> processed))). split.
  - unfold run_matching_engine. rewrite (bind_Ok _ _ _ _ _ Hr). destruct stopped; [|done].
    rewrite (bind_Ok get_state _ _ e e) by done.
    by rewrite (samples_spec _ _ _ _ _ _ He), (en_processed _ _ _ _ _ _ He).
  - set (xs := take (Z.to_nat MAX_SAMPLES) (delta <$> processed)).
    assert (Z.of_nat (length xs) <= MAX_SAMPLES) as Hlen by (unfold xs; rewrite length_take, Nat2Z.inj_min, Z2Nat.id by done; lia).
    pose proof (latency_report_ok xs Hlen) as Hrep. destruct (latency_report xs) as [r|]; [done|].
    assert (Z.of_nat (length xs) = 0) as E by by rewrite Hrep. unfold xs in E.
    rewrite length_take, length_fmap, Nat2Z.inj_min, Z2Nat.id in E by done.
    destruct processed; [done|]. assert (0 < MAX_SAMPLES) by done. cbn [length] in E. lia.
Qed.

Lemma worker_reports_witness :
  exists q e r, contents 2 q [] /\
    run_matching_engine 20 example_inputs (Engine_new q (OrderBook_new MAX_TICKS 16) (mkPacket 0 [])) =
      Ok (Some (3, Some r), e) /\ report_on [15; 10; 19] r.
Proof.
  destruct (contents_new 2 range_2 (T := PacketPayload) false) as (q & _ & Hq). exists q.
  destruct (worker_reports 2 16 20 example_inputs q (mkPacket 0 []) range_2 range_16 Hq) as (e & r & Hr & Hrep);
    [done|by vm_compute|by vm_compute|].
  destruct r as [r|]; [|exfalso; by vm_compute in Hrep]. exists e, r. split; [exact Hq|]. split; [exact Hr|].
  vm_compute in Hrep. exact Hrep.
Defined.
