(* ===== verification/SocketOps.v ===== *)
(** * socket_ops

    Asio's wrappers of the socket system calls
    (src/include/asio/detail/impl/socket_ops.ipp) in its Linux
    configuration: the branches under ASIO_WINDOWS, __CYGWIN__, __APPLE__,
    the BSDs, __SYMBIAN32__ and __EMSCRIPTEN__ are not compiled there and are
    not modelled.

    The operating system is a parameter: a [Kernel] answers each system call
    with a return value, the [errno] it leaves and its results, and it also
    owns the memory behind the pointers the code only passes along (buffers
    and addresses are opaque [ptr]s).  Memory the code itself reads or
    writes - lengths, flags, option values - is passed and returned
    explicitly. *)

From S2P Require Import Prelude.

(** ** Error codes (asio/error.hpp) *)

Inductive error_category := system_category | misc_category.

#[export] Instance error_category_eq_dec : EqDecision error_category.
Proof. solve_decision. Defined.

Record error_code := mkEc { ec_value : Z; ec_category : error_category }.

#[export] Instance error_code_eq_dec : EqDecision error_code.
Proof. solve_decision. Defined.

(** [ec == e], and [ec] as a condition. *)
Definition ec_eqb (x y : error_code) : bool := bool_decide (x = y).
Definition failed (x : error_code) : bool := negb (ec_value x =? 0).

(** The values of Linux. *)
Definition EINTR : Z := 4.
Definition EBADF : Z := 9.
Definition EAGAIN : Z := 11.
Definition EINVAL : Z := 22.
Definition ENOTTY : Z := 25.
Definition EPROTO : Z := 71.
Definition ENOTSOCK : Z := 88.
Definition ECONNABORTED : Z := 103.
Definition ENOBUFS : Z := 105.
Definition EINPROGRESS : Z := 115.

Definition system_error (v : Z) : error_code := mkEc v system_category.

Module error.
Definition interrupted : error_code := system_error EINTR.
Definition bad_descriptor : error_code := system_error EBADF.
Definition would_block : error_code := system_error EAGAIN.
Definition try_again : error_code := system_error EAGAIN.
Definition invalid_argument : error_code := system_error EINVAL.
Definition not_socket : error_code := system_error ENOTSOCK.
Definition connection_aborted : error_code := system_error ECONNABORTED.
Definition no_buffer_space : error_code := system_error ENOBUFS.
Definition in_progress : error_code := system_error EINPROGRESS.
Definition eof : error_code := mkEc 2 misc_category.

(** [ec.assign(0, ec.category())]. *)
Definition clear (e : error_code) : error_code := mkEc 0 (ec_category e).
End error.

(** ** System calls *)

Definition ptr : Type := Z.

Inductive syscall :=
| Sys_accept (s : Z) (addr : ptr) (addrlen : option Z)
| Sys_bind (s : Z) (addr : ptr) (addrlen : Z)
| Sys_close (s : Z)
| Sys_ioctl (s cmd arg : Z)
| Sys_fcntl (s cmd arg : Z)
| Sys_shutdown (s what : Z)
| Sys_connect (s : Z) (addr : ptr) (addrlen : Z)
| Sys_poll (fd events timeout : Z)
| Sys_select (nfds : Z) (readfds writefds exceptfds timeout : ptr)
| Sys_socketpair (af type protocol : Z) (sv : ptr)
| Sys_listen (s backlog : Z)
| Sys_recvmsg (s : Z) (name : ptr) (namelen : Z) (bufs : ptr) (count flags : Z)
| Sys_recv (s : Z) (data : ptr) (size flags : Z)
| Sys_recvfrom (s : Z) (data : ptr) (size flags : Z) (addr : ptr) (addrlen : option Z)
| Sys_sendmsg (s : Z) (name : ptr) (namelen : Z) (bufs : ptr) (count flags : Z)
| Sys_send (s : Z) (data : ptr) (size flags : Z)
| Sys_sendto (s : Z) (data : ptr) (size flags : Z) (addr : ptr) (addrlen : Z)
| Sys_socket (af type protocol : Z)
| Sys_setsockopt (s level optname optval optlen : Z)
| Sys_getsockopt (s level optname optval optlen : Z)
| Sys_getpeername (s : Z) (addr : ptr) (addrlen : Z)
| Sys_getsockname (s : Z) (addr : ptr) (addrlen : Z).

(** What a system call returns: its value, the [errno] after it, a length it
    writes (an address's or an option's), and an integer it writes (the flags
    of a message, the argument of an ioctl, the value of an option). *)
Record reply := mkReply { r_ret : Z; r_errno : Z; r_len : Z; r_val : Z }.

Class Kernel (K : Type) := sys_call : syscall -> K -> reply * K.

(** ** Constants *)

Definition invalid_socket : Z := -1.
Definition socket_error_retval : Z := -1.

(** [state_type] flags (asio/detail/socket_ops.hpp). *)
Definition user_set_non_blocking : Z := 1.
Definition internal_non_blocking : Z := 2.
Definition non_blocking : Z := Z.lor user_set_non_blocking internal_non_blocking.
Definition enable_connection_aborted : Z := 4.
Definition user_set_linger : Z := 8.
Definition stream_oriented : Z := 16.
Definition datagram_oriented : Z := 32.
Definition possible_dup : Z := 64.

Definition custom_socket_option_level : Z := -1525678080.
Definition enable_connection_aborted_option : Z := 1.
Definition always_fail_option : Z := 2.

Definition FIONBIO : Z := 21537.
Definition FIONREAD : Z := 21531.
Definition SIOCATMARK : Z := 35077.
Definition F_GETFL : Z := 3.
Definition F_SETFL : Z := 4.
Definition O_NONBLOCK : Z := 2048.
Definition SOL_SOCKET : Z := 1.
Definition SO_ERROR : Z := 4.
Definition SO_SNDBUF : Z := 7.
Definition SO_RCVBUF : Z := 8.
Definition SO_LINGER : Z := 13.
Definition POLLIN : Z := 1.
Definition POLLPRI : Z := 2.
Definition POLLOUT : Z := 4.
Definition POLLERR : Z := 8.
Definition POLLHUP : Z := 16.
Definition MSG_NOSIGNAL : Z := 16384.
Definition sizeof_int : Z := 4.

(** [state & flags], as a condition; [state |= flags]; [state &= ~flags] in
    the eight bits of a [state_type]. *)
Definition has (state flags : Z) : bool := negb (Z.land state flags =? 0).
Definition add_flags (state flags : Z) : Z := Z.lor state flags.
Definition drop_flags (state flags : Z) : Z := Z.ldiff state flags.

(** ** The operations *)

(** What the operations act on: the kernel, the thread's [errno], and the
    [error_code& ec] they report through. *)
Record Env (K : Type) := mkEnv { kernel : K; errno : Z; ec : error_code }.
Arguments mkEnv {K} _ _ _.
Arguments kernel {K} _.
Arguments errno {K} _.
Arguments ec {K} _.

(** A [sockaddr]: the code reads its family and passes the rest along. *)
Record sockaddr := mkSockaddr { sa_family : Z; sa_ptr : ptr }.
Definition AF_UNIX : Z := 1.

Module socket_ops.
Section socket_ops.
Context {K : Type} `{Kernel K}.
Abbreviation M := (prog (Env K)).

Definition call (c : syscall) : M reply :=
  e ← get_state;
  let '(r, k) := sys_call c (kernel e) in
  put_state (mkEnv k (r_errno r) (ec e));; mret r.

Definition set_ec (x : error_code) : M unit :=
  e ← get_state; put_state (mkEnv (kernel e) (errno e) x).
Definition get_ec : M error_code := e ← get_state; mret (ec e).
Definition clear_ec : M unit := x ← get_ec; set_ec (error.clear x).

Definition clear_last_error : M unit :=
  e ← get_state; put_state (mkEnv (kernel e) 0 (ec e)).

Definition get_last_error (is_error_condition : bool) : M unit :=
  if negb is_error_condition then clear_ec
  else e ← get_state; set_ec (system_error (errno e)).

(** *** accept *)

Definition call_accept (s : Z) (addr : ptr) (addrlen : option Z) : M (Z * option Z) :=
  let tmp_addrlen := match addrlen with Some n => u32 n | None => 0 end in
  r ← call (Sys_accept s addr (match addrlen with Some _ => Some tmp_addrlen | None => None end));
  mret (r_ret r, match addrlen with Some _ => Some (u32 (r_len r)) | None => None end).

Definition accept (s : Z) (addr : ptr) (addrlen : option Z) : M (Z * option Z) :=
  if s =? invalid_socket then
    set_ec error.bad_descriptor;; mret (invalid_socket, addrlen)
  else
    '(new_s, addrlen) ← call_accept s addr addrlen;
    get_last_error (new_s =? invalid_socket);;
    if new_s =? invalid_socket then mret (new_s, addrlen)
    else clear_ec;; mret (new_s, addrlen).

(** Waiting for readiness. *)
Definition poll_fd (events s state msec : Z) : M Z :=
  if s =? invalid_socket then
    set_ec error.bad_descriptor;; mret socket_error_retval
  else
    let timeout := if has state user_set_non_blocking then 0 else msec in
    r ← call (Sys_poll s events timeout);
    let result := r_ret r in
    get_last_error (result <? 0);;
    (if result =? 0 then
       if has state user_set_non_blocking then set_ec error.would_block else mret tt
     else mret tt);;
    mret result.

Definition poll_read (s state msec : Z) : M Z := poll_fd POLLIN s state msec.
Definition poll_write (s state msec : Z) : M Z := poll_fd POLLOUT s state msec.
Definition poll_error (s state msec : Z) : M Z :=
  poll_fd (Z.lor (Z.lor POLLPRI POLLERR) POLLHUP) s state msec.

Definition poll_connect (s msec : Z) : M Z :=
  if s =? invalid_socket then
    set_ec error.bad_descriptor;; mret socket_error_retval
  else
    r ← call (Sys_poll s POLLOUT msec);
    get_last_error (r_ret r <? 0);;
    mret (r_ret r).

(** [ec == would_block || ec == try_again]. *)
Definition not_ready (x : error_code) : bool :=
  ec_eqb x error.would_block || ec_eqb x error.try_again.

Fixpoint sync_accept (fuel : nat) (s state : Z) (addr : ptr) (addrlen : option Z) : M (Z * option Z) :=
  match fuel with
  | O => loop_out
  | S fuel =>
      '(new_socket, addrlen) ← accept s addr addrlen;
      if negb (new_socket =? invalid_socket) then mret (new_socket, addrlen)
      else
        x ← get_ec;
        let final :=
          if not_ready x then has state user_set_non_blocking
          else if ec_eqb x error.connection_aborted then has state enable_connection_aborted
          else if ec_value x =? EPROTO then has state enable_connection_aborted
          else true in
        if final then mret (invalid_socket, addrlen)
        else
          r ← poll_read s 0 (-1);
          if r <? 0 then mret (invalid_socket, addrlen)
          else sync_accept fuel s state addr addrlen
  end.

(** The result: whether the operation is done, and the new socket. *)
Fixpoint non_blocking_accept (fuel : nat) (s state : Z) (addr : ptr) (addrlen : option Z) :
    M (bool * Z * option Z) :=
  match fuel with
  | O => loop_out
  | S fuel =>
      '(new_socket, addrlen) ← accept s addr addrlen;
      if negb (new_socket =? invalid_socket) then mret (true, new_socket, addrlen)
      else
        x ← get_ec;
        if ec_eqb x error.interrupted then non_blocking_accept fuel s state addr addrlen
        else
          let done :=
            if not_ready x then false
            else if ec_eqb x error.connection_aborted then has state enable_connection_aborted
            else if ec_value x =? EPROTO then has state enable_connection_aborted
            else true in
          mret (done, new_socket, addrlen)
  end.

(** *** bind, shutdown, listen, socket, socketpair *)

Definition bind (s : Z) (addr : ptr) (addrlen : Z) : M Z :=
  if s =? invalid_socket then
    set_ec error.bad_descriptor;; mret socket_error_retval
  else
    r ← call (Sys_bind s addr (u32 addrlen));
    get_last_error (negb (r_ret r =? 0));;
    mret (r_ret r).

Definition shutdown (s what : Z) : M Z :=
  if s =? invalid_socket then
    set_ec error.bad_descriptor;; mret socket_error_retval
  else
    r ← call (Sys_shutdown s what);
    get_last_error (negb (r_ret r =? 0));;
    mret (r_ret r).

Definition listen (s backlog : Z) : M Z :=
  if s =? invalid_socket then
    set_ec error.bad_descriptor;; mret socket_error_retval
  else
    r ← call (Sys_listen s backlog);
    get_last_error (negb (r_ret r =? 0));;
    mret (r_ret r).

Definition socket (af type protocol : Z) : M Z :=
  r ← call (Sys_socket af type protocol);
  get_last_error (r_ret r <? 0);;
  mret (r_ret r).

Definition socketpair (af type protocol : Z) (sv : ptr) : M Z :=
  r ← call (Sys_socketpair af type protocol sv);
  get_last_error (negb (r_ret r =? 0));;
  mret (r_ret r).

(** *** Socket options and ioctl *)

(** [optval] is the value of the option as an integer of [optlen] bytes.
    The state after the call is returned with the result. *)
Definition setsockopt (s state level optname optval optlen : Z) : M (Z * Z) :=
  if s =? invalid_socket then
    set_ec error.bad_descriptor;; mret (socket_error_retval, state)
  else if (level =? custom_socket_option_level) && (optname =? always_fail_option) then
    set_ec error.invalid_argument;; mret (socket_error_retval, state)
  else if (level =? custom_socket_option_level) && (optname =? enable_connection_aborted_option) then
    if negb (optlen =? sizeof_int) then
      set_ec error.invalid_argument;; mret (socket_error_retval, state)
    else
      let state := if negb (optval =? 0) then add_flags state enable_connection_aborted
                   else drop_flags state enable_connection_aborted in
      clear_ec;; mret (0, state)
  else
    let state := if (level =? SOL_SOCKET) && (optname =? SO_LINGER)
                 then add_flags state user_set_linger else state in
    r ← call (Sys_setsockopt s level optname optval (u32 optlen));
    get_last_error (negb (r_ret r =? 0));;
    mret (r_ret r, state).

(** The result, with the value and the length of the option after it. *)
Definition getsockopt (s state level optname optval optlen : Z) : M (Z * Z * Z) :=
  if s =? invalid_socket then
    set_ec error.bad_descriptor;; mret (socket_error_retval, optval, optlen)
  else if (level =? custom_socket_option_level) && (optname =? always_fail_option) then
    set_ec error.invalid_argument;; mret (socket_error_retval, optval, optlen)
  else if (level =? custom_socket_option_level) && (optname =? enable_connection_aborted_option) then
    if negb (optlen =? sizeof_int) then
      set_ec error.invalid_argument;; mret (socket_error_retval, optval, optlen)
    else
      let optval := if has state enable_connection_aborted then 1 else 0 in
      clear_ec;; mret (0, optval, optlen)
  else
    r ← call (Sys_getsockopt s level optname optval (u32 optlen));
    let result := r_ret r in
    let optlen := u32 (r_len r) in
    get_last_error (negb (result =? 0));;
    let optval :=
      if (result =? 0) && (level =? SOL_SOCKET) && (optlen =? sizeof_int)
         && ((optname =? SO_SNDBUF) || (optname =? SO_RCVBUF))
      then Z.quot (r_val r) 2 else r_val r in
    mret (result, optval, optlen).

Definition getpeername (s : Z) (addr : ptr) (addrlen : Z) : M (Z * Z) :=
  if s =? invalid_socket then
    set_ec error.bad_descriptor;; mret (socket_error_retval, addrlen)
  else
    r ← call (Sys_getpeername s addr (u32 addrlen));
    get_last_error (negb (r_ret r =? 0));;
    mret (r_ret r, u32 (r_len r)).

Definition getsockname (s : Z) (addr : ptr) (addrlen : Z) : M (Z * Z) :=
  if s =? invalid_socket then
    set_ec error.bad_descriptor;; mret (socket_error_retval, addrlen)
  else
    r ← call (Sys_getsockname s addr (u32 addrlen));
    get_last_error (negb (r_ret r =? 0));;
    mret (r_ret r, u32 (r_len r)).

(** The result, with the socket's state and the argument after it. *)
Definition ioctl (s state cmd arg : Z) : M (Z * Z * Z) :=
  if s =? invalid_socket then
    set_ec error.bad_descriptor;; mret (socket_error_retval, state, arg)
  else
    r ← call (Sys_ioctl s cmd arg);
    let result := r_ret r in
    let arg := r_val r in
    get_last_error (result <? 0);;
    let state :=
      if (result >=? 0) && (cmd =? FIONBIO) then
        if negb (arg =? 0) then add_flags state user_set_non_blocking
        else drop_flags state (Z.lor user_set_non_blocking internal_non_blocking)
      else state in
    mret (result, state, arg).

Definition sockatmark (s : Z) : M bool :=
  if s =? invalid_socket then
    set_ec error.bad_descriptor;; mret false
  else
    r ← call (Sys_ioctl s SIOCATMARK 0);
    get_last_error (r_ret r <? 0);;
    x ← get_ec;
    (if ec_value x =? ENOTTY then set_ec error.not_socket else mret tt);;
    x ← get_ec;
    mret (if failed x then false else negb (r_val r =? 0)).

Definition available (s : Z) : M Z :=
  if s =? invalid_socket then
    set_ec error.bad_descriptor;; mret 0
  else
    r ← call (Sys_ioctl s FIONREAD 0);
    get_last_error (r_ret r <? 0);;
    x ← get_ec;
    (if ec_value x =? ENOTTY then set_ec error.not_socket else mret tt);;
    x ← get_ec;
    mret (if failed x then 0 else u64 (r_val r)).

Definition select (nfds : Z) (readfds writefds exceptfds timeout : ptr) : M Z :=
  r ← call (Sys_select nfds readfds writefds exceptfds timeout);
  get_last_error (r_ret r <? 0);;
  mret (r_ret r).

(** *** Non-blocking mode *)

(** The system calls of [set_user_non_blocking] and of
    [set_internal_non_blocking]: an ioctl, and fcntl for a descriptor that
    may be shared or that does not take the ioctl. *)
Definition set_fd_non_blocking (s state : Z) (value : bool) : M Z :=
  let arg := if value then 1 else 0 in
  result ← (if Z.land state possible_dup =? 0 then
              r ← call (Sys_ioctl s FIONBIO arg);
              get_last_error (r_ret r <? 0);;
              mret (r_ret r)
            else mret 0);
  x ← get_ec;
  if has state possible_dup || (ec_value x =? ENOTTY) then
    r ← call (Sys_fcntl s F_GETFL 0);
    let result := r_ret r in
    get_last_error (result <? 0);;
    if result >=? 0 then
      let flag := if value then Z.lor result O_NONBLOCK else Z.ldiff result O_NONBLOCK in
      result ← (if negb (flag =? result) then
                  r ← call (Sys_fcntl s F_SETFL flag); mret (r_ret r)
                else mret 0);
      get_last_error (result <? 0);;
      mret result
    else mret result
  else mret result.

Definition set_user_non_blocking (s state : Z) (value : bool) : M (bool * Z) :=
  if s =? invalid_socket then
    set_ec error.bad_descriptor;; mret (false, state)
  else
    result ← set_fd_non_blocking s state value;
    if result >=? 0 then
      mret (true,
        if value then add_flags state user_set_non_blocking
        else drop_flags state (Z.lor user_set_non_blocking internal_non_blocking))
    else mret (false, state).

Definition set_internal_non_blocking (s state : Z) (value : bool) : M (bool * Z) :=
  if s =? invalid_socket then
    set_ec error.bad_descriptor;; mret (false, state)
  else if negb value && has state user_set_non_blocking then
    set_ec error.invalid_argument;; mret (false, state)
  else
    result ← set_fd_non_blocking s state value;
    if result >=? 0 then
      mret (true,
        if value then add_flags state internal_non_blocking
        else drop_flags state internal_non_blocking)
    else mret (false, state).

(** *** close *)
Definition close (s state : Z) (destruction : bool) : M (Z * Z) :=
  if s =? invalid_socket then mret (0, state)
  else
    state ← (if destruction && has state user_set_linger then
               x ← get_ec;
               '(_, state) ← setsockopt s state SOL_SOCKET SO_LINGER 0 8;
               set_ec x;; mret state
             else mret state);
    r ← call (Sys_close s);
    let result := r_ret r in
    get_last_error (negb (result =? 0));;
    x ← get_ec;
    if negb (result =? 0) && not_ready x then
      (if Z.land state possible_dup =? 0 then
         r ← call (Sys_ioctl s FIONBIO 0); get_last_error (r_ret r <? 0)
       else mret tt);;
      x ← get_ec;
      (if has state possible_dup || (ec_value x =? ENOTTY) then
         r ← call (Sys_fcntl s F_GETFL 0);
         if r_ret r >=? 0 then
           call (Sys_fcntl s F_SETFL (Z.ldiff (r_ret r) O_NONBLOCK));; mret tt
         else mret tt
       else mret tt);;
      let state := drop_flags state non_blocking in
      r ← call (Sys_close s);
      get_last_error (negb (r_ret r =? 0));;
      mret (r_ret r, state)
    else mret (result, state).

(** *** connect *)

Definition connect (s : Z) (addr : sockaddr) (addrlen : Z) : M Z :=
  if s =? invalid_socket then
    set_ec error.bad_descriptor;; mret socket_error_retval
  else
    r ← call (Sys_connect s (sa_ptr addr) (u32 addrlen));
    let result := r_ret r in
    get_last_error (negb (result =? 0));;
    x ← get_ec;
    (if negb (result =? 0) && ec_eqb x error.try_again then
       if sa_family addr =? AF_UNIX then set_ec error.in_progress
       else set_ec error.no_buffer_space
     else mret tt);;
    mret result.

Definition sync_connect (s : Z) (addr : sockaddr) (addrlen : Z) : M unit :=
  connect s addr addrlen;;
  x ← get_ec;
  if negb (ec_eqb x error.in_progress) && negb (ec_eqb x error.would_block) then mret tt
  else
    r ← poll_connect s (-1);
    if r <? 0 then mret tt
    else
      '(result, connect_error, _) ← getsockopt s 0 SOL_SOCKET SO_ERROR 0 sizeof_int;
      if result =? socket_error_retval then mret tt
      else set_ec (system_error connect_error).

Definition non_blocking_connect (s : Z) : M bool :=
  r ← call (Sys_poll s POLLOUT 0);
  if r_ret r =? 0 then mret false
  else
    '(result, connect_error, _) ← getsockopt s 0 SOL_SOCKET SO_ERROR 0 sizeof_int;
    (if result =? 0 then
       if negb (connect_error =? 0) then set_ec (system_error connect_error) else clear_ec
     else mret tt);;
    mret true.

(** *** Receiving and sending: one attempt

    [recv], [send] and the like transfer a list of buffers, the functions
    ending in 1 a single one. *)

Definition recv (s : Z) (bufs : ptr) (count flags : Z) : M Z :=
  r ← call (Sys_recvmsg s 0 0 bufs count flags);
  get_last_error (r_ret r <? 0);;
  mret (r_ret r).

Definition recv1 (s : Z) (data : ptr) (size flags : Z) : M Z :=
  r ← call (Sys_recv s data size flags);
  get_last_error (r_ret r <? 0);;
  mret (r_ret r).

Definition recvfrom (s : Z) (bufs : ptr) (count flags : Z) (addr : ptr) (addrlen : Z) : M (Z * Z) :=
  r ← call (Sys_recvmsg s addr (u32 addrlen) bufs count flags);
  get_last_error (r_ret r <? 0);;
  mret (r_ret r, u32 (r_len r)).

Definition call_recvfrom (s : Z) (data : ptr) (size flags : Z) (addr : ptr) (addrlen : option Z) :
    M (Z * option Z) :=
  let tmp_addrlen := match addrlen with Some n => u32 n | None => 0 end in
  r ← call (Sys_recvfrom s data size flags addr
              (match addrlen with Some _ => Some tmp_addrlen | None => None end));
  mret (r_ret r, match addrlen with Some _ => Some (u32 (r_len r)) | None => None end).

Definition recvfrom1 (s : Z) (data : ptr) (size flags : Z) (addr : ptr) (addrlen : option Z) :
    M (Z * option Z) :=
  '(result, addrlen) ← call_recvfrom s data size flags addr addrlen;
  get_last_error (result <? 0);;
  mret (result, addrlen).

(** The result and [out_flags]. *)
Definition recvmsg (s : Z) (bufs : ptr) (count in_flags : Z) : M (Z * Z) :=
  r ← call (Sys_recvmsg s 0 0 bufs count in_flags);
  get_last_error (r_ret r <? 0);;
  mret (r_ret r, if r_ret r >=? 0 then r_val r else 0).

Definition send (s : Z) (bufs : ptr) (count flags : Z) : M Z :=
  r ← call (Sys_sendmsg s 0 0 bufs count (Z.lor flags MSG_NOSIGNAL));
  get_last_error (r_ret r <? 0);;
  mret (r_ret r).

Definition send1 (s : Z) (data : ptr) (size flags : Z) : M Z :=
  r ← call (Sys_send s data size (Z.lor flags MSG_NOSIGNAL));
  get_last_error (r_ret r <? 0);;
  mret (r_ret r).

Definition sendto (s : Z) (bufs : ptr) (count flags : Z) (addr : ptr) (addrlen : Z) : M Z :=
  r ← call (Sys_sendmsg s addr (u32 addrlen) bufs count (Z.lor flags MSG_NOSIGNAL));
  get_last_error (r_ret r <? 0);;
  mret (r_ret r).

Definition call_sendto (s : Z) (data : ptr) (size flags : Z) (addr : ptr) (addrlen : Z) : M Z :=
  r ← call (Sys_sendto s data size flags addr (u32 addrlen)); mret (r_ret r).

Definition sendto1 (s : Z) (data : ptr) (size flags : Z) (addr : ptr) (addrlen : Z) : M Z :=
  result ← call_sendto s data size (Z.lor flags MSG_NOSIGNAL) addr addrlen;
  get_last_error (result <? 0);;
  mret result.

(** *** Receiving and sending: the loops

    The nine pairs of loops of the file share two shapes.  An attempt maps
    the in/out parameter of the operation (the length of the address, the
    flags of the message, or nothing) to the number of bytes, negative for a
    failure, and the parameter's new value. *)

Fixpoint sync_loop {A} (fuel : nat) (stream : bool) (attempt : A -> M (Z * A)) (state : Z)
    (wait : M Z) (a : A) : M (Z * A) :=
  match fuel with
  | O => loop_out
  | S fuel =>
      '(bytes, a) ← attempt a;
      if stream && (bytes =? 0) then set_ec error.eof;; mret (0, a)
      else if bytes >=? 0 then mret (bytes, a)
      else
        x ← get_ec;
        if has state user_set_non_blocking
           || (negb (ec_eqb x error.would_block) && negb (ec_eqb x error.try_again))
        then mret (0, a)
        else
          r ← wait;
          if r <? 0 then mret (0, a) else sync_loop fuel stream attempt state wait a
  end.

(** The result: whether the operation is done, and [bytes_transferred],
    which is left as it was unless it is assigned. *)
Fixpoint non_blocking_loop {A} (fuel : nat) (stream : bool) (attempt : A -> M (Z * A))
    (bytes_transferred : Z) (a : A) : M (bool * Z * A) :=
  match fuel with
  | O => loop_out
  | S fuel =>
      '(bytes, a) ← attempt a;
      if stream && (bytes =? 0) then set_ec error.eof;; mret (true, bytes_transferred, a)
      else if bytes >=? 0 then mret (true, bytes, a)
      else
        x ← get_ec;
        if ec_eqb x error.interrupted then
          non_blocking_loop fuel stream attempt bytes_transferred a
        else if ec_eqb x error.would_block || ec_eqb x error.try_again then
          mret (false, bytes_transferred, a)
        else mret (true, 0, a)
  end.

(** An attempt without in/out parameter. *)
Definition plain (m : M Z) (_ : unit) : M (Z * unit) := bytes ← m; mret (bytes, tt).

Definition sync_recv (fuel : nat) (s state : Z) (bufs : ptr) (count flags : Z) (all_empty : bool) : M Z :=
  if s =? invalid_socket then set_ec error.bad_descriptor;; mret 0
  else if all_empty && has state stream_oriented then clear_ec;; mret 0
  else
    '(bytes, _) ← sync_loop fuel (has state stream_oriented) (plain (recv s bufs count flags))
                    state (poll_read s 0 (-1)) tt;
    mret bytes.

Definition sync_recv1 (fuel : nat) (s state : Z) (data : ptr) (size flags : Z) : M Z :=
  if s =? invalid_socket then set_ec error.bad_descriptor;; mret 0
  else if (size =? 0) && has state stream_oriented then clear_ec;; mret 0
  else
    '(bytes, _) ← sync_loop fuel (has state stream_oriented) (plain (recv1 s data size flags))
                    state (poll_read s 0 (-1)) tt;
    mret bytes.

Definition non_blocking_recv (fuel : nat) (s : Z) (bufs : ptr) (count flags : Z) (is_stream : bool)
    (bytes_transferred : Z) : M (bool * Z) :=
  '(done, bytes, _) ← non_blocking_loop fuel is_stream (plain (recv s bufs count flags))
                        bytes_transferred tt;
  mret (done, bytes).

Definition non_blocking_recv1 (fuel : nat) (s : Z) (data : ptr) (size flags : Z) (is_stream : bool)
    (bytes_transferred : Z) : M (bool * Z) :=
  '(done, bytes, _) ← non_blocking_loop fuel is_stream (plain (recv1 s data size flags))
                        bytes_transferred tt;
  mret (done, bytes).

Definition sync_recvfrom (fuel : nat) (s state : Z) (bufs : ptr) (count flags : Z) (addr : ptr)
    (addrlen : Z) : M (Z * Z) :=
  if s =? invalid_socket then set_ec error.bad_descriptor;; mret (0, addrlen)
  else sync_loop fuel false (recvfrom s bufs count flags addr) state (poll_read s 0 (-1)) addrlen.

Definition sync_recvfrom1 (fuel : nat) (s state : Z) (data : ptr) (size flags : Z) (addr : ptr)
    (addrlen : option Z) : M (Z * option Z) :=
  if s =? invalid_socket then set_ec error.bad_descriptor;; mret (0, addrlen)
  else sync_loop fuel false (recvfrom1 s data size flags addr) state (poll_read s 0 (-1)) addrlen.

Definition non_blocking_recvfrom (fuel : nat) (s : Z) (bufs : ptr) (count flags : Z) (addr : ptr)
    (addrlen bytes_transferred : Z) : M (bool * Z * Z) :=
  non_blocking_loop fuel false (recvfrom s bufs count flags addr) bytes_transferred addrlen.

Definition non_blocking_recvfrom1 (fuel : nat) (s : Z) (data : ptr) (size flags : Z) (addr : ptr)
    (addrlen : option Z) (bytes_transferred : Z) : M (bool * Z * option Z) :=
  non_blocking_loop fuel false (recvfrom1 s data size flags addr) bytes_transferred addrlen.

(** Each attempt assigns [out_flags]. *)
Definition sync_recvmsg (fuel : nat) (s state : Z) (bufs : ptr) (count in_flags out_flags : Z) :
    M (Z * Z) :=
  if s =? invalid_socket then set_ec error.bad_descriptor;; mret (0, out_flags)
  else sync_loop fuel false (fun _ => recvmsg s bufs count in_flags) state (poll_read s 0 (-1)) out_flags.

Definition non_blocking_recvmsg (fuel : nat) (s : Z) (bufs : ptr) (count in_flags out_flags : Z)
    (bytes_transferred : Z) : M (bool * Z * Z) :=
  non_blocking_loop fuel false (fun _ => recvmsg s bufs count in_flags) bytes_transferred out_flags.

Definition sync_send (fuel : nat) (s state : Z) (bufs : ptr) (count flags : Z) (all_empty : bool) : M Z :=
  if s =? invalid_socket then set_ec error.bad_descriptor;; mret 0
  else if all_empty && has state stream_oriented then clear_ec;; mret 0
  else
    '(bytes, _) ← sync_loop fuel false (plain (send s bufs count flags))
                    state (poll_write s 0 (-1)) tt;
    mret bytes.

Definition sync_send1 (fuel : nat) (s state : Z) (data : ptr) (size flags : Z) : M Z :=
  if s =? invalid_socket then set_ec error.bad_descriptor;; mret 0
  else if (size =? 0) && has state stream_oriented then clear_ec;; mret 0
  else
    '(bytes, _) ← sync_loop fuel false (plain (send1 s data size flags))
                    state (poll_write s 0 (-1)) tt;
    mret bytes.

Definition non_blocking_send (fuel : nat) (s : Z) (bufs : ptr) (count flags bytes_transferred : Z) :
    M (bool * Z) :=
  '(done, bytes, _) ← non_blocking_loop fuel false (plain (send s bufs count flags))
                        bytes_transferred tt;
  mret (done, bytes).

Definition non_blocking_send1 (fuel : nat) (s : Z) (data : ptr) (size flags bytes_transferred : Z) :
    M (bool * Z) :=
  '(done, bytes, _) ← non_blocking_loop fuel false (plain (send1 s data size flags))
                        bytes_transferred tt;
  mret (done, bytes).

Definition sync_sendto (fuel : nat) (s state : Z) (bufs : ptr) (count flags : Z) (addr : ptr)
    (addrlen : Z) : M Z :=
  if s =? invalid_socket then set_ec error.bad_descriptor;; mret 0
  else
    '(bytes, _) ← sync_loop fuel false (plain (sendto s bufs count flags addr addrlen))
                    state (poll_write s 0 (-1)) tt;
    mret bytes.

Definition sync_sendto1 (fuel : nat) (s state : Z) (data : ptr) (size flags : Z) (addr : ptr)
    (addrlen : Z) : M Z :=
  if s =? invalid_socket then set_ec error.bad_descriptor;; mret 0
  else
    '(bytes, _) ← sync_loop fuel false (plain (sendto1 s data size flags addr addrlen))
                    state (poll_write s 0 (-1)) tt;
    mret bytes.

Definition non_blocking_sendto (fuel : nat) (s : Z) (bufs : ptr) (count flags : Z) (addr : ptr)
    (addrlen bytes_transferred : Z) : M (bool * Z) :=
  '(done, bytes, _) ← non_blocking_loop fuel false (plain (sendto s bufs count flags addr addrlen))
                        bytes_transferred tt;
  mret (done, bytes).

Definition non_blocking_sendto1 (fuel : nat) (s : Z) (data : ptr) (size flags : Z) (addr : ptr)
    (addrlen bytes_transferred : Z) : M (bool * Z) :=
  '(done, bytes, _) ← non_blocking_loop fuel false (plain (sendto1 s data size flags addr addrlen))
                        bytes_transferred tt;
  mret (done, bytes).
End socket_ops.
End socket_ops.
