(* ===== verification/SocketRules.v ===== *)
(** * Rules for the socket operations

    Weakest-precondition rules of the primitive steps of [socket_ops], the
    specification of one attempt to transfer data, and the rules of the two
    loops around an attempt. *)

From S2P Require Import Prelude SocketOps.
Import socket_ops.

Section primitives.
Context {K : Type} `{Kernel K}.
Implicit Types (e : Env K).

Lemma wp_call c e (Phi : reply -> Env K -> Prop) :
  (forall r k, sys_call c (kernel e) = (r, k) -> Phi r (mkEnv k (r_errno r) (ec e))) ->
  wp (call c) e Phi.
Proof.
  intros HP. unfold call. apply wp_bind, wp_get. destruct (sys_call c (kernel e)) as [r k] eqn:E.
  apply wp_bind, wp_put, wp_ret. by apply HP.
Qed.

Lemma wp_set_ec x e (Phi : unit -> Env K -> Prop) :
  Phi tt (mkEnv (kernel e) (errno e) x) -> wp (set_ec x) e Phi.
Proof. intros HP. by apply wp_bind, wp_get, wp_put. Qed.

Lemma wp_get_ec e (Phi : error_code -> Env K -> Prop) : Phi (ec e) e -> wp get_ec e Phi.
Proof. intros HP. by apply wp_bind, wp_get, wp_ret. Qed.

Lemma wp_clear_ec e (Phi : unit -> Env K -> Prop) :
  Phi tt (mkEnv (kernel e) (errno e) (error.clear (ec e))) -> wp clear_ec e Phi.
Proof. intros HP. apply wp_bind, wp_get_ec. by apply wp_set_ec. Qed.

Lemma wp_get_last_error (b : bool) e (Phi : unit -> Env K -> Prop) :
  Phi tt (mkEnv (kernel e) (errno e)
            (if b then system_error (errno e) else error.clear (ec e))) ->
  wp (get_last_error b) e Phi.
Proof.
  intros HP. unfold get_last_error. destruct b; simpl.
  - apply wp_bind, wp_get. by apply wp_set_ec.
  - by apply wp_clear_ec.
Qed.
End primitives.

#[export] Hint Resolve wp_call wp_set_ec wp_get_ec wp_clear_ec wp_get_last_error : mh.

(** [sstep] runs one statement. *)
Ltac sstep :=
  match goal with
  | |- wp (mret _) _ _ => apply wp_ret
  | |- wp (_ ≫= _) _ _ => apply wp_bind
  | |- wp (call _) _ _ => apply wp_call; intros ?r ?k ?Hcall
  | |- wp (set_ec _) _ _ => apply wp_set_ec
  | |- wp get_ec _ _ => apply wp_get_ec
  | |- wp clear_ec _ _ => apply wp_clear_ec
  | |- wp (get_last_error _) _ _ => apply wp_get_last_error
  end; simpl.

Lemma not_ready_spec x : not_ready x = true <-> x = system_error EAGAIN.
Proof.
  unfold not_ready, ec_eqb. rewrite orb_diag. apply bool_decide_eq_true.
Qed.

Lemma not_ready_would_block x :
  not_ready x = ec_eqb x error.would_block || ec_eqb x error.try_again.
Proof. done. Qed.

(** ** One attempt

    What one attempt to transfer data can come to.  [did n k k'] says that
    the transfer of [n] bytes takes the kernel from [k] to [k'], [idle k k']
    that nothing has been transferred between the two, [blocked k k'] that
    nothing could be; an attempt on a [ready] socket is not blocked, and
    [signals k] bounds the interruptions still to come. *)
Section attempts.
Context {K : Type} `{Kernel K}.
Context (did : Z -> K -> K -> Prop) (idle blocked : K -> K -> Prop) (ready : K -> Prop)
  (signals : K -> nat).
Implicit Types (e : Env K).

Inductive attempted (k : K) : Z -> Env K -> Prop :=
| attempt_done n k' v x :
    0 <= n -> did n k k' -> failed x = false -> attempted k n (mkEnv k' v x)
| attempt_blocked n k' :
    n < 0 -> ~ ready k -> blocked k k' -> idle k k' -> attempted k n (mkEnv k' EAGAIN (system_error EAGAIN))
| attempt_interrupted n k' :
    n < 0 -> idle k k' -> (signals k' < signals k)%nat ->
    attempted k n (mkEnv k' EINTR (system_error EINTR))
| attempt_failed n k' v :
    n < 0 -> idle k k' -> v ∉ [0; EAGAIN; EINTR] -> attempted k n (mkEnv k' v (system_error v)).

Definition is_attempt {A} (m : A -> prog (Env K) (Z * A)) : Prop :=
  forall a e, wp (m a) e (fun p e' => attempted (kernel e) p.1 e').

Lemma is_attempt_plain (m : prog (Env K) Z) :
  (forall e, wp m e (fun n e' => attempted (kernel e) n e')) -> is_attempt (plain m).
Proof.
  intros Hm a e. unfold plain. apply wp_bind. eapply wp_mono; [apply Hm|].
  simpl; intros n e' Hn. by apply wp_ret.
Qed.

(** ** The loops *)

Context (idle_did : forall n k1 k2 k3, idle k1 k2 -> did n k2 k3 -> did n k1 k3)
  (idle_idle : forall k1 k2 k3, idle k1 k2 -> idle k2 k3 -> idle k1 k3)
  (idle_blocked : forall k1 k2 k3, idle k1 k2 -> blocked k2 k3 -> blocked k1 k3).

(** What a non-blocking operation reports: the transfer, that the socket is
    not ready, or a failure. *)
Definition reported (bt : Z) e (done : bool) (bytes : Z) (e' : Env K) : Prop :=
  (done = true /\ failed (ec e') = false /\ 0 <= bytes /\ did bytes (kernel e) (kernel e')) \/
  (done = false /\ bytes = bt /\ ec e' = error.would_block /\
     blocked (kernel e) (kernel e') /\ idle (kernel e) (kernel e')) \/
  (done = true /\ bytes = 0 /\ failed (ec e') = true /\ not_ready (ec e') = false /\
     ec e' <> error.interrupted /\ idle (kernel e) (kernel e')).

Lemma reported_later bt e0 e done bytes e' :
  idle (kernel e0) (kernel e) -> reported bt e done bytes e' -> reported bt e0 done bytes e'.
Proof.
  intros Hi [(-> & ? & ? & ?)|[(-> & ? & ? & ? & ?)|(-> & ? & ? & ? & ? & ?)]].
  - left. split_and!; eauto.
  - right; left. split_and!; eauto.
  - right; right. split_and!; eauto.
Qed.

Lemma failed_system v : v ∉ [0; EAGAIN; EINTR] ->
  failed (system_error v) = true /\ not_ready (system_error v) = false /\
  system_error v <> error.interrupted.
Proof.
  intros Hv. rewrite !not_elem_of_cons in Hv. destruct Hv as (H0 & H1 & H2 & _).
  split_and!; [unfold failed; simpl; by apply negb_true_iff, Z.eqb_neq| |by intros [=]].
  apply not_true_iff_false. rewrite not_ready_spec. by intros [=].
Qed.

Lemma non_blocking_loop_reports {A} (m : A -> prog (Env K) (Z * A)) bt :
  is_attempt m -> forall fuel a e, (signals (kernel e) < fuel)%nat ->
  wp (non_blocking_loop fuel false m bt a) e (fun p e' => reported bt e p.1.1 p.1.2 e').
Proof.
  intros Hm fuel. induction fuel as [|fuel IH]; intros a e Hf; [lia|]. simpl.
  sstep. eapply wp_mono; [apply Hm|]. intros [n a'] e' Ha. simpl in *.
  inversion Ha as [n' k' v x Hn Hd Hx|n' k' Hn Hr Hb Hi|n' k' Hn Hi Hs|n' k' v Hn Hi Hv]; subst; clear Ha.
  - replace (n >=? 0) with true by (symmetry; apply Z.geb_le; lia). sstep. left. by simpl.
  - replace (n >=? 0) with false by (symmetry; rewrite Z.geb_leb; apply Z.leb_gt; lia).
    sstep; sstep. sstep. right; left. by simpl.
  - replace (n >=? 0) with false by (symmetry; rewrite Z.geb_leb; apply Z.leb_gt; lia).
    sstep; sstep. eapply wp_mono; [apply IH; simpl; lia|].
    intros p e' HR. exact (reported_later bt e (mkEnv k' EINTR (system_error EINTR)) _ _ _ Hi HR).
  - replace (n >=? 0) with false by (symmetry; rewrite Z.geb_leb; apply Z.leb_gt; lia).
    destruct (failed_system v Hv) as (F1 & F2 & F3).
    sstep; sstep. unfold ec_eqb at 1. rewrite bool_decide_eq_false_2 by done.
    rewrite <- not_ready_would_block, F2. sstep. right; right. by simpl.
Qed.

(** What a synchronous operation returns with: the transfer, or a failure,
    which is would_block only for a socket its user made non-blocking. *)
Definition returned (state : Z) e (bytes : Z) (e' : Env K) : Prop :=
  (failed (ec e') = false /\ 0 <= bytes /\ did bytes (kernel e) (kernel e')) \/
  (bytes = 0 /\ failed (ec e') = true /\ idle (kernel e) (kernel e') /\
   (not_ready (ec e') = true ->
      has state user_set_non_blocking = true /\ blocked (kernel e) (kernel e'))).

(** A wait that fails, or ends with the socket ready, so that the next attempt
    is not blocked, or ends although it is not ready.  [spurious k] bounds how
    often the last will still happen. *)
Context (spurious : K -> nat) (idle_spurious : forall k1 k2, idle k1 k2 -> (spurious k2 <= spurious k1)%nat).

Definition is_wait (wait : prog (Env K) Z) : Prop :=
  forall e, wp wait e (fun r e' => idle (kernel e) (kernel e') /\
    (r < 0 /\ failed (ec e') = true /\ not_ready (ec e') = false \/
     0 <= r /\ (ready (kernel e') \/ (spurious (kernel e') < spurious (kernel e))%nat))).

Lemma returned_later state e0 e bytes e' :
  idle (kernel e0) (kernel e) -> returned state e bytes e' -> returned state e0 bytes e'.
Proof.
  intros Hi [(? & ? & ?)|(? & ? & ? & Hb)]; [left; split_and!; eauto|].
  right. split_and!; eauto. intros Hn. destruct (Hb Hn). eauto.
Qed.

(** The attempts that a loop may need. *)
Definition attempts_left (fuel : nat) (k : K) : Prop :=
  (spurious k + 2 <= fuel)%nat \/ ready k /\ (spurious k + 1 <= fuel)%nat.

Lemma sync_loop_returns {A} (m : A -> prog (Env K) (Z * A)) wait state :
  is_attempt m -> is_wait wait -> forall fuel a e, attempts_left fuel (kernel e) ->
  wp (sync_loop fuel false m state wait a) e (fun p e' => returned state e p.1 e').
Proof using idle_did idle_idle idle_blocked idle_spurious.
  intros Hm Hw fuel. induction fuel as [|fuel IH]; intros a e Hf; [destruct Hf; lia|]. simpl.
  sstep. eapply wp_mono; [apply Hm|]. intros [n a'] e' Ha. simpl in *.
  inversion Ha as [n' k' v x Hn Hd Hx|n' k' Hn Hr Hb Hi|n' k' Hn Hi Hs|n' k' v Hn Hi Hv]; subst; clear Ha.
  - replace (n >=? 0) with true by (symmetry; apply Z.geb_le; lia). sstep. left. by simpl.
  - replace (n >=? 0) with false by (symmetry; rewrite Z.geb_leb; apply Z.leb_gt; lia).
    sstep; sstep. destruct (has state user_set_non_blocking) eqn:Eu; simpl.
    + sstep. right. by simpl.
    + sstep. eapply wp_mono; [apply Hw|]. simpl. intros r e' (Hi' & [(Hr' & Hf' & Hnr)|(Hr' & Hb')]).
      * replace (r <? 0) with true by (symmetry; apply Z.ltb_lt; lia). sstep. right.
        split_and!; simpl; eauto. intros. congruence.
      * replace (r <? 0) with false by (symmetry; apply Z.ltb_ge; lia).
        destruct Hf as [Hf|[? _]]; [|done]. pose proof (idle_spurious _ _ Hi) as S1. pose proof (idle_spurious _ _ Hi') as S2.
        eapply wp_mono; [apply IH; destruct Hb'; [right|left]; [split; [done|lia]|lia]|].
        intros p e'' HR. exact (returned_later state e e' _ _ (idle_idle _ _ _ Hi Hi') HR).
  - replace (n >=? 0) with false by (symmetry; rewrite Z.geb_leb; apply Z.leb_gt; lia).
    sstep; sstep. rewrite orb_true_r. sstep. right. by simpl.
  - replace (n >=? 0) with false by (symmetry; rewrite Z.geb_leb; apply Z.leb_gt; lia).
    destruct (failed_system v Hv) as (F1 & F2 & F3).
    sstep; sstep. rewrite <- negb_orb, <- not_ready_would_block, F2, orb_true_r. sstep.
    right. split_and!; try done. simpl. intros. congruence.
Qed.
End attempts.
