(* ===== verification/SocketTheorems.v ===== *)
(** * What the socket operations promise

    The receive and send operations of [socket_ops] on datagram sockets,
    against the documented behaviour of the system calls they make
    ([Datagrams]). *)

From S2P Require Import Prelude SocketOps SocketRules.
Import socket_ops.

(** ** Datagram sockets

    The system calls that receive from [s] into [size] bytes, and those that
    send [size] bytes, where the list of buffers at [bufs] has [iov_total]
    bytes. *)
Section calls.
Context (iov_total : ptr -> Z -> Z).

Definition receives (c : syscall) : option (Z * Z) :=
  match c with
  | Sys_recv s _ size 0 | Sys_recvfrom s _ size 0 _ _ => Some (s, size)
  | Sys_recvmsg s _ _ bufs count 0 => Some (s, iov_total bufs count)
  | _ => None
  end.

Definition sends (c : syscall) : option (Z * Z) :=
  match c with
  | Sys_send s _ size 16384 | Sys_sendto s _ size 16384 _ _ => Some (s, size)
  | Sys_sendmsg s _ _ bufs count 16384 => Some (s, iov_total bufs count)
  | _ => None
  end.
End calls.

(** A kernel's datagram sockets: the datagrams waiting on a socket, the sizes
    of those sent on it, whether it is readable or writable, how many more
    signals will interrupt the thread, and how many more polls will report a
    socket that is not ready (Linux reports one as readable for a datagram
    that it then drops, for its checksum).  A receive, without flags, takes
    one whole datagram, of which at most [size] bytes are stored; datagrams
    may arrive at any time. *)
Class Datagrams (K : Type) `{Kernel K} := {
  rx : K -> Z -> list (list Z);
  tx : K -> Z -> list Z;
  readable : K -> Z -> Prop;
  writable : K -> Z -> Prop;
  signals : K -> nat;
  spurious : K -> nat;
  iov_total : ptr -> Z -> Z;

  took (s size n : Z) (k k' : K) : Prop :=
    exists d arrived, rx k s ++ arrived = d :: rx k' s /\ n = Z.min (Z.of_nat (length d)) size;
  no_rx (s : Z) (k k' : K) : Prop := (exists arrived, rx k' s = rx k s ++ arrived) /\ (spurious k' <= spurious k)%nat;
  sent (s size n : Z) (k k' : K) : Prop := tx k' s = tx k s ++ [size] /\ n = size;
  no_tx (s : Z) (k k' : K) : Prop := tx k' s = tx k s /\ (spurious k' <= spurious k)%nat;

  sys_receive c s size k r k' :
    receives iov_total c = Some (s, size) -> sys_call c k = (r, k') ->
    took s size (r_ret r) k k' \/
    r_ret r = -1 /\ no_rx s k k' /\
      ((r_errno r = EAGAIN /\ ~ readable k s /\ rx k s = []) \/
       (r_errno r = EINTR /\ (signals k' < signals k)%nat) \/
       r_errno r ∉ [0; EAGAIN; EINTR]);
  sys_send c s size k r k' :
    sends iov_total c = Some (s, size) -> sys_call c k = (r, k') ->
    sent s size (r_ret r) k k' \/
    r_ret r = -1 /\ no_tx s k k' /\
      ((r_errno r = EAGAIN /\ ~ writable k s) \/
       (r_errno r = EINTR /\ (signals k' < signals k)%nat) \/
       r_errno r ∉ [0; EAGAIN; EINTR]);
  sys_poll_in s k r k' :
    sys_call (Sys_poll s POLLIN (-1)) k = (r, k') ->
    no_rx s k k' /\ (r_ret r < 0 /\ r_errno r ∉ [0; EAGAIN] \/ 0 <= r_ret r /\ (readable k' s \/ (spurious k' < spurious k)%nat));
  sys_poll_out s k r k' :
    sys_call (Sys_poll s POLLOUT (-1)) k = (r, k') ->
    no_tx s k k' /\ (r_ret r < 0 /\ r_errno r ∉ [0; EAGAIN] \/ 0 <= r_ret r /\ (writable k' s \/ (spurious k' < spurious k)%nat));
}.

Section datagrams.
Context {K : Type} `{Datagrams K}.
Implicit Types (e : Env K).

Definition no_datagram (s : Z) (k k' : K) : Prop := rx k s = [].

Lemma no_rx_trans s k1 k2 k3 : no_rx s k1 k2 -> no_rx s k2 k3 -> no_rx s k1 k3.
Proof. intros [[a E1] S1] [[b E2] S2]. split; [exists (a ++ b); by rewrite E2, E1, app_assoc|lia]. Qed.

Lemma no_rx_took s size n k1 k2 k3 : no_rx s k1 k2 -> took s size n k2 k3 -> took s size n k1 k3.
Proof.
  intros [[a E1] _] (d & b & E2 & ->). exists d, (a ++ b). split; [|done].
  by rewrite app_assoc, <- E1.
Qed.

Lemma no_rx_no_datagram s k1 k2 k3 : no_rx s k1 k2 -> no_datagram s k2 k3 -> no_datagram s k1 k3.
Proof.
  unfold no_datagram. intros [[a E1] _] E2. rewrite E2 in E1. symmetry in E1.
  by apply app_eq_nil in E1 as [? _].
Qed.

Lemma no_tx_trans s k1 k2 k3 : no_tx s k1 k2 -> no_tx s k2 k3 -> no_tx s k1 k3.
Proof. unfold no_tx. intros [E1 S1] [E2 S2]. split; [congruence|lia]. Qed.

Lemma no_tx_sent s size n k1 k2 k3 : no_tx s k1 k2 -> sent s size n k2 k3 -> sent s size n k1 k3.
Proof. unfold no_tx, sent. intros [-> _]. done. Qed.

(** A receiving, or sending, system call followed by [get_last_error] is an
    attempt. *)
Lemma attempted_receive c s size e r k :
  receives iov_total c = Some (s, size) -> 0 <= size -> sys_call c (kernel e) = (r, k) ->
  attempted (took s size) (no_rx s) (no_datagram s) (fun k => readable k s) signals (kernel e) (r_ret r)
    (mkEnv k (r_errno r) (if r_ret r <? 0 then system_error (r_errno r) else error.clear (ec e))).
Proof.
  intros Hc Hsize Hcall.
  destruct (sys_receive _ _ _ _ _ _ Hc Hcall) as [Ht|(Hr & Hi & Hcases)].
  - pose proof Ht as (d & a & _ & Hn). replace (r_ret r <? 0) with false by (symmetry; apply Z.ltb_ge; lia).
    constructor; [lia|done|done].
  - rewrite Hr. simpl. destruct Hcases as [(-> & Hb & He)|[(-> & Hs)|Hv]].
    + by apply attempt_blocked.
    + by apply attempt_interrupted.
    + by apply attempt_failed.
Qed.

Lemma attempted_send c s size e r k :
  sends iov_total c = Some (s, size) -> 0 <= size -> sys_call c (kernel e) = (r, k) ->
  attempted (sent s size) (no_tx s) (fun _ _ => True) (fun k => writable k s) signals (kernel e) (r_ret r)
    (mkEnv k (r_errno r) (if r_ret r <? 0 then system_error (r_errno r) else error.clear (ec e))).
Proof.
  intros Hc Hsize Hcall.
  destruct (sys_send _ _ _ _ _ _ Hc Hcall) as [Ht|(Hr & Hi & Hcases)].
  - pose proof Ht as (_ & Hn). replace (r_ret r <? 0) with false by (symmetry; apply Z.ltb_ge; lia).
    constructor; [lia|done|done].
  - rewrite Hr. simpl. destruct Hcases as [(-> & Hb)|[(-> & Hs)|Hv]].
    + by apply attempt_blocked.
    + by apply attempt_interrupted.
    + by apply attempt_failed.
Qed.

(** Waiting for the socket to become readable, or writable. *)
Lemma poll_fd_waits (idle : K -> K -> Prop) (ready : K -> Prop) events s :
  s <> invalid_socket ->
  (forall k r k', sys_call (Sys_poll s events (-1)) k = (r, k') ->
     idle k k' /\ (r_ret r < 0 /\ r_errno r ∉ [0; EAGAIN] \/ 0 <= r_ret r /\ (ready k' \/ (spurious k' < spurious k)%nat))) ->
  is_wait idle ready spurious (poll_fd events s 0 (-1)).
Proof.
  intros Hs Hpoll e. unfold poll_fd. apply Z.eqb_neq in Hs as ->. repeat sstep.
  destruct (Hpoll _ _ _ Hcall) as [Hi [[Hr Hv]|[Hr Hrd]]].
  - replace (r_ret r <? 0) with true by (symmetry; apply Z.ltb_lt; lia).
    rewrite !not_elem_of_cons in Hv. destruct Hv as (V0 & V1 & _).
    replace (r_ret r =? 0) with false by (symmetry; apply Z.eqb_neq; lia).
    repeat sstep. split; [done|]. left. split_and!; [lia|by apply negb_true_iff, Z.eqb_neq|].
    apply not_true_iff_false. rewrite not_ready_spec. by intros [=].
  - replace (r_ret r <? 0) with false by (symmetry; apply Z.ltb_ge; lia).
    destruct (r_ret r =? 0); repeat sstep; (split; [done|]); by right.
Qed.

Lemma poll_read_waits s : s <> invalid_socket ->
  is_wait (no_rx s) (fun k => readable k s) spurious (poll_read s 0 (-1)).
Proof. intros Hs. apply poll_fd_waits; [done|]. apply sys_poll_in. Qed.

Lemma poll_write_waits s : s <> invalid_socket ->
  is_wait (no_tx s) (fun k => writable k s) spurious (poll_write s 0 (-1)).
Proof. intros Hs. apply poll_fd_waits; [done|]. apply sys_poll_out. Qed.

(** What the non-blocking operations report, and what the synchronous ones
    return with, for a receive and for a send of [size] bytes on [s]. *)
Definition receive_reported (s size bt : Z) e (done : bool) (bytes : Z) (e' : Env K) : Prop :=
  reported (took s size) (no_rx s) (no_datagram s) bt e done bytes e'.
Definition send_reported (s size bt : Z) e (done : bool) (bytes : Z) (e' : Env K) : Prop :=
  reported (sent s size) (no_tx s) (fun _ _ => True) bt e done bytes e'.
Definition receive_returned (s size state : Z) e (bytes : Z) (e' : Env K) : Prop :=
  returned (took s size) (no_rx s) (no_datagram s) state e bytes e'.
Definition send_returned (s size state : Z) e (bytes : Z) (e' : Env K) : Prop :=
  returned (sent s size) (no_tx s) (fun _ _ => True) state e bytes e'.

Lemma receive_loop_reports {A} (m : A -> prog (Env K) (Z * A)) s size bt fuel a e :
  is_attempt (took s size) (no_rx s) (no_datagram s) (fun k => readable k s) signals m ->
  (signals (kernel e) < fuel)%nat ->
  wp (non_blocking_loop fuel false m bt a) e (fun p => receive_reported s size bt e p.1.1 p.1.2).
Proof.
  intros Hm Hf. eapply non_blocking_loop_reports; [| | |exact Hm|done].
  - intros. by eapply no_rx_took.
  - intros. by eapply no_rx_trans.
  - intros. by eapply no_rx_no_datagram.
Qed.

Lemma send_loop_reports {A} (m : A -> prog (Env K) (Z * A)) s size bt fuel a e :
  is_attempt (sent s size) (no_tx s) (fun _ _ => True) (fun k => writable k s) signals m ->
  (signals (kernel e) < fuel)%nat ->
  wp (non_blocking_loop fuel false m bt a) e (fun p => send_reported s size bt e p.1.1 p.1.2).
Proof.
  intros Hm Hf. eapply non_blocking_loop_reports; [| | |exact Hm|done].
  - intros. by eapply no_tx_sent.
  - intros. by eapply no_tx_trans.
  - done.
Qed.

Lemma receive_loop_returns {A} (m : A -> prog (Env K) (Z * A)) s size state fuel a e :
  s <> invalid_socket ->
  is_attempt (took s size) (no_rx s) (no_datagram s) (fun k => readable k s) signals m ->
  (spurious (kernel e) + 2 <= fuel)%nat ->
  wp (sync_loop fuel false m state (poll_read s 0 (-1)) a) e (fun p => receive_returned s size state e p.1).
Proof.
  intros Hs Hm Hf. eapply sync_loop_returns; [| | | |exact Hm|by apply poll_read_waits|by left].
  - intros. by eapply no_rx_took.
  - intros. by eapply no_rx_trans.
  - intros. by eapply no_rx_no_datagram.
  - by intros k1 k2 [_ ?].
Qed.

Lemma send_loop_returns {A} (m : A -> prog (Env K) (Z * A)) s size state fuel a e :
  s <> invalid_socket ->
  is_attempt (sent s size) (no_tx s) (fun _ _ => True) (fun k => writable k s) signals m ->
  (spurious (kernel e) + 2 <= fuel)%nat ->
  wp (sync_loop fuel false m state (poll_write s 0 (-1)) a) e (fun p => send_returned s size state e p.1).
Proof.
  intros Hs Hm Hf. eapply sync_loop_returns; [| | | |exact Hm|by apply poll_write_waits|by left].
  - intros. by eapply no_tx_sent.
  - intros. by eapply no_tx_trans.
  - done.
  - by intros k1 k2 [_ ?].
Qed.

(** The attempts of [socket_ops], in the form of [is_attempt]. *)
Ltac attempt_is law :=
  match goal with
  | |- is_attempt _ _ _ _ _ (plain _) =>
      apply is_attempt_plain; intros ?e;
      unfold recv, recv1, send, send1, sendto, sendto1, call_sendto; repeat sstep;
      eapply law; [| |eassumption]; [reflexivity|done]
  | |- _ =>
      intros ?a ?e; unfold recvfrom, recvfrom1, call_recvfrom, recvmsg; repeat sstep;
      eapply law; [| |eassumption]; [reflexivity|done]
  end.

Section operations.
Context (fuel : nat) (s : Z) (e : Env K) (valid : s <> invalid_socket).

(** The receive operations report: the datagram at the front of the queue,
    whole, with the number of bytes stored; or, without touching the queue,
    that it is empty, or an error. *)
Lemma non_blocking_receives (data bufs addr : ptr) (size count bt addrlen : Z) (addrlen' : option Z)
    (out_flags : Z) :
  0 <= size -> 0 <= iov_total bufs count -> (signals (kernel e) < fuel)%nat ->
  wp (non_blocking_recv fuel s bufs count 0 false bt) e
     (fun p => receive_reported s (iov_total bufs count) bt e p.1 p.2) /\
  wp (non_blocking_recv1 fuel s data size 0 false bt) e
     (fun p => receive_reported s size bt e p.1 p.2) /\
  wp (non_blocking_recvfrom fuel s bufs count 0 addr addrlen bt) e
     (fun p => receive_reported s (iov_total bufs count) bt e p.1.1 p.1.2) /\
  wp (non_blocking_recvfrom1 fuel s data size 0 addr addrlen' bt) e
     (fun p => receive_reported s size bt e p.1.1 p.1.2) /\
  wp (non_blocking_recvmsg fuel s bufs count 0 out_flags bt) e
     (fun p => receive_reported s (iov_total bufs count) bt e p.1.1 p.1.2).
Proof using Type.
  intros Hsize Htotal Hfuel. unfold non_blocking_recv, non_blocking_recv1.
  split_and!; [apply wp_bind|apply wp_bind| | |];
    (eapply wp_mono; [apply receive_loop_reports; [attempt_is attempted_receive|done]|]);
    intros [[done bytes] x] e' HR; try apply wp_ret; exact HR.
Qed.

Lemma non_blocking_sends (data bufs addr : ptr) (size count bt addrlen : Z) :
  0 <= size -> 0 <= iov_total bufs count -> (signals (kernel e) < fuel)%nat ->
  wp (non_blocking_send fuel s bufs count 0 bt) e
     (fun p => send_reported s (iov_total bufs count) bt e p.1 p.2) /\
  wp (non_blocking_send1 fuel s data size 0 bt) e
     (fun p => send_reported s size bt e p.1 p.2) /\
  wp (non_blocking_sendto fuel s bufs count 0 addr addrlen bt) e
     (fun p => send_reported s (iov_total bufs count) bt e p.1 p.2) /\
  wp (non_blocking_sendto1 fuel s data size 0 addr addrlen bt) e
     (fun p => send_reported s size bt e p.1 p.2).
Proof using Type.
  intros Hsize Htotal Hfuel.
  unfold non_blocking_send, non_blocking_send1, non_blocking_sendto, non_blocking_sendto1.
  split_and!; apply wp_bind;
    (eapply wp_mono; [apply send_loop_reports; [attempt_is attempted_send|done]|]);
    intros [[done bytes] x] e' HR; apply wp_ret; exact HR.
Qed.

(** The synchronous operations on a datagram socket. *)
Lemma sync_receives (data bufs addr : ptr) (state size count addrlen : Z) (addrlen' : option Z)
    (out_flags : Z) (all_empty : bool) :
  0 <= size -> 0 <= iov_total bufs count -> has state stream_oriented = false -> (spurious (kernel e) + 2 <= fuel)%nat ->
  wp (sync_recv fuel s state bufs count 0 all_empty) e
     (fun n => receive_returned s (iov_total bufs count) state e n) /\
  wp (sync_recv1 fuel s state data size 0) e (fun n => receive_returned s size state e n) /\
  wp (sync_recvfrom fuel s state bufs count 0 addr addrlen) e
     (fun p => receive_returned s (iov_total bufs count) state e p.1) /\
  wp (sync_recvfrom1 fuel s state data size 0 addr addrlen') e
     (fun p => receive_returned s size state e p.1) /\
  wp (sync_recvmsg fuel s state bufs count 0 out_flags) e
     (fun p => receive_returned s (iov_total bufs count) state e p.1).
Proof using valid.
  intros Hsize Htotal Hst Hfuel.
  unfold sync_recv, sync_recv1, sync_recvfrom, sync_recvfrom1, sync_recvmsg.
  rewrite (proj2 (Z.eqb_neq s invalid_socket) valid), Hst, !andb_false_r.
  split_and!; [apply wp_bind|apply wp_bind| | |];
    (eapply wp_mono; [apply receive_loop_returns; [done|attempt_is attempted_receive|done]|]);
    intros [bytes x] e' HR; try apply wp_ret; exact HR.
Qed.

Lemma sync_sends (data bufs addr : ptr) (state size count addrlen : Z) (all_empty : bool) :
  0 <= size -> 0 <= iov_total bufs count -> has state stream_oriented = false -> (spurious (kernel e) + 2 <= fuel)%nat ->
  wp (sync_send fuel s state bufs count 0 all_empty) e
     (fun n => send_returned s (iov_total bufs count) state e n) /\
  wp (sync_send1 fuel s state data size 0) e (fun n => send_returned s size state e n) /\
  wp (sync_sendto fuel s state bufs count 0 addr addrlen) e
     (fun n => send_returned s (iov_total bufs count) state e n) /\
  wp (sync_sendto1 fuel s state data size 0 addr addrlen) e
     (fun n => send_returned s size state e n).
Proof using valid.
  intros Hsize Htotal Hst Hfuel. unfold sync_send, sync_send1, sync_sendto, sync_sendto1.
  rewrite (proj2 (Z.eqb_neq s invalid_socket) valid), Hst, !andb_false_r.
  split_and!; apply wp_bind;
    (eapply wp_mono; [apply send_loop_returns; [done|attempt_is attempted_send|done]|]);
    intros [bytes x] e' HR; apply wp_ret; exact HR.
Qed.
End operations.
End datagrams.

(** ** A kernel with one datagram socket

    Socket 3 has a queue of datagrams and a log of those sent; a thread that
    waits for the empty queue may be told falsely that there is one, so many
    times, and then sees one datagram of two bytes arrive. *)
Record one_socket := OneSocket { waiting : list (list Z); outgoing : list Z; interruptions : nat; false_polls : nat }.

Definition fails (v : Z) (k : one_socket) : reply * one_socket := (mkReply (-1) v 0 0, k).

Definition one_socket_call (c : syscall) (k : one_socket) : reply * one_socket :=
  match receives (fun _ n => n) c, sends (fun _ n => n) c with
  | Some (s, size), _ =>
      if negb (s =? 3) then fails EBADF k else
      match interruptions k, waiting k with
      | S n, _ => fails EINTR (OneSocket (waiting k) (outgoing k) n (false_polls k))
      | O, d :: q => (mkReply (Z.min (Z.of_nat (length d)) size) 0 16 0, OneSocket q (outgoing k) 0 (false_polls k))
      | O, [] => fails EAGAIN k
      end
  | None, Some (s, size) =>
      if negb (s =? 3) then fails EBADF k else
      match interruptions k with
      | S n => fails EINTR (OneSocket (waiting k) (outgoing k) n (false_polls k))
      | O => (mkReply size 0 0 0, OneSocket (waiting k) (outgoing k ++ [size]) 0 (false_polls k))
      end
  | None, None =>
      match c with
      | Sys_poll s _ _ =>
          if negb (s =? 3) then fails EBADF k else
          match waiting k, false_polls k with
          | [], O => (mkReply 1 0 0 0, OneSocket [[7; 7]] (outgoing k) (interruptions k) 0)
          | [], S n => (mkReply 1 0 0 0, OneSocket [] (outgoing k) (interruptions k) n)
          | _, _ => (mkReply 1 0 0 0, k)
          end
      | _ => fails EINVAL k
      end
  end.

#[export] Instance one_socket_kernel : Kernel one_socket := one_socket_call.

#[export, refine] Instance one_socket_datagrams : Datagrams one_socket := {
  rx k s := if s =? 3 then waiting k else [];
  tx k s := if s =? 3 then outgoing k else [];
  readable k s := s = 3 /\ waiting k <> [];
  writable k s := s = 3;
  signals := interruptions;
  spurious := false_polls;
  iov_total _ n := n;
}.
Proof.
  - intros c s size k r k' Hc. unfold sys_call, one_socket_kernel, one_socket_call. rewrite Hc.
    destruct (Z.eqb_spec s 3) as [->|Hs]; simpl; [|intros [= <- <-]; right].
    + destruct k as [[|d q] out [|n] f]; simpl; intros [= <- <-]; simpl.
      * right. split; [done|]. split; [split; [by exists []|lia]|]. left. split; [done|]. split; [|done].
        by intros [_ []].
      * right. split; [done|]. split; [split; [by exists []|lia]|]. right; left. split; [done|lia].
      * left. exists d, []. split; [by rewrite app_nil_r|done].
      * right. split; [done|]. split; [split; [exists []; by rewrite app_nil_r|lia]|]. right; left. split; [done|lia].
    + split; [done|]. split; [split; [by exists []|lia]|]. right; right.
      simpl. by vm_compute; set_solver.
  - intros c s size k r k' Hc. unfold sys_call, one_socket_kernel, one_socket_call. rewrite Hc.
    assert (receives (fun _ n => n) c = None) as ->.
    { destruct c; simpl in Hc; try done; by repeat case_match. }
    destruct (Z.eqb_spec s 3) as [->|Hs]; simpl; [|intros [= <- <-]; right].
    + destruct k as [q out [|n] f]; simpl; intros [= <- <-]; simpl; [by left|].
      right. split; [done|]. split; [split; [done|lia]|]. right; left. split; [done|lia].
    + split; [done|]. split; [split; [done|lia]|]. right; right.
      simpl. by vm_compute; set_solver.
  - intros s k r k'. unfold sys_call, one_socket_kernel, one_socket_call. simpl.
    destruct (Z.eqb_spec s 3) as [->|Hs]; simpl.
    + destruct k as [[|d q] out n [|f]]; simpl; intros [= <- <-]; simpl.
      * split; [split; [by exists [[7; 7]]|lia]|]. right. split; [done|by left].
      * split; [split; [by exists []|lia]|]. right. split; [done|right; lia].
      * split; [split; [exists []; by rewrite app_nil_r|lia]|]. right. split; [done|by left].
      * split; [split; [exists []; by rewrite app_nil_r|lia]|]. right. split; [done|by left].
    + intros [= <- <-]. split; [split; [by exists []|lia]|]. left.
      split; [done|]. simpl. vm_compute; set_solver.
  - intros s k r k'. unfold sys_call, one_socket_kernel, one_socket_call. simpl.
    destruct (Z.eqb_spec s 3) as [->|Hs]; simpl.
    + destruct k as [[|d q] out n [|f]]; simpl; intros [= <- <-]; simpl; (split; [split; [done|lia]|]); right; (split; [done|by left]).
    + intros [= <- <-]. split; [split; [done|lia]|]. left.
      split; [done|]. simpl. vm_compute; set_solver.
Defined.

(** ** The properties *)

(** C31. On a datagram socket, each of the nine non-blocking operations,
    called without flags, terminates, retrying while signals interrupt it, and reports exactly
    what happened: done, with the datagram at the front of the queue taken
    whole and the number of its bytes that fit in the buffer (or, for a
    send, the datagram sent); not ready, only when the queue was empty, with
    nothing consumed and [bytes_transferred] untouched; or done with an error
    and nothing transferred.  Each of the nine synchronous operations returns
    after at most two attempts with a wait between them, and one more of each
    for every poll that reports a socket ready which is not: with the transfer,
    or with an error and nothing transferred.  The error is would_block only
    on a socket its user made non-blocking, and then only when the queue was
    empty; no operation waits on such a socket. *)
Theorem udp_operations {K : Type} `{Datagrams K} (fuel fuel' : nat) (s : Z) (e : Env K)
    (data bufs addr : ptr) (state size count bt addrlen : Z) (addrlen' : option Z) (out_flags : Z)
    (all_empty : bool) (size_ok : 0 <= size) (total_ok : 0 <= iov_total bufs count)
    (fuel_ok : (signals (kernel e) < fuel)%nat)
    (valid : s <> invalid_socket) (datagram : has state stream_oriented = false) (fuel_ok' : (spurious (kernel e) + 2 <= fuel')%nat) :
  let total := iov_total bufs count in
  wp (non_blocking_recv fuel s bufs count 0 false bt) e (fun p => receive_reported s total bt e p.1 p.2) /\
  wp (non_blocking_recv1 fuel s data size 0 false bt) e (fun p => receive_reported s size bt e p.1 p.2) /\
  wp (non_blocking_recvfrom fuel s bufs count 0 addr addrlen bt) e
     (fun p => receive_reported s total bt e p.1.1 p.1.2) /\
  wp (non_blocking_recvfrom1 fuel s data size 0 addr addrlen' bt) e
     (fun p => receive_reported s size bt e p.1.1 p.1.2) /\
  wp (non_blocking_recvmsg fuel s bufs count 0 out_flags bt) e
     (fun p => receive_reported s total bt e p.1.1 p.1.2) /\
  wp (non_blocking_send fuel s bufs count 0 bt) e (fun p => send_reported s total bt e p.1 p.2) /\
  wp (non_blocking_send1 fuel s data size 0 bt) e (fun p => send_reported s size bt e p.1 p.2) /\
  wp (non_blocking_sendto fuel s bufs count 0 addr addrlen bt) e
     (fun p => send_reported s total bt e p.1 p.2) /\
  wp (non_blocking_sendto1 fuel s data size 0 addr addrlen bt) e
     (fun p => send_reported s size bt e p.1 p.2) /\
  wp (sync_recv fuel' s state bufs count 0 all_empty) e (fun n => receive_returned s total state e n) /\
  wp (sync_recv1 fuel' s state data size 0) e (fun n => receive_returned s size state e n) /\
  wp (sync_recvfrom fuel' s state bufs count 0 addr addrlen) e
     (fun p => receive_returned s total state e p.1) /\
  wp (sync_recvfrom1 fuel' s state data size 0 addr addrlen') e
     (fun p => receive_returned s size state e p.1) /\
  wp (sync_recvmsg fuel' s state bufs count 0 out_flags) e
     (fun p => receive_returned s total state e p.1) /\
  wp (sync_send fuel' s state bufs count 0 all_empty) e (fun n => send_returned s total state e n) /\
  wp (sync_send1 fuel' s state data size 0) e (fun n => send_returned s size state e n) /\
  wp (sync_sendto fuel' s state bufs count 0 addr addrlen) e (fun n => send_returned s total state e n) /\
  wp (sync_sendto1 fuel' s state data size 0 addr addrlen) e (fun n => send_returned s size state e n).
Proof.
  destruct (non_blocking_receives fuel s e data bufs addr size count bt addrlen addrlen' out_flags
              size_ok total_ok fuel_ok) as (? & ? & ? & ? & ?).
  destruct (non_blocking_sends fuel s e data bufs addr size count bt addrlen
              size_ok total_ok fuel_ok) as (? & ? & ? & ?).
  destruct (sync_receives fuel' s e valid data bufs addr state size count addrlen addrlen' out_flags
              all_empty size_ok total_ok datagram fuel_ok') as (? & ? & ? & ? & ?).
  destruct (sync_sends fuel' s e valid data bufs addr state size count addrlen all_empty
              size_ok total_ok datagram fuel_ok') as (? & ? & ? & ?).
  by split_and!.
Qed.

(** A socket with two datagrams waiting, on which the next two receives are
    interrupted. *)
Definition busy_socket : Env one_socket := mkEnv (OneSocket [[1; 2; 3]; [4]] [] 2 0) 0 (system_error 0).

(** A socket with nothing waiting: the receive waits for a datagram, and the
    first poll is wrong. *)
Definition quiet_socket : Env one_socket := mkEnv (OneSocket [] [] 0 1) 0 (system_error 0).

Lemma udp_operations_witness :
  wp (socket_ops.non_blocking_recvfrom1 3 3 0 28 0 0 (Some 16) 0) busy_socket
    (fun p => receive_reported 3 28 0 busy_socket p.1.1 p.1.2) /\
  socket_ops.non_blocking_recvfrom1 3 3 0 28 0 0 (Some 16) 0 busy_socket =
    Ok ((true, 3, Some 16), mkEnv (OneSocket [[4]] [] 0 0) 0 (system_error 0)) /\
  wp (socket_ops.sync_recvfrom1 3 3 datagram_oriented 0 28 0 0 (Some 16)) quiet_socket
    (fun p => receive_returned 3 28 datagram_oriented quiet_socket p.1) /\
  socket_ops.sync_recvfrom1 3 3 datagram_oriented 0 28 0 0 (Some 16) quiet_socket =
    Ok ((2, Some 16), mkEnv (OneSocket [] [] 0 0) 0 (system_error 0)) /\
  socket_ops.sync_recvfrom1 2 3 datagram_oriented 0 28 0 0 (Some 16) quiet_socket = OutOfFuel.
Proof.
  split; [|split; [vm_compute; reflexivity|split; [|split; vm_compute; reflexivity]]].
  - apply (udp_operations 3 2 3 busy_socket 0 0 0 datagram_oriented 28 28 0 16 (Some 16) 0 true);
      [lia|simpl; lia|simpl; lia|done|reflexivity|simpl; lia].
  - apply (udp_operations 1 3 3 quiet_socket 0 0 0 datagram_oriented 28 28 0 16 (Some 16) 0 true);
      [lia|simpl; lia|simpl; lia|done|reflexivity|simpl; lia].
Defined.
