(* ===== verification/SocketModes.v ===== *)
(** * Modes, options and accepted connections

    The agreement of the non-blocking flags of a socket's state with the
    mode of its descriptor, whatever sequence of [set_user_non_blocking],
    [set_internal_non_blocking] and FIONBIO [ioctl]s is applied; socket
    options read back as they were set; and which failed accepts are
    reported. *)

From S2P Require Import Prelude SocketOps SocketRules.
Import socket_ops.

(** ** The flags of a state *)

Lemma has_pow2 st n : 0 <= n -> has st (2 ^ n) = Z.testbit st n.
Proof.
  intros Hn. unfold has. destruct (Z.testbit st n) eqn:E.
  - apply negb_true_iff, Z.eqb_neq. intros H0.
    assert (Z.testbit (Z.land st (2 ^ n)) n = false) as F by by rewrite H0, Z.bits_0.
    rewrite Z.land_spec, E, Z.pow2_bits_true in F by lia. done.
  - apply negb_false_iff, Z.eqb_eq. apply Z.bits_inj'. intros i Hi.
    rewrite Z.bits_0, Z.land_spec, Z.pow2_bits_eqb by lia.
    destruct (Z.eqb_spec n i) as [->|]; [by rewrite E|by rewrite andb_false_r].
Qed.

Lemma has_lor st a b : has st (Z.lor a b) = has st a || has st b.
Proof.
  unfold has. rewrite Z.land_lor_distr_r.
  destruct (Z.eqb_spec (Z.land st a) 0) as [->|Ha]; [by rewrite Z.lor_0_l|].
  apply negb_true_iff, Z.eqb_neq. by intros [? ?]%Z.lor_eq_0_iff.
Qed.

(** [non_blocking] is the two flags. *)
Lemma has_non_blocking st : has st non_blocking = Z.testbit st 0 || Z.testbit st 1.
Proof. unfold non_blocking. rewrite has_lor, <- !has_pow2 by lia. done. Qed.

Lemma has_user st : has st user_set_non_blocking = Z.testbit st 0.
Proof. by rewrite <- has_pow2 by lia. Qed.

Lemma user_added st : has (add_flags st user_set_non_blocking) non_blocking = true.
Proof. rewrite has_non_blocking. unfold add_flags. by rewrite Z.lor_spec, orb_true_r. Qed.

Lemma internal_added st : has (add_flags st internal_non_blocking) non_blocking = true.
Proof.
  rewrite has_non_blocking. unfold add_flags.
  rewrite !Z.lor_spec. change (Z.testbit internal_non_blocking 1) with true. by rewrite !orb_true_r.
Qed.

Lemma both_dropped st :
  has (drop_flags st (Z.lor user_set_non_blocking internal_non_blocking)) non_blocking = false.
Proof. rewrite has_non_blocking. unfold drop_flags. by rewrite !Z.ldiff_spec, !andb_false_r. Qed.

Lemma internal_dropped st : has st user_set_non_blocking = false ->
  has (drop_flags st internal_non_blocking) non_blocking = false.
Proof.
  rewrite has_user, has_non_blocking. unfold drop_flags. intros Hu.
  rewrite !Z.ldiff_spec, Hu. by rewrite andb_false_r.
Qed.

(** ** The mode of a descriptor *)

(** The descriptors of a kernel: whether O_NONBLOCK is set on each, and the
    system calls that read and change it.  A failed call sets a nonzero
    [errno] and changes nothing. *)
Class Descriptors (K : Type) `{Kernel K} := {
  mode : K -> Z -> bool;
  sys_fionbio s arg k r k' :
    sys_call (Sys_ioctl s FIONBIO arg) k = (r, k') ->
    (0 <= r_ret r /\ r_val r = arg /\ mode k' s = negb (arg =? 0)) \/
    (r_ret r < 0 /\ r_errno r <> 0 /\ mode k' s = mode k s);
  sys_getfl s k r k' :
    sys_call (Sys_fcntl s F_GETFL 0) k = (r, k') ->
    mode k' s = mode k s /\
    (0 <= r_ret r /\ Z.testbit (r_ret r) 11 = mode k s \/ r_ret r < 0 /\ r_errno r <> 0);
  sys_setfl s flags k r k' :
    sys_call (Sys_fcntl s F_SETFL flags) k = (r, k') ->
    (0 <= r_ret r /\ mode k' s = Z.testbit flags 11) \/
    (r_ret r < 0 /\ r_errno r <> 0 /\ mode k' s = mode k s);
}.

(** The calls of the program that change the mode of a socket. *)
Inductive mode_call := SetUser (value : bool) | SetInternal (value : bool) | IoctlFionbio (arg : Z).

Section modes.
Context {K : Type} `{Descriptors K}.
Implicit Types (e : Env K).

Definition agree (s state : Z) e : Prop := has state non_blocking = mode (kernel e) s.

Definition run_mode_call (c : mode_call) (s state : Z) : prog (Env K) (bool * Z) :=
  match c with
  | SetUser value => set_user_non_blocking s state value
  | SetInternal value => set_internal_non_blocking s state value
  | IoctlFionbio arg =>
      '(result, state, _) ← ioctl s state FIONBIO arg; mret (result >=? 0, state)
  end.

Fixpoint run_mode_calls (cs : list mode_call) (s state : Z) : prog (Env K) Z :=
  match cs with
  | [] => mret state
  | c :: cs => '(_, state) ← run_mode_call c s state; run_mode_calls cs s state
  end.

Lemma geb_true x : 0 <= x -> (x >=? 0) = true.
Proof. intros. apply Z.geb_le. lia. Qed.
Lemma geb_false x : x < 0 -> (x >=? 0) = false.
Proof. intros. rewrite Z.geb_leb. apply Z.leb_gt. lia. Qed.
Lemma ltb_neg x : x < 0 -> (x <? 0) = true.
Proof. apply Z.ltb_lt. Qed.
Lemma ltb_nonneg x : 0 <= x -> (x <? 0) = false.
Proof. apply Z.ltb_ge. Qed.

(** The fcntl path, and the whole of the system calls: they either set the
    mode or leave it, and say which. *)
Definition mode_set (s : Z) (value : bool) e (result : Z) (e' : Env K) : Prop :=
  (0 <= result /\ failed (ec e') = false /\ mode (kernel e') s = value) \/
  (result < 0 /\ failed (ec e') = true /\ mode (kernel e') s = mode (kernel e) s).

Lemma failed_errno v : v <> 0 -> failed (system_error v) = true.
Proof. intros. by apply negb_true_iff, Z.eqb_neq. Qed.

Lemma fcntl_sets s (value : bool) e :
  wp (r ← call (Sys_fcntl s F_GETFL 0);
      let result := r_ret r in
      get_last_error (result <? 0);;
      if result >=? 0 then
        let flag := if value then Z.lor result O_NONBLOCK else Z.ldiff result O_NONBLOCK in
        result ← (if negb (flag =? result) then
                    r ← call (Sys_fcntl s F_SETFL flag); mret (r_ret r)
                  else mret 0);
        get_last_error (result <? 0);;
        mret result
      else mret result) e (mode_set s value e).
Proof.
  sstep; sstep. destruct (sys_getfl _ _ _ _ Hcall) as [Hm [[Hr Hb]|[Hr Hv]]].
  - rewrite (geb_true _ Hr). sstep; sstep. rewrite ltb_nonneg by done.
    set (flag := if value then _ else _).
    assert (Z.testbit flag 11 = value) as Hflag.
    { subst flag. destruct value; [by rewrite Z.lor_spec, orb_true_r|by rewrite Z.ldiff_spec, andb_false_r]. }
    sstep. destruct (Z.eqb_spec flag (r_ret r)) as [E|E]; simpl.
    + repeat sstep. left. simpl. split_and!; [done|done|]. by rewrite Hm, <- Hb, <- E.
    + repeat sstep. destruct (sys_setfl _ _ _ _ _ Hcall0) as [[Hr1 Hm1]|(Hr1 & Hv1 & Hm1)].
      * left. rewrite ltb_nonneg by done. simpl. split_and!; [done|done|by rewrite Hm1].
      * right. rewrite ltb_neg by done. simpl. split_and!; [done|by apply failed_errno|by rewrite Hm1].
  - rewrite (geb_false _ Hr). repeat sstep. rewrite ltb_neg by done. right. simpl.
    split_and!; [done|by apply failed_errno|done].
Qed.

Lemma mode_set_later s value e0 e result e' :
  mode (kernel e) s = mode (kernel e0) s -> mode_set s value e result e' -> mode_set s value e0 result e'.
Proof. intros Hm [?|(? & ? & ?)]; [by left|right]. split_and!; congruence. Qed.

Lemma set_fd_non_blocking_sets s state value e :
  wp (set_fd_non_blocking s state value) e (mode_set s value e).
Proof.
  unfold set_fd_non_blocking, has. destruct (Z.land state possible_dup =? 0); simpl.
  - repeat sstep. destruct (sys_fionbio _ _ _ _ _ Hcall) as [(Hr & _ & Hm)|(Hr & Hv & Hm)].
    + rewrite ltb_nonneg by done. simpl. sstep. left. simpl. split_and!; [done|done|].
      rewrite Hm. by destruct value.
    + rewrite ltb_neg by done. simpl. destruct (r_errno r =? ENOTTY).
      * eapply wp_mono; [apply fcntl_sets|]. intros n e' HR. by eapply mode_set_later; [|exact HR].
      * sstep. right. simpl. split_and!; [done|by apply failed_errno|done].
  - sstep. sstep. sstep. sstep. apply fcntl_sets.
Qed.

(** One call: on success the mode is the one asked for; on failure neither
    the state nor the mode changes; and they agree after it. *)
Lemma mode_call_agrees c s state e :
  s <> invalid_socket -> agree s state e ->
  wp (run_mode_call c s state) e (fun p e' =>
    agree s p.2 e' /\ failed (ec e') = negb p.1 /\
    (p.1 = false -> p.2 = state /\ mode (kernel e') s = mode (kernel e) s) /\
    (p.1 = true -> mode (kernel e') s =
       match c with SetUser v | SetInternal v => v | IoctlFionbio arg => negb (arg =? 0) end)).
Proof.
  intros Hs Ha. apply Z.eqb_neq in Hs. unfold agree in *. destruct c as [v|v|arg]; simpl.
  - unfold set_user_non_blocking. rewrite Hs. sstep.
    eapply wp_mono; [apply set_fd_non_blocking_sets|]. intros n e' [(Hn & He & Hm)|(Hn & He & Hm)].
    + rewrite geb_true by done. sstep. rewrite Hm. split_and!; try done.
      destruct v; [apply user_added|apply both_dropped].
    + rewrite geb_false by done. sstep. rewrite He, Hm. by split_and!.
  - unfold set_internal_non_blocking. rewrite Hs.
    destruct (negb v && has state user_set_non_blocking) eqn:Ev; simpl.
    + repeat sstep. split_and!; done.
    + sstep. eapply wp_mono; [apply set_fd_non_blocking_sets|]. intros n e' [(Hn & He & Hm)|(Hn & He & Hm)].
      * rewrite geb_true by done. sstep. rewrite Hm. split_and!; try done.
        destruct v; [apply internal_added|by apply internal_dropped].
      * rewrite geb_false by done. sstep. rewrite He, Hm. by split_and!.
  - unfold ioctl. rewrite Hs. repeat sstep.
    destruct (sys_fionbio _ _ _ _ _ Hcall) as [(Hr & Hv & Hm)|(Hr & Hv & Hm)].
    + rewrite geb_true, ltb_nonneg, Hv, Hm by done. simpl. split_and!; try done.
      destruct (arg =? 0); simpl; [apply both_dropped|apply user_added].
    + rewrite geb_false, ltb_neg by done. simpl.
      split_and!; [congruence|by apply failed_errno|done|done].
Qed.

Lemma mode_calls_agree cs s : s <> invalid_socket -> forall state e,
  agree s state e -> wp (run_mode_calls cs s state) e (fun state' e' => agree s state' e').
Proof.
  intros Hs. induction cs as [|c cs IH]; intros state e Ha; simpl; [by sstep|].
  sstep. eapply wp_mono; [by apply mode_call_agrees|]. intros [b st] e' (Ha' & _). by apply IH.
Qed.
End modes.

(** ** Socket options *)

(** The receive and send buffer sizes of a kernel's sockets, as socket(7)
    documents them: the kernel doubles the value set, up to a limit, and
    returns the doubled value. *)
Class BufferSizes (K : Type) `{Kernel K} := {
  buffer_size : K -> Z -> Z -> Z;
  buffer_limit : Z;
  buffer_limit_small : buffer_limit < 2 ^ 30;
  sys_set_buffer s optname n k r k' :
    (optname = SO_RCVBUF \/ optname = SO_SNDBUF) -> 0 <= n ->
    sys_call (Sys_setsockopt s SOL_SOCKET optname n 4) k = (r, k') ->
    (r_ret r = 0 /\ buffer_size k' s optname = 2 * Z.min n buffer_limit) \/ r_ret r <> 0;
  sys_get_buffer s optname old k r k' :
    (optname = SO_RCVBUF \/ optname = SO_SNDBUF) ->
    sys_call (Sys_getsockopt s SOL_SOCKET optname old 4) k = (r, k') ->
    buffer_size k' s optname = buffer_size k s optname /\
    ((r_ret r = 0 /\ r_len r = 4 /\ r_val r = buffer_size k s optname) \/ r_ret r <> 0);
}.

Section options.
Context {K : Type} `{BufferSizes K}.
Implicit Types (e : Env K).

(** [setsockopt] then [getsockopt], on an open socket. *)
Definition set_then_get (s state level optname optval optlen : Z) : prog (Env K) (Z * Z * Z) :=
  '(result, state) ← setsockopt s state level optname optval optlen;
  if negb (result =? 0) then mret (result, 0, 0)
  else getsockopt s state level optname 0 optlen.

Lemma buffer_size_reads_back s state optname n e :
  s <> invalid_socket -> (optname = SO_RCVBUF \/ optname = SO_SNDBUF) -> 0 <= n ->
  wp (set_then_get s state SOL_SOCKET optname n sizeof_int) e (fun '(result, optval, optlen) _ =>
    result = 0 -> optval = Z.min n buffer_limit /\ optlen = sizeof_int).
Proof.
  intros Hs Hopt Hn. unfold set_then_get, setsockopt, getsockopt.
  apply Z.eqb_neq in Hs as ->. rewrite !andb_false_l.
  change (SOL_SOCKET =? custom_socket_option_level) with false. simpl.
  assert ((optname =? SO_LINGER) = false) as -> by (destruct Hopt as [-> | ->]; done).
  repeat sstep. change (u32 4) with 4 in *.
  destruct (sys_set_buffer _ _ _ _ _ _ Hopt Hn Hcall) as [[-> Hb]|Hr]; simpl.
  - repeat sstep. change (u32 sizeof_int) with 4 in *.
    destruct (sys_get_buffer _ _ _ _ _ _ Hopt Hcall0) as [_ [(-> & -> & ->)|Hr]]; simpl.
    + intros _. split; [|done]. rewrite Hb.
      assert (((optname =? SO_SNDBUF) || (optname =? SO_RCVBUF)) = true) as ->
        by (destruct Hopt as [-> | ->]; done).
      rewrite Z.mul_comm. by apply Z.quot_mul.
    + done.
  - apply Z.eqb_neq in Hr as E. rewrite E. simpl. by sstep.
Qed.

(** The option that makes aborted connections visible is kept in the state:
    no system call is made for it. *)
Lemma aborted_option_reads_back s state (v : Z) e :
  s <> invalid_socket ->
  set_then_get s state custom_socket_option_level enable_connection_aborted_option v sizeof_int e =
    Ok ((0, if v =? 0 then 0 else 1, sizeof_int), mkEnv (kernel e) (errno e) (error.clear (ec e))).
Proof.
  intros Hs. apply Z.eqb_neq in Hs. destruct e as [k no x].
  unfold set_then_get, setsockopt, getsockopt. rewrite Hs. simpl.
  destruct (Z.eqb_spec v 0) as [->|Hv]; simpl.
  - assert (has (drop_flags state enable_connection_aborted) enable_connection_aborted = false) as F.
    { change enable_connection_aborted with (2 ^ 2). rewrite has_pow2 by lia.
      unfold drop_flags. by rewrite Z.ldiff_spec, andb_false_r. }
    unfold clear_ec, set_ec, get_ec, mbind, prog_bind. simpl. by rewrite F.
  - assert (has (add_flags state enable_connection_aborted) enable_connection_aborted = true) as F.
    { change enable_connection_aborted with (2 ^ 2). rewrite has_pow2 by lia.
      unfold add_flags. by rewrite Z.lor_spec, orb_true_r. }
    unfold clear_ec, set_ec, get_ec, mbind, prog_bind. simpl. by rewrite F.
Qed.
End options.

(** ** Accepting connections *)

(** A listening socket: an accept fails with an error that may be retried
    only [retries] more times. *)
Definition retryable : list Z := [EINTR; EAGAIN; ECONNABORTED; EPROTO].

Class Listener (K : Type) `{Kernel K} := {
  retries : K -> nat;
  sys_accepting s addr addrlen k r k' :
    sys_call (Sys_accept s addr addrlen) k = (r, k') ->
    r_ret r <> -1 \/
    r_ret r = -1 /\ r_errno r <> 0 /\ (r_errno r ∈ retryable -> (retries k' < retries k)%nat);
  sys_poll_listener s k r k' :
    sys_call (Sys_poll s POLLIN (-1)) k = (r, k') ->
    (retries k' <= retries k)%nat /\ (r_ret r < 0 -> r_errno r <> 0 /\ (r_errno r ∉ retryable) \/ r_errno r = EINTR);
}.

Section accepting.
Context {K : Type} `{Listener K}.
Implicit Types (e : Env K).

Definition aborted (x : error_code) : bool :=
  ec_eqb x error.connection_aborted || (ec_value x =? EPROTO).

Lemma accept_attempt s addr addrlen e : s <> invalid_socket ->
  wp (accept s addr addrlen) e (fun p e' =>
    (p.1 <> invalid_socket /\ failed (ec e') = false) \/
    (p.1 = invalid_socket /\ exists v, ec e' = system_error v /\ v <> 0 /\
       (v ∈ retryable -> (retries (kernel e') < retries (kernel e))%nat))).
Proof.
  intros Hs. apply Z.eqb_neq in Hs. unfold accept, call_accept. rewrite Hs. repeat sstep.
  destruct (sys_accepting _ _ _ _ _ _ Hcall) as [Hr|(Hr & Hv & Hd)].
  - apply Z.eqb_neq in Hr as E. change (r_ret r =? -1) with (r_ret r =? invalid_socket) in E.
    rewrite E. repeat sstep. by left.
  - rewrite Hr. simpl. sstep. right. split; [done|]. by exists (r_errno r).
Qed.

(** What is reported of an accept: a connection, or an error that is not to
    be hidden. *)
Definition reported_accept (state new_socket : Z) e : Prop :=
  (new_socket <> invalid_socket /\ failed (ec e) = false) \/
  (new_socket = invalid_socket /\ failed (ec e) = true /\
   (aborted (ec e) = true -> has state enable_connection_aborted = true)).

Lemma system_aborted v : (v ∉ retryable) \/ v = EINTR -> aborted (system_error v) = false /\ not_ready (system_error v) = false.
Proof.
  unfold retryable. rewrite !not_elem_of_cons. intros [(? & ? & ? & ? & _)| ->]; [|done].
  unfold aborted, not_ready, ec_eqb. simpl. rewrite !bool_decide_eq_false_2 by (by intros [=]).
  split; [by apply Z.eqb_neq|done].
Qed.

(** The branch the code takes on a failed accept. *)
Lemma failed_accept_cases v : v <> 0 ->
  ((v ∉ retryable) /\ aborted (system_error v) = false /\ not_ready (system_error v) = false /\
     ec_eqb (system_error v) error.interrupted = false) \/ v ∈ retryable.
Proof.
  intros Hv. destruct (decide (v ∈ retryable)) as [|Hn]; [by right|left]. split; [done|].
  destruct (system_aborted v) as [-> ->]; [by left|]. split_and!; try done.
  unfold ec_eqb. apply bool_decide_eq_false_2. intros [= ->]. by apply Hn; left.
Qed.

Lemma non_blocking_accept_reports s state addr : s <> invalid_socket ->
  forall fuel addrlen e, (retries (kernel e) < fuel)%nat ->
  wp (non_blocking_accept fuel s state addr addrlen) e (fun '(done, new_socket, _) e' =>
    if done then reported_accept state new_socket e'
    else new_socket = invalid_socket /\
         (not_ready (ec e') = true \/ aborted (ec e') = true /\ has state enable_connection_aborted = false)).
Proof.
  intros Hs fuel. induction fuel as [|fuel IH]; intros addrlen e Hf; [lia|]. simpl.
  sstep. eapply wp_mono; [by apply accept_attempt|].
  intros [n a] e' [[Hn He]|(Hn & v & He & Hv & Hd)]; simpl in *.
  - apply Z.eqb_neq in Hn as E. rewrite E. simpl. sstep. by left.
  - subst n. rewrite Z.eqb_refl. simpl. sstep; sstep. rewrite He.
    destruct (failed_accept_cases v Hv) as [(Hnr & Ha & Hb & Hi)|Hr].
    + rewrite Hi, Hb. unfold aborted in Ha. apply orb_false_iff in Ha as [Ha1 Ha2].
      rewrite Ha1, Ha2. sstep. right. split; [done|]. rewrite He.
      split; [by apply negb_true_iff, Z.eqb_neq|]. unfold aborted. by rewrite Ha1, Ha2.
    + specialize (Hd Hr). unfold retryable in Hr. rewrite !elem_of_cons, elem_of_nil in Hr.
      destruct Hr as [-> |[-> |[-> |[-> |[]]]]].
      * simpl. apply IH. lia.
      * simpl. sstep. split; [done|]. left. by rewrite He.
      * simpl. sstep. destruct (has state enable_connection_aborted) eqn:Eh.
        -- right. split; [done|]. rewrite He. by split.
        -- split; [done|]. right. by rewrite He.
      * simpl. sstep. destruct (has state enable_connection_aborted) eqn:Eh.
        -- right. split; [done|]. rewrite He. by split.
        -- split; [done|]. right. by rewrite He.
Qed.

Lemma sync_accept_reports s state addr : s <> invalid_socket ->
  forall fuel addrlen e, (retries (kernel e) < fuel)%nat ->
  wp (sync_accept fuel s state addr addrlen) e (fun '(new_socket, _) e' =>
    reported_accept state new_socket e' /\
    (not_ready (ec e') = true -> has state user_set_non_blocking = true)).
Proof.
  intros Hs fuel. induction fuel as [|fuel IH]; intros addrlen e Hf; [lia|].
  (* the socket is not ready, or an abort is hidden: wait, then try again *)
  assert (Hwait : forall a e', (retries (kernel e') < fuel)%nat ->
    wp (r ← poll_read s 0 (-1);
        if r <? 0 then mret (invalid_socket, a) else sync_accept fuel s state addr a) e'
      (fun '(new_socket, _) e' => reported_accept state new_socket e' /\
         (not_ready (ec e') = true -> has state user_set_non_blocking = true))).
  { intros a e' Hf'. unfold poll_read, poll_fd. apply Z.eqb_neq in Hs as ->.
    repeat sstep. destruct (sys_poll_listener _ _ _ _ Hcall) as [Hk Hv].
    destruct (Z.lt_ge_cases (r_ret r) 0) as [Hr|Hr].
    - rewrite ltb_neg by done. pose proof (Hv Hr) as Hv'. replace (r_ret r =? 0) with false by (symmetry; apply Z.eqb_neq; lia).
      repeat sstep. assert ((r_errno r ∉ retryable) \/ r_errno r = EINTR) as Hv2 by (destruct Hv' as [[_ ?]|?]; eauto).
      destruct (system_aborted _ Hv2) as [Ha Hb]. repeat sstep. rewrite ltb_neg by done. sstep.
      split; [|simpl; congruence]. unfold reported_accept. right. simpl. split; [done|]. split; [|congruence].
      apply negb_true_iff, Z.eqb_neq. destruct Hv' as [[? _]|E]; [done|by rewrite E].
    - rewrite ltb_nonneg by done. destruct (r_ret r =? 0); repeat sstep; rewrite ?ltb_nonneg by done; apply IH; simpl; lia. }
  simpl. sstep. eapply wp_mono; [by apply accept_attempt|].
  intros [n a] e' [[Hn He]|(Hn & v & He & Hv & Hd)]; simpl in *.
  - apply Z.eqb_neq in Hn as E. rewrite E. simpl. sstep. split; [by left|].
    rewrite not_ready_spec. intros E2. by rewrite E2 in He.
  - subst n. rewrite Z.eqb_refl. simpl. sstep; sstep. rewrite He.
    destruct (failed_accept_cases v Hv) as [(Hnr & Ha & Hb & Hi)|Hr].
    + rewrite Hb. unfold aborted in Ha. apply orb_false_iff in Ha as [Ha1 Ha2].
      rewrite Ha1, Ha2. sstep. rewrite He, Hb. split; [|done]. right. split; [done|]. rewrite He.
      split; [by apply negb_true_iff, Z.eqb_neq|]. unfold aborted. by rewrite Ha1, Ha2.
    + specialize (Hd Hr). unfold retryable in Hr. rewrite !elem_of_cons, elem_of_nil in Hr.
      destruct Hr as [-> |[-> |[-> |[-> |[]]]]]; simpl.
      * sstep. rewrite He. split; [|done]. right. split; [done|]. by rewrite He.
      * destruct (has state user_set_non_blocking) eqn:Eu; [|apply Hwait; lia].
        sstep. split; [|done]. right. split; [done|]. by rewrite He.
      * destruct (has state enable_connection_aborted) eqn:Eh; [|apply Hwait; lia].
        sstep. rewrite He. split; [|done]. right. split; [done|]. by rewrite He.
      * destruct (has state enable_connection_aborted) eqn:Eh; [|apply Hwait; lia].
        sstep. rewrite He. split; [|done]. right. split; [done|]. by rewrite He.
Qed.
End accepting.

(** ** A kernel with one descriptor

    It may refuse the ioctl (as some descriptors do), has a receive and a
    send buffer, and a list of the results its accepts will have: 0 for a
    connection, or an error. *)
Record one_fd := OneFd {
  fd_mode : bool; takes_fionbio : bool; rcvbuf : Z; sndbuf : Z; accepts : list Z }.

Definition answer (ret v len val : Z) (k : one_fd) : reply * one_fd := (mkReply ret v len val, k).
Definition set_mode (b : bool) (k : one_fd) : one_fd :=
  OneFd b (takes_fionbio k) (rcvbuf k) (sndbuf k) (accepts k).

Definition one_fd_call (c : syscall) (k : one_fd) : reply * one_fd :=
  match c with
  | Sys_ioctl _ cmd arg =>
      if (cmd =? FIONBIO) && takes_fionbio k then answer 0 0 0 arg (set_mode (negb (arg =? 0)) k)
      else answer (-1) ENOTTY 0 arg k
  | Sys_fcntl _ cmd arg =>
      if cmd =? F_GETFL then answer (if fd_mode k then O_NONBLOCK else 0) 0 0 0 k
      else answer 0 0 0 0 (set_mode (Z.testbit arg 11) k)
  | Sys_setsockopt _ _ name n _ =>
      let stored := 2 * Z.min n 212992 in
      if name =? SO_RCVBUF then
        answer 0 0 0 0 (OneFd (fd_mode k) (takes_fionbio k) stored (sndbuf k) (accepts k))
      else answer 0 0 0 0 (OneFd (fd_mode k) (takes_fionbio k) (rcvbuf k) stored (accepts k))
  | Sys_getsockopt _ _ name _ _ => answer 0 0 4 (if name =? SO_RCVBUF then rcvbuf k else sndbuf k) k
  | Sys_accept _ _ _ =>
      match accepts k with
      | [] => answer (-1) EINVAL 0 0 k
      | v :: l =>
          answer (if v =? 0 then 7 else -1) v 16 0 (OneFd (fd_mode k) (takes_fionbio k) (rcvbuf k) (sndbuf k) l)
      end
  | _ => answer 1 0 0 0 k
  end.

#[export] Instance one_fd_kernel : Kernel one_fd := one_fd_call.

#[export, refine] Instance one_fd_descriptors : Descriptors one_fd := { mode k _ := fd_mode k }.
Proof.
  - intros s arg k r k'. unfold sys_call, one_fd_kernel. simpl.
    destruct (takes_fionbio k); intros [= <- <-]; simpl; [by left|by right].
  - intros s k r k' [= <- <-]. simpl. split; [done|]. left. by destruct (fd_mode k).
  - intros s flags k r k' [= <- <-]. by left.
Defined.

#[export, refine] Instance one_fd_buffers : BufferSizes one_fd := {
  buffer_size k _ name := if name =? SO_RCVBUF then rcvbuf k else sndbuf k;
  buffer_limit := 212992;
}.
Proof.
  - done.
  - intros s name n k r k' [-> | ->] Hn [= <- <-]; by left.
  - intros s name old k r k' [-> | ->] [= <- <-]; (split; [done|by left]).
Defined.

#[export, refine] Instance one_fd_listener : Listener one_fd := { retries k := length (accepts k) }.
Proof.
  - intros s addr addrlen k r k'. unfold sys_call, one_fd_kernel. simpl.
    destruct (accepts k) as [|v l] eqn:E; intros [= <- <-]; simpl.
    + right. split_and!; [done|done|]. unfold retryable. set_solver.
    + destruct (Z.eqb_spec v 0); [by left|]. right. split_and!; [done|done|]. lia.
  - intros s k r k' [= <- <-]. simpl. split; [lia|done].
Defined.

(** ** The properties *)

(** C33. Whatever sequence of [set_user_non_blocking],
    [set_internal_non_blocking] and FIONBIO [ioctl]s succeeds or fails on a
    socket, the non-blocking flags of its state say whether its descriptor
    is in non-blocking mode; and each of them that succeeds has set the mode
    it was asked for and cleared the error, while one that fails has
    reported an error and changed neither the state nor the mode. *)
Theorem non_blocking_modes {K : Type} `{Descriptors K} (cs : list mode_call) (s state : Z) (e : Env K)
    (valid : s <> invalid_socket) (agrees : agree s state e) :
  wp (run_mode_calls cs s state) e (fun state e1 =>
    agree s state e1 /\
    forall c, wp (run_mode_call c s state) e1 (fun '(ok, state') e2 =>
      failed (ec e2) = negb ok /\
      if ok then mode (kernel e2) s =
             match c with SetUser v | SetInternal v => v | IoctlFionbio arg => negb (arg =? 0) end
      else state' = state /\ mode (kernel e2) s = mode (kernel e1) s)).
Proof.
  eapply wp_mono; [by apply mode_calls_agree|]. intros state1 e1 Ha. split; [done|]. intros c.
  eapply wp_mono; [by apply mode_call_agrees|]. intros [[|] state2] e2 (_ & He & Hf & Ht); simpl in *.
  - split; [done|by apply Ht].
  - split; [done|by apply Hf].
Qed.

(** A socket whose descriptor does not take the ioctl. *)
Definition fcntl_fd : Env one_fd := mkEnv (OneFd false false 0 0 []) 0 (system_error 0).

Lemma non_blocking_modes_witness :
  agree 3 datagram_oriented fcntl_fd /\
  wp (run_mode_calls [SetInternal true; SetUser true; SetInternal false; SetUser false] 3 datagram_oriented)
    fcntl_fd (fun state e1 => agree 3 state e1 /\
      forall c, wp (run_mode_call c 3 state) e1 (fun '(ok, state') e2 =>
        failed (ec e2) = negb ok /\
        if ok then mode (kernel e2) 3 =
               match c with SetUser v | SetInternal v => v | IoctlFionbio arg => negb (arg =? 0) end
        else state' = state /\ mode (kernel e2) 3 = mode (kernel e1) 3)).
Proof. split; [reflexivity|]. apply (non_blocking_modes _ 3 datagram_oriented fcntl_fd); [done|reflexivity]. Defined.

(** Socket options read back as they were set: the size of a receive or
    send buffer, up to the kernel's limit, although the kernel doubles it;
    and the option that makes aborted connections visible, which is kept in
    the state without a system call. *)
Theorem socket_options_read_back {K : Type} `{BufferSizes K} (s state optname n v : Z) (e : Env K)
    (valid : s <> invalid_socket) (buffer : optname = SO_RCVBUF \/ optname = SO_SNDBUF) (n_ok : 0 <= n) :
  wp (set_then_get s state SOL_SOCKET optname n sizeof_int) e (fun '(result, optval, optlen) _ =>
    result = 0 -> optval = Z.min n buffer_limit /\ optlen = sizeof_int) /\
  wp (set_then_get s state custom_socket_option_level enable_connection_aborted_option v sizeof_int) e
    (fun '(result, optval, optlen) e' =>
      result = 0 /\ optval = (if v =? 0 then 0 else 1) /\ optlen = sizeof_int /\
      kernel e' = kernel e /\ failed (ec e') = false).
Proof.
  split; [by apply buffer_size_reads_back|].
  unfold wp. rewrite aborted_option_reads_back by done. by do 2 eexists.
Qed.

(** The option the feed handler sets on its socket. *)
Lemma socket_options_read_back_witness :
  wp (set_then_get 3 datagram_oriented SOL_SOCKET SO_RCVBUF 8388608 sizeof_int) fcntl_fd
    (fun '(result, optval, optlen) _ => result = 0 -> optval = 212992 /\ optlen = sizeof_int) /\
  match set_then_get 3 datagram_oriented SOL_SOCKET SO_RCVBUF 8388608 sizeof_int fcntl_fd with
  | Ok (r, _) => r = (0, 212992, 4)
  | _ => False
  end.
Proof.
  split; [|vm_compute; reflexivity].
  apply (socket_options_read_back 3 datagram_oriented SO_RCVBUF 8388608 1 fcntl_fd
           ltac:(done) ltac:(by left) ltac:(lia)).
Defined.

(** An accept, synchronous or not, terminates, retrying what it hides:
    it returns a connection without error, or an error, and the error is an
    aborted connection (ECONNABORTED or EPROTO) only when the socket's
    [enable_connection_aborted] option is on.  A synchronous accept reports
    would_block only on a socket its user made non-blocking. *)
Theorem accepts_reported {K : Type} `{Listener K} (fuel : nat) (s state : Z) (addr : ptr)
    (addrlen : option Z) (e : Env K)
    (valid : s <> invalid_socket) (fuel_ok : (retries (kernel e) < fuel)%nat) :
  wp (sync_accept fuel s state addr addrlen) e (fun '(new_socket, _) e' =>
    reported_accept state new_socket e' /\
    (not_ready (ec e') = true -> has state user_set_non_blocking = true)) /\
  wp (non_blocking_accept fuel s state addr addrlen) e (fun '(done, new_socket, _) e' =>
    if done then reported_accept state new_socket e'
    else new_socket = invalid_socket /\
         (not_ready (ec e') = true \/ aborted (ec e') = true /\ has state enable_connection_aborted = false)).
Proof. split; [by apply sync_accept_reports|by apply non_blocking_accept_reports]. Qed.

(** A connection behind a signal and an aborted one. *)
Definition busy_listener : Env one_fd := mkEnv (OneFd false true 0 0 [ECONNABORTED; EPROTO; 0]) 0 (system_error 0).

Lemma accepts_reported_witness :
  (retries (kernel busy_listener) < 4)%nat /\
  wp (sync_accept 4 3 stream_oriented 0 None) busy_listener (fun '(new_socket, _) e' =>
    reported_accept stream_oriented new_socket e' /\
    (not_ready (ec e') = true -> has stream_oriented user_set_non_blocking = true)) /\
  match sync_accept 4 3 stream_oriented 0 None busy_listener with Ok (r, _) => r = (7, None) | _ => False end.
Proof.
  split; [simpl; lia|]. split; [|vm_compute; reflexivity].
  apply (accepts_reported 4 3 stream_oriented 0 None busy_listener); [done|simpl; lia].
Defined.
