(* ===== verification/OpQueue.v ===== *)
(** * op_queue

    Asio's intrusive queue of operations
    (src/include/asio/detail/op_queue.hpp): operations are linked through
    their own [next_] member, so all the queues share one heap of links.  The
    queue implements a list, its operations are frame preserving, and
    [is_enqueued] decides membership. *)

From S2P Require Import Prelude.

(** ** The links and the queue *)

(** A pointer to an operation, 0 being null, and the [next_] member of every
    operation (null when nothing has been stored). *)
Definition op_ptr : Type := Z.
Definition null : op_ptr := 0.

Record op_heap := mkHeap { next_ : gmap op_ptr op_ptr; destroyed : list op_ptr }.

Definition next (o : op_ptr) (h : op_heap) : op_ptr := default null (next_ h !! o).
Definition set_next (o v : op_ptr) (h : op_heap) : op_heap := mkHeap (<[o:=v]> (next_ h)) (destroyed h).
(** [o->destroy()], which ends the operation. *)
Definition destroy_op (o : op_ptr) (h : op_heap) : op_heap := mkHeap (next_ h) (destroyed h ++ [o]).

Record op_queue := mkOpQueue { front_ : op_ptr; back_ : op_ptr }.

Definition op_queue_new : op_queue := mkOpQueue null null.

Definition front (q : op_queue) : op_ptr := front_ q.

(** Dereferencing null is undefined. *)
Definition deref_ok (o : op_ptr) : outcome unit := if o =? null then Undefined NullDeref else Ok tt.

Definition pop_op (q : op_queue) (h : op_heap) : outcome (op_queue * op_heap) :=
  if negb (front_ q =? null) then
    let tmp := front_ q in
    let front := next (front_ q) h in
    let back := if front =? null then null else back_ q in
    Ok (mkOpQueue front back, set_next tmp null h)
  else Ok (q, h).

Definition push_op (o : op_ptr) (q : op_queue) (h : op_heap) : outcome (op_queue * op_heap) :=
  _ ← deref_ok o;
  let h := set_next o null h in
  if negb (back_ q =? null) then
    Ok (mkOpQueue (front_ q) o, set_next (back_ q) o h)
  else Ok (mkOpQueue o o, h).

(** [push(q2)]: the queues after it, and the heap. *)
Definition push_queue (q2 q : op_queue) (h : op_heap) : op_queue * op_queue * op_heap :=
  let other_front := front_ q2 in
  if negb (other_front =? null) then
    if negb (back_ q =? null) then
      (mkOpQueue null null, mkOpQueue (front_ q) (back_ q2), set_next (back_ q) other_front h)
    else (mkOpQueue null null, mkOpQueue other_front (back_ q2), h)
  else (q2, q, h).

Definition empty_q (q : op_queue) : bool := front_ q =? null.

Definition is_enqueued (o : op_ptr) (q : op_queue) (h : op_heap) : bool :=
  negb (next o h =? null) || (back_ q =? o).

(** The destructor. *)
Fixpoint destroy_queue (fuel : nat) (q : op_queue) (h : op_heap) : outcome (op_queue * op_heap) :=
  match fuel with
  | O => OutOfFuel
  | S fuel =>
      let op := front_ q in
      if negb (op =? null) then
        '(q, h) ← pop_op q h;
        destroy_queue fuel q (destroy_op op h)
      else Ok (q, h)
  end.

(** ** The list a queue stands for *)

(** From [o], the links lead through [l] to [e]. *)
Fixpoint seg (o : op_ptr) (l : list op_ptr) (e : op_ptr) (h : op_heap) : Prop :=
  match l with
  | [] => o = e
  | x :: l => o = x /\ x <> null /\ seg (next x h) l e h
  end.

Definition represents (q : op_queue) (l : list op_ptr) (h : op_heap) : Prop :=
  seg (front_ q) l null h /\ back_ q = default null (last l) /\ NoDup l.

(** Operations outside of [l] keep their links. *)
Definition framed (l : list op_ptr) (h h' : op_heap) : Prop :=
  forall o, o ∉ l -> next o h' = next o h.

Lemma next_set o v h o' : next o' (set_next o v h) = if decide (o = o') then v else next o' h.
Proof.
  unfold next, set_next. simpl. case_decide as E; [by subst; rewrite lookup_insert_eq|].
  by rewrite lookup_insert_ne.
Qed.

Lemma seg_framed l e h h' : forall o, seg o l e h -> (forall x, x ∈ l -> next x h' = next x h) -> seg o l e h'.
Proof.
  induction l as [|x l IH]; intros o Hl Hf; simpl in *; [done|].
  destruct Hl as (-> & Hx & Hl). split_and!; [done|done|]. rewrite Hf by set_solver.
  apply IH; [done|]. set_solver.
Qed.

Lemma seg_app l l' e h : forall o, seg o (l ++ l') e h <-> exists m, seg o l m h /\ seg m l' e h.
Proof.
  induction l as [|x l IH]; intros o; simpl.
  - split; [by exists o|]. by intros (m & -> & ?).
  - rewrite IH. naive_solver.
Qed.

Lemma seg_set o v l e h a : o ∉ l -> seg a l e h -> seg a l e (set_next o v h).
Proof.
  intros Ho Hl. eapply seg_framed; [done|]. intros x Hx. rewrite next_set.
  case_decide; [by subst|done].
Qed.

Lemma seg_null a l h : seg a l null h -> (a = null <-> l = []).
Proof. destruct l; simpl; [done|]. intros (-> & ? & _). by split. Qed.

Lemma last_snoc_cases (l : list op_ptr) : l = [] \/ exists l' x, l = l' ++ [x].
Proof. destruct l as [|x l _] using rev_ind; eauto. Qed.

Lemma represents_nil q h : represents q [] h <-> q = op_queue_new.
Proof.
  unfold represents, op_queue_new. destruct q as [f b]; simpl. split; [by intros (-> & -> & _)|].
  intros [= -> ->]. split_and!; [done|done|constructor].
Qed.

Lemma represents_front q l h : represents q l h -> front q = default null (List.hd_error l).
Proof. intros (Hl & _). destruct l; simpl in *; [done|]. by destruct Hl. Qed.

Lemma represents_empty q l h : represents q l h -> empty_q q = bool_decide (l = []).
Proof.
  intros (Hl & _ & _). unfold empty_q. apply seg_null in Hl as Hn.
  case_bool_decide as E; [by apply Z.eqb_eq, Hn|]. apply Z.eqb_neq. naive_solver.
Qed.

Lemma represents_nonnull q l h x : represents q l h -> x ∈ l -> x <> null.
Proof.
  intros (Hl & _). revert Hl. generalize (front_ q). induction l as [|y l IH]; intros o; simpl; [set_solver|].
  intros (-> & Hy & Hl) [->|Hx]%elem_of_cons; [done|by eapply IH].
Qed.

Lemma represents_back q l h : represents q l h -> (back_ q = null <-> l = []).
Proof.
  intros H. pose proof H as (Hl & Hb & _). destruct (last_snoc_cases l) as [->|(l' & x & ->)]; [done|].
  rewrite last_snoc in Hb. simpl in Hb. split; [|by destruct l'].
  intros E. exfalso. eapply represents_nonnull; [exact H| |by rewrite <- E, Hb].
  rewrite Hb. set_solver.
Qed.

(** A queue keeps its list when the links of its operations are kept. *)
Lemma represents_framed q l l' h h' : represents q l h -> framed l' h h' -> l ## l' -> represents q l h'.
Proof.
  intros (Hl & Hb & Hnd) Hf Hd. split_and!; [|done|done]. eapply seg_framed; [done|].
  intros x Hx. apply Hf. set_solver.
Qed.

(** ** The operations implement those of a list *)

Lemma pop_represents q l h : represents q l h -> exists q' h',
  pop_op q h = Ok (q', h') /\ represents q' (tail l) h' /\ framed l h h' /\
  destroyed h' = destroyed h /\ match l with [] => True | o :: _ => next o h' = null end.
Proof.
  intros H. pose proof H as (Hl & Hb & Hnd). unfold pop_op. destruct l as [|x l]; simpl in *.
  - rewrite Hl. simpl. exists q, h. by split_and!.
  - destruct Hl as (Hx & Hx0 & Hl). rewrite Hx. apply Z.eqb_neq in Hx0 as E0. rewrite E0. simpl.
    eexists _, _. split; [done|]. apply NoDup_cons in Hnd as [Hxl Hnd]. split_and!; simpl.
    + apply seg_null in Hl as Hn. split_and!; simpl; [by apply seg_set| |done].
      destruct l as [|y l]; simpl in *; [by rewrite Hl|]. destruct Hl as (-> & Hy & Hl).
      apply Z.eqb_neq in Hy as ->. rewrite Hb. by destruct (last (y :: l)) eqn:E.
    + intros o Ho. rewrite next_set. case_decide; [subst; set_solver|done].
    + done.
    + by rewrite next_set, decide_True by done.
Qed.

Lemma push_represents q l h o : represents q l h -> o ∉ l -> o <> null -> exists q' h',
  push_op o q h = Ok (q', h') /\ represents q' (l ++ [o]) h' /\ framed (o :: l) h h' /\
  destroyed h' = destroyed h.
Proof.
  intros H Ho Ho0. pose proof H as (Hl & Hb & Hnd). unfold push_op, deref_ok.
  apply Z.eqb_neq in Ho0 as E0. rewrite E0. simpl. pose proof (represents_back q l h H) as Hbn.
  assert (NoDup (l ++ [o])) as Hnd'.
  { apply NoDup_app. split_and!; [done|set_solver|apply NoDup_singleton]. }
  destruct (last_snoc_cases l) as [->|(l' & x & ->)].
  - rewrite (proj2 Hbn eq_refl). simpl. eexists _, _. split; [done|]. split_and!; simpl.
    + split_and!; simpl; [|done|done]. split_and!; [done|done|]. by rewrite next_set, decide_True.
    + intros y Hy. rewrite next_set. case_decide; [set_solver|done].
    + done.
  - rewrite last_snoc in Hb. simpl in Hb.
    destruct (Z.eqb_spec (back_ q) null) as [E|E]; simpl; [apply Hbn in E; by destruct l'|].
    eexists _, _. split; [done|]. apply seg_app in Hl as (m & Hl1 & Hl2). simpl in Hl2.
    destruct Hl2 as (-> & Hx0 & Hl2). apply NoDup_app in Hnd as (Hnd1 & Hnd2 & _).
    assert (x <> o) as Hxo by set_solver. assert (x ∉ l') as Hxl by set_solver.
    split_and!; simpl.
    + split_and!; simpl; [|by rewrite last_snoc|done]. rewrite <- app_assoc. apply seg_app. exists x. split.
      * rewrite Hb. apply seg_set; [done|]. apply seg_set; [set_solver|done].
      * simpl. rewrite Hb, !next_set, decide_True by done. split_and!; [done|done|done|by intros ->|].
        rewrite decide_False, decide_True by done. done.
    + intros y Hy. rewrite Hb, !next_set. rewrite !decide_False by set_solver. done.
    + done.
Qed.

Lemma push_queue_represents q l q2 l2 h : represents q l h -> represents q2 l2 h -> l ## l2 ->
  exists q2' q' h', push_queue q2 q h = (q2', q', h') /\
    represents q' (l ++ l2) h' /\ represents q2' [] h' /\ framed (l ++ l2) h h' /\
    destroyed h' = destroyed h.
Proof.
  intros H H2 Hd. unfold push_queue. pose proof H as (Hl & Hb & Hnd). pose proof H2 as (Hl2 & Hb2 & Hnd2).
  pose proof (represents_back q l h H) as Hbn.
  assert (NoDup (l ++ l2)) as Hnd'.
  { apply NoDup_app. split_and!; [done|set_solver|done]. }
  destruct l2 as [|y l2].
  - simpl in Hl2. rewrite Hl2. simpl. eexists _, _, _. rewrite app_nil_r. by split_and!.
  - simpl in Hl2. destruct Hl2 as (Hy & Hy0 & Hl2). rewrite Hy. apply Z.eqb_neq in Hy0 as E. rewrite E. simpl.
    destruct (last_snoc_cases l) as [->|(l' & x & ->)].
    + rewrite (proj2 Hbn eq_refl). simpl. eexists _, _, _. split; [done|].
      split_and!; [|by apply represents_nil|done|done]. split_and!; simpl; [done|done|done].
    + rewrite last_snoc in Hb. simpl in Hb.
      destruct (Z.eqb_spec (back_ q) null) as [E'|E']; simpl; [apply Hbn in E'; by destruct l'|].
      eexists _, _, _. split; [done|]. apply seg_app in Hl as (m & Hl1 & Hl3). simpl in Hl3.
      destruct Hl3 as (-> & Hx0 & Hl3). apply NoDup_app in Hnd as (Hnd1 & Hnd3 & _).
      assert (x ∉ l') as Hxl by set_solver.
      split_and!; [|by apply represents_nil| |done].
      * split_and!; simpl; [| |done].
        -- rewrite <- app_assoc. apply seg_app. exists x. split; [rewrite Hb; by apply seg_set|].
           simpl. rewrite Hb, next_set, decide_True by done. split_and!; try done.
           rewrite next_set, decide_False by set_solver. apply seg_set; [set_solver|done].
        -- rewrite Hb2. rewrite last_app_cons. by destruct (last (y :: l2)) eqn:E2.
      * intros z Hz. rewrite next_set, decide_False; [done|]. rewrite Hb. set_solver.
Qed.

(** For an operation that is in this queue or in none, that is, whose link
    is null unless it is in the queue. *)
Lemma is_enqueued_spec q l h o : represents q l h -> (o ∉ l -> next o h = null) -> o <> null ->
  is_enqueued o q h = bool_decide (o ∈ l).
Proof.
  intros H Hfree Ho0. pose proof H as (Hl & Hb & Hnd). unfold is_enqueued.
  case_bool_decide as E.
  - apply list_elem_of_split in E as (l1 & l2 & ->). apply seg_app in Hl as (m & Hl1 & Hl2).
    simpl in Hl2. destruct Hl2 as (-> & _ & Hl2). destruct l2 as [|y l2]; simpl in Hl2.
    + rewrite last_snoc in Hb. simpl in Hb. rewrite Hb, Z.eqb_refl. apply orb_true_r.
    + destruct Hl2 as (-> & Hy & _). by apply Z.eqb_neq in Hy as ->.
  - rewrite (Hfree E). simpl. apply Z.eqb_neq. intros Eb. apply E. rewrite <- Eb, Hb.
    destruct (last l) eqn:El; simpl; [by apply last_Some_elem_of|].
    by rewrite <- Eb, Hb in Ho0.
Qed.

Lemma destroy_queue_destroys l : forall fuel q h, represents q l h -> (length l < fuel)%nat ->
  exists h', destroy_queue fuel q h = Ok (op_queue_new, h') /\ destroyed h' = destroyed h ++ l /\ framed l h h'.
Proof.
  induction l as [|x l IH]; intros fuel q h H Hf; (destruct fuel as [|fuel]; [simpl in Hf; lia|]); simpl.
  - apply represents_nil in H as ->. simpl. exists h. split_and!; [done|by rewrite app_nil_r|done].
  - pose proof (represents_nonnull q _ h x H ltac:(set_solver)) as Hx.
    pose proof (represents_front q _ h H) as Hfr. unfold front in Hfr. simpl in Hfr. rewrite Hfr.
    apply Z.eqb_neq in Hx as ->. simpl.
    destruct (pop_represents q _ h H) as (q' & h' & -> & Hr & Hfm & Hd & _). simpl in *.
    destruct (IH fuel q' (destroy_op x h')) as (h'' & -> & Hd' & Hf'); [|lia|].
    { destruct Hr as (? & ? & ?). split_and!; [|done|done]. eapply seg_framed; [done|]. done. }
    exists h''. split_and!; [done| |].
    + rewrite Hd'. simpl. by rewrite Hd, <- app_assoc.
    + intros o Ho. rewrite Hf' by set_solver. change (next o (destroy_op x h')) with (next o h').
      apply Hfm. done.
Qed.

(** ** Several queues in one heap *)

#[export] Instance op_queue_inhabited : Inhabited op_queue := populate op_queue_new.

Inductive queue_command :=
| Pop (i : nat)
| Push (i : nat) (o : op_ptr)
| PushQueue (i j : nat).   (* push queue [j] on queue [i] *)

Abbreviation queues := (gmap nat op_queue).
Definition queue_state : Type := queues * op_heap.

Definition run_command (c : queue_command) (s : queue_state) : outcome queue_state :=
  let '(qs, h) := s in
  match c with
  | Pop i => '(q, h) ← pop_op (qs !!! i) h; Ok (<[i:=q]> qs, h)
  | Push i o => '(q, h) ← push_op o (qs !!! i) h; Ok (<[i:=q]> qs, h)
  | PushQueue i j =>
      let '(qj, qi, h) := push_queue (qs !!! j) (qs !!! i) h in Ok (<[j:=qj]> (<[i:=qi]> qs), h)
  end.

Fixpoint run_commands (cs : list queue_command) (s : queue_state) : outcome queue_state :=
  match cs with
  | [] => Ok s
  | c :: cs => s ← run_command c s; run_commands cs s
  end.

(** The lists, and the conditions of use: an operation is pushed only while
    it is in no queue, and a queue is not pushed on itself. *)
Abbreviation lists := (gmap nat (list op_ptr)).

Definition list_command (c : queue_command) (L : lists) : lists :=
  match c with
  | Pop i => <[i:=tail (L !!! i)]> L
  | Push i o => <[i:=L !!! i ++ [o]]> L
  | PushQueue i j => <[j:=[]]> (<[i:=L !!! i ++ L !!! j]> L)
  end.

Definition allowed (c : queue_command) (L : lists) : Prop :=
  match c with
  | Pop i => True
  | Push i o => o <> null /\ forall j, o ∉ L !!! j
  | PushQueue i j => i <> j
  end.

Fixpoint all_allowed (cs : list queue_command) (L : lists) : Prop :=
  match cs with
  | [] => True
  | c :: cs => allowed c L /\ all_allowed cs (list_command c L)
  end.

(** The queues hold the lists, no operation is in two of them, and one that
    is in none has a null link. *)
Definition hold (L : lists) (s : queue_state) : Prop :=
  (forall i, represents (s.1 !!! i) (L !!! i) s.2) /\
  (forall i j, i <> j -> L !!! i ## L !!! j) /\
  (forall o, (forall i, o ∉ L !!! i) -> next o s.2 = null).

Lemma hold_new : hold ∅ (∅, mkHeap ∅ []).
Proof.
  split_and!; simpl.
  - intros i. rewrite !lookup_total_empty. by apply represents_nil.
  - intros i j _. rewrite !lookup_total_empty. set_solver.
  - done.
Qed.

Lemma hold_pop i L s : hold L s -> exists s', run_command (Pop i) s = Ok s' /\
  hold (list_command (Pop i) L) s' /\ destroyed s'.2 = destroyed s.2.
Proof.
  destruct s as [qs h]. intros (Hr & Hd & Hn). simpl in *.
  destruct (pop_represents _ _ _ (Hr i)) as (q & h' & -> & Hq & Hf & Hdes & Hnull). simpl.
  eexists. split; [done|]. split; [|done]. split_and!; simpl.
  - intros j. destruct (decide (i = j)) as [->|Hij]; [by rewrite !lookup_total_insert_eq|].
    rewrite !lookup_total_insert_ne by done. eapply represents_framed; [apply Hr|done|by apply Hd].
  - assert (forall j, <[i:=tail (L !!! i)]> L !!! j ⊆ L !!! j) as Hsub.
    { intros j. destruct (decide (i = j)) as [->|Hij]; [|by rewrite lookup_total_insert_ne].
      rewrite lookup_total_insert_eq. intros x. destruct (L !!! j); [done|]. set_solver. }
    intros j k Hjk x Hx1 Hx2. by apply (Hd j k Hjk x); apply Hsub.
  - intros o Ho. destruct (decide (o ∈ L !!! i)) as [Hi|Hi].
    + specialize (Ho i). rewrite lookup_total_insert_eq in Ho. destruct (L !!! i) as [|x l]; [set_solver|].
      simpl in *. by apply elem_of_cons in Hi as [-> |].
    + rewrite Hf by done. apply Hn. intros j. destruct (decide (i = j)) as [->|Hij]; [done|].
      specialize (Ho j). by rewrite lookup_total_insert_ne in Ho.
Qed.

Lemma hold_push i o L s : hold L s -> allowed (Push i o) L -> exists s', run_command (Push i o) s = Ok s' /\
  hold (list_command (Push i o) L) s' /\ destroyed s'.2 = destroyed s.2.
Proof.
  destruct s as [qs h]. intros (Hr & Hd & Hn) [Ho0 Ho]. simpl in *.
  destruct (push_represents _ _ _ o (Hr i) (Ho i) Ho0) as (q & h' & -> & Hq & Hf & Hdes). simpl.
  eexists. split; [done|]. split; [|done]. split_and!; simpl.
  - intros j. destruct (decide (i = j)) as [->|Hij]; [by rewrite !lookup_total_insert_eq|].
    rewrite !lookup_total_insert_ne by done. eapply represents_framed; [apply Hr|done|].
    intros x Hx [->|Hx2]%elem_of_cons; [by apply (Ho j)|]. by apply (Hd i j Hij x).
  - intros j k Hjk. destruct (decide (i = j)) as [->|Hij]; [|destruct (decide (i = k)) as [->|Hik]].
    + rewrite lookup_total_insert_eq, lookup_total_insert_ne by done.
      intros x [Hx|Hx]%elem_of_app Hx2; [by apply (Hd j k Hjk x)|].
      apply list_elem_of_singleton in Hx as ->. by apply (Ho k).
    + rewrite lookup_total_insert_eq, lookup_total_insert_ne by done.
      intros x Hx2 [Hx|Hx]%elem_of_app; [by apply (Hd j k Hjk x)|].
      apply list_elem_of_singleton in Hx as ->. by apply (Ho j).
    + rewrite !lookup_total_insert_ne by done. by apply Hd.
  - intros x Hx. assert (x ∉ o :: L !!! i) as Hxi.
    { specialize (Hx i). rewrite lookup_total_insert_eq in Hx. set_solver. }
    rewrite Hf by done. apply Hn. intros j. destruct (decide (i = j)) as [->|Hij]; [set_solver|].
    specialize (Hx j). by rewrite lookup_total_insert_ne in Hx.
Qed.

Lemma hold_push_queue i j L s : hold L s -> i <> j -> exists s', run_command (PushQueue i j) s = Ok s' /\
  hold (list_command (PushQueue i j) L) s' /\ destroyed s'.2 = destroyed s.2.
Proof.
  destruct s as [qs h]. intros (Hr & Hd & Hn) Hij. simpl in *.
  destruct (push_queue_represents _ _ _ _ _ (Hr i) (Hr j) (Hd i j Hij))
    as (qj & qi & h' & -> & Hqi & Hqj & Hf & Hdes).
  eexists. split; [done|]. split; [|done].
  assert (forall k, <[j:=[]]> (<[i:=L !!! i ++ L !!! j]> L) !!! k =
            if decide (j = k) then [] else if decide (i = k) then L !!! i ++ L !!! j else L !!! k) as Hlk.
  { intros k. case_decide as E1; [subst; by rewrite lookup_total_insert_eq|].
    rewrite lookup_total_insert_ne by done. case_decide as E2; [subst; by rewrite lookup_total_insert_eq|].
    by rewrite lookup_total_insert_ne. }
  split_and!; simpl.
  - intros k. rewrite Hlk. case_decide as E1; [subst; by rewrite lookup_total_insert_eq|].
    rewrite lookup_total_insert_ne by done.
    case_decide as E2; [subst; by rewrite lookup_total_insert_eq|]. rewrite lookup_total_insert_ne by done.
    eapply represents_framed; [apply Hr|done|]. intros x Hx [Hx2|Hx2]%elem_of_app.
    + by apply (Hd i k E2 x).
    + by apply (Hd j k E1 x).
  - intros k m Hkm x. rewrite !Hlk.
    repeat case_decide; subst; rewrite ?elem_of_nil, ?elem_of_app; try done; intros; destruct_or?;
      match goal with
      | H1 : x ∈ L !!! ?a, H2 : x ∈ L !!! ?b |- False => apply (Hd a b ltac:(done) x H1 H2)
      end.
  - intros x Hx. assert (x ∉ L !!! i ++ L !!! j) as Hxi.
    { specialize (Hx i). rewrite Hlk in Hx. rewrite decide_False, decide_True in Hx by done. done. }
    rewrite Hf by done. apply Hn. intros k. specialize (Hx k). rewrite Hlk in Hx.
    rewrite not_elem_of_app in Hxi. repeat case_decide; subst; tauto.
Qed.

Lemma hold_commands cs : forall L s, hold L s -> all_allowed cs L -> exists s',
  run_commands cs s = Ok s' /\ hold (fold_left (fun L c => list_command c L) cs L) s' /\
  destroyed s'.2 = destroyed s.2.
Proof.
  induction cs as [|c cs IH]; intros L s Hh Ha; simpl; [by exists s|].
  destruct Ha as [Hc Ha].
  assert (exists s', run_command c s = Ok s' /\ hold (list_command c L) s' /\ destroyed s'.2 = destroyed s.2)
    as (s' & -> & Hs' & Hd').
  { destruct c as [i|i o|i j]; [by apply hold_pop|by apply hold_push|by apply hold_push_queue]. }
  destruct (IH _ _ Hs' Ha) as (s'' & E & Hs'' & Hd''). exists s''. split_and!; [done|done|congruence].
Qed.

(** ** The property *)

(** C36. Any sequence of pops, pushes and pushes of whole queues on any
    number of op_queues that share their operations' links, in which an
    operation is pushed only while it is in no queue, dereferences no null
    pointer and leaves every queue holding its list: [front], [empty] and
    [is_enqueued] answer as the list does, no operation is lost or in two
    queues, and destroying a queue destroys exactly its operations, once
    each and in order. *)
Theorem op_queue_refines (cs : list queue_command) (ok : all_allowed cs ∅) :
  exists qs h, run_commands cs (∅, mkHeap ∅ []) = Ok (qs, h) /\
  let L := fold_left (fun L c => list_command c L) cs ∅ in
  (forall i j, i <> j -> L !!! i ## L !!! j) /\
  forall i,
    front (qs !!! i) = default null (List.hd_error (L !!! i)) /\
    empty_q (qs !!! i) = bool_decide (L !!! i = []) /\
    (forall o, o <> null -> (forall j, j <> i -> o ∉ L !!! j) ->
       is_enqueued o (qs !!! i) h = bool_decide (o ∈ L !!! i)) /\
    (forall fuel, (length (L !!! i) < fuel)%nat -> exists h',
       destroy_queue fuel (qs !!! i) h = Ok (op_queue_new, h') /\ destroyed h' = L !!! i).
Proof.
  destruct (hold_commands cs ∅ _ hold_new ok) as ([qs h] & E & (Hr & Hd & Hn) & Hdes).
  exists qs, h. split; [done|]. split; [done|]. intros i. specialize (Hr i). split_and!.
  - by eapply represents_front.
  - by eapply represents_empty.
  - intros o Ho Hj. eapply is_enqueued_spec; [exact Hr| |done].
    intros Hi. apply Hn. intros j. destruct (decide (j = i)) as [->|]; [done|by apply Hj].
  - intros fuel Hfuel. destruct (destroy_queue_destroys _ _ _ _ Hr Hfuel) as (h' & E' & Hd' & _).
    exists h'. split; [done|]. by rewrite Hd', Hdes.
Qed.

(** Two queues, one emptied into the other after a pop. *)
Definition queue_session : list queue_command := [Push 0 10; Push 0 20; Push 1 30; Pop 0; PushQueue 0 1].

Lemma queue_session_allowed : all_allowed queue_session ∅.
Proof.
  assert (forall j, (∅ : lists) !!! j = []) as H0 by (intros; by rewrite lookup_total_empty).
  simpl. split; [split; [done|intros j; rewrite H0; set_solver]|].
  split; [|split; [|done]].
  - split; [done|]. intros [|j]; [rewrite lookup_total_insert_eq, H0; set_solver|].
    rewrite lookup_total_insert_ne, H0 by done. set_solver.
  - split; [done|]. intros [|j]; [rewrite !lookup_total_insert_eq, H0; set_solver|].
    rewrite !lookup_total_insert_ne, H0 by done. set_solver.
Qed.

Lemma op_queue_refines_witness :
  all_allowed queue_session ∅ /\
  exists qs h, run_commands queue_session (∅, mkHeap ∅ []) = Ok (qs, h) /\
    front (qs !!! 0%nat) = 20 /\ empty_q (qs !!! 1%nat) = true.
Proof.
  split; [exact queue_session_allowed|].
  destruct (op_queue_refines queue_session queue_session_allowed) as (qs & h & E & _ & Hi).
  exists qs, h. split; [exact E|].
  destruct (Hi 0%nat) as (Hf & _). destruct (Hi 1%nat) as (_ & He & _).
  rewrite Hf, He. split; vm_compute; reflexivity.
Defined.
