(* ===== verification/Scheduler.v ===== *)
(** * The scheduler

    Asio's event loop (src/include/asio/detail/scheduler.hpp and
    impl/scheduler.ipp) for one thread that runs it, as main.cpp's network
    thread does: the queue of operations, the count of outstanding work, the
    running thread's private queue and count, and the functions that post,
    run and stop.  Mutexes are left out, and no other thread waits on
    [wakeup_event_], so that signalling it wakes nobody; a wait on it leaves
    everything as it is.  The queues are the lists that OpQueue.v shows
    op_queue to implement. *)

From S2P Require Import Prelude OpQueue.

(** An element of the queue: the task's position in it, or an operation. *)
Inductive operation := TaskOperation | Operation (o : op_ptr).

#[export] Instance operation_eq_dec : EqDecision operation.
Proof. solve_decision. Defined.

(** The members of the scheduler that change, and the [thread_info] of the
    thread that is running it ([running]: whether there is one on the
    thread's call stack). *)
Record Scheduler := mkScheduler {
  op_queue_ : list operation;
  outstanding_work_ : Z;
  stopped_ : bool;
  shutdown_ : bool;
  task_ : bool;
  task_interrupted_ : bool;
  running : bool;
  private_op_queue : list operation;
  private_outstanding_work : Z;
}.

(** The scheduler together with all the state its operations act on. *)
Record Ctx (R : Type) := mkCtx { scheduler : Scheduler; rest : R }.
Arguments mkCtx {R} _ _.
Arguments scheduler {R} _.
Arguments rest {R} _.

Definition scheduler_new : Scheduler := mkScheduler [] 0 false false false true false [] 0.

Definition set_op_queue (q : list operation) (s : Scheduler) : Scheduler :=
  mkScheduler q (outstanding_work_ s) (stopped_ s) (shutdown_ s) (task_ s) (task_interrupted_ s)
    (running s) (private_op_queue s) (private_outstanding_work s).
Definition set_work (n : Z) (s : Scheduler) : Scheduler :=
  mkScheduler (op_queue_ s) n (stopped_ s) (shutdown_ s) (task_ s) (task_interrupted_ s)
    (running s) (private_op_queue s) (private_outstanding_work s).
Definition set_stopped (b : bool) (s : Scheduler) : Scheduler :=
  mkScheduler (op_queue_ s) (outstanding_work_ s) b (shutdown_ s) (task_ s) (task_interrupted_ s)
    (running s) (private_op_queue s) (private_outstanding_work s).
Definition set_shutdown (b : bool) (s : Scheduler) : Scheduler :=
  mkScheduler (op_queue_ s) (outstanding_work_ s) (stopped_ s) b (task_ s) (task_interrupted_ s)
    (running s) (private_op_queue s) (private_outstanding_work s).
Definition set_task (b : bool) (s : Scheduler) : Scheduler :=
  mkScheduler (op_queue_ s) (outstanding_work_ s) (stopped_ s) (shutdown_ s) b (task_interrupted_ s)
    (running s) (private_op_queue s) (private_outstanding_work s).
Definition set_interrupted (b : bool) (s : Scheduler) : Scheduler :=
  mkScheduler (op_queue_ s) (outstanding_work_ s) (stopped_ s) (shutdown_ s) (task_ s) b
    (running s) (private_op_queue s) (private_outstanding_work s).
Definition set_thread (r : bool) (q : list operation) (n : Z) (s : Scheduler) : Scheduler :=
  mkScheduler (op_queue_ s) (outstanding_work_ s) (stopped_ s) (shutdown_ s) (task_ s) (task_interrupted_ s)
    r q n.

(** ** What the scheduler is given

    The task ([scheduler_task]): [run], which adds the operations that became
    ready to the list it is passed, and [interrupt]. *)
Class SchedulerTask (R : Type) := {
  task_run : Z -> list operation -> R -> outcome (list operation * R);
  task_interrupt : R -> R;
}.

(** The operations: [destroy], their [task_result_], and [complete]. *)
Class DestroyOp (R : Type) := op_destroy : op_ptr -> R -> R.

Class Operations (R : Type) := {
  task_result : op_ptr -> R -> Z;
  op_complete : op_ptr -> Z -> prog (Ctx R) unit;
}.

(** The constant members: whether the context was told that one thread runs
    it, and the time limits (-1, none, unless configured). *)
Record scheduler_config := mkConfig { one_thread_ : bool; task_usec_ : Z; wait_usec_ : Z }.
Definition default_config : scheduler_config := mkConfig false (-1) (-1).

Section scheduler.
Context {R : Type} `{SchedulerTask R} `{DestroyOp R} `{Operations R} (cfg : scheduler_config).
Implicit Types (c : Ctx R) (o : op_ptr).
Abbreviation M := (prog (Ctx R)).

Definition get_sched : M Scheduler := c ← get_state; mret (scheduler c).
Definition modify (f : Scheduler -> Scheduler) : M unit :=
  c ← get_state; put_state (mkCtx (f (scheduler c)) (rest c)).
Definition modify_rest (f : R -> R) : M unit :=
  c ← get_state; put_state (mkCtx (scheduler c) (f (rest c))).

(** *** Stopping and waking *)

Definition interrupt_task : M unit :=
  s ← get_sched;
  if negb (task_interrupted_ s) && task_ s then
    modify (set_interrupted true);; modify_rest task_interrupt
  else mret tt.

Definition stop_all_threads : M unit :=
  modify (set_stopped true);; interrupt_task.

Definition stop : M unit := stop_all_threads.
Definition stopped : M bool := s ← get_sched; mret (stopped_ s).
Definition restart : M unit := modify (set_stopped false).

(** [maybe_unlock_and_signal_one] finds no waiting thread. *)
Definition wake_one_thread_and_unlock : M unit := interrupt_task.

(** *** Counting work *)

Definition work_started : M unit := s ← get_sched; modify (set_work (outstanding_work_ s + 1)).

Definition work_finished : M unit :=
  s ← get_sched;
  let n := outstanding_work_ s - 1 in
  modify (set_work n);;
  if n =? 0 then stop else mret tt.

Definition can_dispatch : M bool := s ← get_sched; mret (running s).

Definition push_private (ops : list operation) (n : Z) : M unit :=
  s ← get_sched;
  modify (set_thread (running s) (private_op_queue s ++ ops) (private_outstanding_work s + n)).

Definition compensating_work_started : M unit := push_private [] 1.

(** *** Posting *)

Definition enqueue (ops : list operation) : M unit :=
  s ← get_sched; modify (set_op_queue (op_queue_ s ++ ops));; wake_one_thread_and_unlock.

Definition init_task : M unit :=
  s ← get_sched;
  if negb (shutdown_ s) && negb (task_ s) then
    modify (set_task true);; enqueue [TaskOperation]
  else mret tt.

Definition post_immediate_completion (o : op_ptr) (is_continuation : bool) : M unit :=
  s ← get_sched;
  if (one_thread_ cfg || is_continuation) && running s then push_private [Operation o] 1
  else work_started;; enqueue [Operation o].

Definition post_immediate_completions (n : Z) (ops : list op_ptr) (is_continuation : bool) : M unit :=
  s ← get_sched;
  if (one_thread_ cfg || is_continuation) && running s then push_private (Operation <$> ops) n
  else modify (set_work (outstanding_work_ s + n));; enqueue (Operation <$> ops).

Definition post_deferred_completion (o : op_ptr) : M unit :=
  s ← get_sched;
  if one_thread_ cfg && running s then push_private [Operation o] 0
  else enqueue [Operation o].

Definition post_deferred_completions (ops : list op_ptr) : M unit :=
  match ops with
  | [] => mret tt
  | _ =>
      s ← get_sched;
      if one_thread_ cfg && running s then push_private (Operation <$> ops) 0
      else enqueue (Operation <$> ops)
  end.

Definition do_dispatch (o : op_ptr) : M unit := work_started;; enqueue [Operation o].

(** The local queue's destructor destroys the operations. *)
Fixpoint destroy_all_ops (ops : list op_ptr) : M unit :=
  match ops with
  | [] => mret tt
  | o :: ops => modify_rest (op_destroy o);; destroy_all_ops ops
  end.

Definition abandon_operations (ops : list op_ptr) : M unit := destroy_all_ops ops.

(** There is no thread of the scheduler's own to stop and join. *)
Fixpoint destroy_queued (q : list operation) : M unit :=
  match q with
  | [] => mret tt
  | op :: q =>
      modify (set_op_queue q);;
      (match op with Operation o => modify_rest (op_destroy o) | TaskOperation => mret tt end);;
      destroy_queued q
  end.

Definition shutdown : M unit :=
  modify (set_shutdown true);;
  s ← get_sched;
  destroy_queued (op_queue_ s);;
  modify (set_task false).

(** *** Running *)

(** The destructors that run when the task, or an operation, returns. *)
Definition task_cleanup : M unit :=
  s ← get_sched;
  (if private_outstanding_work s >? 0 then
     modify (set_work (outstanding_work_ s + private_outstanding_work s))
   else mret tt);;
  modify (set_thread (running s) (private_op_queue s) 0);;
  modify (set_interrupted true);;
  s ← get_sched;
  modify (set_op_queue (op_queue_ s ++ private_op_queue s));;
  modify (set_thread (running s) [] 0);;
  s ← get_sched;
  modify (set_op_queue (op_queue_ s ++ [TaskOperation])).

Definition work_cleanup : M unit :=
  s ← get_sched;
  (if private_outstanding_work s >? 1 then
     modify (set_work (outstanding_work_ s + (private_outstanding_work s - 1)))
   else if private_outstanding_work s <? 1 then work_finished
   else mret tt);;
  s ← get_sched;
  modify (set_thread (running s) (private_op_queue s) 0);;
  s ← get_sched;
  modify (set_op_queue (op_queue_ s ++ private_op_queue s));;
  modify (set_thread (running s) [] 0).

(** [task_->run(usec, this_thread.private_op_queue)]. *)
Definition run_task (usec : Z) : M unit :=
  c ← get_state;
  let s := scheduler c in
  '(ops, r) ← lift (task_run usec (private_op_queue s) (rest c));
  put_state (mkCtx (set_thread (running s) ops (private_outstanding_work s) s) r).

(** The end of a run function: an operation taken from the queue is
    completed. *)
Definition complete_operation (o : op_ptr) (more_handlers : bool) : M unit :=
  c ← get_state;
  let result := task_result o (rest c) in
  (if more_handlers && negb (one_thread_ cfg) then wake_one_thread_and_unlock else mret tt);;
  op_complete o result;;
  work_cleanup.

Definition is_nonempty (q : list operation) : bool := match q with [] => false | _ => true end.

Fixpoint do_run_one (fuel : nat) : M Z :=
  match fuel with
  | O => loop_out
  | S fuel =>
      s ← get_sched;
      if stopped_ s then mret 0 else
      match op_queue_ s with
      | [] => do_run_one fuel
      | o :: q =>
          let more_handlers := is_nonempty q in
          modify (set_op_queue q);;
          match o with
          | TaskOperation =>
              modify (set_interrupted (more_handlers || (task_usec_ cfg =? 0)));;
              run_task (if more_handlers then 0 else task_usec_ cfg);;
              task_cleanup;;
              do_run_one fuel
          | Operation o => complete_operation o more_handlers;; mret 1
          end
      end
  end.

(** The part that [do_wait_one] and [do_poll_one] share: the task, when it is
    at the front of the queue, is run at most once. *)
Definition finish_one : M Z :=
  s ← get_sched;
  match op_queue_ s with
  | TaskOperation :: _ | [] => mret 0
  | Operation o :: q =>
      modify (set_op_queue q);;
      complete_operation o (is_nonempty q);; mret 1
  end.

Definition do_wait_one (usec : Z) : M Z :=
  s ← get_sched;
  if stopped_ s then mret 0 else
  let usec := match op_queue_ s with [] => 0 | _ => usec end in
  match op_queue_ s with
  | TaskOperation :: q =>
      modify (set_op_queue q);;
      let more_handlers := is_nonempty q in
      let usec := if (task_usec_ cfg >=? 0) && (task_usec_ cfg <? usec) then task_usec_ cfg else usec in
      modify (set_interrupted (more_handlers || (usec =? 0)));;
      run_task (if more_handlers then 0 else usec);;
      task_cleanup;;
      finish_one
  | _ => finish_one
  end.

Definition do_poll_one : M Z :=
  s ← get_sched;
  if stopped_ s then mret 0 else
  match op_queue_ s with
  | TaskOperation :: q =>
      modify (set_op_queue q);;
      run_task 0;;
      task_cleanup;;
      finish_one
  | _ => finish_one
  end.

(** [thread_call_stack::context ctx(this, this_thread)] for the duration of
    a run function, with a fresh [thread_info].  When the functions for
    polling are called from inside a handler of a context told that it has
    one thread, the handlers on the outer thread's private queue are first
    moved to the queue. *)
Definition in_thread {A} (polling : bool) (m : M A) : M A :=
  outer ← get_sched;
  let q := if polling && one_thread_ cfg && running outer
           then op_queue_ outer ++ private_op_queue outer else op_queue_ outer in
  modify (set_op_queue q);;
  modify (set_thread true [] 0);;
  a ← m;
  modify (set_thread (running outer)
    (if polling && one_thread_ cfg && running outer then [] else private_op_queue outer)
    (private_outstanding_work outer));;
  mret a.

(** A run function: nothing is run, and the scheduler stops, when there is
    no work. *)
Definition if_work (m : M Z) : M Z :=
  s ← get_sched;
  if outstanding_work_ s =? 0 then stop;; mret 0 else m.

(** The loop of [run] and [poll], which counts the operations it ran. *)
Fixpoint count_runs (fuel : nat) (one : M Z) (n : Z) : M Z :=
  match fuel with
  | O => loop_out
  | S fuel =>
      r ← one;
      if r =? 0 then mret n
      else count_runs fuel one (if n =? UINT64_MAX then n else n + 1)
  end.

Definition run (fuel : nat) : M Z := if_work (in_thread false (count_runs fuel (do_run_one fuel) 0)).
Definition run_one (fuel : nat) : M Z := if_work (in_thread false (do_run_one fuel)).
Definition wait_one (usec : Z) : M Z := if_work (in_thread false (do_wait_one usec)).
Definition poll (fuel : nat) : M Z := if_work (in_thread true (count_runs fuel do_poll_one 0)).
Definition poll_one : M Z := if_work (in_thread true do_poll_one).
End scheduler.
