(* ===== verification/SchedulerFair.v ===== *)
(** * The scheduler is fair

    Operations run in the order in which they were queued: one that is queued
    runs after those in front of it, however many more the others post.  So
    an operation that stops the context, as main.cpp's signal handler does,
    ends [run]. *)

From S2P Require Import Prelude OpQueue Scheduler.

Section fair.
Context {R : Type} `{SchedulerTask R} `{Operations R} (cfg : scheduler_config).
Implicit Types (c : Ctx R) (s : Scheduler) (o : op_ptr) (q : list operation).

Lemma wp_get_sched_then {B} (k : Scheduler -> prog (Ctx R) B) c Phi : wp (k (scheduler c)) c Phi -> wp (get_sched ≫= k) c Phi.
Proof. intros Hk. by apply wp_bind, wp_bind, wp_get, wp_ret. Qed.

Lemma wp_modify_then {B} f (k : unit -> prog (Ctx R) B) c Phi :
  wp (k tt) (mkCtx (f (scheduler c)) (rest c)) Phi -> wp (modify f ≫= k) c Phi.
Proof. intros Hk. by apply wp_bind, wp_bind, wp_get, wp_put. Qed.

(** New entries go to the back of the queue; nothing starts the scheduler
    again. *)
Definition grows s s' : Prop := (exists new, op_queue_ s' = op_queue_ s ++ new) /\ (stopped_ s = true -> stopped_ s' = true).

Lemma grows_refl s : grows s s.
Proof. split; [exists []; by rewrite app_nil_r|done]. Qed.

Lemma grows_trans s1 s2 s3 : grows s1 s2 -> grows s2 s3 -> grows s1 s3.
Proof. intros [[a Ea] A] [[b Eb] B]. split; [exists (a ++ b); by rewrite Eb, Ea, app_assoc|auto]. Qed.

(** What is assumed of the task and the operations, in a state that satisfies
    [Inv]: they finish, and leave the queue as they find it but for what they
    add. *)
Class Fair (Inv : R -> Prop) := {
  fair_task usec ops (r : R) : Inv r -> exists ops' r', task_run usec ops r = Ok (ops', r') /\ Inv r';
  fair_interrupt (r : R) : Inv r -> Inv (task_interrupt r);
  fair_complete o result c : Inv (rest c) ->
    wp (op_complete o result) c (fun _ c' => Inv (rest c') /\ grows (scheduler c) (scheduler c'));
}.

Context (Inv : R -> Prop) `{!Fair Inv}.

(** [m] finishes, and keeps all that. *)
Definition fairly {B} (m : prog (Ctx R) B) c (Phi : B -> Ctx R -> Prop) : Prop :=
  wp m c (fun b c' => Inv (rest c') /\ grows (scheduler c) (scheduler c') /\ Phi b c').

Lemma fairly_ret {B} (b : B) c (Phi : B -> Ctx R -> Prop) : Inv (rest c) -> Phi b c -> fairly (mret b) c Phi.
Proof. intros Hi HP. apply wp_ret. split; [done|]. split; [apply grows_refl|done]. Qed.

Lemma fairly_bind {B D} (m : prog (Ctx R) B) (k : B -> prog (Ctx R) D) c Psi Phi : fairly m c Psi ->
  (forall b c', Inv (rest c') -> grows (scheduler c) (scheduler c') -> Psi b c' -> fairly (k b) c' Phi) -> fairly (m ≫= k) c Phi.
Proof.
  intros Hm Hk. apply wp_bind. eapply wp_mono; [exact Hm|]. intros b c' (Hi & Hg & HP).
  eapply wp_mono; [by apply Hk|]. intros d c2 (Hi2 & Hg2 & HP2). split; [done|]. split; [by eapply grows_trans|done].
Qed.

Lemma fairly_get c (Phi : Scheduler -> Ctx R -> Prop) : Inv (rest c) -> Phi (scheduler c) c -> fairly get_sched c Phi.
Proof. intros Hi HP. unfold get_sched. apply wp_bind, wp_get, wp_ret. split; [done|]. split; [apply grows_refl|done]. Qed.

Lemma fairly_modify f c (Phi : unit -> Ctx R -> Prop) : Inv (rest c) -> grows (scheduler c) (f (scheduler c)) ->
  Phi tt (mkCtx (f (scheduler c)) (rest c)) -> fairly (modify f) c Phi.
Proof. intros Hi Hg HP. unfold modify. by apply wp_bind, wp_get, wp_put. Qed.

Lemma fairly_then {B D} (m : prog (Ctx R) B) (k : prog (Ctx R) D) c Phi : fairly m c (fun _ _ => True) ->
  (forall c', Inv (rest c') -> grows (scheduler c) (scheduler c') -> fairly k c' Phi) -> fairly (m;; k) c Phi.
Proof. intros Hm Hk. eapply fairly_bind; [exact Hm|]. intros. by apply Hk. Qed.

Lemma fairly_interrupt c : (forall r, Inv r -> Inv (task_interrupt r)) -> Inv (rest c) -> fairly (interrupt_task (R := R)) c (fun _ _ => True).
Proof.
  intros Hk Hi. unfold interrupt_task. eapply fairly_bind; [by apply (fairly_get c (fun _ _ => True))|]. intros s c1 Hi1 _ _.
  destruct (_ && _); [|by apply fairly_ret]. apply fairly_then; [apply fairly_modify; [done|split; [exists []; by rewrite app_nil_r|done]|done]|].
  intros c2 Hi2 _. unfold modify_rest. apply wp_bind, wp_get, wp_put. split; [by apply Hk|]. split; [apply grows_refl|done].
Qed.

(** A change of the scheduler that only appends to the queue. *)
Lemma fairly_change f c : Inv (rest c) -> (exists new, op_queue_ (f (scheduler c)) = op_queue_ (scheduler c) ++ new) ->
  (stopped_ (scheduler c) = true -> stopped_ (f (scheduler c)) = true) -> fairly (modify f) c (fun _ _ => True).
Proof. intros Hi Hq Hs. by apply fairly_modify. Qed.

Lemma fairly_work_cleanup c : Inv (rest c) -> fairly (work_cleanup (R := R)) c (fun _ _ => True).
Proof.
  intros Hi. unfold work_cleanup.
  assert (forall f c, Inv (rest c) -> op_queue_ (f (scheduler c)) = op_queue_ (scheduler c) -> stopped_ (f (scheduler c)) = stopped_ (scheduler c) ->
    fairly (modify f) c (fun _ _ => True)) as Hchange.
  { intros f c0 Hi0 Eq Es. apply fairly_change; [done|exists []; by rewrite Eq, app_nil_r|by rewrite Es]. }
  eapply fairly_bind; [by apply (fairly_get c (fun _ _ => True))|]. intros s c1 Hi1 _ _. apply fairly_then.
  { destruct (_ >? _); [by apply Hchange|]. destruct (_ <? _); [|by apply fairly_ret]. unfold work_finished.
    eapply fairly_bind; [by apply (fairly_get c1 (fun _ _ => True))|]. intros s2 c2 Hi2 _ _. cbv zeta.
    apply fairly_then; [by apply Hchange|]. intros c3 Hi3 _. destruct (_ =? _); [|by apply fairly_ret].
    unfold stop, stop_all_threads. apply fairly_then; [apply fairly_change; [done|exists []; by rewrite app_nil_r|done]|].
    intros c4 Hi4 _. apply fairly_interrupt; [apply fair_interrupt|done]. }
  intros c2 Hi2 _. eapply fairly_bind; [by apply (fairly_get c2 (fun _ _ => True))|]. intros s3 c3 Hi3 _ _.
  apply fairly_then; [by apply Hchange|]. intros c4 Hi4 _.
  eapply fairly_bind; [by apply (fairly_get c4 (fun s c => s = scheduler c))|]. intros s5 c5 Hi5 _ ->.
  apply fairly_then; [apply fairly_change; [done|by eexists|done]|]. intros c6 Hi6 _. by apply Hchange.
Qed.
(** ** Turns *)

(** Completing [o] stops the context. *)
Definition stopping o : Prop := forall result c, Inv (rest c) ->
  wp (op_complete o result) c (fun _ c' => stopped_ (scheduler c') = true).

Lemma fairly_complete_operation o more c : Inv (rest c) ->
  fairly (complete_operation cfg o more) c (fun _ c' => stopping o -> stopped_ (scheduler c') = true).
Proof.
  intros Hi. unfold complete_operation. apply wp_bind, wp_get. apply fairly_then.
  { destruct (_ && _); [apply fairly_interrupt; [apply fair_interrupt|done]|by apply fairly_ret]. }
  intros c1 Hi1 _. eapply (fairly_bind _ _ _ (fun _ c' => stopping o -> stopped_ (scheduler c') = true)).
  - destruct (fair_complete o (task_result o (rest c)) c1 Hi1) as ([] & c2 & Hr & Hi2 & Hg2). exists tt, c2. split_and!; [done..|].
    intros Hs. destruct (Hs (task_result o (rest c)) c1 Hi1) as (u & c3 & Hr3 & H3). rewrite Hr in Hr3. by injection Hr3 as _ <-.
  - intros u c2 Hi2 Hg2 Hs. eapply wp_mono; [by apply fairly_work_cleanup|]. intros v c3 (Hi3 & Hg3 & _). split_and!; [done..|].
    intros Ho. apply Hg3. by apply Hs.
Qed.

(** The task, and the end of its turn. *)
Lemma wp_task usec (k : prog (Ctx R) Z) c (Phi : Z -> Ctx R -> Prop) : Inv (rest c) ->
  (forall c', Inv (rest c') -> stopped_ (scheduler c') = stopped_ (scheduler c) ->
     (exists new, op_queue_ (scheduler c') = op_queue_ (scheduler c) ++ new) -> wp k c' Phi) ->
  wp (run_task usec;; task_cleanup;; k) c Phi.
Proof.
  intros Hi HP. destruct (fair_task usec (private_op_queue (scheduler c)) (rest c) Hi) as (ops & r & Hr & Hi').
  unfold run_task. apply wp_bind, wp_bind, wp_get. cbv zeta. apply wp_bind. eapply wp_lift; [exact Hr|]. apply wp_put. apply wp_bind.
  unfold task_cleanup, get_sched, modify. apply wp_bind, wp_bind, wp_get, wp_ret. apply wp_bind.
  set (c1 := mkCtx _ r).
  assert (forall m : prog (Ctx R) unit, wp m c1 (fun _ c2 => Inv (rest c2) /\ stopped_ (scheduler c2) = stopped_ (scheduler c) /\
      op_queue_ (scheduler c2) = op_queue_ (scheduler c) /\ private_op_queue (scheduler c2) = ops) ->
    forall n : prog (Ctx R) unit, (forall c2, Inv (rest c2) -> stopped_ (scheduler c2) = stopped_ (scheduler c) ->
      op_queue_ (scheduler c2) = op_queue_ (scheduler c) -> private_op_queue (scheduler c2) = ops ->
      wp n c2 (fun _ c3 => wp k c3 Phi)) -> wp m c1 (fun _ c2 => wp n c2 (fun _ c3 => wp k c3 Phi))) as Hseq.
  { intros m Hm n Hn. eapply wp_mono; [exact Hm|]. intros u c2 (A1 & A2 & A3 & A4). by apply Hn. }
  apply Hseq; [destruct (_ >? _); [apply wp_bind, wp_get, wp_put; done|by apply wp_ret]|].
  intros c2 A1 A2 A3 A4. apply wp_bind, wp_bind, wp_get, wp_put. apply wp_bind, wp_bind, wp_get, wp_put.
  apply wp_bind, wp_bind, wp_get, wp_ret. apply wp_bind, wp_bind, wp_get, wp_put. apply wp_bind, wp_bind, wp_get, wp_put.
  apply wp_bind, wp_bind, wp_get, wp_ret. apply wp_bind, wp_get, wp_put. apply HP; simpl; [done|done|].
  rewrite A3, <- app_assoc. by eexists.
Qed.

(** [o] is in the queue, behind at most [n] others. *)
Definition behind o (n : nat) c : Prop := exists q1 q2, op_queue_ (scheduler c) = q1 ++ Operation o :: q2 /\ (length q1 <= n)%nat.

Lemma behind_grows o n c c' : behind o n c -> grows (scheduler c) (scheduler c') -> behind o n c'.
Proof. intros (q1 & q2 & E & Hl) [[new En] _]. exists q1, (q2 ++ new). split; [|done]. by rewrite En, E, <- app_assoc. Qed.

(** A turn brings [o] to the front by one, or completes it. *)
Lemma wp_do_run_one o n : forall fuel c, Inv (rest c) -> stopped_ (scheduler c) = false -> behind o n c -> (n < fuel)%nat ->
  wp (do_run_one cfg fuel) c (fun r c' => r = 1 /\ Inv (rest c') /\
    ((exists m, (m < n)%nat /\ behind o m c') \/ (stopping o -> stopped_ (scheduler c') = true))).
Proof.
  induction n as [|n IH]; intros fuel c Hi Hst (q1 & q2 & Eq & Hl) Hf; (destruct fuel as [|fuel]; [lia|]); cbn [do_run_one].
  all: apply wp_get_sched_then; rewrite Hst, Eq.
  - destruct q1; [|simpl in Hl; lia]. cbn [app]. apply wp_modify_then, wp_bind.
    eapply wp_mono; [apply fairly_complete_operation; exact Hi|]. intros u c2 (Hi2 & _ & Hs). apply wp_ret. auto.
  - destruct q1 as [|p q1]; cbn [app].
    { apply wp_modify_then, wp_bind.
      eapply wp_mono; [apply fairly_complete_operation; exact Hi|]. intros u c2 (Hi2 & _ & Hs). apply wp_ret. auto. }
    simpl in Hl. apply wp_modify_then. destruct p as [|p].
    + apply wp_modify_then. apply wp_task; [exact Hi|]. intros c2 Hi2 Hst2 [new En].
      eapply wp_mono; [apply (IH fuel c2 Hi2); [by rewrite Hst2|exists q1, (q2 ++ new)|lia]|].
      * rewrite En. simpl. split; [by rewrite <- app_assoc|lia].
      * intros r c3 (-> & Hi3 & [(m & Hm & Hb)|Hs]); split_and!; try done; [left; exists m; split; [lia|done]|by right].
    + apply wp_bind. eapply wp_mono; [apply fairly_complete_operation; exact Hi|]. intros u c2 (Hi2 & Hg & _). apply wp_ret.
      split_and!; [done|done|]. left. exists (length q1). split; [lia|]. eapply behind_grows; [|exact Hg]. exists q1, q2. split; [done|lia].
Qed.

Lemma wp_count_runs o n : forall fuel turns m c, Inv (rest c) -> stopping o ->
  (stopped_ (scheduler c) = true \/ behind o n c) -> (n + 1 < turns)%nat -> (n < fuel)%nat ->
  wp (count_runs turns (do_run_one cfg fuel) m) c (fun _ c' => Inv (rest c') /\ stopped_ (scheduler c') = true).
Proof.
  assert (forall fuel turns m c, Inv (rest c) -> stopped_ (scheduler c) = true -> (0 < turns)%nat -> (0 < fuel)%nat ->
    wp (count_runs turns (do_run_one cfg fuel) m) c (fun _ c' => Inv (rest c') /\ stopped_ (scheduler c') = true)) as Hdone.
  { intros fuel turns m c Hi Hs Ht Hf. destruct turns as [|turns], fuel as [|fuel]; try lia. cbn [count_runs do_run_one].
    unfold get_sched. apply wp_bind, wp_bind, wp_bind, wp_get, wp_ret. rewrite Hs. apply wp_ret. simpl. by apply wp_ret. }
  induction n as [n IH] using lt_wf_ind. intros fuel turns m c Hi Ho Hb Ht Hf.
  destruct (stopped_ (scheduler c)) eqn:Es; [apply Hdone; [done|done|lia|lia]|]. destruct Hb as [|Hb]; [done|].
  destruct turns as [|turns]; [lia|]. cbn [count_runs]. apply wp_bind.
  eapply wp_mono; [by apply (wp_do_run_one o n fuel c)|]. intros r c2 (-> & Hi2 & [(k & Hk & Hb2)|Hs]); simpl.
  - apply (IH k); [done|done|done|by right|lia|lia].
  - apply Hdone; [done|by apply Hs|lia|lia].
Qed.

(** C39. An operation that stops the context when it is completed, as main's
    signal handler does with io_context::stop, ends [run]: once it is in the
    queue, behind whatever else, [run] returns, if the other operations and
    the task finish and only add to the queue; the scheduler is then
    stopped. *)
Theorem stopping_ends_run o fuel c : Inv (rest c) -> stopping o -> Operation o ∈ op_queue_ (scheduler c) ->
  (length (op_queue_ (scheduler c)) < fuel)%nat ->
  exists n c', run cfg fuel c = Ok (n, c') /\ stopped_ (scheduler c') = true /\ Inv (rest c').
Proof.
  intros Hi Ho (q1 & q2 & Eq)%list_elem_of_split Hf.
  assert (wp (run cfg fuel) c (fun _ c' => Inv (rest c') /\ stopped_ (scheduler c') = true)) as (n & c' & Hr & Hi' & Hs); [|by exists n, c'].
  unfold run, if_work, get_sched at 1. apply wp_bind, wp_bind, wp_get, wp_ret. destruct (_ =? 0).
  - apply wp_bind. unfold stop, stop_all_threads, modify at 1. apply wp_bind, wp_bind, wp_get, wp_put.
    eapply wp_mono; [apply fairly_interrupt; [apply fair_interrupt|done]|]. intros u c2 (Hi2 & [_ Hs2] & _). apply wp_ret. split; [done|]. by apply Hs2.
  - unfold in_thread, get_sched at 1, modify at 1 2. apply wp_bind, wp_bind, wp_get, wp_ret. cbv zeta. simpl.
    apply wp_bind, wp_bind, wp_get, wp_put. apply wp_bind, wp_bind, wp_get, wp_put. apply wp_bind.
    eapply wp_mono; [apply (wp_count_runs o (length q1))|].
    + exact Hi.
    + exact Ho.
    + right. exists q1, q2. split; [exact Eq|done].
    + rewrite Eq, length_app in Hf. simpl in Hf. lia.
    + rewrite Eq, length_app in Hf. simpl in Hf. lia.
    + intros r c2 [Hi2 Hs2]. unfold modify. apply wp_bind, wp_bind, wp_get, wp_put, wp_ret. done.
Qed.
End fair.

(** ** A loop that only a stop ends

    Every operation but 0 posts itself again when it is completed, so that
    there is always work, and operation 0 calls [stop]; the state outside the
    scheduler counts the completions. *)
#[local] Instance busy_task : SchedulerTask Z :=
  { task_run usec ops r := Ok (ops, r); task_interrupt r := r }.

#[local] Instance busy_operations : Operations Z :=
  { task_result o r := r;
    op_complete o result :=
      modify_rest (Z.add 1);; if o =? 0 then stop else post_immediate_completion default_config o false }.

#[local] Instance busy_fair : Fair (fun _ : Z => True).
Proof.
  split; [by intros usec ops r _; exists ops, r|done|].
  intros o result c _. cbn [op_complete busy_operations]. unfold modify_rest. apply wp_bind, wp_bind, wp_get, wp_put.
  destruct (o =? 0).
  - eapply wp_mono; [apply (fairly_then (fun _ => True) _ _ _ (fun _ _ => True))|]; [apply fairly_change; [done|exists []; by rewrite app_nil_r|done]| |].
    + intros c2 Hi _. by apply fairly_interrupt.
    + by intros u c2 (_ & Hg & _).
  - unfold post_immediate_completion. apply wp_get_sched_then. cbn [orb andb default_config one_thread_].
    unfold work_started, enqueue.
    eapply wp_mono; [apply (fairly_then (fun _ => True) _ _ _ (fun _ _ => True))|by intros u c2 (_ & Hg & _)].
    + eapply fairly_bind; [by apply (fairly_get _ _ (fun s c => s = scheduler c))|]. intros s c2 _ _ ->.
      apply fairly_change; [done|exists []; by rewrite app_nil_r|done].
    + intros c2 _ _. eapply fairly_bind; [by apply (fairly_get _ _ (fun s c => s = scheduler c))|]. intros s c3 _ _ ->.
      apply fairly_then; [apply fairly_change; [done|by eexists|done]|]. intros c4 Hi4 _. by apply fairly_interrupt.
Qed.

Lemma busy_stopping : stopping (fun _ : Z => True) 0.
Proof.
  intros result c _. cbn [op_complete busy_operations]. unfold modify_rest. apply wp_bind, wp_bind, wp_get, wp_put.
  cbn. apply wp_modify_then. eapply wp_mono; [by apply (fairly_interrupt (fun _ => True))|]. intros u c2 (_ & [_ Hs] & _). by apply Hs.
Qed.

Definition busy (q : list operation) : Ctx Z :=
  mkCtx (set_op_queue q (set_work 3 (set_task true scheduler_new))) 0.

Lemma stopping_ends_run_witness :
  run default_config 20 (busy [TaskOperation; Operation 1; Operation 2]) = OutOfFuel /\
  exists n c', run default_config 20 (busy [TaskOperation; Operation 1; Operation 2; Operation 0]) = Ok (n, c') /\
    stopped_ (scheduler c') = true /\ n = 3 /\ rest c' = 3 /\
    op_queue_ (scheduler c') = [TaskOperation; Operation 1; Operation 2].
Proof.
  split; [by vm_compute|].
  destruct (stopping_ends_run default_config (fun _ : Z => True) 0 20 (busy [TaskOperation; Operation 1; Operation 2; Operation 0])
    I busy_stopping ltac:(set_solver) ltac:(simpl; lia)) as (n & c' & Hr & Hs & _).
  exists n, c'. split_and!; [exact Hr|exact Hs|..]; vm_compute in Hr; by injection Hr as <- <-.
Defined.
