(* ===== verification/EpollReactor.v ===== *)
(** * The reactor

    Asio's epoll reactor (src/include/asio/detail/epoll_reactor.hpp and
    impl/epoll_reactor.ipp), with the set of timer queues
    (impl/timer_queue_set.ipp) and the pool of descriptor states
    (object_pool.hpp).  The reactor is the scheduler's task: it waits for
    events, and queues each descriptor that has some as an operation of the
    scheduler, which performs the I/O of the operations waiting on it. *)

From S2P Require Import Prelude SocketOps OpQueue Scheduler.

(** ** What the reactor is given *)

Inductive perform_status := not_done | done | done_and_exhausted.

(** The pointer registered with an epoll event. *)
Inductive event_ptr := InterrupterPtr | TimerFdPtr | DescriptorPtr (d : op_ptr).

(** The reactor operations ([perform], the members [ec_] and
    [cancellation_key_], [complete] and [destroy]), the epoll, timerfd and
    allocation functions, in a world [W] that holds the operations and the
    operating system.  [epoll_ctl] and the descriptors return their result
    and errno. *)
Class ReactorWorld (W : Type) := {
  perform : op_ptr -> W -> outcome (perform_status * W);
  set_op_ec : op_ptr -> error_code -> W -> W;
  cancellation_key : op_ptr -> W -> Z;
  destroy_reactor_op : op_ptr -> W -> W;
  epoll_ctl : Z -> Z -> Z -> event_ptr -> W -> Z * Z * W;
  epoll_wait : Z -> W -> list (event_ptr * Z) * W;
  timerfd_settime : Z -> Z -> Z -> W -> W;
  allocate_object : W -> op_ptr * W;
}.

(** A queue of timers ([timer_queue_base], the interface of timer_queue,
    which TimerQueue.v implements). *)
Class TimerQueueBase (Q W : Type) := {
  tq_empty : Q -> bool;
  tq_wait_duration_msec : Q -> W -> Z -> Z;
  tq_wait_duration_usec : Q -> W -> Z -> Z;
  tq_get_ready_timers : Q -> W -> outcome (list op_ptr * Q * W);
  tq_get_all_timers : Q -> W -> outcome (list op_ptr * Q * W);
}.

(** ** Constants *)

Definition EPOLLIN : Z := 1.
Definition EPOLLPRI : Z := 2.
Definition EPOLLOUT : Z := 4.
Definition EPOLLERR : Z := 8.
Definition EPOLLHUP : Z := 16.
Definition EPOLLET : Z := 2147483648.
Definition EPOLL_CTL_ADD : Z := 1.
Definition EPOLL_CTL_DEL : Z := 2.
Definition EPOLL_CTL_MOD : Z := 3.
Definition EPERM : Z := 1.
Definition EOPNOTSUPP : Z := 95.
Definition ECANCELED : Z := 125.
Definition operation_not_supported : error_code := system_error EOPNOTSUPP.
Definition operation_aborted : error_code := system_error ECANCELED.
Definition TFD_TIMER_ABSTIME : Z := 1.

(** [op_types]; connect_op is write_op. *)
Inductive op_type := read_op | write_op | except_op.

#[export] Instance op_type_eq_dec : EqDecision op_type.
Proof. solve_decision. Defined.

Definition all_op_types : list op_type := [read_op; write_op; except_op].

(** The event that makes operations of a type ready. *)
Definition event_flag (t : op_type) : Z :=
  match t with read_op => EPOLLIN | write_op => EPOLLOUT | except_op => EPOLLPRI end.

(** ** State *)

(** The arrays [op_queue_] and [try_speculative_] of a descriptor state are
    functions of the type. *)
Record descriptor_state := mkDescriptor {
  descriptor_ : Z;
  registered_events_ : Z;
  op_queues : op_type -> list op_ptr;
  try_speculative_ : op_type -> bool;
  d_shutdown_ : bool;
  task_result_ : Z;
}.

Definition array_set {A} (t : op_type) (x : A) (f : op_type -> A) : op_type -> A :=
  fun t' => if decide (t = t') then x else f t'.

Definition set_registered (ev : Z) (d : descriptor_state) : descriptor_state :=
  mkDescriptor (descriptor_ d) ev (op_queues d) (try_speculative_ d) (d_shutdown_ d) (task_result_ d).
Definition set_queues (q : op_type -> list op_ptr) (d : descriptor_state) : descriptor_state :=
  mkDescriptor (descriptor_ d) (registered_events_ d) q (try_speculative_ d) (d_shutdown_ d) (task_result_ d).
Definition set_queue (t : op_type) (q : list op_ptr) (d : descriptor_state) : descriptor_state :=
  set_queues (array_set t q (op_queues d)) d.
Definition set_speculative (t : op_type) (b : bool) (d : descriptor_state) : descriptor_state :=
  mkDescriptor (descriptor_ d) (registered_events_ d) (op_queues d)
    (array_set t b (try_speculative_ d)) (d_shutdown_ d) (task_result_ d).
Definition set_closed (d : descriptor_state) : descriptor_state :=
  mkDescriptor (-1) (registered_events_ d) (op_queues d) (try_speculative_ d) true (task_result_ d).
Definition set_task_result (v : Z) (d : descriptor_state) : descriptor_state :=
  mkDescriptor (descriptor_ d) (registered_events_ d) (op_queues d) (try_speculative_ d) (d_shutdown_ d) v.

Definition set_ready_events (events : Z) (d : descriptor_state) : descriptor_state :=
  set_task_result events d.
Definition add_ready_events (events : Z) (d : descriptor_state) : descriptor_state :=
  set_task_result (Z.lor (task_result_ d) events) d.

(** The reactor: the descriptor states by address, those of them that are
    live, in the order of the pool's list, and those that are free, the
    timer queues, and the world. *)
Record Reactor (Q W : Type) := mkReactor {
  states : gmap op_ptr descriptor_state;
  live_list : list op_ptr;
  free_list : list op_ptr;
  timer_queues_ : list Q;
  epoll_fd_ : Z;
  timer_fd_ : Z;
  r_shutdown_ : bool;
  world : W;
}.
Arguments mkReactor {Q W} _ _ _ _ _ _ _ _.
Arguments states {Q W} _.
Arguments live_list {Q W} _.
Arguments free_list {Q W} _.
Arguments timer_queues_ {Q W} _.
Arguments epoll_fd_ {Q W} _.
Arguments timer_fd_ {Q W} _.
Arguments r_shutdown_ {Q W} _.
Arguments world {Q W} _.

(** ** The set of timer queues *)

Section timer_queue_set.
Context {Q W : Type} `{TimerQueueBase Q W}.

Definition set_insert (q : Q) (s : list Q) : list Q := q :: s.

Definition all_empty (s : list Q) : bool := forallb tq_empty s.

Definition wait_duration_msec (w : W) (max_duration : Z) (s : list Q) : Z :=
  fold_left (fun min_duration q => tq_wait_duration_msec q w min_duration) s max_duration.

Definition wait_duration_usec (w : W) (max_duration : Z) (s : list Q) : Z :=
  fold_left (fun min_duration q => tq_wait_duration_usec q w min_duration) s max_duration.

(** The operations pushed on [ops], the queues and the world after. *)
Fixpoint get_ready_timers (s : list Q) (w : W) : outcome (list op_ptr * list Q * W) :=
  match s with
  | [] => Ok ([], [], w)
  | q :: s =>
      '(ops, q, w) ← tq_get_ready_timers q w;
      '(ops', s, w) ← get_ready_timers s w;
      Ok (ops ++ ops', q :: s, w)
  end.

Fixpoint get_all_timers (s : list Q) (w : W) : outcome (list op_ptr * list Q * W) :=
  match s with
  | [] => Ok ([], [], w)
  | q :: s =>
      '(ops, q, w) ← tq_get_all_timers q w;
      '(ops', s, w) ← get_all_timers s w;
      Ok (ops ++ ops', q :: s, w)
  end.
End timer_queue_set.

(** ** The reactor's own state *)

Section reactor.
Context {Q W : Type} `{TimerQueueBase Q W} `{ReactorWorld W}.
Abbreviation R := (Reactor Q W).
Implicit Types (r : R) (d o : op_ptr) (t : op_type).

Definition set_states (s : gmap op_ptr descriptor_state) r : R :=
  mkReactor s (live_list r) (free_list r) (timer_queues_ r) (epoll_fd_ r) (timer_fd_ r) (r_shutdown_ r) (world r).
Definition set_lists (live free : list op_ptr) r : R :=
  mkReactor (states r) live free (timer_queues_ r) (epoll_fd_ r) (timer_fd_ r) (r_shutdown_ r) (world r).
Definition set_timer_queues (qs : list Q) r : R :=
  mkReactor (states r) (live_list r) (free_list r) qs (epoll_fd_ r) (timer_fd_ r) (r_shutdown_ r) (world r).
Definition set_r_shutdown (b : bool) r : R :=
  mkReactor (states r) (live_list r) (free_list r) (timer_queues_ r) (epoll_fd_ r) (timer_fd_ r) b (world r).
Definition set_world (w : W) r : R :=
  mkReactor (states r) (live_list r) (free_list r) (timer_queues_ r) (epoll_fd_ r) (timer_fd_ r) (r_shutdown_ r) w.

Definition update_world (f : W -> W) r : R := set_world (f (world r)) r.

(** [*d], and assigning to it. *)
Definition state_at d r : outcome descriptor_state :=
  match states r !! d with Some s => Ok s | None => Undefined NullDeref end.
Definition put_at d (s : descriptor_state) r : R := set_states (<[d:=s]> (states r)) r.

(** A call of epoll_ctl on the reactor's epoll descriptor: result and errno. *)
Definition ctl (op fd events : Z) (p : event_ptr) r : Z * Z * R :=
  let '(result, err, w) := epoll_ctl op fd events p (world r) in (result, err, set_world w r).

(** The interrupter is rearmed, which reports it again. *)
Definition interrupter_fd : Z := -2.
Definition interrupt r : R :=
  let '(_, _, r) :=
    ctl EPOLL_CTL_MOD interrupter_fd (Z.lor (Z.lor EPOLLIN EPOLLERR) EPOLLET) InterrupterPtr r in r.

(** *** Timers *)

(** The arguments of timerfd_settime: flags, seconds and nanoseconds. *)
Definition get_timeout_ts r : Z * Z * Z :=
  let usec := wait_duration_usec (world r) (5 * 60 * 1000 * 1000) (timer_queues_ r) in
  (if negb (usec =? 0) then 0 else TFD_TIMER_ABSTIME,
   Z.quot usec 1000000,
   if negb (usec =? 0) then Z.rem usec 1000000 * 1000 else 1).

Definition get_timeout_msec (msec : Z) r : Z :=
  let max_msec := 5 * 60 * 1000 in
  wait_duration_msec (world r) (if (msec <? 0) || (max_msec <? msec) then max_msec else msec)
    (timer_queues_ r).

Definition set_timer r : R :=
  let '(flags, sec, nsec) := get_timeout_ts r in update_world (timerfd_settime flags sec nsec) r.

Definition update_timeout r : R :=
  if negb (timer_fd_ r =? -1) then set_timer r else interrupt r.

Definition do_add_timer_queue (q : Q) r : R := set_timer_queues (set_insert q (timer_queues_ r)) r.

(** *** Waiting for events *)

(** One event of the array that epoll_wait filled: whether the timers are to
    be checked, the operations, and the reactor. *)
Definition dispatch_event (ev : event_ptr * Z) (acc : bool * list operation * R) :
    outcome (bool * list operation * R) :=
  let '(check_timers, ops, r) := acc in
  match ev.1 with
  | InterrupterPtr => Ok (check_timers || (timer_fd_ r =? -1), ops, r)
  | TimerFdPtr => Ok (true, ops, r)
  | DescriptorPtr d =>
      s ← state_at d r;
      if negb (bool_decide (Operation d ∈ ops)) then
        Ok (check_timers, ops ++ [Operation d], put_at d (set_ready_events ev.2 s) r)
      else Ok (check_timers, ops, put_at d (add_ready_events ev.2 s) r)
  end.

Fixpoint dispatch_events (evs : list (event_ptr * Z)) (acc : bool * list operation * R) :
    outcome (bool * list operation * R) :=
  match evs with
  | [] => Ok acc
  | ev :: evs => acc ← dispatch_event ev acc; dispatch_events evs acc
  end.

Definition reactor_run (usec : Z) (ops : list operation) r : outcome (list operation * R) :=
  let timeout :=
    if usec =? 0 then 0 else
    let timeout := if usec <? 0 then -1 else Z.quot (usec - 1) 1000 + 1 in
    if timer_fd_ r =? -1 then get_timeout_msec timeout r else timeout in
  let '(events, w) := epoll_wait timeout (world r) in
  let r := set_world w r in
  acc ← dispatch_events events (timer_fd_ r =? -1, ops, r);
  let '(check_timers, ops, r) := (acc : bool * list operation * R) in
  if check_timers then
    '(ready, qs, w) ← get_ready_timers (timer_queues_ r) (world r);
    let r := set_world w (set_timer_queues qs r) in
    let r := if negb (timer_fd_ r =? -1) then set_timer r else r in
    Ok (ops ++ (Operation <$> ready), r)
  else Ok (ops, r).
End reactor.

#[export] Instance reactor_task {Q W : Type} `{TimerQueueBase Q W} `{ReactorWorld W} :
    SchedulerTask (Reactor Q W) := {
  task_run := reactor_run;
  task_interrupt := interrupt;
}.

(** Destroying an operation: a descriptor state's [do_complete] does nothing
    without an owner. *)
#[export] Instance reactor_destroy {Q W : Type} `{ReactorWorld W} : DestroyOp (Reactor Q W) :=
  fun o r => match states r !! o with
             | Some _ => r
             | None => update_world (destroy_reactor_op o) r
             end.

(** What a reactor operation does when it completes: its handler. *)
Class Handlers (Q W : Type) := complete_op : op_ptr -> prog (Ctx (Reactor Q W)) unit.

(** ** Operations on descriptors *)

Section descriptors.
Context {Q W : Type} `{TimerQueueBase Q W} `{ReactorWorld W} `{Handlers Q W} (cfg : scheduler_config).
Abbreviation R := (Reactor Q W).
Abbreviation M := (prog (Ctx R)).
Implicit Types (d o : op_ptr) (t : op_type).

Definition get_reactor : M R := c ← get_state; mret (rest c).
Definition load_state d : M descriptor_state := r ← get_reactor; lift (state_at d r).
Definition store_state d (s : descriptor_state) : M unit := modify_rest (put_at d s).
Definition modify_world (f : W -> W) : M unit := modify_rest (update_world f).

Definition perform_op o : M perform_status :=
  r ← get_reactor;
  '(st, w) ← lift (perform o (world r));
  modify_rest (set_world w);; mret st.

Definition do_epoll_ctl (op fd events : Z) d : M (Z * Z) :=
  r ← get_reactor;
  let '(result, err, r) := ctl op fd events (DescriptorPtr d) r in
  modify_rest (fun _ => r);; mret (result, err).

(** *** The pool of descriptor states *)

Definition descriptor_state_new : descriptor_state :=
  mkDescriptor 0 0 (fun _ => []) (fun _ => false) false 0.

Definition allocate_descriptor_state : M op_ptr :=
  r ← get_reactor;
  match free_list r with
  | o :: free => modify_rest (set_lists (o :: live_list r) free);; mret o
  | [] =>
      let '(o, w) := allocate_object (world r) in
      modify_rest (fun r => set_lists (o :: live_list r) [] (put_at o descriptor_state_new (set_world w r)));;
      mret o
  end.

Definition free_descriptor_state d : M unit :=
  modify_rest (fun r => set_lists (base.filter (fun x => x <> d) (live_list r)) (d :: free_list r) r).

(** *** Registration *)

Definition initial_events : Z :=
  Z.lor (Z.lor (Z.lor (Z.lor EPOLLIN EPOLLERR) EPOLLHUP) EPOLLPRI) EPOLLET.

(** The error, 0 when there is none, and the new descriptor state. *)
Definition register_descriptor (descriptor : Z) : M (Z * op_ptr) :=
  d ← allocate_descriptor_state;
  s ← load_state d;
  let s := mkDescriptor descriptor initial_events (op_queues s) (fun _ => true) false (task_result_ s) in
  store_state d s;;
  '(result, err) ← do_epoll_ctl EPOLL_CTL_ADD descriptor initial_events d;
  if negb (result =? 0) then
    if err =? EPERM then store_state d (set_registered 0 s);; mret (0, d)
    else mret (err, d)
  else mret (0, d).

Definition register_internal_descriptor t (descriptor : Z) o : M (Z * op_ptr) :=
  d ← allocate_descriptor_state;
  s ← load_state d;
  let s := mkDescriptor descriptor initial_events (array_set t (op_queues s t ++ [o]) (op_queues s))
             (fun _ => true) false (task_result_ s) in
  store_state d s;;
  '(result, err) ← do_epoll_ctl EPOLL_CTL_ADD descriptor initial_events d;
  if negb (result =? 0) then store_state d (set_registered 0 s);; mret (err, d)
  else mret (0, d).

(** The target's and the source's pointers after the move. *)
Definition move_descriptor (source : op_ptr) : op_ptr * op_ptr := (source, null).

(** *** Starting an operation

    [on_immediate] is called, instead of queueing the operation, when it
    completes at once. *)
Definition call_post_immediate_completion o (is_continuation : bool) : M unit :=
  post_immediate_completion cfg o is_continuation.

Definition enqueue_op t o d : M unit :=
  s ← load_state d;
  store_state d (set_queue t (op_queues s t ++ [o]) s);;
  work_started.

(** Adding EPOLLOUT to the events of the descriptor before a write waits. *)
Definition register_write descriptor d o (on_immediate : M unit) (k : M unit) : M unit :=
  s ← load_state d;
  if Z.land (registered_events_ s) EPOLLOUT =? 0 then
    let events := Z.lor (registered_events_ s) EPOLLOUT in
    '(result, err) ← do_epoll_ctl EPOLL_CTL_MOD descriptor events d;
    if result =? 0 then
      store_state d (set_registered (Z.lor (registered_events_ s) events) s);; k
    else
      modify_world (set_op_ec o (system_error err));; on_immediate
  else k.

Definition start_op t descriptor d o (is_continuation allow_speculative : bool)
    (on_immediate : op_ptr -> bool -> M unit) : M unit :=
  let immediately := on_immediate o is_continuation in
  if d =? null then
    modify_world (set_op_ec o error.bad_descriptor);; immediately
  else
  s ← load_state d;
  if d_shutdown_ s then immediately else
  match op_queues s t with
  | [] =>
      if allow_speculative
         && (negb (bool_decide (t = read_op)) || bool_decide (op_queues s except_op = [])) then
        status ← (if try_speculative_ s t then perform_op o else mret not_done);
        match status with
        | not_done =>
            if registered_events_ s =? 0 then
              modify_world (set_op_ec o operation_not_supported);; immediately
            else if bool_decide (t = write_op) then
              register_write descriptor d o immediately (enqueue_op t o d)
            else enqueue_op t o d
        | done => immediately
        | done_and_exhausted =>
            (if negb (registered_events_ s =? 0) then store_state d (set_speculative t false s)
             else mret tt);;
            immediately
        end
      else if registered_events_ s =? 0 then
        modify_world (set_op_ec o operation_not_supported);; immediately
      else
        let s := if bool_decide (t = write_op)
                 then set_registered (Z.lor (registered_events_ s) EPOLLOUT) s else s in
        store_state d s;;
        do_epoll_ctl EPOLL_CTL_MOD descriptor (registered_events_ s) d;;
        enqueue_op t o d
  | _ => enqueue_op t o d
  end.

(** *** Cancelling *)

(** [op->ec_ = operation_aborted] for each of the operations. *)
Fixpoint abort_ops (ops : list op_ptr) : M unit :=
  match ops with
  | [] => mret tt
  | o :: ops => modify_world (set_op_ec o operation_aborted);; abort_ops ops
  end.

(** All the operations waiting on a descriptor, in the order of the loops. *)
Definition waiting_ops (s : descriptor_state) : list op_ptr :=
  op_queues s read_op ++ op_queues s write_op ++ op_queues s except_op.

Definition cancel_ops d : M unit :=
  if d =? null then mret tt else
  s ← load_state d;
  let ops := waiting_ops s in
  abort_ops ops;;
  store_state d (set_queues (fun _ => []) s);;
  post_deferred_completions cfg ops.

Definition cancel_ops_by_key t (key : Z) d : M unit :=
  if d =? null then mret tt else
  s ← load_state d;
  r ← get_reactor;
  let has_key o := bool_decide (cancellation_key o (world r) = key) in
  let ops := List.filter has_key (op_queues s t) in
  let other_ops := List.filter (fun o => negb (has_key o)) (op_queues s t) in
  abort_ops ops;;
  store_state d (set_queue t other_ops s);;
  post_deferred_completions cfg ops.

(** The caller's pointer to the descriptor state after the call. *)
Definition deregister_descriptor descriptor d (closing : bool) : M op_ptr :=
  if d =? null then mret d else
  s ← load_state d;
  if negb (d_shutdown_ s) then
    (if closing then mret tt
     else if negb (registered_events_ s =? 0) then do_epoll_ctl EPOLL_CTL_DEL descriptor 0 null;; mret tt
     else mret tt);;
    let ops := waiting_ops s in
    abort_ops ops;;
    store_state d (set_closed (set_queues (fun _ => []) s));;
    post_deferred_completions cfg ops;;
    mret d
  else mret null.

(** The local queue's destructor destroys the operations. *)
Definition deregister_internal_descriptor descriptor d : M op_ptr :=
  if d =? null then mret d else
  s ← load_state d;
  if negb (d_shutdown_ s) then
    do_epoll_ctl EPOLL_CTL_DEL descriptor 0 null;;
    store_state d (set_closed (set_queues (fun _ => []) s));;
    destroy_all_ops (waiting_ops s);;
    mret d
  else mret null.

Definition cleanup_descriptor_data d : M op_ptr :=
  if negb (d =? null) then free_descriptor_state d;; mret null else mret d.

(** *** Performing I/O *)

(** The loop over one queue of a ready descriptor: the operations that are
    done, those that remain, and whether the descriptor is exhausted. *)
Fixpoint perform_queue (q : list op_ptr) : M (list op_ptr * list op_ptr * bool) :=
  match q with
  | [] => mret ([], [], false)
  | o :: q' =>
      status ← perform_op o;
      match status with
      | not_done => mret ([], q, false)
      | done =>
          '(ops, rest, exhausted) ← perform_queue q';
          mret (o :: ops, rest, exhausted)
      | done_and_exhausted => mret ([o], q', true)
      end
  end.

Definition perform_type (events : Z) d t : M (list op_ptr) :=
  if negb (Z.land events (Z.lor (Z.lor (event_flag t) EPOLLERR) EPOLLHUP) =? 0) then
    s ← load_state d;
    '(ops, remaining, exhausted) ← perform_queue (op_queues s t);
    store_state d (set_queue t remaining (set_speculative t (negb exhausted) s));;
    mret ops
  else mret [].

(** The operation to complete now, null if there is none. *)
Definition perform_io (events : Z) d : M op_ptr :=
  except_ops ← perform_type events d except_op;
  write_ops ← perform_type events d write_op;
  read_ops ← perform_type events d read_op;
  match except_ops ++ write_ops ++ read_ops with
  | first_op :: ops => post_deferred_completions cfg ops;; mret first_op
  | [] => compensating_work_started;; mret null
  end.

Definition do_complete d (bytes_transferred : Z) : M unit :=
  o ← perform_io (u32 bytes_transferred) d;
  if negb (o =? null) then complete_op o else mret tt.

(** *** Shutting down *)

Fixpoint shutdown_states (ds : list op_ptr) : M (list op_ptr) :=
  match ds with
  | [] => mret []
  | d :: ds =>
      s ← load_state d;
      store_state d (mkDescriptor (descriptor_ s) (registered_events_ s) (fun _ => [])
                       (try_speculative_ s) true (task_result_ s));;
      free_descriptor_state d;;
      ops ← shutdown_states ds;
      mret (waiting_ops s ++ ops)
  end.

Definition reactor_shutdown : M unit :=
  modify_rest (set_r_shutdown true);;
  r ← get_reactor;
  ops ← shutdown_states (live_list r);
  r ← get_reactor;
  '(timers, qs, w) ← lift (get_all_timers (timer_queues_ r) (world r));
  modify_rest (fun r => set_world w (set_timer_queues qs r));;
  abandon_operations (ops ++ timers).
End descriptors.

#[export] Instance reactor_operations {Q W : Type} `{TimerQueueBase Q W} `{ReactorWorld W}
    `{Handlers Q W} (cfg : scheduler_config) : Operations (Reactor Q W) := {
  task_result o r := match states r !! o with Some s => task_result_ s | None => 0 end;
  op_complete o result := fun c =>
    match states (rest c) !! o with
    | Some _ => do_complete cfg o result c
    | None => complete_op o c
    end;
}.
