(* ===== verification/ReactorRules.v ===== *)
(** * Bookkeeping of the event loop

    What it means that the scheduler and the reactor account for every
    operation: the unfinished operations of a context, its work, and the
    effect of each primitive step on them.  The theorems are in
    ReactorTheorems.v. *)

From S2P Require Import Prelude SocketOps OpQueue Scheduler EpollReactor.

(** ** What is assumed of the world and of the timer queues

    [watched w d]: the descriptor state [d] has been registered with epoll.
    Events are reported for such only. *)
Class WorldOk (W : Type) `{ReactorWorld W} := {
  watched : W -> op_ptr -> Prop;
  perform_ok o w : exists st w', perform o w = Ok (st, w') /\ forall d, watched w' d -> watched w d;
  set_op_ec_ok o e w d : watched (set_op_ec o e w) d -> watched w d;
  destroy_ok o w d : watched (destroy_reactor_op o w) d -> watched w d;
  epoll_ctl_ok op fd ev p w d :
    watched (epoll_ctl op fd ev p w).2 d -> watched w d \/ op = EPOLL_CTL_ADD /\ p = DescriptorPtr d;
  epoll_wait_ok timeout w d :
    (watched (epoll_wait timeout w).2 d -> watched w d) /\
    (DescriptorPtr d ∈ (epoll_wait timeout w).1.*1 -> watched w d);
  timerfd_ok flags sec nsec w d : watched (timerfd_settime flags sec nsec w) d -> watched w d;
  (** The error an operation will report: [set_op_ec] sets it, and the calls
      of the operating system leave it. *)
  op_ec : W -> op_ptr -> error_code;
  set_op_ec_ec o e w o' : op_ec (set_op_ec o e w) o' = if decide (o = o') then e else op_ec w o';
  epoll_ctl_ec op fd ev p w o : op_ec (epoll_ctl op fd ev p w).2 o = op_ec w o;
}.

(** The operations waiting in a timer queue: those that are taken out are no
    longer in it.  The law is shown for timer_queue in TimerQueueRefines.v. *)
Class TimerQueueOk (Q W : Type) `{TimerQueueBase Q W} `{ReactorWorld W} `{!WorldOk W} := {
  tq_ok : Q -> Prop;
  tq_waiting : Q -> list op_ptr;
  tq_ready_ok q w : tq_ok q -> exists ops q' w', tq_get_ready_timers q w = Ok (ops, q', w') /\
    tq_ok q' /\ tq_waiting q ≡ₚ ops ++ tq_waiting q' /\ forall d, watched w' d -> watched w d;
}.

(** ** The unfinished operations *)

Section books.
Context {Q W : Type} `{TimerQueueOk Q W}.
Abbreviation R := (Reactor Q W).
Implicit Types (r : R) (c : Ctx R) (d o : op_ptr) (t : op_type).

Definition is_state r o : bool := bool_decide (is_Some (states r !! o)).

(** The operations of a queue, without the task and the descriptors. *)
Definition user_ops r (q : list operation) : list op_ptr :=
  q ≫= fun op => match op with
                 | Operation o => if is_state r o then [] else [o]
                 | TaskOperation => []
                 end.

Definition waiting_in (m : gmap op_ptr descriptor_state) : list op_ptr :=
  (map_to_list m).*2 ≫= waiting_ops.

Definition waiting_timers (qs : list Q) : list op_ptr := qs ≫= tq_waiting.

(** Every operation that has been started and whose handler has not run. *)
Definition unfinished c : list op_ptr :=
  let s := scheduler c in let r := rest c in
  user_ops r (op_queue_ s ++ private_op_queue s) ++ waiting_in (states r) ++ waiting_timers (timer_queues_ r).

Definition work c : Z := outstanding_work_ (scheduler c) + private_outstanding_work (scheduler c).

(** The work counted in excess of the unfinished operations. *)
Definition balance c : Z := work c - Z.of_nat (length (unfinished c)).

(** Operations are not descriptor states, nor null; epoll watches existing
    states only. *)
Definition op_ok r o : Prop := o <> null /\ states r !! o = None.

Record wf c : Prop := {
  wf_null : states (rest c) !! null = None;
  wf_queues d s t o : states (rest c) !! d = Some s -> o ∈ op_queues s t -> op_ok (rest c) o;
  wf_timers o : o ∈ waiting_timers (timer_queues_ (rest c)) -> op_ok (rest c) o;
  wf_tq : Forall tq_ok (timer_queues_ (rest c));
  wf_sched o : Operation o ∈ op_queue_ (scheduler c) ++ private_op_queue (scheduler c) -> o <> null;
  wf_watched d : watched (world (rest c)) d -> is_Some (states (rest c) !! d);
  wf_private : 0 <= private_outstanding_work (scheduler c);
}.

(** *** Lists of operations *)

Lemma user_ops_app r q1 q2 : user_ops r (q1 ++ q2) = user_ops r q1 ++ user_ops r q2.
Proof. apply bind_app. Qed.

Lemma user_ops_same r r' q : states r = states r' -> user_ops r q = user_ops r' q.
Proof. intros E. unfold user_ops, is_state. by rewrite E. Qed.

Lemma user_ops_user r ops : (forall o, o ∈ ops -> op_ok r o) -> user_ops r (Operation <$> ops) = ops.
Proof.
  induction ops as [|o ops IH]; intros Ho; [done|].
  assert (op_ok r o) as [_ E] by (apply Ho; set_solver).
  cbn. unfold is_state. rewrite E. rewrite bool_decide_eq_false_2 by (by intros [??]).
  cbn. f_equal. apply IH. intros. apply Ho. set_solver.
Qed.

Lemma user_ops_dom r r' q : (forall o, is_state r o = is_state r' o) -> user_ops r q = user_ops r' q.
Proof.
  intros E. induction q as [|[|o] q IH]; [done|done|]. cbn. by rewrite E; f_equal.
Qed.

Lemma waiting_in_insert m d s : m !! d = None -> waiting_in (<[d:=s]> m) ≡ₚ waiting_ops s ++ waiting_in m.
Proof.
  intros Hd. unfold waiting_in.
  rewrite (map_to_list_insert m d s Hd). by rewrite fmap_cons, bind_cons.
Qed.

Lemma waiting_in_update m d s s' : m !! d = Some s ->
  exists others, waiting_in m ≡ₚ waiting_ops s ++ others /\ waiting_in (<[d:=s']> m) ≡ₚ waiting_ops s' ++ others.
Proof.
  intros Hd. exists (waiting_in (delete d m)). split.
  - rewrite <- waiting_in_insert by apply lookup_delete_eq. by rewrite insert_delete_id.
  - rewrite <- (insert_delete_eq m d s'). apply waiting_in_insert, lookup_delete_eq.
Qed.

Lemma elem_of_waiting_ops s o : o ∈ waiting_ops s <-> exists t, o ∈ op_queues s t.
Proof.
  unfold waiting_ops. rewrite !elem_of_app. split.
  - intros [?|[?|?]]; eauto.
  - intros [[] ?]; eauto.
Qed.

Lemma elem_of_user_ops r q o : o ∈ user_ops r q -> Operation o ∈ q /\ states r !! o = None.
Proof.
  unfold user_ops. rewrite list_elem_of_bind. intros ([|o'] & Ho & Hq); [set_solver|].
  unfold is_state in Ho. case_bool_decide as E; [set_solver|].
  apply list_elem_of_singleton in Ho as ->. split; [done|]. by apply eq_None_not_Some.
Qed.

(** *** Steps that change nothing that is accounted for *)

Definition quiet c c' : Prop :=
  op_queue_ (scheduler c') = op_queue_ (scheduler c) /\
  private_op_queue (scheduler c') = private_op_queue (scheduler c) /\
  outstanding_work_ (scheduler c') = outstanding_work_ (scheduler c) /\
  private_outstanding_work (scheduler c') = private_outstanding_work (scheduler c) /\
  stopped_ (scheduler c') = stopped_ (scheduler c) /\
  running (scheduler c') = running (scheduler c) /\
  states (rest c') = states (rest c) /\
  timer_queues_ (rest c') = timer_queues_ (rest c) /\
  forall d, watched (world (rest c')) d -> watched (world (rest c)) d.

Lemma quiet_refl c : quiet c c.
Proof. by unfold quiet. Qed.

Lemma quiet_trans c1 c2 c3 : quiet c1 c2 -> quiet c2 c3 -> quiet c1 c3.
Proof.
  intros (A1 & A2 & A3 & A4 & A5 & A6 & A7 & A8 & A9) (B1 & B2 & B3 & B4 & B5 & B6 & B7 & B8 & B9).
  unfold quiet. rewrite B1, B2, B3, B4, B5, B6, B7, B8. split_and!; try done. eauto.
Qed.

Lemma quiet_unfinished c c' : quiet c c' -> unfinished c' = unfinished c.
Proof.
  intros (E1 & E2 & _ & _ & _ & _ & E6 & E7 & _). unfold unfinished.
  rewrite E1, E2, E6, E7. f_equal. by apply user_ops_same.
Qed.

Lemma quiet_balance c c' : quiet c c' -> balance c' = balance c.
Proof.
  intros Hq. unfold balance, work. rewrite (quiet_unfinished _ _ Hq).
  destruct Hq as (_ & _ & -> & -> & _). done.
Qed.

Lemma quiet_wf c c' : quiet c c' -> wf c -> wf c'.
Proof.
  intros (E1 & E2 & E3 & E4 & _ & _ & E6 & E7 & E8) [].
  split; unfold op_ok; rewrite ?E1, ?E2, ?E3, ?E4, ?E6, ?E7; eauto.
Qed.

(** *** The rules *)

Definition with_sched (f : Scheduler -> Scheduler) c : Ctx R := mkCtx (f (scheduler c)) (rest c).
Definition with_rest (f : R -> R) c : Ctx R := mkCtx (scheduler c) (f (rest c)).

Lemma wp_get_sched c (Phi : Scheduler -> Ctx R -> Prop) : Phi (scheduler c) c -> wp get_sched c Phi.
Proof. intros HP. by apply wp_bind, wp_get, wp_ret. Qed.

Lemma wp_modify f c (Phi : unit -> Ctx R -> Prop) : Phi tt (with_sched f c) -> wp (modify f) c Phi.
Proof. intros HP. by apply wp_bind, wp_get, wp_put. Qed.

Lemma wp_modify_rest f c (Phi : unit -> Ctx R -> Prop) : Phi tt (with_rest f c) -> wp (modify_rest f) c Phi.
Proof. intros HP. by apply wp_bind, wp_get, wp_put. Qed.

Lemma wp_get_reactor c (Phi : R -> Ctx R -> Prop) : Phi (rest c) c -> wp get_reactor c Phi.
Proof. intros HP. by apply wp_bind, wp_get, wp_ret. Qed.

Lemma wp_load_state d s c (Phi : descriptor_state -> Ctx R -> Prop) :
  states (rest c) !! d = Some s -> Phi s c -> wp (load_state d) c Phi.
Proof.
  intros Hs HP. apply wp_bind, wp_get_reactor. unfold state_at. rewrite Hs. by eapply wp_lift.
Qed.

Lemma interrupt_quiet c : quiet c (with_rest interrupt c).
Proof.
  unfold with_rest, interrupt, ctl.
  destruct (epoll_ctl _ _ _ _ _) as [[x y] w'] eqn:E. unfold quiet. simpl. split_and!; try done.
  intros d Hd. pose proof (epoll_ctl_ok EPOLL_CTL_MOD interrupter_fd
    (Z.lor (Z.lor EPOLLIN EPOLLERR) EPOLLET) InterrupterPtr (world (rest c)) d) as Hok.
  rewrite E in Hok. by destruct (Hok Hd) as [|[? ?]].
Qed.

(** ... nor the error of any operation. *)
Definition keeps_ec c c' : Prop := forall o, op_ec (world (rest c')) o = op_ec (world (rest c)) o.

Lemma interrupt_keeps_ec c : keeps_ec c (with_rest interrupt c).
Proof.
  intros o. unfold with_rest, interrupt, ctl. pose proof (epoll_ctl_ec EPOLL_CTL_MOD interrupter_fd
    (Z.lor (Z.lor EPOLLIN EPOLLERR) EPOLLET) InterrupterPtr (world (rest c)) o) as Hec.
  destruct (epoll_ctl _ _ _ _ _) as [[x y] w']. exact Hec.
Qed.

Lemma wp_interrupt_task_ec c : wp interrupt_task c (fun _ c' => quiet c c' /\ keeps_ec c c').
Proof.
  unfold interrupt_task. apply wp_bind, wp_get_sched.
  destruct (negb _ && _); [|by apply wp_ret; split; [apply quiet_refl|intros o]].
  apply wp_bind, wp_modify, wp_modify_rest. split; [|exact (interrupt_keeps_ec (with_sched (set_interrupted true) c))].
  eapply quiet_trans; [|apply interrupt_quiet]. done.
Qed.

Lemma wp_interrupt_task c : wp interrupt_task c (fun _ c' => quiet c c').
Proof. eapply wp_mono; [apply wp_interrupt_task_ec|]. by intros ? c' [? _]. Qed.

Lemma wp_quiet {A} (m : prog (Ctx R) A) c c0 (Phi : A -> Ctx R -> Prop) :
  wp m c (fun _ c' => quiet c c') -> (forall a c', quiet c c' -> Phi a c') -> wp m c Phi.
Proof. intros Hm HP. eapply wp_mono; [exact Hm|]. simpl. auto. Qed.

Lemma wp_stop c : wp stop c (fun _ c' => quiet (with_sched (set_stopped true) c) c').
Proof.
  unfold stop, stop_all_threads. apply wp_bind, wp_modify. unfold interrupt_task.
  apply wp_bind, wp_get_sched.
  destruct (negb _ && _); [|by apply wp_ret].
  apply wp_bind, wp_modify, wp_modify_rest.
  eapply quiet_trans; [|apply interrupt_quiet]. done.
Qed.

(** The queue and the counts after each operation of the scheduler. *)
Definition add_queue (ops : list operation) : Scheduler -> Scheduler :=
  fun s => set_op_queue (op_queue_ s ++ ops) s.
Definition add_work (n : Z) : Scheduler -> Scheduler := fun s => set_work (outstanding_work_ s + n) s.
Definition add_private (ops : list operation) (n : Z) : Scheduler -> Scheduler :=
  fun s => set_thread (running s) (private_op_queue s ++ ops) (private_outstanding_work s + n) s.

Lemma wp_enqueue_ec ops c :
  wp (enqueue ops) c (fun _ c' => quiet (with_sched (add_queue ops) c) c' /\ keeps_ec c c').
Proof.
  unfold enqueue. apply wp_bind, wp_get_sched, wp_bind, wp_modify.
  exact (wp_interrupt_task_ec (with_sched (add_queue ops) c)).
Qed.

Lemma wp_enqueue ops c : wp (enqueue ops) c (fun _ c' => quiet (with_sched (add_queue ops) c) c').
Proof. eapply wp_mono; [apply wp_enqueue_ec|]. by intros ? c' [? _]. Qed.

Lemma wp_push_private ops n c : wp (push_private ops n) c (fun _ c' => c' = with_sched (add_private ops n) c).
Proof. unfold push_private. by apply wp_bind, wp_get_sched, wp_modify. Qed.

Lemma wp_work_started c : wp work_started c (fun _ c' => c' = with_sched (add_work 1) c).
Proof. unfold work_started. by apply wp_bind, wp_get_sched, wp_modify. Qed.

(** [work_finished] takes one unit of work, and stops the scheduler with the
    last. *)
Lemma wp_work_finished c : wp work_finished c (fun _ c' =>
  let n := outstanding_work_ (scheduler c) - 1 in
  quiet (with_sched (if n =? 0 then set_stopped true ∘ set_work n else set_work n) c) c').
Proof.
  unfold work_finished. apply wp_bind, wp_get_sched, wp_bind, wp_modify.
  destruct (_ =? 0); [|by apply wp_ret]. eapply wp_mono; [apply wp_stop|]. by intros ? c' Hq.
Qed.
End books.
