(* ===== verification/ReactorBooks.v ===== *)
(** * The operations of the reactor keep the books

    For each operation of the scheduler and the reactor: which operations
    are unfinished after it, and how much work is counted. *)

From S2P Require Import Prelude SocketOps OpQueue Scheduler EpollReactor ReactorRules.

Section keeping.
Context {Q W : Type} `{TimerQueueOk Q W} `{Handlers Q W} (cfg : scheduler_config).
Abbreviation R := (Reactor Q W).
Implicit Types (r : R) (c : Ctx R) (d o : op_ptr) (t : op_type).

(** From [c], [ops] have become unfinished and the work has grown by [n];
    the descriptor states are those given by [m]. *)
Record entered (m : gmap op_ptr descriptor_state) (ops : list op_ptr) (n : Z) c c' : Prop := {
  en_unfinished : unfinished c' ≡ₚ ops ++ unfinished c;
  en_work : work c' = work c + n;
  en_wf : wf c';
  en_states : states (rest c') = m;
  en_outstanding : outstanding_work_ (scheduler c) <= outstanding_work_ (scheduler c');
  en_stopped : stopped_ (scheduler c') = stopped_ (scheduler c);
}.

Lemma entered_quiet m ops n c c1 c2 : entered m ops n c c1 -> quiet c1 c2 -> entered m ops n c c2.
Proof.
  intros [Hu Hw Hwf Hs Hout Hst] Hq. split.
  - by rewrite (quiet_unfinished _ _ Hq).
  - unfold work in *. pose proof Hq as (_ & _ & -> & -> & _). done.
  - by eapply quiet_wf.
  - by destruct Hq as (_ & _ & _ & _ & _ & _ & -> & _).
  - by destruct Hq as (_ & _ & -> & _).
  - by destruct Hq as (_ & _ & _ & _ & -> & _).
Qed.

Lemma entered_nil c : wf c -> entered (states (rest c)) [] 0 c c.
Proof. intros Hwf. split; try done. lia. Qed.

Lemma entered_trans m m' ops ops' n n' c c1 c2 :
  entered m ops n c c1 -> entered m' ops' n' c1 c2 -> entered m' (ops' ++ ops) (n' + n) c c2.
Proof.
  intros [Hu Hw _ _ Ho Hp] [Hu' Hw' Hwf' Hs' Ho' Hp']. split; [|lia|done|done|lia|congruence].
  by rewrite Hu', Hu, app_assoc.
Qed.

Lemma entered_balance m ops n c c' : entered m ops n c c' -> balance c' = balance c + n - Z.of_nat (length ops).
Proof.
  intros [Hu Hw _ _ _ _]. unfold balance. rewrite Hw, Hu, length_app. lia.
Qed.

(** *** Posting *)

Lemma queue_entered ops c : wf c -> (forall o, o ∈ ops -> op_ok (rest c) o) ->
  entered (states (rest c)) ops 0 c (with_sched (add_queue (Operation <$> ops)) c).
Proof.
  intros Hwf Ho. split; [|unfold work; simpl; lia| |done|simpl; lia|done].
  - unfold unfinished. simpl. rewrite !user_ops_app, (user_ops_user _ ops) by done.
    solve_Permutation.
  - destruct Hwf. split; simpl; try done. intros o. rewrite elem_of_app, elem_of_app, list_elem_of_fmap.
    intros [[Hq|(o' & Eo & Hq)]|Hq].
    + apply wf_sched. set_solver.
    + injection Eo as ->. by apply Ho.
    + apply wf_sched. set_solver.
Qed.

Lemma private_entered ops n c : wf c -> 0 <= n -> (forall o, o ∈ ops -> op_ok (rest c) o) ->
  entered (states (rest c)) ops n c (with_sched (add_private (Operation <$> ops) n) c).
Proof.
  intros Hwf Hn Ho. split; [|unfold work; simpl; lia| |done|simpl; lia|done].
  - unfold unfinished. simpl. rewrite !user_ops_app, (user_ops_user _ ops) by done.
    solve_Permutation.
  - destruct Hwf. split; simpl; try done; [|lia]. intros o. rewrite elem_of_app, elem_of_app, list_elem_of_fmap.
    intros [Hq|[Hq|(o' & Eo & Hq)]].
    + apply wf_sched. set_solver.
    + apply wf_sched. set_solver.
    + injection Eo as ->. by apply Ho.
Qed.

Lemma work_entered n c : wf c -> 0 <= n -> entered (states (rest c)) [] n c (with_sched (add_work n) c).
Proof. intros [] Hn. split; [done|unfold work; simpl; lia| |done|simpl; lia|done]. by split. Qed.

Lemma wp_post_immediate o ic c : wf c -> op_ok (rest c) o ->
  wp (post_immediate_completion cfg o ic) c (fun _ c' => entered (states (rest c)) [o] 1 c c').
Proof.
  intros Hwf Ho. unfold post_immediate_completion. apply wp_bind, wp_get_sched.
  destruct (_ && _).
  - eapply wp_mono; [apply wp_push_private|]. intros _ c' ->.
    apply (private_entered [o]); [done|lia|]. intros o' ->%list_elem_of_singleton. done.
  - apply wp_bind. eapply wp_mono; [apply wp_work_started|]. intros _ c1 ->.
    eapply wp_mono; [apply wp_enqueue|]. intros ? c' Hq.
    eapply entered_quiet; [|exact Hq].
    pose proof (work_entered 1 c Hwf ltac:(lia)) as Hw1.
    apply (entered_trans _ _ _ [o] _ 0 _ _ _ Hw1). refine (queue_entered [o] (with_sched (add_work 1) c) (en_wf _ _ _ _ _ Hw1) _).
    intros o' ->%list_elem_of_singleton. done.
Qed.

Lemma wp_post_deferred ops c : wf c -> (forall o, o ∈ ops -> op_ok (rest c) o) ->
  wp (post_deferred_completions cfg ops) c (fun _ c' => entered (states (rest c)) ops 0 c c' /\
    keeps_ec c c' /\
    (one_thread_ cfg = false -> op_queue_ (scheduler c') = op_queue_ (scheduler c) ++ (Operation <$> ops) /\
                                private_op_queue (scheduler c') = private_op_queue (scheduler c))).
Proof.
  intros Hwf Ho. unfold post_deferred_completions. destruct ops as [|o ops].
  { apply wp_ret. split_and!; [by apply entered_nil|done|]. simpl. by rewrite app_nil_r. }
  apply wp_bind, wp_get_sched. destruct (one_thread_ cfg); simpl; [destruct (running _)|].
  - eapply wp_mono; [apply wp_push_private|]. intros _ c' ->. split_and!; [by apply private_entered|done|done].
  - eapply wp_mono; [apply wp_enqueue_ec|]. intros ? c' [Hq Hec]. split_and!; [|done|done].
    eapply entered_quiet; [|exact Hq]. by apply queue_entered.
  - eapply wp_mono; [apply wp_enqueue_ec|]. intros ? c' [Hq Hec]. split_and!; [|done|].
    + eapply entered_quiet; [|exact Hq]. by apply queue_entered.
    + intros _. by destruct Hq as (-> & -> & _).
Qed.

(** *** Changing a descriptor state *)

Lemma op_ok_put r d s s' o : states r !! d = Some s -> op_ok r o -> op_ok (put_at d s' r) o.
Proof.
  intros Hd [Ho0 Ho]. split; [done|]. simpl. rewrite lookup_insert_ne; [done|]. intros ->. congruence.
Qed.

Lemma is_state_put r d s s' o : states r !! d = Some s -> is_state (put_at d s' r) o = is_state r o.
Proof.
  intros Hd. unfold is_state. simpl. destruct (decide (d = o)) as [->|Hne].
  - rewrite lookup_insert_eq, Hd. by rewrite !bool_decide_eq_true_2.
  - by rewrite lookup_insert_ne.
Qed.

Lemma put_unfinished d s s' c : states (rest c) !! d = Some s -> exists others,
  unfinished c ≡ₚ waiting_ops s ++ others /\
  unfinished (with_rest (put_at d s') c) ≡ₚ waiting_ops s' ++ others.
Proof.
  intros Hd. destruct (waiting_in_update (states (rest c)) d s s' Hd) as (others & E1 & E2).
  exists (user_ops (rest c) (op_queue_ (scheduler c) ++ private_op_queue (scheduler c)) ++ others ++
          waiting_timers (timer_queues_ (rest c))).
  unfold unfinished. simpl. split.
  - rewrite E1. solve_Permutation.
  - rewrite E2, (user_ops_dom _ (rest c)); [solve_Permutation|]. intros o. by eapply is_state_put.
Qed.

Lemma put_wf d s s' c : wf c -> states (rest c) !! d = Some s ->
  (forall t o, o ∈ op_queues s' t -> op_ok (rest c) o) -> wf (with_rest (put_at d s') c).
Proof.
  intros [] Hd Ho.
  assert (forall o, op_ok (rest c) o -> op_ok (put_at d s' (rest c)) o) as Hput
    by (intros o; by eapply op_ok_put).
  split; simpl; try done.
  - rewrite lookup_insert_ne; [done|]. intros ->. congruence.
  - intros d' s'' t o Hd' Hin. apply Hput. destruct (decide (d = d')) as [->|Hne].
    + rewrite lookup_insert_eq in Hd'. injection Hd' as <-. by apply (Ho t).
    + rewrite lookup_insert_ne in Hd' by done. by eapply wf_queues.
  - intros o Hin. apply Hput. by apply wf_timers.
  - intros d' Hw. destruct (decide (d = d')) as [->|Hne]; [rewrite lookup_insert_eq; by eexists|].
    rewrite lookup_insert_ne by done. by apply wf_watched.
Qed.

(** The queues of the two states hold the same operations. *)
Lemma put_entered d s s' c : wf c -> states (rest c) !! d = Some s ->
  (forall t, op_queues s' t = op_queues s t) ->
  entered (<[d:=s']> (states (rest c))) [] 0 c (with_rest (put_at d s') c).
Proof.
  intros Hwf Hd Hq. destruct (put_unfinished d s s' c Hd) as (others & E1 & E2). split; try done.
  - simpl. rewrite E1, E2. unfold waiting_ops. by rewrite !Hq.
  - unfold work. simpl. lia.
  - eapply put_wf; [done..|]. intros t o. rewrite Hq. by eapply wf_queues.
Qed.

Lemma wp_store_state d s' c (Phi : unit -> Ctx R -> Prop) :
  Phi tt (with_rest (put_at d s') c) -> wp (store_state d s') c Phi.
Proof. apply wp_modify_rest. Qed.

Lemma world_quiet (f : W -> W) c : (forall w d, watched (f w) d -> watched w d) ->
  quiet c (with_rest (update_world f) c).
Proof. intros Hf. unfold quiet. simpl. split_and!; eauto. Qed.

Lemma wp_set_ec_op o e c : wp (modify_world (set_op_ec o e)) c (fun _ c' => quiet c c').
Proof. apply wp_modify_rest, world_quiet. intros w d. apply set_op_ec_ok. Qed.

Lemma wp_perform_op o c : wp (perform_op o) c (fun st c' => quiet c c' /\
  exists w, perform o (world (rest c)) = Ok (st, w) /\ world (rest c') = w).
Proof.
  unfold perform_op. apply wp_bind, wp_get_reactor.
  destruct (perform_ok o (world (rest c))) as (st & w & E & Hw).
  apply wp_bind. eapply wp_lift; [exact E|]. apply wp_bind, wp_modify_rest, wp_ret.
  split; [|by exists w]. unfold quiet. simpl. by split_and!.
Qed.

Lemma wp_mod_ctl op fd ev d c : op <> EPOLL_CTL_ADD ->
  wp (do_epoll_ctl op fd ev d) c (fun _ c' => quiet c c').
Proof.
  intros Hop. unfold do_epoll_ctl. apply wp_bind, wp_get_reactor. unfold ctl.
  destruct (epoll_ctl op fd ev (DescriptorPtr d) (world (rest c))) as [[x y] w'] eqn:E.
  apply wp_bind, wp_modify_rest, wp_ret. unfold quiet. simpl. split_and!; try done.
  intros d' Hd. pose proof (epoll_ctl_ok op fd ev (DescriptorPtr d) (world (rest c)) d') as Hok.
  rewrite E in Hok. by destruct (Hok Hd) as [|[? ?]].
Qed.

(** *** Starting operations *)

(** The state [s'] of a descriptor has the queues of [s], with [o] at the
    back of the queue of type [t] if [queued]. *)
Definition queued_at (queued : bool) t o (s s' : descriptor_state) : Prop :=
  forall t', op_queues s' t' = if queued && bool_decide (t = t') then op_queues s t' ++ [o] else op_queues s t'.

Lemma queued_at_set t o s : queued_at true t o s (set_queue t (op_queues s t ++ [o]) s).
Proof.
  intros t'. unfold set_queue, set_queues, array_set. cbn [op_queues andb].
  destruct (decide (t = t')) as [->|Hne]; [by rewrite bool_decide_eq_true_2|].
  by rewrite bool_decide_eq_false_2.
Qed.

Lemma waiting_ops_queued t o s s' : queued_at true t o s s' -> waiting_ops s' ≡ₚ o :: waiting_ops s.
Proof.
  intros Hq. unfold waiting_ops. rewrite !Hq. destruct t; simpl; solve_Permutation.
Qed.

Lemma wp_enqueue_op t o d s c : wf c -> op_ok (rest c) o -> states (rest c) !! d = Some s ->
  wp (enqueue_op t o d) c (fun _ c' => exists s', queued_at true t o s s' /\
    entered (<[d:=s']> (states (rest c))) [o] 1 c c').
Proof.
  intros Hwf Ho Hd. unfold enqueue_op. apply wp_bind. eapply wp_load_state; [done|].
  apply wp_bind, wp_store_state. eapply wp_mono; [apply wp_work_started|]. intros ? c' ->.
  eexists. split; [apply queued_at_set|split].
  - destruct (put_unfinished d s (set_queue t (op_queues s t ++ [o]) s) c Hd) as (others & E1 & E2).
    change (unfinished (with_rest (put_at d (set_queue t (op_queues s t ++ [o]) s)) c) ≡ₚ o :: unfinished c).
    rewrite E1, E2, (waiting_ops_queued t o s); [done|]. apply queued_at_set.
  - unfold work. simpl. lia.
  - apply (work_entered 1); [|lia]. eapply put_wf; [done..|]. intros t' o'. simpl. unfold array_set.
    case_decide as E; [subst|by eapply wf_queues].
    rewrite elem_of_app, list_elem_of_singleton. intros [?| ->]; [by eapply wf_queues|done].
  - done.
  - simpl. lia.
  - done.
Qed.

(** What a start comes to: [o] is unfinished and counted, and is at the back
    of its queue unless it completes at once. *)
Definition started t d o c c' : Prop := exists m,
  entered m [o] 1 c c' /\
  (states (rest c) !! d = None -> m = states (rest c)) /\
  forall s, states (rest c) !! d = Some s -> exists s' queued,
    m = <[d:=s']> (states (rest c)) /\ queued_at queued t o s s'.

(** A context that differs from [c] at most in the flags of descriptor [d]. *)
Definition only_flags d c c' : Prop := exists m,
  entered m [] 0 c c' /\
  (states (rest c) !! d = None -> m = states (rest c)) /\
  forall s, states (rest c) !! d = Some s -> exists s',
    m = <[d:=s']> (states (rest c)) /\ forall t, op_queues s' t = op_queues s t.

Lemma only_flags_quiet d c c1 c2 : only_flags d c c1 -> quiet c1 c2 -> only_flags d c c2.
Proof. intros (m & He & Hm) Hq. exists m. split; [by eapply entered_quiet|done]. Qed.

Lemma only_flags_refl d c : wf c -> only_flags d c c.
Proof.
  intros Hwf. exists (states (rest c)). split_and!; [by apply entered_nil|done|].
  intros s Hs. exists s. split; [by rewrite insert_id|done].
Qed.

Lemma only_flags_put d s s' c : wf c -> states (rest c) !! d = Some s ->
  (forall t, op_queues s' t = op_queues s t) -> only_flags d c (with_rest (put_at d s') c).
Proof.
  intros Hwf Hs Hq. eexists. split_and!; [by eapply put_entered| |].
  - intros E. congruence.
  - intros s1 Hs1. exists s'. split; [done|]. intros t. rewrite Hq. congruence.
Qed.

Lemma only_flags_put_later d s s' c c1 : only_flags d c c1 -> states (rest c) !! d = Some s ->
  (forall t, op_queues s' t = op_queues s t) -> only_flags d c (with_rest (put_at d s') c1).
Proof.
  intros (m & He & Hm & Hm') Hs Hq. destruct (Hm' s Hs) as (s1 & -> & Hq1).
  assert (states (rest c1) !! d = Some s1) as Hs1 by (rewrite (en_states _ _ _ _ _ He); apply lookup_insert_eq).
  eexists. split_and!.
  - eapply (entered_trans _ _ _ [] _ 0); [exact He|]. eapply put_entered; [by eapply en_wf|done|].
    intros t. by rewrite Hq, Hq1.
  - intros E. congruence.
  - intros s2 Hs2. assert (s2 = s) as -> by congruence. exists s'. split; [|done].
    by rewrite (en_states _ _ _ _ _ He), insert_insert_eq.
Qed.

Lemma only_flags_state d s c c1 : only_flags d c c1 -> states (rest c) !! d = Some s ->
  exists s1, states (rest c1) !! d = Some s1 /\ forall t, op_queues s1 t = op_queues s t.
Proof.
  intros (m & He & Hm & Hm') Hs. destruct (Hm' s Hs) as (s1 & -> & Hq1). exists s1. split; [|done].
  rewrite (en_states _ _ _ _ _ He). apply lookup_insert_eq.
Qed.

Lemma only_flags_op_ok d c c' o : only_flags d c c' -> op_ok (rest c) o -> op_ok (rest c') o.
Proof.
  intros (m & He & Hm & Hm') [Ho0 Ho]. split; [done|]. rewrite (en_states _ _ _ _ _ He).
  destruct (states (rest c) !! d) as [s|] eqn:Hs; [|by rewrite Hm].
  destruct (Hm' s eq_refl) as (s' & -> & _). rewrite lookup_insert_ne; [done|]. intros ->. congruence.
Qed.

Lemma wp_immediately t d o ic c c1 : only_flags d c c1 -> op_ok (rest c) o ->
  wp (call_post_immediate_completion cfg o ic) c1 (fun _ c' => started t d o c c').
Proof.
  intros Hf Ho. pose proof (only_flags_op_ok _ _ _ _ Hf Ho) as Ho1. destruct Hf as (m & He & Hm & Hm').
  eapply wp_mono; [apply wp_post_immediate; [by eapply en_wf|done]|]. intros ? c' He'. exists m.
  rewrite (en_states _ _ _ _ _ He) in He'. split_and!; [|done|].
  - apply (entered_trans _ _ _ _ _ _ _ _ _ He He').
  - intros s Hs. destruct (Hm' s Hs) as (s' & -> & Hq). exists s', false. split; [done|]. exact Hq.
Qed.

Lemma wp_enqueue_started t d o s c c1 : only_flags d c c1 -> op_ok (rest c) o ->
  states (rest c) !! d = Some s -> wp (enqueue_op t o d) c1 (fun _ c' => started t d o c c').
Proof.
  intros Hf Ho Hs. pose proof (only_flags_op_ok _ _ _ _ Hf Ho) as Ho1. destruct Hf as (m & He & Hm & Hm').
  destruct (Hm' s Hs) as (s1 & -> & Hq1).
  assert (states (rest c1) !! d = Some s1) as Hs1 by (rewrite (en_states _ _ _ _ _ He); apply lookup_insert_eq).
  eapply wp_mono; [by apply wp_enqueue_op; [eapply en_wf|done|]|]. intros ? c' (s' & Hq & He').
  rewrite (en_states _ _ _ _ _ He), insert_insert_eq in He'. eexists. split_and!.
  - apply (entered_trans _ _ _ _ _ _ _ _ _ He He').
  - intros E. congruence.
  - intros s2 Hs2. exists s', true. split; [done|]. intros t'. rewrite Hq, Hq1.
    assert (s2 = s) as -> by congruence. done.
Qed.

Lemma wp_fail_immediately t d o ic e c c1 : only_flags d c c1 -> op_ok (rest c) o ->
  wp (modify_world (set_op_ec o e);; call_post_immediate_completion cfg o ic) c1
     (fun _ c' => started t d o c c').
Proof.
  intros Hf Ho. apply wp_bind. eapply wp_quiet; [exact c|apply wp_set_ec_op|]. intros _ c2 Hq.
  apply wp_immediately; [by eapply only_flags_quiet|done].
Qed.

Lemma wp_register_write fd d s o ic c c1 : only_flags d c c1 -> op_ok (rest c) o ->
  states (rest c) !! d = Some s ->
  wp (register_write fd d o (call_post_immediate_completion cfg o ic) (enqueue_op write_op o d)) c1
     (fun _ c' => started write_op d o c c').
Proof.
  intros Hf Ho Hs. destruct (only_flags_state _ _ _ _ Hf Hs) as (s1 & Hs1 & Hq1).
  unfold register_write. apply wp_bind. eapply wp_load_state; [done|].
  destruct (Z.land _ _ =? 0); [|by eapply wp_enqueue_started].
  apply wp_bind. eapply wp_quiet; [exact c|by apply wp_mod_ctl|]. intros [result err] c2 Hq2.
  pose proof (only_flags_quiet _ _ _ _ Hf Hq2) as Hf2.
  destruct (result =? 0); [|by apply wp_fail_immediately].
  apply wp_bind, wp_store_state. eapply wp_enqueue_started; [|done|done].
  by eapply only_flags_put_later.
Qed.

Lemma wp_start_op t fd d o ic sp c : wf c -> op_ok (rest c) o -> (d = null \/ is_Some (states (rest c) !! d)) ->
  wp (start_op t fd d o ic sp (call_post_immediate_completion cfg)) c (fun _ c' => started t d o c c').
Proof.
  intros Hwf Ho Hd. unfold start_op. pose proof (only_flags_refl d c Hwf) as Hrefl.
  destruct (Z.eqb_spec d null) as [->|Hd0]; [by apply wp_fail_immediately|].
  destruct Hd as [?|[s Hs]]; [done|]. apply wp_bind. eapply wp_load_state; [done|].
  destruct (d_shutdown_ s); [by apply wp_immediately|].
  destruct (op_queues s t) as [|o1 q1] eqn:Eq; [|by eapply wp_enqueue_started].
  destruct (sp && _); [|destruct (registered_events_ s =? 0); [by apply wp_fail_immediately|]].
  - apply wp_bind.
    assert (wp (if try_speculative_ s t then perform_op o else mret not_done) c (fun _ c1 => quiet c c1)) as Hperf.
    { destruct (try_speculative_ s t); [|apply wp_ret, quiet_refl].
      eapply wp_mono; [apply wp_perform_op|]. by intros st c1 [Hq _]. }
    eapply wp_quiet; [exact c|exact Hperf|]. intros st c1 Hq1.
    pose proof (only_flags_quiet _ _ _ _ Hrefl Hq1) as Hf1.
    destruct st; [|by apply wp_immediately|].
    + destruct (registered_events_ s =? 0); [by apply wp_fail_immediately|].
      case_bool_decide as Et; [rewrite Et; by eapply wp_register_write|by eapply wp_enqueue_started].
    + apply wp_bind. destruct (negb _); [|by apply wp_ret, wp_immediately].
      apply wp_store_state. apply wp_immediately; [|done]. by eapply only_flags_put_later.
  - set (s1 := if bool_decide _ then _ else _).
    assert (forall t', op_queues s1 t' = op_queues s t') as Hq1 by (intros t'; subst s1; by case_bool_decide).
    apply wp_bind, wp_store_state, wp_bind. eapply wp_quiet; [exact c|by apply wp_mod_ctl|]. intros x c2 Hq2.
    eapply wp_enqueue_started; [|done|done]. eapply only_flags_quiet; [|exact Hq2].
    by eapply only_flags_put.
Qed.

(** *** Cancelling *)

(** After the operations [ops] have been aborted, their descriptor [d] has
    state [s'] and they are queued for completion, in that order, the only
    operations whose error has changed. *)
Definition cancelled d s' ops c c' : Prop :=
  entered (<[d:=s']> (states (rest c))) [] 0 c c' /\
  (forall o, op_ec (world (rest c')) o = if decide (o ∈ ops) then operation_aborted else op_ec (world (rest c)) o) /\
  (one_thread_ cfg = false -> op_queue_ (scheduler c') = op_queue_ (scheduler c) ++ (Operation <$> ops)).

Lemma wp_abort_ops ops : forall c, wp (abort_ops ops) c (fun _ c' => quiet c c' /\
  op_queue_ (scheduler c') = op_queue_ (scheduler c) /\
  forall o, op_ec (world (rest c')) o = if decide (o ∈ ops) then operation_aborted else op_ec (world (rest c)) o).
Proof.
  induction ops as [|o ops IH]; intros c; simpl.
  - apply wp_ret. split_and!; [apply quiet_refl|done|]. intros o. done.
  - apply wp_bind. eapply wp_modify_rest. eapply wp_mono; [apply IH|]. intros ? c' (Hq & Hop & Hec).
    split_and!; [|done|].
    + eapply quiet_trans; [|exact Hq]. apply world_quiet. intros w d. apply set_op_ec_ok.
    + intros o'. rewrite Hec. simpl. rewrite set_op_ec_ec.
      repeat case_decide; subst; try done; set_solver.
Qed.

(** The operations [ops] leave the queues of [d]. *)
Lemma put_removed d s s' ops c : wf c -> states (rest c) !! d = Some s ->
  waiting_ops s ≡ₚ ops ++ waiting_ops s' ->
  let c' := with_rest (put_at d s') c in
  unfinished c ≡ₚ ops ++ unfinished c' /\ work c' = work c /\ wf c' /\
  states (rest c') = <[d:=s']> (states (rest c)).
Proof.
  intros Hwf Hd Hw c'. destruct (put_unfinished d s s' c Hd) as (others & E1 & E2).
  split_and!; [|done| |done].
  - subst c'. rewrite E1, E2, Hw. solve_Permutation.
  - eapply put_wf; [done..|]. intros t o Ho. destruct Hwf.
    assert (o ∈ waiting_ops s) as Hin by (rewrite Hw; apply elem_of_app; right; apply elem_of_waiting_ops; eauto).
    apply elem_of_waiting_ops in Hin as [t' Ht']. by eapply wf_queues.
Qed.

(** The common end of the functions that cancel. *)
Lemma wp_abort_and_post d s s' ops c : wf c -> states (rest c) !! d = Some s ->
  waiting_ops s ≡ₚ ops ++ waiting_ops s' ->
  wp (abort_ops ops;; store_state d s';; post_deferred_completions cfg ops) c
     (fun _ c' => cancelled d s' ops c c').
Proof.
  intros Hwf Hd Hw. apply wp_bind. eapply wp_mono; [apply wp_abort_ops|]. intros ? c1 (Hq & Hop & Hec).
  pose proof (quiet_wf _ _ Hq Hwf) as Hwf1. pose proof (quiet_unfinished _ _ Hq) as Hu1.
  pose proof Hq as (_ & _ & Ew & Epw & Estop & _ & Es & _). assert (states (rest c1) !! d = Some s) as Hd1 by congruence.
  apply wp_bind, wp_store_state.
  destruct (put_removed d s s' ops c1 Hwf1 Hd1 Hw) as (U1 & W1 & Hwf2 & Hst).
  set (c2 := with_rest _ _) in *.
  assert (forall o, o ∈ ops -> op_ok (rest c2) o) as Hops.
  { intros o Ho. assert (o ∈ waiting_ops s) as Hin by (rewrite Hw; set_solver).
    apply elem_of_waiting_ops in Hin as [t Ht]. apply (op_ok_put _ d s s' o Hd1).
    destruct Hwf1. by eapply wf_queues. }
  eapply wp_mono; [by apply wp_post_deferred|]. intros ? c' (He & Hk & Hord). split_and!.
  - destruct He as [Hu' Hw' Hwf' Hst' Ho' Hp'].
    split; [|unfold work in *; lia|done|by rewrite Hst', Hst, Es|simpl in Ho'; lia|by rewrite Hp'].
    rewrite Hu', <- U1. by rewrite Hu1.
  - intros o. rewrite (Hk o). exact (Hec o).
  - intros Hone. destruct (Hord Hone) as [-> _]. by rewrite <- Hop.
Qed.

Definition emptied (s : descriptor_state) : descriptor_state := set_queues (fun _ => []) s.

Lemma wp_cancel_ops d s c : wf c -> states (rest c) !! d = Some s -> d <> null ->
  wp (cancel_ops cfg d) c (fun _ c' => cancelled d (emptied s) (waiting_ops s) c c').
Proof.
  intros Hwf Hd Hd0. apply Z.eqb_neq in Hd0. unfold cancel_ops. rewrite Hd0.
  apply wp_bind. eapply wp_load_state; [done|].
  apply (wp_abort_and_post d s (emptied s) (waiting_ops s)); [done|done|].
  unfold waiting_ops at 3. simpl. by rewrite app_nil_r.
Qed.

Lemma filter_partition {A} (f : A -> bool) (l : list A) :
  l ≡ₚ List.filter f l ++ List.filter (fun x => negb (f x)) l.
Proof.
  induction l as [|x l IH]; [done|]. simpl. destruct (f x); simpl; [by rewrite <- IH|].
  rewrite IH at 1. solve_Permutation.
Qed.

Definition with_key r (key : Z) (l : list op_ptr) : list op_ptr :=
  List.filter (fun o => bool_decide (cancellation_key o (world r) = key)) l.
Definition without_key r (key : Z) (l : list op_ptr) : list op_ptr :=
  List.filter (fun o => negb (bool_decide (cancellation_key o (world r) = key))) l.

Lemma wp_cancel_ops_by_key t key d s c : wf c -> states (rest c) !! d = Some s -> d <> null ->
  wp (cancel_ops_by_key cfg t key d) c (fun _ c' =>
    cancelled d (set_queue t (without_key (rest c) key (op_queues s t)) s)
      (with_key (rest c) key (op_queues s t)) c c').
Proof.
  intros Hwf Hd Hd0. apply Z.eqb_neq in Hd0. unfold cancel_ops_by_key. rewrite Hd0.
  apply wp_bind. eapply wp_load_state; [done|]. apply wp_bind, wp_get_reactor.
  apply (wp_abort_and_post d s _ (with_key (rest c) key (op_queues s t))); [done|done|].
  unfold waiting_ops, set_queue, set_queues. cbn [op_queues]. unfold array_set.
  pose proof (filter_partition (fun o => bool_decide (cancellation_key o (world (rest c)) = key)) (op_queues s t)) as Hp.
  fold (with_key (rest c) key (op_queues s t)) in Hp. fold (without_key (rest c) key (op_queues s t)) in Hp.
  destruct t; simpl; rewrite Hp at 1; solve_Permutation.
Qed.

Lemma wp_del_ctl fd ev d c : wp (do_epoll_ctl EPOLL_CTL_DEL fd ev d) c (fun _ c' =>
  quiet c c' /\ keeps_ec c c' /\ scheduler c' = scheduler c).
Proof.
  unfold do_epoll_ctl. apply wp_bind, wp_get_reactor. unfold ctl.
  pose proof (fun o => epoll_ctl_ec EPOLL_CTL_DEL fd ev (DescriptorPtr d) (world (rest c)) o) as Hec.
  pose proof (fun d' => epoll_ctl_ok EPOLL_CTL_DEL fd ev (DescriptorPtr d) (world (rest c)) d') as Hok.
  destruct (epoll_ctl _ fd ev (DescriptorPtr d) (world (rest c))) as [[x y] w']. simpl in *.
  apply wp_bind, wp_modify_rest, wp_ret. split_and!; [|done|done].
  unfold quiet. simpl. split_and!; try done. intros d' Hd. by destruct (Hok d' Hd) as [|[? ?]].
Qed.

Lemma cancelled_quiet d s' ops c c1 c' : quiet c c1 -> keeps_ec c c1 -> scheduler c1 = scheduler c ->
  cancelled d s' ops c1 c' -> cancelled d s' ops c c'.
Proof.
  intros Hq Hk Hs ([Hu Hw Hwf Hst Ho Hp] & Hec & Hord).
  pose proof Hq as (_ & _ & _ & _ & _ & _ & Est & _). split_and!.
  - unfold work in *. rewrite Hs in Hw, Ho, Hp.
    split; [by rewrite Hu, (quiet_unfinished _ _ Hq)|done|done|by rewrite Hst, Est|done|done].
  - intros o. rewrite Hec. case_decide; [done|apply Hk].
  - intros Hone. by rewrite Hord, Hs.
Qed.

(** A descriptor that is already shut down is left alone, and the caller
    forgets it. *)
Lemma wp_deregister fd d s closing c : wf c -> states (rest c) !! d = Some s -> d <> null ->
  wp (deregister_descriptor cfg fd d closing) c (fun d' c' =>
    if d_shutdown_ s then d' = null /\ c' = c
    else d' = d /\ cancelled d (set_closed (emptied s)) (waiting_ops s) c c').
Proof.
  intros Hwf Hd Hd0. apply Z.eqb_neq in Hd0. unfold deregister_descriptor. rewrite Hd0.
  apply wp_bind. eapply wp_load_state; [done|]. destruct (d_shutdown_ s); simpl; [by apply wp_ret|].
  assert (wp (if closing then mret tt
              else if negb (registered_events_ s =? 0) then do_epoll_ctl EPOLL_CTL_DEL fd 0 null;; mret tt
              else mret tt) c (fun _ c' => quiet c c' /\ keeps_ec c c' /\ scheduler c' = scheduler c)) as Hdel.
  { assert (quiet c c /\ keeps_ec c c /\ scheduler c = scheduler c) as Hrefl
      by (split_and!; [apply quiet_refl|done|done]).
    destruct closing; [by apply wp_ret|]. destruct (negb _); [|by apply wp_ret].
    apply wp_bind. eapply wp_mono; [apply wp_del_ctl|]. intros ? c1 Hc1. by apply wp_ret. }
  apply wp_bind. eapply wp_mono; [exact Hdel|]. intros ? c1 (Hq & Hk & Hs).
  pose proof Hq as (_ & _ & _ & _ & _ & _ & Est & _). cbn zeta.
  assert (wp (abort_ops (waiting_ops s);; store_state d (set_closed (emptied s));;
              post_deferred_completions cfg (waiting_ops s)) c1
            (fun _ c' => cancelled d (set_closed (emptied s)) (waiting_ops s) c1 c')) as Hap.
  { apply (wp_abort_and_post d s); [by eapply quiet_wf|by rewrite Est|].
    unfold waiting_ops at 3. simpl. by rewrite app_nil_r. }
  eapply wp_seq3; [exact Hap|]. intros ? c' Hc'. apply wp_ret. split; [done|]. by eapply cancelled_quiet.
Qed.
End keeping.
