(* ===== verification/ReactorPerform.v ===== *)
(** * The event loop at work keeps the books

    Performing the I/O of a ready descriptor, running the reactor for
    events, and the run of one operation by the scheduler: which operations
    are unfinished after each, and how much work is counted.  A handler may
    stop the scheduler; what is unfinished then stays so. *)

From S2P Require Import Prelude SocketOps OpQueue Scheduler EpollReactor ReactorRules ReactorBooks.

Section performing.
Context {Q W : Type} `{TimerQueueOk Q W} `{Handlers Q W} (cfg : scheduler_config).
Abbreviation R := (Reactor Q W).
Implicit Types (r : R) (c : Ctx R) (d o : op_ptr) (t : op_type).

(** *** Performing I/O *)

Lemma wp_perform_queue q : forall c, wp (perform_queue q) c (fun res c' =>
  quiet c c' /\ scheduler c' = scheduler c /\ q = res.1.1 ++ res.1.2).
Proof.
  induction q as [|o q IH]; intros c; simpl; [by apply wp_ret; split_and!; [apply quiet_refl| |]|].
  assert (wp (perform_op o) c (fun _ c' => quiet c c' /\ scheduler c' = scheduler c)) as Hp.
  { unfold perform_op. apply wp_bind, wp_get_reactor.
    destruct (perform_ok o (world (rest c))) as (st & w & E & Hw).
    apply wp_bind. eapply wp_lift; [exact E|]. apply wp_bind, wp_modify_rest, wp_ret.
    split; [|done]. unfold quiet. simpl. by split_and!. }
  apply wp_bind. eapply wp_mono; [exact Hp|]. intros [] c1 [Hq Hs].
  - by apply wp_ret.
  - apply wp_bind. eapply wp_mono; [apply IH|]. intros [[ops rem] ex] c2 (Hq2 & Hs2 & ->).
    apply wp_ret. split_and!; [by eapply quiet_trans|congruence|done].
  - by apply wp_ret.
Qed.

(** The operations [ops] have left the books, with their work still counted;
    the descriptor states are given by [m]. *)
Definition taken (m : gmap op_ptr descriptor_state) (ops : list op_ptr) c c' : Prop :=
  unfinished c ≡ₚ ops ++ unfinished c' /\ scheduler c' = scheduler c /\ wf c' /\
  states (rest c') = m.

Lemma taken_trans m m' ops ops' c c1 c2 :
  taken m ops c c1 -> taken m' ops' c1 c2 -> taken m' (ops ++ ops') c c2.
Proof.
  intros (Hu & Hs & _ & _) (Hu' & Hs' & Hwf & Hm). split_and!; [|congruence|done|done].
  rewrite Hu, Hu'. by rewrite app_assoc.
Qed.

(** [s'] is [s] with the operations [ops] taken from the front of queue [t]. *)
Definition front_taken t (ops : list op_ptr) (s s' : descriptor_state) : Prop :=
  op_queues s t = ops ++ op_queues s' t /\ forall t', t' <> t -> op_queues s' t' = op_queues s t'.

Lemma waiting_ops_taken t ops s s' : front_taken t ops s s' -> waiting_ops s ≡ₚ ops ++ waiting_ops s'.
Proof.
  intros [Ht Ho]. unfold waiting_ops.
  destruct t; rewrite Ht, ?(Ho read_op), ?(Ho write_op), ?(Ho except_op) by done; solve_Permutation.
Qed.

Lemma wp_perform_type events d t s c : wf c -> states (rest c) !! d = Some s ->
  wp (perform_type events d t) c (fun ops c' => exists s',
    front_taken t ops s s' /\ taken (<[d:=s']> (states (rest c))) ops c c').
Proof.
  intros Hwf Hd. unfold perform_type. destruct (negb _).
  2: { apply wp_ret. exists s. split; [by split|]. split_and!; [done|done|done|]. by rewrite insert_id. }
  apply wp_bind. eapply wp_load_state; [done|]. apply wp_bind.
  eapply wp_mono; [apply wp_perform_queue|]. intros [[ops rem] ex] c1 (Hq & Hs & Eq). simpl in Eq.
  apply wp_bind, wp_store_state, wp_ret. eexists.
  assert (front_taken t ops s (set_queue t rem (set_speculative t (negb ex) s))) as Hf.
  { unfold front_taken. cbn. unfold array_set. split.
    - by rewrite decide_True.
    - intros t' Ht. by rewrite decide_False by congruence. }
  split; [exact Hf|]. pose proof Hq as (_ & _ & _ & _ & _ & _ & Est & _).
  assert (states (rest c1) !! d = Some s) as Hd1 by congruence.
  destruct (put_removed d s _ ops c1 (quiet_wf _ _ Hq Hwf) Hd1 (waiting_ops_taken _ _ _ _ Hf)) as (U & _ & Hwf' & Hst).
  split_and!; [|done|done|by rewrite Hst, Est]. by rewrite <- (quiet_unfinished _ _ Hq).
Qed.

(** What becomes of the operations [ops] that were performed: the first is
    completed now, the others are queued behind what is there; a unit of
    work is made up for when there are none. *)
Definition performed (m : gmap op_ptr descriptor_state) (ops : list op_ptr) o c c' : Prop :=
  wf c' /\ states (rest c') = m /\
  outstanding_work_ (scheduler c) <= outstanding_work_ (scheduler c') /\
  stopped_ (scheduler c') = stopped_ (scheduler c) /\
  match ops with
  | [] => o = null /\ unfinished c' ≡ₚ unfinished c /\ work c' = work c + 1
  | first_op :: ops =>
      o = first_op /\ op_ok (rest c) o /\ unfinished c ≡ₚ o :: unfinished c' /\ work c' = work c /\
      (one_thread_ cfg = false -> op_queue_ (scheduler c') = op_queue_ (scheduler c) ++ (Operation <$> ops))
  end.

Lemma op_ok_insert r r' d s s' o : states r !! d = Some s -> states r' = <[d:=s']> (states r) ->
  op_ok r o -> op_ok r' o.
Proof.
  intros Hd E [Ho0 Ho]. split; [done|]. rewrite E, lookup_insert_ne; [done|]. intros ->. congruence.
Qed.

Lemma op_ok_waiting c d s t o ops l : wf c -> states (rest c) !! d = Some s ->
  op_queues s t = ops ++ l -> o ∈ ops -> op_ok (rest c) o.
Proof. intros [] Hd Hq Ho. eapply wf_queues; [done|]. rewrite Hq. apply elem_of_app. by left. Qed.

(** Each queue of the descriptor loses a prefix [done t], and these are
    completed in the order except, write, read. *)
Lemma wp_perform_io events d s c : wf c -> states (rest c) !! d = Some s ->
  wp (perform_io cfg events d) c (fun o c' => exists s' done,
    (forall t, op_queues s t = done t ++ op_queues s' t) /\
    performed (<[d:=s']> (states (rest c))) (done except_op ++ done write_op ++ done read_op) o c c').
Proof.
  intros Hwf Hd. unfold perform_io.
  apply wp_bind. eapply wp_mono; [by apply wp_perform_type|]. intros es c1 (s1 & [F1 G1] & T1).
  pose proof T1 as (_ & _ & Hwf1 & Hm1).
  apply wp_bind. eapply wp_mono; [apply (wp_perform_type _ d write_op s1)|]; [done|by rewrite Hm1, lookup_insert_eq|].
  intros ws c2 (s2 & [F2 G2] & T2). pose proof T2 as (_ & _ & Hwf2 & Hm2).
  apply wp_bind. eapply wp_mono; [apply (wp_perform_type _ d read_op s2)|]; [done|by rewrite Hm2, lookup_insert_eq|].
  intros rs c3 (s3 & [F3 G3] & T3). pose proof T3 as (_ & _ & Hwf3 & Hm3).
  pose proof (taken_trans _ _ _ _ _ _ _ T1 (taken_trans _ _ _ _ _ _ _ T2 T3)) as (Hu & Hs & _ & _).
  set (dn := fun t => match t with except_op => es | write_op => ws | read_op => rs end).
  rewrite Hm2, Hm1, !insert_insert_eq in Hm3.
  assert (forall t, op_queues s t = dn t ++ op_queues s3 t) as Hdn.
  { intros []; simpl.
    - rewrite <- F3, (G2 read_op), (G1 read_op); done.
    - rewrite (G3 write_op), <- F2, (G1 write_op); done.
    - rewrite (G3 except_op), (G2 except_op); done. }
  assert (forall o, o ∈ es ++ ws ++ rs -> op_ok (rest c) o) as Hops.
  { intros o. rewrite !elem_of_app. intros [?|[?|?]];
      [by eapply (op_ok_waiting c d s except_op _ es)|by eapply (op_ok_waiting c d s write_op _ ws)
      |by eapply (op_ok_waiting c d s read_op _ rs)]. }
  destruct (es ++ ws ++ rs) as [|o ops] eqn:El.
  - apply wp_bind. eapply wp_mono; [apply wp_push_private|]. intros _ c' ->. apply wp_ret.
    exists s3, dn. split; [done|].
    destruct (private_entered [] 1 c3 Hwf3) as [Hu' Hw' Hwf' Hst' Ho' Hp']; [lia|set_solver|].
    rewrite Hs in Ho', Hp'. unfold performed. cbn [dn]. rewrite El. split_and!; [done|exact Hm3|done|done|done| |].
    + simpl in Hu. rewrite Hu. exact Hu'.
    + unfold work in *. simpl. rewrite Hs. lia.
  - apply wp_bind. eapply wp_mono; [apply wp_post_deferred; [done|]|].
    { intros o' Ho'. apply (op_ok_insert (rest c) _ d s s3 o' Hd Hm3). apply Hops. by right. }
    intros ? c' ([Hu' Hw' Hwf' Hst' Ho' Hp'] & _ & Hord). apply wp_ret. exists s3, dn. split; [done|].
    rewrite Hs in Ho', Hp'. unfold performed. cbn [dn]. rewrite El.
    split_and!; [done|by rewrite Hst'|done|done|done|apply Hops; by left| | |].
    + rewrite Hu, Hu'. done.
    + unfold work in *. rewrite Hw', Hs. lia.
    + intros Hone. destruct (Hord Hone) as [-> _]. by rewrite Hs.
Qed.

(** *** Waiting for events *)

(** The descriptor states of [m'] are those of [m], with the same queues. *)
Record same_queues (m m' : gmap op_ptr descriptor_state) : Prop := {
  sq_waiting : waiting_in m' ≡ₚ waiting_in m;
  sq_dom d : is_Some (m' !! d) <-> is_Some (m !! d);
  sq_queues d s' : m' !! d = Some s' -> exists s, m !! d = Some s /\ forall t, op_queues s' t = op_queues s t;
}.

Lemma same_queues_refl m : same_queues m m.
Proof. split; [done|done|]. eauto. Qed.

Lemma same_queues_trans m1 m2 m3 : same_queues m1 m2 -> same_queues m2 m3 -> same_queues m1 m3.
Proof.
  intros [W1 D1 Q1] [W2 D2 Q2]. split.
  - by rewrite W2.
  - intros d. by rewrite D2.
  - intros d s3 Hs3. destruct (Q2 _ _ Hs3) as (s2 & Hs2 & E2). destruct (Q1 _ _ Hs2) as (s1 & Hs1 & E1).
    exists s1. split; [done|]. intros t. by rewrite E2.
Qed.

Lemma same_queues_put m d s s' : m !! d = Some s -> (forall t, op_queues s' t = op_queues s t) ->
  same_queues m (<[d:=s']> m).
Proof.
  intros Hd Hq. split.
  - destruct (waiting_in_update m d s s' Hd) as (others & -> & ->). unfold waiting_ops. by rewrite !Hq.
  - intros d'. destruct (decide (d = d')) as [<-|Hne]; [|by rewrite lookup_insert_ne].
    rewrite lookup_insert_eq, Hd. split; intros _; by eexists.
  - intros d' s1. destruct (decide (d = d')) as [<-|Hne].
    + rewrite lookup_insert_eq. intros [= <-]. eauto.
    + rewrite lookup_insert_ne by done. eauto.
Qed.

Definition descriptor_op (m : gmap op_ptr descriptor_state) (op : operation) : Prop :=
  exists d, op = Operation d /\ is_Some (m !! d).

(** Each event of a descriptor finds its state, and the queued operations are
    descriptors. *)
Lemma dispatch_events_ok evs : forall ct ops r,
  (forall d, DescriptorPtr d ∈ evs.*1 -> is_Some (states r !! d)) ->
  exists ct' new m, dispatch_events evs (ct, ops, r) = Ok (ct', ops ++ new, set_states m r) /\
    same_queues (states r) m /\ Forall (descriptor_op (states r)) new.
Proof.
  induction evs as [|[p ev] evs IH]; intros ct ops r Hd.
  { exists ct, [], (states r). rewrite app_nil_r. split_and!; [by destruct r|apply same_queues_refl|constructor]. }
  assert (exists ct1 new1 m1, dispatch_event (p, ev) (ct, ops, r) = Ok (ct1, ops ++ new1, set_states m1 r) /\
    same_queues (states r) m1 /\ Forall (descriptor_op (states r)) new1) as (ct1 & new1 & m1 & E1 & Hm1 & Hn1).
  { destruct p as [| |d]; simpl.
    1,2: eexists _, [], (states r); rewrite app_nil_r; split_and!; [by destruct r|apply same_queues_refl|constructor].
    destruct (Hd d) as [s Hs]; [by left|]. unfold state_at. rewrite Hs. unfold dispatch_event; simpl.
    case_bool_decide; simpl.
    - eexists _, [], _. rewrite app_nil_r. split_and!; [reflexivity| |constructor].
      by eapply same_queues_put.
    - eexists _, [Operation d], _. split_and!; [reflexivity|by eapply same_queues_put|].
      constructor; [|done]. exists d. rewrite Hs. split; [done|by eexists]. }
  destruct (IH ct1 (ops ++ new1) (set_states m1 r)) as (ct' & new & m & E & Hm & Hn).
  { intros d Hin. simpl. apply (sq_dom _ _ Hm1). apply Hd. by right. }
  exists ct', (new1 ++ new), m. split_and!.
  - transitivity (dispatch_event (p, ev) (ct, ops, r) ≫= dispatch_events evs); [done|].
    rewrite E1. cbn [mbind outcome_bind]. by rewrite E, app_assoc.
  - by eapply same_queues_trans.
  - apply Forall_app_2; [done|]. eapply Forall_impl; [exact Hn|]. intros op (d & -> & Hsd).
    exists d. split; [done|]. by apply (sq_dom _ _ Hm1).
Qed.

Lemma get_ready_timers_ok qs : forall w, Forall tq_ok qs ->
  exists ops qs' w', get_ready_timers qs w = Ok (ops, qs', w') /\ Forall tq_ok qs' /\
    waiting_timers qs ≡ₚ ops ++ waiting_timers qs' /\ forall d, watched w' d -> watched w d.
Proof.
  induction qs as [|q qs IH]; intros w Hok; [by exists [], [], w|].
  apply Forall_cons in Hok as [Hq Hqs].
  destruct (tq_ready_ok q w Hq) as (ops & q' & w1 & E1 & Hq' & Hp1 & Hw1).
  destruct (IH w1 Hqs) as (ops' & qs' & w2 & E2 & Hqs' & Hp2 & Hw2).
  eexists _, _, _. cbn [get_ready_timers]. rewrite E1. cbn [mbind outcome_bind]. rewrite E2.
  split; [reflexivity|]. split_and!; [by constructor| |by eauto].
  unfold waiting_timers in *. cbn. rewrite Hp1, Hp2. solve_Permutation.
Qed.

(** The reactor, run for [usec]: [new] is what it adds to the operations it
    was given, descriptors of its and operations that waited in its timer
    queues. *)
Lemma reactor_run_ok usec ops r : (forall d, watched (world r) d -> is_Some (states r !! d)) ->
  Forall tq_ok (timer_queues_ r) ->
  exists new ready r', reactor_run usec ops r = Ok (ops ++ new ++ (Operation <$> ready), r') /\
    Forall (descriptor_op (states r)) new /\ same_queues (states r) (states r') /\
    waiting_timers (timer_queues_ r) ≡ₚ ready ++ waiting_timers (timer_queues_ r') /\
    Forall tq_ok (timer_queues_ r') /\ (forall d, watched (world r') d -> watched (world r) d).
Proof.
  intros Hwd Htq. unfold reactor_run. set (timeout := if usec =? 0 then 0 else _).
  pose proof (fun d => epoll_wait_ok timeout (world r) d) as Hew.
  destruct (epoll_wait timeout (world r)) as [events w]. simpl in Hew.
  assert (forall d, watched w d -> watched (world r) d) as Hw by (intros d; apply Hew).
  destruct (dispatch_events_ok events (timer_fd_ r =? -1) ops (set_world w r)) as (ct & new & m & E & Hm & Hn).
  { intros d Hd. simpl. apply Hwd. by apply Hew. }
  cbv zeta. change (timer_fd_ (set_world w r)) with (timer_fd_ r). rewrite E. cbn [mbind outcome_bind]. destruct ct.
  - destruct (get_ready_timers_ok (timer_queues_ r) w Htq) as (ready & qs & w' & Er & Hqs & Ht & Hw').
    simpl. rewrite Er. cbn [mbind outcome_bind].
    exists new, ready. eexists. split; [by rewrite <- app_assoc|]. split; [exact Hn|].
    set (r' := set_world w' _). destruct (negb _); [|split_and!; [exact Hm|exact Ht|exact Hqs|by auto]].
    unfold set_timer. destruct (get_timeout_ts r') as [[fl sec] ns]. simpl. split_and!; [done|done|done|].
    intros d Hd. by apply Hw, Hw', (timerfd_ok fl sec ns).
  - exists new, []. eexists. split; [by rewrite app_nil_r|]. simpl. by split_and!.
Qed.

(** *** Running the task *)

Lemma is_state_same r r' o : same_queues (states r) (states r') -> is_state r' o = is_state r o.
Proof. intros [_ D _]. unfold is_state. apply bool_decide_ext. apply D. Qed.

Lemma op_ok_same r r' o : same_queues (states r) (states r') -> op_ok r o -> op_ok r' o.
Proof.
  intros [_ D _] [Ho0 Ho]. split; [done|]. apply eq_None_not_Some. rewrite D. by apply eq_None_not_Some.
Qed.

Lemma user_ops_descriptors r ops : Forall (descriptor_op (states r)) ops -> user_ops r ops = [].
Proof.
  induction 1 as [|? ops (d & -> & Hd) _ IH]; [done|]. cbn. unfold is_state.
  by rewrite bool_decide_eq_true_2.
Qed.

(** The task adds to the private queue, and nothing else of the scheduler. *)
Definition task_ran c c' : Prop :=
  unfinished c' ≡ₚ unfinished c /\ wf c' /\ same_queues (states (rest c)) (states (rest c')) /\
  exists ops, let s := scheduler c in
    scheduler c' = set_thread (running s) (private_op_queue s ++ ops) (private_outstanding_work s) s.

Lemma wp_run_task usec c : wf c -> wp (run_task usec) c (fun _ c' => task_ran c c').
Proof.
  intros Hwf. destruct (reactor_run_ok usec (private_op_queue (scheduler c)) (rest c) (wf_watched _ Hwf) (wf_tq _ Hwf))
    as (new & ready & r' & E & Hn & Hsq & Ht & Htq & Hw).
  unfold run_task. apply wp_bind, wp_get. apply wp_bind. eapply wp_lift; [exact E|]. apply wp_put.
  assert (forall o, o ∈ ready -> op_ok (rest c) o) as Hready.
  { intros o Ho. apply (wf_timers _ Hwf). rewrite Ht. set_solver. }
  split_and!; [| |exact Hsq|by eexists].
  - unfold unfinished. simpl. rewrite (user_ops_dom r' (rest c)) by (intros o; by apply is_state_same).
    rewrite !user_ops_app, (user_ops_descriptors _ new), (user_ops_user _ ready) by done.
    rewrite (sq_waiting _ _ Hsq), Ht. solve_Permutation.
  - destruct Hwf as [Wn Wq Wt Wtq Ws Ww Wp]. split; simpl.
    + apply eq_None_not_Some. rewrite (sq_dom _ _ Hsq). by apply eq_None_not_Some.
    + intros d s t o Hd Ho. destruct (sq_queues _ _ Hsq d s Hd) as (s0 & Hd0 & Eq). rewrite Eq in Ho.
      eapply op_ok_same; [done|]. by eapply Wq.
    + intros o Ho. eapply op_ok_same; [done|]. apply Wt. rewrite Ht. set_solver.
    + done.
    + intros o. rewrite !elem_of_app. intros [?|[?|[Ho|Ho]]].
      * apply Ws. set_solver.
      * apply Ws. set_solver.
      * eapply Forall_forall in Hn; [|exact Ho]. destruct Hn as (d & [= ->] & [s Hd]). intros ->. congruence.
      * apply list_elem_of_fmap in Ho as (o' & [= ->] & Ho). by apply Hready.
    + intros d Hd. apply (sq_dom _ _ Hsq). apply Ww. by apply Hw.
    + done.
Qed.

Lemma add_work_0 c : with_sched (add_work 0) c = c.
Proof.
  destruct c as [[] r]. unfold with_sched, add_work, set_work. simpl. by rewrite Z.add_0_r.
Qed.

Lemma wp_task_cleanup c : 0 <= private_outstanding_work (scheduler c) ->
  wp task_cleanup c (fun _ c' => c' = with_sched (fun s =>
    mkScheduler (op_queue_ s ++ private_op_queue s ++ [TaskOperation])
      (outstanding_work_ s + private_outstanding_work s) (stopped_ s) (shutdown_ s) (task_ s) true
      (running s) [] 0) c).
Proof.
  intros Hp. unfold task_cleanup. apply wp_bind, wp_get_sched, wp_bind.
  assert (forall (Phi : unit -> Ctx R -> Prop), Phi tt (with_sched (add_work (private_outstanding_work (scheduler c))) c) ->
    wp (if private_outstanding_work (scheduler c) >? 0
        then modify (set_work (outstanding_work_ (scheduler c) + private_outstanding_work (scheduler c)))
        else mret tt) c Phi) as Hw.
  { intros Phi HP. zcase (private_outstanding_work (scheduler c) >? 0); [by apply wp_modify|].
    apply wp_ret. replace (private_outstanding_work (scheduler c)) with 0 in HP by lia.
    by rewrite add_work_0 in HP. }
  apply Hw. do 2 apply wp_bind, wp_modify. apply wp_bind, wp_get_sched. do 2 apply wp_bind, wp_modify.
  apply wp_bind, wp_get_sched. apply wp_modify. simpl. unfold with_sched. simpl. by rewrite app_assoc.
Qed.

(** *** Completing an operation *)

(** The end of [work_cleanup]: the private queue joins the queue. *)
Definition flush (s : Scheduler) : Scheduler :=
  set_thread (running s) [] 0 (set_op_queue (op_queue_ s ++ private_op_queue s) s).

Lemma flush_unfinished c : unfinished (with_sched flush c) = unfinished c.
Proof. unfold unfinished. simpl. by rewrite app_nil_r. Qed.

Lemma flush_wf c : wf c -> wf (with_sched flush c).
Proof. intros []. split; simpl; try done. by rewrite app_nil_r. Qed.

Lemma wp_flush c (Phi : unit -> Ctx R -> Prop) : Phi tt (with_sched flush c) ->
  wp (s ← get_sched;
      modify (set_thread (running s) (private_op_queue s) 0);;
      s ← get_sched;
      modify (set_op_queue (op_queue_ s ++ private_op_queue s));;
      modify (set_thread (running s) [] 0)) c Phi.
Proof.
  intros HP. apply wp_bind, wp_get_sched, wp_bind, wp_modify, wp_bind, wp_get_sched, wp_bind, wp_modify.
  apply wp_modify. exact HP.
Qed.

(** There is work, unless the scheduler is stopped. *)
Definition has_work c : Prop :=
  0 <= outstanding_work_ (scheduler c) /\
  (stopped_ (scheduler c) = false -> 1 <= outstanding_work_ (scheduler c)).

(** The scheduler is stopped only because the work is used up. *)
Definition used_up c : Prop := stopped_ (scheduler c) = true -> outstanding_work_ (scheduler c) = 0.

(** The running thread between two operations: nothing is private, and it is
    stopped when no work is left, or by a call of [stop]. *)
Record between c : Prop := {
  bt_wf : wf c;
  bt_queue : private_op_queue (scheduler c) = [];
  bt_private : private_outstanding_work (scheduler c) = 0;
  bt_work : has_work c;
}.

(** An operation is being completed; its handler may have stopped the
    scheduler. *)
Definition busy c : Prop := wf c /\ 1 <= outstanding_work_ (scheduler c).

Lemma busy_quiet c c' : quiet c c' -> busy c -> busy c'.
Proof.
  intros Hq [Hwf Ho]. split; [by eapply quiet_wf|]. by destruct Hq as (_ & _ & -> & _).
Qed.

Lemma between_flush c : wf c -> has_work c -> between (with_sched flush c).
Proof. intros Hwf Hw. split; [by apply flush_wf|done|done|exact Hw]. Qed.

(** A change of the counts of a scheduler only. *)
Definition counts_only (f : Scheduler -> Scheduler) : Prop := forall s,
  op_queue_ (f s) = op_queue_ s /\ private_op_queue (f s) = private_op_queue s /\
  private_outstanding_work (f s) = private_outstanding_work s.

Lemma counts_only_keep f c c' : counts_only f -> quiet (with_sched f c) c' -> wf c ->
  wf c' /\ unfinished c' = unfinished c.
Proof.
  intros Hf Hq Hwf. destruct (Hf (scheduler c)) as (F1 & F2 & F3). split.
  - eapply quiet_wf; [exact Hq|]. destruct Hwf. split; simpl; rewrite ?F1, ?F2, ?F3; done.
  - rewrite (quiet_unfinished _ _ Hq). unfold unfinished. simpl. by rewrite F1, F2.
Qed.

(** The first part of [work_cleanup]: the unit of the operation that has
    completed is taken back. *)
Lemma wp_take_back c : busy c ->
  let p := private_outstanding_work (scheduler c) in
  wp (if p >? 1 then modify (set_work (outstanding_work_ (scheduler c) + (p - 1)))
      else if p <? 1 then work_finished else mret tt) c
     (fun _ c' => wf c' /\ unfinished c' = unfinished c /\ outstanding_work_ (scheduler c') = work c - 1 /\
        has_work c' /\ (stopped_ (scheduler c) = false -> used_up c')).
Proof.
  intros [Hwf Ho] p. pose proof (wf_private _ Hwf) as Hp. unfold work, has_work, used_up. fold p in Hp |- *.
  zcase (p >? 1); [|zcase (p <? 1)].
  - apply wp_modify. edestruct (counts_only_keep (set_work (outstanding_work_ (scheduler c) + (p - 1))))
      as [Hwf' Hu']; [done|apply quiet_refl|exact Hwf|].
    split_and!; [done|done|simpl; lia..|]. simpl. congruence.
  - eapply wp_mono; [apply wp_work_finished|]. simpl. intros ? c' Hq.
    set (f := if _ =? 0 then _ else _) in Hq.
    edestruct (counts_only_keep f) as [Hwf' Hu']; [|exact Hq|exact Hwf|].
    { intros s. subst f. by destruct (_ =? 0). }
    split; [done|]. split; [done|]. destruct Hq as (_ & _ & Eo & _ & Es & _). rewrite Es, Eo. subst f. simpl.
    destruct (Z.eqb_spec (outstanding_work_ (scheduler c) - 1) 0) as [E1|E1]; simpl; split_and!; try lia; congruence.
  - apply wp_ret. split_and!; [done|done|lia..|]. congruence.
Qed.

Lemma wp_work_cleanup c : busy c -> wp work_cleanup c (fun _ c' =>
  between c' /\ unfinished c' = unfinished c /\ work c' = work c - 1 /\
  (stopped_ (scheduler c) = false -> used_up c')).
Proof.
  intros Hb. unfold work_cleanup. apply wp_bind, wp_get_sched, wp_bind.
  eapply wp_mono; [by apply wp_take_back|]. intros ? c1 (Hwf1 & Hu1 & Ho1 & Hw1 & Hs1).
  apply wp_flush. split_and!.
  - by apply between_flush.
  - by rewrite flush_unfinished.
  - unfold work at 1. simpl. lia.
  - exact Hs1.
Qed.
End performing.

(** What the event loop asks of the handlers: one starts operations and posts
    through the functions of the scheduler and the reactor, which keep the
    books, and does not take back work that others count on.  It may stop the
    scheduler, as main.cpp's signal handler does. *)
Class HandlersOk (Q W : Type) `{TimerQueueOk Q W} `{Handlers Q W} := {
  complete_op_ok o c : busy c -> op_ok (rest c) o -> wp (complete_op o) c (fun _ c' =>
    wf c' /\ balance c' = balance c /\
    outstanding_work_ (scheduler c) <= outstanding_work_ (scheduler c'));
}.

(** No handler calls [stop]. *)
Definition never_stop (Q W : Type) `{TimerQueueOk Q W} `{Handlers Q W} : Prop := forall o c,
  busy c -> op_ok (rest c) o ->
  wp (complete_op o) c (fun _ c' => stopped_ (scheduler c') = stopped_ (scheduler c)).

Section running.
Context {Q W : Type} `{HandlersOk Q W} (cfg : scheduler_config).
Abbreviation R := (Reactor Q W).
Implicit Types (r : R) (c : Ctx R) (d o : op_ptr) (t : op_type).
#[local] Instance loop_operations : Operations R := reactor_operations cfg.

(** The scheduler is stopped by a handler, or not at all. *)
Definition unstopped c c' : Prop := never_stop Q W -> stopped_ (scheduler c') = stopped_ (scheduler c).

Lemma wp_complete_op o c : busy c -> op_ok (rest c) o ->
  wp (complete_op o) c (fun _ c' => busy c' /\ balance c' = balance c /\ unstopped c c').
Proof.
  intros Hb Ho. pose proof Hb as [_ Hout]. pose proof (complete_op_ok o c Hb Ho) as (a & c' & E & Hwf & Hbal & Hout').
  exists a, c'. split_and!; [exact E|split; [done|lia]|done|]. intros Hn.
  destruct (Hn o c Hb Ho) as (a2 & c2 & E2 & Hs). congruence.
Qed.

(** A descriptor's unit of work is for the operation it completes, or made up
    for when there is none. *)
Lemma wp_do_complete d s n c : busy c -> states (rest c) !! d = Some s ->
  wp (do_complete cfg d n) c (fun _ c' => busy c' /\ balance c' = balance c + 1 /\ unstopped c c').
Proof.
  intros [Hwf Hout] Hd. unfold do_complete. apply wp_bind.
  eapply wp_mono; [by apply wp_perform_io|]. intros o c1 (s' & dn & Hq & Hwf1 & Hst & Hout1 & Hs1 & Hp).
  assert (busy c1) as Hb1 by (split; [done|lia]).
  destruct (dn except_op ++ dn write_op ++ dn read_op) as [|o1 ops].
  - destruct Hp as (-> & Hu & Hw). rewrite Z.eqb_refl. apply wp_ret. split_and!; [done| |by intros _].
    unfold balance. rewrite Hu. lia.
  - destruct Hp as (<- & Hop & Hu & Hw & _). pose proof Hop as [Ho0 _]. apply Z.eqb_neq in Ho0. rewrite Ho0. simpl.
    eapply wp_mono; [apply wp_complete_op; [done|by eapply (op_ok_insert (rest c))]|].
    intros ? c' (Hb' & Hbal & Hn). split_and!; [done| |intros ?; rewrite Hn by done; done].
    rewrite Hbal. unfold balance. rewrite Hu. simpl length. lia.
Qed.

Definition is_descriptor c o : bool := is_state (rest c) o.

Lemma wp_op_complete o n c : busy c -> o <> null -> wp (op_complete o n) c (fun _ c' =>
  busy c' /\ balance c' = balance c + (if is_descriptor c o then 1 else 0) /\ unstopped c c').
Proof.
  intros Hb Ho. unfold is_descriptor, is_state, wp. simpl.
  destruct (states (rest c) !! o) as [s|] eqn:Es.
  - rewrite bool_decide_eq_true_2 by by eexists. by eapply wp_do_complete.
  - rewrite bool_decide_eq_false_2 by (by intros [??]). rewrite Z.add_0_r. by apply wp_complete_op.
Qed.

Lemma wp_complete_operation o more c : busy c -> o <> null ->
  wp (complete_operation cfg o more) c (fun _ c' => between c' /\
    balance c' = balance c - (if is_descriptor c o then 0 else 1) /\
    (never_stop Q W -> stopped_ (scheduler c) = false -> used_up c')).
Proof.
  intros Hb Ho. unfold complete_operation. apply wp_bind, wp_get, wp_bind.
  assert (wp (if more && negb (one_thread_ cfg) then wake_one_thread_and_unlock else mret tt) c
             (fun _ c' => quiet c c')) as Hwake.
  { destruct (_ && _); [apply wp_interrupt_task|apply wp_ret, quiet_refl]. }
  eapply wp_quiet; [exact c|exact Hwake|]. intros _ c1 Hq. pose proof (busy_quiet _ _ Hq Hb) as Hb1.
  apply wp_bind. eapply wp_mono; [by apply wp_op_complete|]. intros ? c2 (Hb2 & Hbal2 & Hn2).
  eapply wp_mono; [by apply wp_work_cleanup|]. intros ? c3 (Hbt & Hu & Hw & Hus).
  rewrite (quiet_balance _ _ Hq) in Hbal2. destruct Hq as (_ & _ & _ & _ & Es & _ & Est & _).
  split_and!; [done| |intros Hn Hs; apply Hus; rewrite (Hn2 Hn); congruence].
  assert (is_descriptor c1 o = is_descriptor c o) as Ed by (unfold is_descriptor, is_state; by rewrite Est).
  rewrite Ed in Hbal2. unfold balance in *. rewrite Hu. destruct (is_descriptor c o); lia.
Qed.

(** *** Running one operation *)

Definition popped (q : list operation) c : Ctx R := with_sched (set_op_queue q) c.

Lemma wf_popped op q c : wf c -> op_queue_ (scheduler c) = op :: q -> wf (popped q c).
Proof.
  intros [] Eq. split; simpl; try done. intros o Ho. apply wf_sched. rewrite Eq. simpl. by right.
Qed.

Lemma balance_popped op q c : op_queue_ (scheduler c) = op :: q ->
  balance (popped q c) = balance c +
    match op with Operation o => if is_descriptor c o then 0 else 1 | TaskOperation => 0 end.
Proof.
  intros Eq. unfold balance, work, unfinished. simpl. rewrite Eq. unfold is_descriptor.
  destruct op as [|o]; [simpl; lia|]. cbn [app user_ops mbind list_bind].
  fold (user_ops (rest c) (q ++ private_op_queue (scheduler c))).
  destruct (is_state (rest c) o); simpl; lia.
Qed.

(** The task's turn: the queue moves up, and what the task found is behind
    it. *)
Lemma wp_task_turn b usec q c : between c -> stopped_ (scheduler c) = false ->
  op_queue_ (scheduler c) = TaskOperation :: q ->
  wp (modify (set_interrupted b);; run_task usec;; task_cleanup) (popped q c) (fun _ c' =>
    between c' /\ balance c' = balance c /\ stopped_ (scheduler c') = false /\
    exists ops, op_queue_ (scheduler c') = q ++ ops).
Proof.
  intros [Hwf Hpq Hp [_ Hst]] Hs Eq. specialize (Hst Hs).
  apply wp_bind, wp_modify. set (c1 := with_sched (set_interrupted b) (popped q c)).
  assert (quiet (popped q c) c1) as Hq1 by done.
  assert (wf c1) as Hwf1 by (eapply quiet_wf; [exact Hq1|by eapply wf_popped]).
  apply wp_bind. eapply wp_mono; [by apply wp_run_task|]. intros ? c2 (Hu2 & Hwf2 & Hsq & ops & Es2).
  eapply wp_mono; [apply wp_task_cleanup; rewrite Es2; simpl; lia|]. intros ? c' ->.
  set (c3 := with_sched _ c2).
  assert (unfinished c3 = unfinished c2) as Hu3.
  { unfold unfinished. simpl. f_equal. rewrite app_nil_r, app_assoc, (user_ops_app _ _ [TaskOperation]). apply app_nil_r. }
  split_and!.
  - split; [|done|done|].
    + destruct Hwf2 as [Wn Wq Wt Wtq Ws Ww Wp]. split; simpl; try done. intros o Ho. apply Ws. set_solver.
    + unfold has_work. simpl. rewrite Es2. simpl. lia.
  - pose proof (balance_popped _ _ _ Eq) as Hbal. rewrite Z.add_0_r in Hbal.
    rewrite <- Hbal, <- (quiet_balance _ _ Hq1). unfold balance. rewrite Hu3, Hu2. unfold work. simpl.
    rewrite Es2. simpl. lia.
  - simpl. by rewrite Es2.
  - simpl. rewrite Es2. simpl. eauto.
Qed.

(** One call of [do_run_one].  It never has undefined behaviour; it returns,
    having run an operation or found the scheduler stopped, when it is given
    a turn for each time the task is in front of the first operation. *)
Definition ran_one (fuel : nat) c (out : outcome (Z * Ctx R)) : Prop :=
  match out with
  | Ok (n, c') => between c' /\ balance c' = balance c /\
      (n = 1 /\ stopped_ (scheduler c) = false \/
       n = 0 /\ stopped_ (scheduler c) = true /\ stopped_ (scheduler c') = true) /\
      (never_stop Q W -> used_up c -> used_up c')
  | Undefined _ => False
  | OutOfFuel => forall k o q,
      op_queue_ (scheduler c) = replicate k TaskOperation ++ Operation o :: q -> (fuel <= k)%nat
  end.

Lemma do_run_one_ok fuel : forall c, between c -> ran_one fuel c (do_run_one cfg fuel c).
Proof.
  induction fuel as [|fuel IH]; intros c Hb; [intros k o q _; lia|].
  cbn [do_run_one]. rewrite (bind_Ok _ _ _ (scheduler c) c) by done.
  destruct (stopped_ (scheduler c)) eqn:Es; [by split_and!; [| |right|]|].
  destruct (op_queue_ (scheduler c)) as [|op q] eqn:Eq.
  { specialize (IH c Hb). unfold ran_one in *. destruct (do_run_one cfg fuel c) as [[n c']| |]; [done|done|].
    intros k o q E. rewrite Eq in E. by destruct k. }
  rewrite (bind_Ok _ _ _ tt (popped q c)) by done. destruct op as [|o].
  - destruct (wp_task_turn (is_nonempty q || (task_usec_ cfg =? 0)) (if is_nonempty q then 0 else task_usec_ cfg)
      q c Hb Es Eq) as ([] & c' & E & Hb' & Hbal & Hs' & ops & Eq').
    assert (forall (k : prog (Ctx R) Z), (modify (set_interrupted (is_nonempty q || (task_usec_ cfg =? 0)));;
       run_task (if is_nonempty q then 0 else task_usec_ cfg);; task_cleanup;; k) (popped q c) = k c') as Ek.
    { intros k. revert E. unfold mbind, prog_bind. destruct (modify _ _) as [[? ?]| |]; [|done|done].
      destruct (run_task _ _) as [[? ?]| |]; [|done|done]. by intros ->. }
    rewrite Ek. specialize (IH c' Hb'). unfold ran_one in *.
    destruct (do_run_one cfg fuel c') as [[n c'']| |]; [|done|].
    + destruct IH as (Hb2 & Hbal2 & Hn & Hus). split_and!; [done|congruence| |].
      * destruct Hn as [[-> _]|(_ & Hs2 & _)]; [by left|congruence].
      * intros Hn' _. apply Hus; [done|]. unfold used_up. congruence.
    + intros [|k] o q' E2; rewrite Eq in E2; [done|]. injection E2 as ->.
      apply le_n_S. apply (IH k o (q' ++ ops)). by rewrite Eq', <- app_assoc.
  - destruct Hb as [Hwf Hpq Hp [_ Hst]]. specialize (Hst Es).
    assert (o <> null) as Ho by (apply (wf_sched _ Hwf); rewrite Eq; by left).
    assert (busy (popped q c)) as Hbusy by (split; [by eapply wf_popped|done]).
    destruct (wp_complete_operation o (is_nonempty q) _ Hbusy Ho) as ([] & c' & E & Hb' & Hbal & Hus).
    rewrite (bind_Ok _ _ _ _ _ E). split_and!; [done| |by left|by intros Hn _; apply Hus].
    rewrite Hbal, (balance_popped _ _ _ Eq). unfold is_descriptor. simpl.
    destruct (is_state (rest c) o); lia.
Qed.

(** *** Running until there is no work *)

Lemma count_runs_ok fuel : forall n c, between c -> match count_runs fuel (do_run_one cfg fuel) n c with
  | Ok (_, c') => between c' /\ balance c' = balance c /\ stopped_ (scheduler c') = true /\
      (never_stop Q W -> used_up c -> used_up c')
  | Undefined _ => False
  | OutOfFuel => True
  end.
Proof.
  generalize fuel at 2 as fuel'. induction fuel as [|fuel IH]; intros fuel' n c Hb; [done|].
  cbn [count_runs]. pose proof (do_run_one_ok fuel' c Hb) as Hone. unfold ran_one in Hone.
  unfold mbind at 1, prog_bind at 1. destruct (do_run_one cfg fuel' c) as [[r c1]| |]; [|done|done].
  destruct Hone as (Hb1 & Hbal1 & Hr & Hus). destruct Hr as [[-> Hs]|(-> & Hs & Hs1)]; simpl; [|done].
  specialize (IH fuel' (if n =? UINT64_MAX then n else n + 1) c1 Hb1).
  destruct (count_runs _ _ _ _) as [[? c']| |]; [|done|done]. destruct IH as (Hb' & Hbal' & Hs' & Hus').
  rewrite <- Hbal1. split_and!; [done..|]. intros Hn Hu. by apply Hus', Hus.
Qed.

(** A context that nobody is running. *)
Record at_rest c : Prop := {
  ar_wf : wf c;
  ar_running : running (scheduler c) = false;
  ar_queue : private_op_queue (scheduler c) = [];
  ar_private : private_outstanding_work (scheduler c) = 0;
}.

Definition on_thread (b : bool) c : Ctx R := with_sched (set_thread b [] 0) c.

Lemma on_thread_same b c : private_op_queue (scheduler c) = [] -> private_outstanding_work (scheduler c) = 0 ->
  wf c -> wf (on_thread b c) /\ unfinished (on_thread b c) = unfinished c /\ work (on_thread b c) = work c.
Proof.
  intros Hq Hp []. split_and!.
  - split; simpl; try done. rewrite Hq in wf_sched. done.
  - unfold unfinished. simpl. by rewrite Hq.
  - unfold work. simpl. lia.
Qed.

Lemma at_rest_on_thread c : at_rest c -> 1 <= outstanding_work_ (scheduler c) ->
  between (on_thread true c) /\ balance (on_thread true c) = balance c.
Proof.
  intros [Hwf Hr Hq Hp] Ho. destruct (on_thread_same true c Hq Hp Hwf) as (Hwf' & Hu & Hw). split.
  - split; [done|done|done|]. split; simpl; [lia|done].
  - unfold balance. by rewrite Hu, Hw.
Qed.

Lemma in_thread_at_rest {A} (m : prog (Ctx R) A) c : at_rest c ->
  in_thread cfg false m c =
    match m (on_thread true c) with
    | Ok (a, c') => Ok (a, on_thread false c')
    | Undefined f => Undefined f
    | OutOfFuel => OutOfFuel
    end.
Proof.
  intros [Hwf Hr Hq Hp]. destruct c as [[q n st sd tk ti ru pq pn] r]. simpl in Hr, Hq, Hp. subst.
  unfold in_thread. rewrite (bind_Ok _ _ _ _ _ eq_refl). cbn [andb scheduler running op_queue_].
  rewrite (bind_Ok _ _ _ _ _ eq_refl), (bind_Ok _ _ _ _ _ eq_refl).
  unfold mbind at 1, prog_bind at 1.
  by destruct (m (on_thread true (mkCtx (mkScheduler q n st sd tk ti false [] 0) r))) as [[a c']| |] eqn:E;
    change (m _) with (m (on_thread true (mkCtx (mkScheduler q n st sd tk ti false [] 0) r))); rewrite E.
Qed.

(** [run] returns only when the scheduler is stopped, with every operation
    accounted for; when no handler stops it, the work is used up then, and no
    operation is left. *)
Definition ran c (out : outcome (Z * Ctx R)) : Prop :=
  match out with
  | Ok (_, c') => at_rest c' /\ stopped_ (scheduler c') = true /\
      work c' = Z.of_nat (length (unfinished c')) /\
      (never_stop Q W -> stopped_ (scheduler c) = false -> unfinished c' = [])
  | Undefined _ => False
  | OutOfFuel => unfinished c <> []
  end.

Lemma balanced c : at_rest c -> balance c = 0 ->
  outstanding_work_ (scheduler c) = Z.of_nat (length (unfinished c)).
Proof. intros [_ _ _ Hp]. unfold balance, work. lia. Qed.

(** There is nothing to do. *)
Lemma wp_stop_idle c : at_rest c -> balance c = 0 -> unfinished c = [] ->
  wp stop c (fun _ c' => at_rest c' /\ stopped_ (scheduler c') = true /\
    work c' = Z.of_nat (length (unfinished c')) /\ unfinished c' = []).
Proof.
  intros Hr Hb Hu. pose proof (balanced c Hr Hb) as Eo. rewrite Hu in Eo. destruct Hr as [Hwf Hru Hq Hp].
  eapply wp_mono; [apply wp_stop|]. intros ? c' Hq'.
  pose proof (quiet_unfinished _ _ Hq') as Eu. change (unfinished (with_sched _ _)) with (unfinished c) in Eu.
  pose proof Hq' as (_ & Epq & Ew & Ep & Est & Eru & _). simpl in *. rewrite Eu, Hu. split_and!.
  - split; [|congruence..]. eapply quiet_wf; [exact Hq'|]. destruct Hwf. by split.
  - done.
  - unfold work. rewrite Ew, Ep, Hp, Eo. done.
  - done.
Qed.

Lemma run_ok fuel c : at_rest c -> balance c = 0 -> ran c (run cfg fuel c).
Proof.
  intros Hr Hb. pose proof (balanced c Hr Hb) as Eo.
  unfold run, if_work. rewrite (bind_Ok _ _ _ (scheduler c) c) by done. rewrite Eo.
  destruct (Z.eqb_spec (Z.of_nat (length (unfinished c))) 0) as [E0|E0].
  - destruct (wp_stop_idle c Hr Hb) as ([] & c' & E & Hr' & Hs' & Hw' & Hu').
    { apply length_zero_iff_nil. by apply Nat2Z.inj. }
    by rewrite (bind_Ok _ _ _ _ _ E).
  - rewrite in_thread_at_rest by done.
    destruct (at_rest_on_thread c Hr) as [Hbt Hbal]; [lia|].
    pose proof (count_runs_ok fuel 0 _ Hbt) as Hrun.
    destruct (count_runs _ _ _ _) as [[n c']| |]; [|done|by intros E; rewrite E in E0].
    destruct Hrun as ([Hwf' Hq' Hp' _] & Hbal' & Hs' & Hus').
    destruct (on_thread_same false c' Hq' Hp' Hwf') as (Hwf2 & Hu2 & Hw2). rewrite <- Hbal', Hbal in *.
    assert (work c' = Z.of_nat (length (unfinished c'))) as Ew by (unfold balance in *; lia).
    simpl. split_and!; [by split|done|by rewrite Hu2, Hw2|]. rewrite Hu2. intros Hn Hs.
    apply length_zero_iff_nil. unfold used_up in Hus'. simpl in Hus'. rewrite Hs in Hus'.
    unfold work in Ew. specialize (Hus' Hn ltac:(done) Hs'). lia.
Qed.
End running.
