(* ===== verification/LinkedList.v ===== *)
(** * Linked lists in a heap

    Doubly and singly linked lists whose nodes are reached through pointers,
    with 0 for null: [D x] is the pair of the next and the previous pointer
    of the node at [x], or the next pointer alone.  The list of active timers
    (TimerList.v) and the lists of signal registrations (SignalSets.v) are
    such lists. *)

From S2P Require Import Prelude.

(** ** Doubly linked *)

(** From [a], whose predecessor is [prev], the links lead through [l] to
    [e]. *)
Fixpoint dseg (D : Z -> option (Z * Z)) (prev a : Z) (l : list Z) (e : Z) : Prop :=
  match l with
  | [] => a = e
  | x :: l => a = x /\ exists n, D x = Some (n, prev) /\ dseg D x n l e
  end.

(** The list headed by [a]. *)
Definition dll (D : Z -> option (Z * Z)) (a : Z) (l : list Z) : Prop :=
  dseg D 0 a l 0 /\ NoDup l.

Lemma dseg_same D D' l e : (forall x, x ∈ l -> D' x = D x) ->
  forall prev a, dseg D prev a l e -> dseg D' prev a l e.
Proof.
  induction l as [|x l IH]; intros Hl prev a; [done|]. simpl. intros (-> & n & Hx & Hd). split; [done|].
  exists n. rewrite Hl by by left. split; [done|]. apply IH; [|done]. intros y Hy. apply Hl. by right.
Qed.

Lemma dseg_cat D l1 l2 e : forall prev a,
  dseg D prev a (l1 ++ l2) e <-> exists m, dseg D prev a l1 m /\ dseg D (default prev (last l1)) m l2 e.
Proof.
  induction l1 as [|x l1 IH]; intros prev a; simpl.
  - split; [by exists a|]. by intros (m & -> & ?).
  - assert (forall m, dseg D (default x (last l1)) m l2 e <-> dseg D (default prev (last (x :: l1))) m l2 e) as El.
    { intros m. destruct l1 as [|y l1]; [done|].
      change (last (x :: y :: l1)) with (last (y :: l1)).
      destruct (last (y :: l1)) eqn:E; [done|by apply last_None in E]. }
    setoid_rewrite IH. setoid_rewrite El. naive_solver.
Qed.

(** Every pointer into or out of a list is to an element of it, or null. *)
Lemma dseg_first D prev a l e : dseg D prev a l e -> a = default e (head l).
Proof. destruct l; simpl; [done|]. by intros (-> & _). Qed.

(** The segment [l], entered from [prev'] instead of [prev]. *)
Lemma dseg_enter D D' prev prev' a l e : dseg D prev a l e -> NoDup l ->
  (forall x, head l = Some x -> exists n, D x = Some (n, prev) /\ D' x = Some (n, prev')) ->
  (forall x, x ∈ l -> head l <> Some x -> D' x = D x) ->
  dseg D' prev' a l e.
Proof.
  destruct l as [|x l]; [done|]. simpl. intros (-> & n & Hx & Hd) Hnd Hh Hs. split; [done|].
  destruct (Hh x eq_refl) as (n' & Hx1 & Hx2). assert (n' = n) as -> by congruence. exists n. split; [done|].
  apply NoDup_cons in Hnd as [Hxl _]. eapply dseg_same; [|exact Hd]. intros y Hy. apply Hs; [by right|].
  intros [= ->]. done.
Qed.

(** The segment [l], leading to [e'] instead of [e]. *)
Lemma dseg_leave D D' l e e' : NoDup l -> forall prev a, dseg D prev a l e ->
  (forall x, last l = Some x -> exists p, D x = Some (e, p) /\ D' x = Some (e', p)) ->
  (forall x, x ∈ l -> last l <> Some x -> D' x = D x) ->
  dseg D' prev (match l with [] => e' | _ => a end) l e'.
Proof.
  induction l as [|x l IH]; intros Hnd prev a; [done|]. intros Hd. simpl in Hd. destruct Hd as (-> & n & Hx & Hd).
  apply NoDup_cons in Hnd as [Hxl Hnd]. intros Hl Hs. split; [done|]. destruct l as [|y l].
  - simpl in *. subst n. destruct (Hl x eq_refl) as (p & Hx1 & Hx2). exists e'. split; [congruence|done].
  - exists n. split; [rewrite Hs; [done|by left|]|].
    + intros E. apply Hxl. change (last (y :: l) = Some x) in E. by apply last_Some_elem_of in E.
    + apply (IH Hnd x n Hd Hl). intros z Hz. apply Hs. by right.
Qed.

Lemma dll_cons D D' a l p : dll D a l -> p ∉ l -> D' p = Some (a, 0) ->
  (forall x, head l = Some x -> exists n, D x = Some (n, 0) /\ D' x = Some (n, p)) ->
  (forall x, x ∈ l -> head l <> Some x -> D' x = D x) ->
  dll D' p (p :: l).
Proof.
  intros [Hd Hnd] Hp Hlp Hh Hs. split; [|by constructor]. simpl. split; [done|]. exists a. split; [done|].
  by eapply dseg_enter.
Qed.

(** The pointers around the element [p] of a list. *)
Lemma dll_around D a l1 p l2 : dll D a (l1 ++ p :: l2) ->
  a = default p (head l1) /\ D p = Some (default 0 (head l2), default 0 (last l1)) /\
  (forall x, last l1 = Some x -> exists q, D x = Some (p, q)) /\
  (forall x, head l2 = Some x -> exists n, D x = Some (n, p)).
Proof.
  intros [Hd _]. apply dseg_cat in Hd as (m & H1 & H2). simpl in H2. destruct H2 as (-> & n & Hp & H2).
  split_and!.
  - by eapply dseg_first.
  - rewrite Hp. by erewrite (dseg_first _ _ n).
  - intros x Hx. apply last_Some in Hx as [l ->]. apply dseg_cat in H1 as (m & _ & H1). simpl in H1.
    destruct H1 as (-> & n' & Hx & E). subst. eauto.
  - intros x Hx. destruct l2 as [|y l2]; [done|]. injection Hx as ->. destruct H2 as (_ & n' & Hx & _). eauto.
Qed.

(** Element [p] is replaced by [mid], which is nothing or one other element; [x]
    is what its predecessor, and [y] what its successor points to now. *)
Lemma dll_replace D D' a l1 p l2 mid : dll D a (l1 ++ p :: l2) ->
  NoDup (l1 ++ mid ++ l2) ->
  (let x := default (default 0 (head l2)) (head mid) in
   let y := default (default 0 (last l1)) (last mid) in
   (forall z q, last l1 = Some z -> D z = Some (p, q) -> D' z = Some (x, q)) /\
   (forall z n, head l2 = Some z -> D z = Some (n, p) -> D' z = Some (n, y)) /\
   (forall z, z ∈ l1 -> last l1 <> Some z -> D' z = D z) /\
   (forall z, z ∈ l2 -> head l2 <> Some z -> D' z = D z) /\
   match mid with
   | [] => True
   | [t] => D' t = Some (default 0 (head l2), default 0 (last l1))
   | _ => False
   end) ->
  dll D' (match l1 with [] => default (default 0 (head l2)) (head mid) | _ => a end) (l1 ++ mid ++ l2).
Proof.
  intros Hd Hnd (Hlast & Hhead & Hs1 & Hs2 & Hmid). split; [|done].
  destruct (dll_around _ _ _ _ _ Hd) as (Ea & Hp & Hal & Hah). destruct Hd as [Hd Hnd0].
  apply dseg_cat in Hd as (m & Hd1 & Hd2). simpl in Hd2. destruct Hd2 as (-> & n & Hp' & Hd2).
  assert (n = default 0 (head l2)) as -> by congruence.
  apply NoDup_app in Hnd0 as (Hnd1 & _ & Hnd2). apply NoDup_cons in Hnd2 as [_ Hnd2].
  apply dseg_cat. eexists. split.
  { eapply (dseg_leave D D' l1 p); [done|exact Hd1| |done].
    intros z Hz. destruct (Hal z Hz) as [q Hq]. eauto. }
  apply dseg_cat. assert (forall y, y = default (default 0 (last l1)) (last mid) ->
    dseg D' y (default 0 (head l2)) l2 0) as Htail.
  { intros y ->. eapply (dseg_enter D); [exact Hd2|done| |done].
    intros z Hz. destruct (Hah z Hz) as [n Hn]. eauto. }
  destruct mid as [|t [|]]; [| |done].
  - eexists. split; [done|]. by apply Htail.
  - exists (default 0 (head l2)). split; [|by apply Htail]. simpl. split; [done|]. eauto.
Qed.

Lemma dll_member D a l x : dll D a l -> x ∈ l -> is_Some (D x).
Proof.
  intros Hd (l1 & l2 & ->)%list_elem_of_split. destruct (dll_around _ _ _ _ _ Hd) as (_ & -> & _). by eexists.
Qed.

Lemma dll_nonnull D a l : D 0 = None -> dll D a l -> 0 ∉ l.
Proof. intros H0 Hd Hin. destruct (dll_member _ _ _ _ Hd Hin). congruence. Qed.

Lemma default_last_in (l : list Z) : default 0 (last l) = 0 \/ default 0 (last l) ∈ l.
Proof. destruct (last l) eqn:E; simpl; [right; by apply last_Some_elem_of|by left]. Qed.

Lemma default_head_in (l : list Z) : default 0 (head l) = 0 \/ default 0 (head l) ∈ l.
Proof. destruct l; [by left|right; by left]. Qed.

(** Around the element [p] of a list: what is equal to what. *)
Lemma around_distinct D a l1 p l2 : D 0 = None -> dll D a (l1 ++ p :: l2) ->
  let pr := default 0 (last l1) in let nx := default 0 (head l2) in
  p <> 0 /\ pr <> p /\ nx <> p /\
  (forall z, z ∈ l1 -> z <> p /\ z <> nx /\ (pr = z <-> last l1 = Some z)) /\
  (forall z, z ∈ l2 -> z <> p /\ z <> pr /\ (nx = z <-> head l2 = Some z)) /\
  NoDup (l1 ++ l2) /\ (l1 = [] <-> a = p).
Proof.
  intros H0 Hd pr nx. pose proof (dll_nonnull _ _ _ H0 Hd) as Hnn.
  destruct (dll_around _ _ _ _ _ Hd) as (Ea & _). destruct Hd as [_ Hnd].
  rewrite elem_of_app, elem_of_cons in Hnn. apply NoDup_app in Hnd as (N1 & N12 & N2).
  apply NoDup_cons in N2 as [Np N2].
  assert (forall z, z ∈ l1 -> z <> p /\ (z ∉ l2) /\ z <> 0) as F1.
  { intros z Hz. specialize (N12 z Hz). rewrite elem_of_cons in N12. split_and!; [naive_solver..|]. intros ->. tauto. }
  assert (forall z, z ∈ l2 -> z <> p /\ (z ∉ l1) /\ z <> 0) as F2.
  { intros z Hz. split_and!; [by intros ->|by intros Hz1; apply F1 in Hz1 as (_ & ? & _)|intros ->; tauto]. }
  assert (p <> 0) as Hp0 by (intros ->; tauto).
  assert (pr <> p /\ nx <> p) as [Hpr Hnx].
  { destruct (default_last_in l1) as [E|E]; fold pr in E; destruct (default_head_in l2) as [E'|E']; fold nx in E';
      split; try congruence; try (by apply F1 in E as (? & _)); by apply F2 in E' as (? & _). }
  split_and!; [done|done|done| | | |].
  - intros z Hz. destruct (F1 z Hz) as (Z1 & Z2 & Z3). split_and!; [done| |].
    + intros ->. by destruct (default_head_in l2).
    + unfold pr. destruct (last l1); simpl; [split; congruence|split; [congruence|done]].
  - intros z Hz. destruct (F2 z Hz) as (Z1 & Z2 & Z3). split_and!; [done| |].
    + intros ->. by destruct (default_last_in l1).
    + unfold nx. destruct (head l2); simpl; [split; congruence|split; [congruence|done]].
  - apply NoDup_app. split_and!; [done| |done]. intros z Hz. by apply F1.
  - rewrite Ea. destruct l1 as [|y l1]; simpl; [done|]. split; [done|]. intros ->. by destruct (F1 p (list_elem_of_here _ _)).
Qed.

(** ** Singly linked

    From [a] the next pointers lead through [l] to [e]. *)
Fixpoint sseg (N : Z -> option Z) (a : Z) (l : list Z) (e : Z) : Prop :=
  match l with
  | [] => a = e
  | x :: l => a = x /\ exists n, N x = Some n /\ sseg N n l e
  end.

Lemma sseg_same N N' l e : (forall x, x ∈ l -> N' x = N x) -> forall a, sseg N a l e -> sseg N' a l e.
Proof.
  induction l as [|x l IH]; intros Hl a; [done|]. simpl. intros (-> & n & Hx & Hd). split; [done|].
  exists n. rewrite Hl by by left. split; [done|]. apply IH; [|done]. intros y Hy. apply Hl. by right.
Qed.

Lemma sseg_app N l1 l2 e a : sseg N a (l1 ++ l2) e <-> exists m, sseg N a l1 m /\ sseg N m l2 e.
Proof.
  revert a. induction l1 as [|x l1 IH]; intros a; simpl.
  - split; [by exists a|]. by intros (m & -> & ?).
  - setoid_rewrite IH. naive_solver.
Qed.

Lemma sseg_first N a l e : sseg N a l e -> a = default e (head l).
Proof. destruct l; simpl; [done|]. by intros (-> & _). Qed.

(** The segment [l], leading to [e'] instead of [e]. *)
Lemma sseg_leave N N' l e e' a : NoDup l -> sseg N a l e ->
  (forall x, last l = Some x -> N' x = Some e') ->
  (forall x, x ∈ l -> last l <> Some x -> N' x = N x) ->
  sseg N' (match l with [] => e' | _ => a end) l e'.
Proof.
  revert a. induction l as [|x l IH]; intros a Hnd; [done|]. intros Hd. simpl in Hd. destruct Hd as (-> & n & Hx & Hd).
  apply NoDup_cons in Hnd as [Hxl Hnd]. intros Hl Hs. split; [done|]. destruct l as [|y l].
  - exists e'. split; [by apply Hl|done].
  - exists n. split; [rewrite Hs; [done|by left|]|].
    + intros E. apply Hxl. change (last (y :: l) = Some x) in E. by apply last_Some_elem_of in E.
    + apply (IH n Hnd Hd Hl). intros z Hz. apply Hs. by right.
Qed.
