(* ===== verification/TimerQueue.v ===== *)
(** * timer_queue

    Asio's queue of timers (src/include/asio/detail/timer_queue.hpp) with the
    times of chrono_time_traits.hpp: a binary heap of the times in a vector,
    whose entries point to the timers, which hold their index in the heap, the
    operations waiting on them, and the links of the list of active timers.
    It is shown to implement a map of timers in TimerQueueRefines.v. *)

From S2P Require Import Prelude SocketOps OpQueue EpollReactor.

(** ** Times

    Ticks of a steady clock, nanoseconds in 64 bits, since its epoch. *)
Abbreviation time_type := Z (only parsing).
Definition time_min : time_type := -9223372036854775808.
Definition time_max : time_type := 9223372036854775807.

Definition less_than (t1 t2 : time_type) : bool := t1 <? t2.

(** [chrono_time_traits::add] and [subtract], which saturate. *)
Definition add (t d : Z) : Z :=
  if (0 <=? t) && (time_max - t <? d) then time_max
  else if negb (0 <=? t) && (d <? - (t - time_min)) then time_min
  else t + d.

Definition subtract (t1 t2 : time_type) : Z :=
  if 0 <=? t1 then
    if 0 <=? t2 then t1 - t2
    else if t2 =? time_min then time_max
    else if time_max - t1 <? 0 - t2 then time_max
    else t1 - t2
  else
    if t2 <? 0 then t1 - t2
    else if t1 =? time_min then time_min
    else if time_max - t2 <? 0 - t1 then time_min
    else - (t2 - t1).

(** [total_milliseconds] and [total_microseconds] of a count of nanoseconds:
    [duration_cast] with num = 1. *)
Definition total_milliseconds (ticks : Z) : Z := Z.quot ticks 1000000.
Definition total_microseconds (ticks : Z) : Z := Z.quot ticks 1000.

Definition to_msec (d max_duration : Z) : Z :=
  if d <=? 0 then 0 else
  let msec := total_milliseconds d in
  if msec =? 0 then 1 else if max_duration <? msec then max_duration else msec.

Definition to_usec (d max_duration : Z) : Z :=
  if d <=? 0 then 0 else
  let usec := total_microseconds d in
  if usec =? 0 then 1 else if max_duration <? usec then max_duration else usec.

(** ** State *)

(** A pointer to a timer, 0 being null. *)
Abbreviation timer_ptr := Z (only parsing).

(** The index of a timer that is not in the heap. *)
Definition no_index : Z := UINT64_MAX.

Record per_timer_data := mkTimer {
  t_ops : list op_ptr;
  heap_index_ : Z;
  t_next_ : timer_ptr;
  t_prev_ : timer_ptr;
}.

Definition per_timer_data_new : per_timer_data := mkTimer [] no_index 0 0.

Definition set_ops (ops : list op_ptr) (d : per_timer_data) : per_timer_data :=
  mkTimer ops (heap_index_ d) (t_next_ d) (t_prev_ d).
Definition set_index (i : Z) (d : per_timer_data) : per_timer_data :=
  mkTimer (t_ops d) i (t_next_ d) (t_prev_ d).
Definition set_links (next prev : timer_ptr) (d : per_timer_data) : per_timer_data :=
  mkTimer (t_ops d) (heap_index_ d) next prev.

Record heap_entry := mkEntry { time_ : time_type; timer_ : timer_ptr }.

(** The queue, with the timers that its pointers lead to. *)
Record TimerQueue := mkQueue {
  timers_ : timer_ptr;
  heap_ : list heap_entry;
  timer_data : gmap timer_ptr per_timer_data;
}.

Definition set_timers (p : timer_ptr) (q : TimerQueue) : TimerQueue := mkQueue p (heap_ q) (timer_data q).
Definition set_heap (h : list heap_entry) (q : TimerQueue) : TimerQueue := mkQueue (timers_ q) h (timer_data q).
Definition set_data (D : gmap timer_ptr per_timer_data) (q : TimerQueue) : TimerQueue :=
  mkQueue (timers_ q) (heap_ q) D.

(** The queue and the world its operations are in. *)
Record TimerState (W : Type) := mkTState { queue : TimerQueue; tworld : W }.
Arguments mkTState {W} _ _.
Arguments queue {W} _.
Arguments tworld {W} _.

(** [asio::error_code()]. *)
Definition no_error : error_code := system_error 0.

(** [TimeTraits::now()]. *)
Class Clock (W : Type) := clock_now : W -> time_type.

Section timer_queue.
Context {W : Type} `{ReactorWorld W} `{Clock W}.
Abbreviation M := (prog (TimerState W)).
Implicit Types (p : timer_ptr) (o : op_ptr) (i : nat).

Definition get_queue : M TimerQueue := s ← get_state; mret (queue s).
Definition modify_queue (f : TimerQueue -> TimerQueue) : M unit :=
  s ← get_state; put_state (mkTState (f (queue s)) (tworld s)).
Definition modify_ops_world (f : W -> W) : M unit :=
  s ← get_state; put_state (mkTState (queue s) (f (tworld s))).

(** [*p], assigning to its members, and the elements of the vector. *)
Definition load_timer p : M per_timer_data :=
  q ← get_queue;
  match timer_data q !! p with Some d => mret d | None => throw NullDeref end.
Definition update_timer p (f : per_timer_data -> per_timer_data) : M unit :=
  d ← load_timer p; modify_queue (fun q => set_data (<[p:=f d]> (timer_data q)) q).
Definition heap_at i : M heap_entry :=
  q ← get_queue;
  match heap_ q !! i with Some e => mret e | None => throw OutOfBounds end.
Definition heap_set i (e : heap_entry) : M unit :=
  heap_at i;; modify_queue (fun q => set_heap (<[i:=e]> (heap_ q)) q).
Definition heap_size : M nat := q ← get_queue; mret (length (heap_ q)).

(** *** The heap *)

Definition swap_heap (index1 index2 : nat) : M unit :=
  tmp ← heap_at index1;
  e ← heap_at index2;
  heap_set index1 e;;
  heap_set index2 tmp;;
  e1 ← heap_at index1;
  update_timer (timer_ e1) (set_index (Z.of_nat index1));;
  e2 ← heap_at index2;
  update_timer (timer_ e2) (set_index (Z.of_nat index2)).

Definition parent i : nat := ((i - 1) / 2)%nat.

Fixpoint up_heap (fuel index : nat) : M unit :=
  match fuel with
  | O => loop_out
  | S fuel =>
      if (0 <? index)%nat then
        let parent := parent index in
        a ← heap_at index;
        b ← heap_at parent;
        if negb (less_than (time_ a) (time_ b)) then mret tt
        else swap_heap index parent;; up_heap fuel parent
      else mret tt
  end.

Definition min_child_of (child size : nat) : M nat :=
  if (child + 1 =? size)%nat then mret child else
  a ← heap_at child;
  b ← heap_at (child + 1);
  mret (if less_than (time_ a) (time_ b) then child else child + 1)%nat.

Fixpoint down_heap (fuel index : nat) : M unit :=
  match fuel with
  | O => loop_out
  | S fuel =>
      let child := (index * 2 + 1)%nat in
      size ← heap_size;
      if (child <? size)%nat then
        min_child ← min_child_of child size;
        a ← heap_at index;
        b ← heap_at min_child;
        if less_than (time_ a) (time_ b) then mret tt
        else swap_heap index min_child;; down_heap fuel min_child
      else mret tt
  end.

(** A heap of [n] entries is done in [n] turns. *)
Definition up_from index : M unit := up_heap (S index) index.
Definition down_from index : M unit := n ← heap_size; down_heap (S n) index.

Definition pop_back : M unit := modify_queue (fun q => set_heap (removelast (heap_ q)) q).

Definition remove_from_heap p : M unit :=
  d ← load_timer p;
  let index := heap_index_ d in
  size ← heap_size;
  if negb (size =? 0)%nat && (index <? Z.of_nat size) then
    let index := Z.to_nat index in
    if (index =? size - 1)%nat then
      update_timer p (set_index no_index);;
      pop_back
    else
      swap_heap index (size - 1);;
      update_timer p (set_index no_index);;
      pop_back;;
      up ← (if (0 <? index)%nat then
              a ← heap_at index;
              b ← heap_at (parent index);
              mret (less_than (time_ a) (time_ b))
            else mret false);
      if up : bool then up_from index else down_from index
  else mret tt.

(** *** The list of active timers *)

Definition insert_active p : M unit :=
  q ← get_queue;
  d ← load_timer p;
  update_timer p (set_links (timers_ q) 0);;
  (if negb (timers_ q =? 0) then update_timer (timers_ q) (fun d => set_links (t_next_ d) p d) else mret tt);;
  modify_queue (set_timers p).

Definition unlink_active p : M unit :=
  q ← get_queue;
  d ← load_timer p;
  (if timers_ q =? p then modify_queue (set_timers (t_next_ d)) else mret tt);;
  (if negb (t_prev_ d =? 0) then
     update_timer (t_prev_ d) (fun e => set_links (t_next_ d) (t_prev_ e) e) else mret tt);;
  (if negb (t_next_ d =? 0) then
     update_timer (t_next_ d) (fun e => set_links (t_next_ e) (t_prev_ d) e) else mret tt);;
  update_timer p (set_links 0 0).

Definition remove_timer p : M unit := remove_from_heap p;; unlink_active p.

(** [timer.prev_ != 0 || &timer == timers_]: the timer is in the list. *)
Definition is_active p : M bool :=
  d ← load_timer p; q ← get_queue; mret (negb (t_prev_ d =? 0) || (timers_ q =? p)).

(** *** The operations of the queue *)

(** [is_positive_infinity] is false of the times of std::chrono. *)
Definition enqueue_timer (time : time_type) p o : M bool :=
  active ← is_active p;
  (if negb active then
     n ← heap_size;
     update_timer p (set_index (Z.of_nat n));;
     modify_queue (fun q => set_heap (heap_ q ++ [mkEntry time p]) q);;
     up_from n;;
     insert_active p
   else mret tt);;
  d ← load_timer p;
  update_timer p (set_ops (t_ops d ++ [o]));;
  d ← load_timer p;
  mret ((heap_index_ d =? 0) && bool_decide (head (t_ops d) = Some o)).

Definition empty (q : TimerQueue) : bool := timers_ q =? 0.

Definition wait_duration_msec (q : TimerQueue) (now : time_type) (max_duration : Z) : Z :=
  match heap_ q with [] => max_duration | e :: _ => to_msec (subtract (time_ e) now) max_duration end.
Definition wait_duration_usec (q : TimerQueue) (now : time_type) (max_duration : Z) : Z :=
  match heap_ q with [] => max_duration | e :: _ => to_usec (subtract (time_ e) now) max_duration end.

(** [op->ec_ = e] for each of the operations of a loop. *)
Fixpoint set_ecs (e : error_code) (ops : list op_ptr) : M unit :=
  match ops with [] => mret tt | o :: ops => modify_ops_world (set_op_ec o e);; set_ecs e ops end.

(** The loop over the timers that are due; the operations it pushed. *)
Fixpoint ready_loop (fuel : nat) (now : time_type) (ops : list op_ptr) : M (list op_ptr) :=
  match fuel with
  | O => loop_out
  | S fuel =>
      q ← get_queue;
      match heap_ q with
      | [] => mret ops
      | e :: _ =>
          if less_than now (time_ e) then mret ops else
          let timer := timer_ e in
          d ← load_timer timer;
          set_ecs no_error (t_ops d);;
          update_timer timer (set_ops []);;
          remove_timer timer;;
          ready_loop fuel now (ops ++ t_ops d)
      end
  end.

Definition get_ready_timers : M (list op_ptr) :=
  q ← get_queue;
  match heap_ q with
  | [] => mret []
  | _ =>
      s ← get_state;
      ready_loop (S (length (heap_ q))) (clock_now (tworld s)) []
  end.

(** The loop of [get_all_timers] along the list of active timers, of which
    there are not more than timers. *)
Fixpoint all_loop (fuel : nat) (ops : list op_ptr) : M (list op_ptr) :=
  match fuel with
  | O => loop_out
  | S fuel =>
      q ← get_queue;
      let timer := timers_ q in
      if negb (timer =? 0) then
        d ← load_timer timer;
        modify_queue (set_timers (t_next_ d));;
        update_timer timer (fun d => set_links 0 0 (set_ops [] d));;
        all_loop fuel (ops ++ t_ops d)
      else mret ops
  end.

Definition get_all_timers : M (list op_ptr) :=
  q ← get_queue;
  ops ← all_loop (S (size (timer_data q))) [];
  modify_queue (set_heap []);;
  mret ops.

(** The operations that are cancelled, at most [max_cancelled], and those
    that stay. *)
Fixpoint split_cancelled (num_cancelled max_cancelled : Z) (ops : list op_ptr) : list op_ptr * list op_ptr :=
  match ops with
  | [] => ([], [])
  | o :: ops' =>
      if num_cancelled =? max_cancelled then ([], ops)
      else let '(c, k) := split_cancelled (num_cancelled + 1) max_cancelled ops' in (o :: c, k)
  end.

Definition remove_if_empty p : M unit :=
  d ← load_timer p; match t_ops d with [] => remove_timer p | _ => mret tt end.

(** The cancelled operations, whose number is the result. *)
Definition cancel_timer p (max_cancelled : Z) : M (list op_ptr) :=
  active ← is_active p;
  if active : bool then
    d ← load_timer p;
    let '(cancelled, kept) := split_cancelled 0 max_cancelled (t_ops d) in
    set_ecs operation_aborted cancelled;;
    update_timer p (set_ops kept);;
    remove_if_empty p;;
    mret cancelled
  else mret [].

Definition cancel_timer_by_key p (key : Z) : M (list op_ptr) :=
  active ← is_active p;
  if active : bool then
    d ← load_timer p;
    s ← get_state;
    let has_key o := bool_decide (cancellation_key o (tworld s) = key) in
    let cancelled := List.filter has_key (t_ops d) in
    set_ecs operation_aborted cancelled;;
    update_timer p (set_ops (List.filter (fun o => negb (has_key o)) (t_ops d)));;
    remove_if_empty p;;
    mret cancelled
  else mret [].

Definition move_timer (target source : timer_ptr) : M unit :=
  s ← load_timer source;
  t ← load_timer target;
  update_timer target (fun t => set_index (heap_index_ s) (set_ops (t_ops t ++ t_ops s) t));;
  update_timer source (fun s => set_index no_index (set_ops [] s));;
  n ← heap_size;
  (if heap_index_ s <? Z.of_nat n then
     e ← heap_at (Z.to_nat (heap_index_ s));
     heap_set (Z.to_nat (heap_index_ s)) (mkEntry (time_ e) target)
   else mret tt);;
  q ← get_queue;
  (if timers_ q =? source then modify_queue (set_timers target) else mret tt);;
  (if negb (t_prev_ s =? 0) then
     update_timer (t_prev_ s) (fun e => set_links target (t_prev_ e) e) else mret tt);;
  (if negb (t_next_ s =? 0) then
     update_timer (t_next_ s) (fun e => set_links (t_next_ e) target e) else mret tt);;
  update_timer target (set_links (t_next_ s) (t_prev_ s));;
  update_timer source (set_links 0 0).
End timer_queue.

(** A call of an operation that pushes on a queue of operations. *)
Definition call_queue {W} (m : prog (TimerState W) (list op_ptr)) (q : TimerQueue) (w : W) :
    outcome (list op_ptr * TimerQueue * W) :=
  '(ops, s) ← m (mkTState q w); Ok (ops, queue s, tworld s).

#[export] Instance timer_queue_base {W : Type} `{ReactorWorld W} `{Clock W} :
    TimerQueueBase TimerQueue W := {
  tq_empty := empty;
  tq_wait_duration_msec q w := wait_duration_msec q (clock_now w);
  tq_wait_duration_usec q w := wait_duration_usec q (clock_now w);
  tq_get_ready_timers := call_queue get_ready_timers;
  tq_get_all_timers := call_queue get_all_timers;
}.
