(* ===== verification/TimerHeap.v ===== *)
(** * The heap of the timer queue

    The binary heap of timer_queue: swapping entries keeps the timers'
    indices, and moving an entry up or down restores the order of the
    heap. *)

From S2P Require Import Prelude SocketOps OpQueue EpollReactor TimerQueue.

(** ** Positions *)

Lemma parent_spec k i : (0 < k)%nat -> parent k = i <-> k = (2 * i + 1)%nat \/ k = (2 * i + 2)%nat.
Proof.
  intros Hk. unfold parent. pose proof (Nat.div_mod_eq (k - 1) 2). pose proof (Nat.mod_upper_bound (k - 1) 2). lia.
Qed.

Lemma parent_lt k : (0 < k)%nat -> (parent k < k)%nat.
Proof. intros Hk. destruct (proj1 (parent_spec k (parent k) Hk) eq_refl); lia. Qed.

(** ** The order *)

Definition ordered_at (h : list heap_entry) (k : nat) : Prop :=
  forall a b, h !! parent k = Some a -> h !! k = Some b -> time_ a <= time_ b.

Definition heap_ordered (h : list heap_entry) : Prop := forall k, (0 < k)%nat -> ordered_at h k.

(** The children of [i] are not before the parent of [i]. *)
Definition grand_ordered (h : list heap_entry) (i : nat) : Prop := forall k a b,
  (0 < i)%nat -> (0 < k)%nat -> parent k = i -> h !! parent i = Some a -> h !! k = Some b -> time_ a <= time_ b.

(** In order except that the entry at [i] may be before its parent ... *)
Definition up_inv (h : list heap_entry) (i : nat) : Prop :=
  (forall k, (0 < k)%nat -> k <> i -> ordered_at h k) /\ grand_ordered h i.
(** ... or after its children. *)
Definition down_inv (h : list heap_entry) (i : nat) : Prop :=
  (forall k, (0 < k)%nat -> parent k <> i -> ordered_at h k) /\ grand_ordered h i.

(** *** Swapping *)

Definition swap (i j : nat) (h : list heap_entry) : list heap_entry :=
  match h !! i, h !! j with
  | Some a, Some b => <[j:=a]> (<[i:=b]> h)
  | _, _ => h
  end.

Lemma swap_length i j h : length (swap i j h) = length h.
Proof. unfold swap. destruct (h !! i), (h !! j); by rewrite ?length_insert. Qed.

Lemma swap_lookup i j h a b k : h !! i = Some a -> h !! j = Some b ->
  swap i j h !! k = if decide (k = j) then Some a else if decide (k = i) then Some b else h !! k.
Proof.
  intros Ha Hb. unfold swap. rewrite Ha, Hb. apply lookup_lt_Some in Ha as Hi, Hb as Hj.
  repeat case_decide; subst.
  - apply list_lookup_insert_eq. by rewrite length_insert.
  - rewrite list_lookup_insert_ne by done. by apply list_lookup_insert_eq.
  - by rewrite !list_lookup_insert_ne.
Qed.

Lemma swap_permutation i j h : (i < length h)%nat -> (j < length h)%nat -> swap i j h ≡ₚ h.
Proof.
  intros Hi Hj. apply lookup_lt_is_Some_2 in Hi as [a Ha], Hj as [b Hb].
  apply Permutation_inj. split; [apply swap_length|].
  exists (fun k => if decide (k = j) then i else if decide (k = i) then j else k). split.
  - intros k k'. repeat case_decide; subst; try done; congruence.
  - intros k. rewrite (swap_lookup i j h a b k Ha Hb). by repeat case_decide; subst.
Qed.

(** [at_swap] reads the entries of a swapped heap. *)
Ltac at_swap lem :=
  intros x y; rewrite !lem;
  repeat match goal with |- context [decide ?P] => destruct (decide P) end; try congruence; try lia;
  intros Ex Ey; try injection Ex as <-; try injection Ey as <-; try lia.

(** One step up. *)
Lemma up_step h i a b : (0 < i)%nat -> up_inv h i -> h !! i = Some a -> h !! parent i = Some b ->
  time_ a < time_ b -> up_inv (swap i (parent i) h) (parent i).
Proof.
  intros Hi [Ho Hg] Ha Hb Hab. pose proof (parent_lt i Hi) as Hp.
  remember (parent i) as p eqn:Ep. pose proof (fun k => swap_lookup i p h a b k Ha Hb) as Hsw. split.
  - intros k Hk Hkp. pose proof (parent_lt k Hk) as Hpk. at_swap Hsw.
    + assert (time_ b <= time_ y); [|lia]. by apply (Ho k Hk ltac:(done)); congruence.
    + subst. by apply (Hg k b y).
    + by apply (Ho k Hk ltac:(done)).
  - intros k x y Hp0 Hk Hkp. revert x y. pose proof (parent_lt k Hk). pose proof (parent_lt p Hp0). at_swap Hsw.
    + by apply (Ho p Hp0 ltac:(lia)).
    + assert (time_ x <= time_ b) by by apply (Ho p Hp0 ltac:(lia)).
      assert (time_ b <= time_ y); [|lia]. apply (Ho k Hk ltac:(done)); congruence.
Qed.

(** One step down, to the earlier of the children. *)
Lemma down_step h i m a b : (0 < m)%nat -> parent m = i -> down_inv h i -> h !! i = Some a -> h !! m = Some b ->
  time_ b <= time_ a -> (forall k c, (0 < k)%nat -> parent k = i -> h !! k = Some c -> time_ b <= time_ c) ->
  down_inv (swap i m h) m.
Proof.
  intros Hm Em [Ho Hg] Ha Hb Hab Hmin. pose proof (parent_lt m Hm) as Hp.
  pose proof (fun k => swap_lookup i m h a b k Ha Hb) as Hsw. split.
  - intros k Hk Hkm. pose proof (parent_lt k Hk) as Hpk. at_swap Hsw.
    + by apply (Hmin k y Hk).
    + subst k. apply (Hg m x b); congruence.
    + by apply (Ho k Hk ltac:(done)).
  - intros k x y Hm0 Hk Hkm. revert x y. pose proof (parent_lt k Hk). rewrite Em. at_swap Hsw.
    apply (Ho k Hk ltac:(lia)); congruence.
Qed.

(** ** The timers' indices *)

(** Every entry points to a timer that holds its index. *)
Definition indexed (h : list heap_entry) (D : gmap timer_ptr per_timer_data) : Prop :=
  forall i e, h !! i = Some e -> exists d, D !! timer_ e = Some d /\ heap_index_ d = Z.of_nat i.

(** The timers of [D'] are those of [D] up to their indices, which are the
    same for the timers outside of [ps]. *)
Definition same_timers (ps : list timer_ptr) (D D' : gmap timer_ptr per_timer_data) : Prop := forall p,
  (set_index 0 <$> D' !! p) = (set_index 0 <$> D !! p) /\ (p ∉ ps -> D' !! p = D !! p).

Lemma same_timers_refl ps D : same_timers ps D D.
Proof. done. Qed.

Lemma same_timers_trans ps ps' D1 D2 D3 : ps ≡ₚ ps' ->
  same_timers ps D1 D2 -> same_timers ps' D2 D3 -> same_timers ps D1 D3.
Proof.
  intros Hp H12 H23 p. destruct (H12 p) as [E1 F1], (H23 p) as [E2 F2]. split; [congruence|].
  intros Hn. rewrite F2 by (by rewrite <- Hp). by apply F1.
Qed.

Lemma same_timers_index ps p i d D : p ∈ ps -> D !! p = Some d ->
  same_timers ps D (<[p:=set_index i d]> D).
Proof.
  intros Hp Hd q. destruct (decide (p = q)) as [<-|Hne].
  - rewrite lookup_insert_eq, Hd. split; [by destruct d|done].
  - by rewrite lookup_insert_ne.
Qed.

Lemma indexed_inj h D i j a b : indexed h D -> h !! i = Some a -> h !! j = Some b ->
  timer_ a = timer_ b -> i = j.
Proof.
  intros Hi Ha Hb E. destruct (Hi i a Ha) as (d & Hd & Ed), (Hi j b Hb) as (d' & Hd' & Ed').
  rewrite E in Hd. assert (d = d') as <- by congruence. lia.
Qed.

Lemma indexed_timer h D i e : indexed h D -> h !! i = Some e -> timer_ e ∈ timer_ <$> h.
Proof. intros _ Hi. apply list_elem_of_fmap. exists e. split; [done|]. by eapply list_elem_of_lookup_2. Qed.

(** ** The operations *)

Section heap.
Context {W : Type}.
Abbreviation S := (TimerState W).
Implicit Types (s : S) (i j : nat).

Definition s_heap s : list heap_entry := heap_ (queue s).
Definition s_data s : gmap timer_ptr per_timer_data := timer_data (queue s).
Definition on_queue (f : TimerQueue -> TimerQueue) s : S := mkTState (f (queue s)) (tworld s).

Lemma wp_get_queue s (Phi : TimerQueue -> S -> Prop) : Phi (queue s) s -> wp get_queue s Phi.
Proof. intros HP. by apply wp_bind, wp_get, wp_ret. Qed.

Lemma wp_modify_queue f s (Phi : unit -> S -> Prop) : Phi tt (on_queue f s) -> wp (modify_queue f) s Phi.
Proof. intros HP. by apply wp_bind, wp_get, wp_put. Qed.

Lemma wp_load_timer p d s (Phi : per_timer_data -> S -> Prop) :
  s_data s !! p = Some d -> Phi d s -> wp (load_timer p) s Phi.
Proof. unfold s_data. intros Hd HP. apply wp_bind, wp_get_queue. rewrite Hd. by apply wp_ret. Qed.

Lemma wp_update_timer p d f s (Phi : unit -> S -> Prop) : s_data s !! p = Some d ->
  Phi tt (on_queue (set_data (<[p:=f d]> (s_data s))) s) -> wp (update_timer p f) s Phi.
Proof.
  intros Hd HP. apply wp_bind. eapply wp_load_timer; [done|]. by apply wp_modify_queue.
Qed.

Lemma wp_heap_at i e s (Phi : heap_entry -> S -> Prop) :
  s_heap s !! i = Some e -> Phi e s -> wp (heap_at i) s Phi.
Proof. unfold s_heap. intros Hi HP. apply wp_bind, wp_get_queue. rewrite Hi. by apply wp_ret. Qed.

Lemma wp_heap_set i e s (Phi : unit -> S -> Prop) : (i < length (s_heap s))%nat ->
  Phi tt (on_queue (set_heap (<[i:=e]> (s_heap s))) s) -> wp (heap_set i e) s Phi.
Proof.
  intros [x Hx]%lookup_lt_is_Some_2 HP. apply wp_bind. eapply wp_heap_at; [done|]. by apply wp_modify_queue.
Qed.

Lemma wp_heap_size s (Phi : nat -> S -> Prop) : Phi (length (s_heap s)) s -> wp heap_size s Phi.
Proof. intros HP. by apply wp_bind, wp_get_queue, wp_ret. Qed.

(** The entries have moved in the heap, and the timers know. *)
Record reheaped s s' : Prop := {
  rh_world : tworld s' = tworld s;
  rh_timers : timers_ (queue s') = timers_ (queue s);
  rh_heap : s_heap s' ≡ₚ s_heap s;
  rh_indexed : indexed (s_heap s') (s_data s');
  rh_data : same_timers (timer_ <$> s_heap s) (s_data s) (s_data s');
}.

Lemma reheaped_refl s : indexed (s_heap s) (s_data s) -> reheaped s s.
Proof. intros Hi. by split. Qed.

Lemma reheaped_trans s1 s2 s3 : reheaped s1 s2 -> reheaped s2 s3 -> reheaped s1 s3.
Proof.
  intros [W1 T1 P1 I1 D1] [W2 T2 P2 I2 D2]. split; [congruence|congruence|by rewrite P2|done|].
  eapply same_timers_trans; [|done|done]. by rewrite P1.
Qed.

Lemma wp_swap i j s : (i < length (s_heap s))%nat -> (j < length (s_heap s))%nat -> indexed (s_heap s) (s_data s) ->
  wp (swap_heap i j) s (fun _ s' => reheaped s s' /\ s_heap s' = swap i j (s_heap s)).
Proof.
  intros Hi Hj Hidx. pose proof (swap_permutation i j (s_heap s) Hi Hj) as Hperm.
  apply lookup_lt_is_Some_2 in Hi as Ha, Hj as Hb. destruct Ha as [a Ha], Hb as [b Hb].
  destruct (Hidx i a Ha) as (da & Hda & Eda), (Hidx j b Hb) as (db & Hdb & Edb).
  unfold swap_heap. apply wp_bind. eapply wp_heap_at; [done|]. apply wp_bind. eapply wp_heap_at; [done|].
  apply wp_bind, wp_heap_set; [done|]. apply wp_bind, wp_heap_set; [by unfold s_heap; simpl; rewrite length_insert|].
  set (s1 := on_queue _ (on_queue _ s)).
  assert (s_heap s1 = swap i j (s_heap s)) as E1 by (unfold swap; by rewrite Ha, Hb).
  pose proof (fun k => swap_lookup i j (s_heap s) a b k Ha Hb) as Hsw. rewrite <- E1 in Hsw.
  assert (exists x dx, s_heap s1 !! i = Some x /\ s_data s1 !! timer_ x = Some dx /\ (i = j /\ x = a \/ i <> j /\ x = b))
    as (x & dx & Hx & Hdx & Ex).
  { rewrite Hsw. destruct (decide (i = j)) as [<-|Hne]; [by exists a, da; split_and!; [| |left]|].
    rewrite decide_True by done. exists b, db. by split_and!; [| |right]. }
  assert (s_heap s1 !! j = Some a) as Hy by (by rewrite Hsw, decide_True).
  apply wp_bind. eapply wp_heap_at; [done|]. apply wp_bind. eapply wp_update_timer; [done|].
  apply wp_bind. eapply wp_heap_at; [exact Hy|].
  assert (exists dy, <[timer_ x:=set_index (Z.of_nat i) dx]> (s_data s1) !! timer_ a = Some dy /\
    set_index (Z.of_nat j) dy = set_index (Z.of_nat j) da) as (dy & Hdy & Edy).
  { destruct (decide (timer_ x = timer_ a)) as [E|E].
    - rewrite E, lookup_insert_eq. eexists. split; [done|]. rewrite E in Hdx.
      by assert (dx = da) as -> by (change (s_data s !! timer_ a = Some dx) in Hdx; congruence).
    - rewrite lookup_insert_ne by done. exists da. done. }
  eapply wp_update_timer; [exact Hdy|]. rewrite Edy. split; [|exact E1].
  assert (timer_ x ∈ timer_ <$> s_heap s) as Hxin.
  { destruct Ex as [[_ ->]|[_ ->]]; by eapply indexed_timer. }
  assert (timer_ a ∈ timer_ <$> s_heap s) as Hain by by eapply indexed_timer.
  split; [done|done|change (s_heap s1 ≡ₚ s_heap s); by rewrite E1| |].
  - change (indexed (s_heap s1) (<[timer_ a:=set_index (Z.of_nat j) da]> (<[timer_ x:=set_index (Z.of_nat i) dx]> (s_data s)))).
    intros k e He. pose proof He as He'. rewrite Hsw in He.
    destruct (decide (k = j)) as [->|Hkj].
    { injection He as <-. rewrite lookup_insert_eq. eexists. by split. }
    destruct (decide (k = i)) as [->|Hki].
    { injection He as <-. assert (x = b) as -> by congruence.
      rewrite lookup_insert_ne, lookup_insert_eq; [eexists; by split|].
      intros E. destruct Ex as [[]|[Hij _]]; [congruence|]. apply Hij. by eapply (indexed_inj (s_heap s)). }
    destruct (Hidx k e He) as (d & Hd & Ed). exists d. split; [|done].
    rewrite !lookup_insert_ne; [done| |]; intros E.
    + destruct Ex as [[_ ->]|[_ ->]]; [apply Hki|apply Hkj]; by eapply (indexed_inj (s_heap s)).
    + apply Hki. by eapply (indexed_inj (s_heap s)).
  - eapply same_timers_trans; [done|by eapply (same_timers_index _ (timer_ x) (Z.of_nat i) dx)|].
    rewrite <- Edy. by apply same_timers_index.
Qed.

(** *** Moving an entry to its place *)

Lemma up_inv_top h : up_inv h 0 -> heap_ordered h.
Proof. intros [Ho _] k Hk. apply Ho; lia. Qed.

Lemma up_inv_done h i : up_inv h i -> ordered_at h i -> heap_ordered h.
Proof. intros [Ho _] Hi k Hk. destruct (decide (k = i)) as [->|]; [done|by apply Ho]. Qed.

Lemma down_inv_done h i : down_inv h i ->
  (forall k, (0 < k)%nat -> parent k = i -> ordered_at h k) -> heap_ordered h.
Proof. intros [Ho _] Hi k Hk. destruct (decide (parent k = i)); [by apply Hi|by apply Ho]. Qed.

(** The entries are those there were, in order. *)
Definition sifted s s' : Prop := reheaped s s' /\ heap_ordered (s_heap s').

Lemma sifted_trans s1 s2 s3 : reheaped s1 s2 -> sifted s2 s3 -> sifted s1 s3.
Proof. intros H1 [H2 Ho]. split; [by eapply reheaped_trans|done]. Qed.

Lemma wp_up_heap fuel : forall i s, (i < fuel)%nat -> (i < length (s_heap s))%nat ->
  indexed (s_heap s) (s_data s) -> up_inv (s_heap s) i -> wp (up_heap fuel i) s (fun _ s' => sifted s s').
Proof.
  induction fuel as [|fuel IH]; intros i s Hf Hi Hidx Hup; [lia|]. cbn [up_heap].
  destruct (Nat.ltb_spec 0 i) as [H0|H0].
  2: { assert (i = 0)%nat as -> by lia. apply wp_ret. split; [by apply reheaped_refl|by apply up_inv_top]. }
  pose proof (parent_lt i H0) as Hp.
  destruct (lookup_lt_is_Some_2 (s_heap s) i Hi) as [a Ha].
  destruct (lookup_lt_is_Some_2 (s_heap s) (parent i) ltac:(lia)) as [b Hb].
  apply wp_bind. eapply wp_heap_at; [done|]. apply wp_bind. eapply wp_heap_at; [done|].
  unfold less_than. zcase (time_ a <? time_ b); simpl.
  - apply wp_bind. eapply wp_mono; [apply (wp_swap i (parent i)); [done|lia|done]|]. intros ? s1 [Hr Eh].
    eapply wp_mono; [apply IH|].
    + lia.
    + rewrite Eh, swap_length. lia.
    + apply Hr.
    + rewrite Eh. by eapply up_step.
    + intros ? s2. by apply sifted_trans.
  - apply wp_ret. split; [by apply reheaped_refl|]. eapply up_inv_done; [done|].
    intros x y Hx Hy. assert (x = b) as -> by congruence. assert (y = a) as -> by congruence. done.
Qed.

(** The earlier of the children. *)
Lemma wp_min_child i s : (2 * i + 1 < length (s_heap s))%nat ->
  wp (min_child_of (i * 2 + 1) (length (s_heap s))) s (fun m s' => s' = s /\
    (0 < m)%nat /\ parent m = i /\ exists b, s_heap s !! m = Some b /\
    forall k c, (0 < k)%nat -> parent k = i -> s_heap s !! k = Some c -> time_ b <= time_ c).
Proof.
  intros Hi. unfold min_child_of.
  destruct (lookup_lt_is_Some_2 (s_heap s) (i * 2 + 1) ltac:(lia)) as [a Ha].
  assert (forall j, parent (i * 2 + 1 + j) = i <-> (j <= 1)%nat) as Hpar.
  { intros j. rewrite parent_spec by lia. lia. }
  destruct (Nat.eqb_spec (i * 2 + 1 + 1) (length (s_heap s))) as [E|E].
  - apply wp_ret. split_and!; [done|lia|apply parent_spec; lia|]. exists a. split; [done|].
    intros k c Hk Hpk Hc. apply lookup_lt_Some in Hc as Hlt. apply (parent_spec k i Hk) in Hpk.
    assert (k = i * 2 + 1)%nat as -> by lia. assert (c = a) as -> by congruence. lia.
  - destruct (lookup_lt_is_Some_2 (s_heap s) (i * 2 + 1 + 1) ltac:(lia)) as [b Hb].
    apply wp_bind. eapply wp_heap_at; [done|]. apply wp_bind. eapply wp_heap_at; [done|]. apply wp_ret.
    assert (forall k c, (0 < k)%nat -> parent k = i -> s_heap s !! k = Some c -> c = a \/ c = b) as Hc.
    { intros k c Hk Hpk Hc. apply (parent_spec k i Hk) in Hpk as [->| ->].
      - left. replace (i * 2 + 1)%nat with (2 * i + 1)%nat in Ha by lia. congruence.
      - right. replace (i * 2 + 1 + 1)%nat with (2 * i + 2)%nat in Hb by lia. congruence. }
    split; [done|]. unfold less_than. zcase (time_ a <? time_ b).
    + split_and!; [lia|apply parent_spec; lia|]. exists a. split; [done|].
      intros k c Hk Hpk Hck. destruct (Hc k c Hk Hpk Hck) as [->| ->]; lia.
    + split_and!; [lia|apply parent_spec; lia|]. exists b. split; [done|].
      intros k c Hk Hpk Hck. destruct (Hc k c Hk Hpk Hck) as [->| ->]; lia.
Qed.

Lemma wp_down_heap fuel : forall i s, (length (s_heap s) < i + fuel)%nat -> (i < length (s_heap s))%nat ->
  indexed (s_heap s) (s_data s) -> down_inv (s_heap s) i -> wp (down_heap fuel i) s (fun _ s' => sifted s s').
Proof.
  induction fuel as [|fuel IH]; intros i s Hf Hi Hidx Hdn; [lia|]. cbn [down_heap].
  apply wp_bind, wp_heap_size. destruct (Nat.ltb_spec (i * 2 + 1) (length (s_heap s))) as [Hc|Hc].
  2: { apply wp_ret. split; [by apply reheaped_refl|]. eapply down_inv_done; [done|].
    intros k Hk Hpk x y _ Hy%lookup_lt_Some. apply (parent_spec k i Hk) in Hpk. lia. }
  apply wp_bind. eapply wp_mono; [apply wp_min_child; lia|]. intros m ? (-> & Hm & Hpm & b & Hb & Hmin).
  destruct (lookup_lt_is_Some_2 (s_heap s) i Hi) as [a Ha].
  apply wp_bind. eapply wp_heap_at; [done|]. apply wp_bind. eapply wp_heap_at; [done|].
  unfold less_than. zcase (time_ a <? time_ b).
  - apply wp_ret. split; [by apply reheaped_refl|]. eapply down_inv_done; [done|].
    intros k Hk Hpk x y Hx Hy. rewrite Hpk in Hx. assert (x = a) as -> by congruence.
    pose proof (Hmin k y Hk Hpk Hy). lia.
  - pose proof (parent_lt m Hm). apply lookup_lt_Some in Hb as Hml.
    apply wp_bind. eapply wp_mono; [apply (wp_swap i m); done|]. intros ? s1 [Hr Eh].
    eapply wp_mono; [apply IH|].
    + rewrite Eh, swap_length. lia.
    + rewrite Eh, swap_length. lia.
    + apply Hr.
    + rewrite Eh. by eapply down_step.
    + intros ? s2. by apply sifted_trans.
Qed.

Lemma wp_up_from i s : (i < length (s_heap s))%nat -> indexed (s_heap s) (s_data s) -> up_inv (s_heap s) i ->
  wp (up_from i) s (fun _ s' => sifted s s').
Proof. intros. apply wp_up_heap; [lia|done..]. Qed.

Lemma wp_down_from i s : (i < length (s_heap s))%nat -> indexed (s_heap s) (s_data s) -> down_inv (s_heap s) i ->
  wp (down_from i) s (fun _ s' => sifted s s').
Proof. intros. apply wp_bind, wp_heap_size. apply wp_down_heap; [lia|done..]. Qed.

(** *** Removing an entry *)

(** In order but for the entry at [i], which may be out of place. *)
Definition hole_inv (h : list heap_entry) (i : nat) : Prop :=
  (forall k, (0 < k)%nat -> k <> i -> parent k <> i -> ordered_at h k) /\ grand_ordered h i.

Lemma hole_up h i a b : hole_inv h i -> h !! i = Some a -> h !! parent i = Some b -> time_ a < time_ b ->
  (0 < i)%nat -> up_inv h i.
Proof.
  intros [Ho Hg] Ha Hb Hab Hi. split; [|done]. intros k Hk Hki.
  destruct (decide (parent k = i)) as [E|E]; [|by apply Ho]. intros x y Hx Hy.
  rewrite E in Hx. assert (x = a) as -> by congruence. pose proof (Hg k b y Hi Hk E Hb Hy). lia.
Qed.

Lemma hole_down h i : hole_inv h i -> ((0 < i)%nat -> ordered_at h i) -> down_inv h i.
Proof.
  intros [Ho Hg] Hi. split; [|done]. intros k Hk Hpk. destruct (decide (k = i)) as [->|]; [by apply Hi|by apply Ho].
Qed.

Lemma removelast_lookup {A} (l : list A) k : (k < length l - 1)%nat -> removelast l !! k = l !! k.
Proof. intros Hk. rewrite removelast_firstn_len, lookup_take_lt by lia. done. Qed.

Lemma removelast_length {A} (l : list A) : length (removelast l) = (length l - 1)%nat.
Proof. rewrite removelast_firstn_len, length_take. lia. Qed.

Lemma hole_after_swap h i : heap_ordered h -> (i < length h - 1)%nat ->
  hole_inv (removelast (swap i (length h - 1) h)) i.
Proof.
  intros Ho Hi. destruct (lookup_lt_is_Some_2 h i ltac:(lia)) as [a Ha].
  destruct (lookup_lt_is_Some_2 h (length h - 1) ltac:(lia)) as [b Hb].
  assert (forall k e, removelast (swap i (length h - 1) h) !! k = Some e -> k <> i -> h !! k = Some e) as Hlk.
  { intros k e He Hk. apply lookup_lt_Some in He as Hlt. rewrite removelast_length, swap_length in Hlt.
    rewrite removelast_lookup in He by (by rewrite swap_length).
    rewrite (swap_lookup _ _ _ a b _ Ha Hb), decide_False, decide_False in He by (done || lia). done. }
  split.
  - intros k Hk Hki Hpk x y Hx Hy. by apply (Ho k Hk); apply Hlk.
  - intros k x y H0 Hk Hpk Hx Hy. pose proof (parent_lt i H0). pose proof (parent_lt k Hk).
    apply Hlk in Hx; [|lia]. apply Hlk in Hy; [|lia].
    pose proof (Ho i H0 x a Hx Ha). specialize (Ho k Hk a y). rewrite Hpk in Ho. specialize (Ho Ha Hy). lia.
Qed.

Lemma removelast_snoc {A} (l : list A) x : last l = Some x -> l = removelast l ++ [x].
Proof.
  intros Hl. apply last_Some in Hl as [l' ->]. by rewrite removelast_last.
Qed.

Lemma last_at {A} (l : list A) : last l = l !! (length l - 1)%nat.
Proof. rewrite last_lookup. f_equal. lia. Qed.

(** The last entry, of [p], goes. *)
(** [s'] is [s] without its last entry, that of [p]. *)
Definition last_popped p e d s s' : Prop :=
  s_heap s = s_heap s' ++ [e] /\ indexed (s_heap s') (s_data s') /\ (p ∉ timer_ <$> s_heap s') /\
  s_heap s' = removelast (s_heap s) /\ s_data s' = <[p:=set_index no_index d]> (s_data s) /\
  tworld s' = tworld s /\ timers_ (queue s') = timers_ (queue s).

Lemma wp_pop_timer p e d s :
  indexed (s_heap s) (s_data s) -> last (s_heap s) = Some e -> timer_ e = p -> s_data s !! p = Some d ->
  wp (update_timer p (set_index no_index);; pop_back) s (fun _ s' => last_popped p e d s s').
Proof.
  intros Hidx Hl <- Hd. apply wp_bind. eapply wp_update_timer; [done|]. apply wp_modify_queue.
  set (s' := on_queue _ _). set (h' := removelast (s_heap s)).
  split; [by apply removelast_snoc|]. rewrite last_at in Hl.
  assert (forall i x, h' !! i = Some x -> s_heap s !! i = Some x /\ timer_ x <> timer_ e) as Hother.
  { intros i x Hx. apply lookup_lt_Some in Hx as Hlt. subst h'. rewrite removelast_length in Hlt.
    rewrite removelast_lookup in Hx by done. split; [done|]. intros E.
    pose proof (indexed_inj _ _ _ _ _ _ Hidx Hx Hl E). lia. }
  split_and!; [| |done..].
  - intros i x Hx. destruct (Hother i x Hx) as [Hx' Hne]. unfold s_data. simpl.
    rewrite lookup_insert_ne by done. by apply Hidx.
  - intros (x & E & [i Hx]%list_elem_of_lookup)%list_elem_of_fmap. destruct (Hother i x Hx) as [_ Hne]. done.
Qed.

(** Entry [e], of timer [p], has left the heap. *)
Record removed p e d s s' : Prop := {
  rm_world : tworld s' = tworld s;
  rm_timers : timers_ (queue s') = timers_ (queue s);
  rm_heap : s_heap s ≡ₚ e :: s_heap s';
  rm_indexed : indexed (s_heap s') (s_data s');
  rm_ordered : heap_ordered (s_heap s');
  rm_data : same_timers (timer_ <$> s_heap s) (s_data s) (s_data s');
  rm_timer : s_data s' !! p = Some (set_index no_index d);
}.

Lemma heap_ordered_removelast h : heap_ordered h -> heap_ordered (removelast h).
Proof.
  intros Ho k Hk a b Ha Hb. apply lookup_lt_Some in Hb as Hlt. rewrite removelast_length in Hlt.
  pose proof (parent_lt k Hk). rewrite removelast_lookup in Ha, Hb by lia. by apply (Ho k Hk).
Qed.

Lemma last_popped_removed p e d s s' : heap_ordered (s_heap s) -> p ∈ timer_ <$> s_heap s ->
  s_data s !! p = Some d -> last_popped p e d s s' -> removed p e d s s'.
Proof.
  intros Ho Hp Hd (Eh & Hidx' & Hn & Er & ED & EW & ET).
  split; [done|done|by rewrite Eh, Permutation_app_comm|done| | |].
  - rewrite Er. by apply heap_ordered_removelast.
  - rewrite ED. by apply same_timers_index.
  - by rewrite ED, lookup_insert_eq.
Qed.

Lemma swapped_removed p e d d1 s s1 s2 s3 : p ∈ timer_ <$> s_heap s -> s_data s1 !! p = Some d1 ->
  set_index no_index d1 = set_index no_index d ->
  reheaped s s1 -> last_popped p e d1 s1 s2 -> sifted s2 s3 -> removed p e d s s3.
Proof.
  intros Hp Hd1 Ed1 [W1 T1 P1 I1 D1] (Eh & Hidx2 & Hn & Er & ED & EW & ET) [[W3 T3 P3 I3 D3] O3].
  assert (forall q, q ∈ timer_ <$> s_heap s <-> q ∈ timer_ <$> s_heap s1) as Hin by (intros q; by rewrite P1).
  split; [congruence|congruence| |done|done| |].
  - rewrite <- P1, Eh, Permutation_app_comm. simpl. by rewrite P3.
  - eapply (same_timers_trans _ (timer_ <$> s_heap s1) _ (s_data s1)); [by rewrite P1|exact D1|].
    eapply (same_timers_trans _ (timer_ <$> s_heap s1) _ (s_data s2)); [done| |].
    + rewrite ED. by apply same_timers_index; [apply Hin|].
    + intros q. destruct (D3 q) as [F G]. split; [done|]. intros Hq. apply G.
      intros Hq2. apply Hq. rewrite Eh, fmap_app, elem_of_app. by left.
  - destruct (D3 p) as [_ G]. by rewrite (G Hn), ED, lookup_insert_eq, Ed1.
Qed.

Lemma wp_resift i s : (i < length (s_heap s))%nat -> indexed (s_heap s) (s_data s) -> hole_inv (s_heap s) i ->
  wp (up ← (if (0 <? i)%nat then
              a ← heap_at i; b ← heap_at (parent i); mret (less_than (time_ a) (time_ b))
            else mret false);
      if up : bool then up_from i else down_from i) s (fun _ s' => sifted s s').
Proof.
  intros Hi Hidx Hh. apply wp_bind. destruct (Nat.ltb_spec 0 i) as [H0|H0].
  - pose proof (parent_lt i H0). destruct (lookup_lt_is_Some_2 (s_heap s) i Hi) as [a Ha].
    destruct (lookup_lt_is_Some_2 (s_heap s) (parent i) ltac:(lia)) as [b Hb].
    apply wp_bind. eapply wp_heap_at; [done|]. apply wp_bind. eapply wp_heap_at; [done|]. apply wp_ret.
    unfold less_than. zcase (time_ a <? time_ b).
    + apply wp_up_from; [done..|]. by eapply hole_up.
    + apply wp_down_from; [done..|]. apply hole_down; [done|]. intros _ x y Hx Hy.
      assert (x = b) as -> by congruence. assert (y = a) as -> by congruence. done.
  - apply wp_ret, wp_down_from; [done..|]. apply hole_down; [done|lia].
Qed.

Lemma wp_remove_from_heap p i e d s : indexed (s_heap s) (s_data s) -> heap_ordered (s_heap s) ->
  s_heap s !! i = Some e -> timer_ e = p -> s_data s !! p = Some d ->
  wp (remove_from_heap p) s (fun _ s' => removed p e d s s').
Proof.
  intros Hidx Ho He Ep Hd. apply lookup_lt_Some in He as Hi.
  destruct (Hidx i e He) as (d' & Hd' & Ed). rewrite Ep in Hd'. assert (d' = d) as -> by congruence.
  assert (p ∈ timer_ <$> s_heap s) as Hpin by (subst p; by eapply indexed_timer).
  unfold remove_from_heap. apply wp_bind. eapply wp_load_timer; [done|]. apply wp_bind, wp_heap_size.
  rewrite Ed. destruct (Nat.eqb_spec (length (s_heap s)) 0); [lia|].
  rewrite (proj2 (Z.ltb_lt _ _)) by lia. simpl. rewrite Nat2Z.id.
  destruct (Nat.eqb_spec i (length (s_heap s) - 1)) as [E|E].
  - eapply wp_mono; [eapply (wp_pop_timer p e d); [done|by rewrite last_at, <- E|done..]|].
    intros ? s'. by apply last_popped_removed.
  - apply wp_bind. eapply wp_mono; [apply wp_swap; [done|lia|done]|]. intros ? s1 [Hr E1].
    assert (exists d1, s_data s1 !! p = Some d1 /\ set_index no_index d1 = set_index no_index d) as (d1 & Hd1 & Ed1).
    { destruct (rh_data _ _ Hr p) as [Ep1 _]. rewrite Hd in Ep1. destruct (s_data s1 !! p) as [d1|]; [|done].
      exists d1. split; [done|]. injection Ep1 as E2. by destruct d1, d; simplify_eq/=. }
    assert (last (s_heap s1) = Some e) as Hl.
    { destruct (lookup_lt_is_Some_2 (s_heap s) (length (s_heap s) - 1) ltac:(lia)) as [b Hb].
      rewrite last_at, E1, swap_length, (swap_lookup _ _ _ e b) by done. by rewrite decide_True. }
    apply wp_assoc, wp_bind. eapply wp_mono; [eapply (wp_pop_timer p e d1); [apply Hr|done..]|].
    intros ? s2 Hpop. pose proof Hpop as (_ & Hidx2 & _ & Er & _).
    eapply wp_mono; [apply wp_resift; [|done|]|].
    + rewrite Er, removelast_length, E1, swap_length. lia.
    + rewrite Er, E1. apply hole_after_swap; [done|lia].
    + intros ? s3. by eapply swapped_removed.
Qed.
End heap.
