(* ===== verification/TimerList.v ===== *)
(** * The list of active timers

    The doubly linked list that timer_queue keeps of its active timers:
    inserting at the front, taking a timer out, and putting another in its
    place. *)

From S2P Require Import Prelude LinkedList SocketOps OpQueue EpollReactor TimerQueue TimerHeap.

(** The two pointers of a timer, next and previous. *)
Definition links (D : gmap timer_ptr per_timer_data) (p : timer_ptr) : option (timer_ptr * timer_ptr) :=
  (fun d => (t_next_ d, t_prev_ d)) <$> D !! p.

Abbreviation tseg D := (dseg (links D)).
Abbreviation dlist D := (dll (links D)).

(** ** The operations on the list *)

(** The timers of [D'] are those of [D] up to their links, which are the same
    outside of [l]. *)
Definition relinked (l : list timer_ptr) (D D' : gmap timer_ptr per_timer_data) : Prop := forall p,
  (set_links 0 0 <$> D' !! p) = (set_links 0 0 <$> D !! p) /\ (p ∉ l -> D' !! p = D !! p).

Lemma relinked_refl l D : relinked l D D.
Proof. done. Qed.

Lemma relinked_trans l D1 D2 D3 : relinked l D1 D2 -> relinked l D2 D3 -> relinked l D1 D3.
Proof.
  intros H12 H23 p. destruct (H12 p) as [E1 F1], (H23 p) as [E2 F2]. split; [congruence|].
  intros Hn. by rewrite F2, F1.
Qed.

Lemma relinked_alter l D p f : (p = 0 \/ p ∈ l) -> D !! 0 = None ->
  (forall d, set_links 0 0 (f d) = set_links 0 0 d) -> relinked l D (alter f p D).
Proof.
  intros Hp H0 Hf q. destruct (decide (p = q)) as [<-|Hne]; [|by rewrite lookup_alter_ne].
  rewrite lookup_alter_eq. destruct (D !! p) as [d|] eqn:Ed; simpl; [|done]. split; [by rewrite Hf|].
  destruct Hp as [->|Hp]; [congruence|done].
Qed.

Lemma links_alter (g : timer_ptr * timer_ptr -> timer_ptr * timer_ptr) f p D q :
  (forall d, (t_next_ (f d), t_prev_ (f d)) = g (t_next_ d, t_prev_ d)) ->
  links (alter f p D) q = if decide (p = q) then g <$> links D q else links D q.
Proof.
  intros Hg. unfold links. case_decide as E; [|by rewrite lookup_alter_ne].
  subst. rewrite lookup_alter_eq. destruct (D !! q); simpl; [by rewrite Hg|done].
Qed.

Lemma links_Some D p x : links D p = Some x -> exists d, D !! p = Some d /\ x = (t_next_ d, t_prev_ d).
Proof. unfold links. intros (d & Hd & ->)%fmap_Some. eauto. Qed.

Lemma dlist_member_timer D a l x : dlist D a l -> x ∈ l -> is_Some (D !! x).
Proof. intros Hd Hx. destruct (dll_member _ _ _ _ Hd Hx) as [y (d & -> & _)%links_Some]. by eexists. Qed.

Lemma links_null D : D !! 0 = None -> links D 0 = None.
Proof. intros H0. unfold links. by rewrite H0. Qed.

Lemma dlist_nonnull D a l : D !! 0 = None -> dlist D a l -> 0 ∉ l.
Proof. intros H0 Hd Hin. destruct (dlist_member_timer _ _ _ _ Hd Hin). congruence. Qed.

Section list_ops.
Context {W : Type}.
Abbreviation S := (TimerState W).
Implicit Types (s : S).

Lemma wp_update_alter p f s (Phi : unit -> S -> Prop) : is_Some (s_data s !! p) ->
  Phi tt (on_queue (set_data (alter f p (s_data s))) s) -> wp (update_timer p f) s Phi.
Proof.
  intros [d Hd] HP. eapply wp_update_timer; [done|].
  replace (<[p:=f d]> (s_data s)) with (alter f p (s_data s)); [done|]. apply map_eq. intros q.
  destruct (decide (p = q)) as [<-|]; [by rewrite lookup_alter_eq, lookup_insert_eq, Hd|].
  by rewrite lookup_alter_ne, lookup_insert_ne.
Qed.

(** A timer is updated through a pointer that may be null. *)
Lemma wp_update_if p f s (Phi : unit -> S -> Prop) : s_data s !! 0 = None ->
  (p = 0 \/ is_Some (s_data s !! p)) -> Phi tt (on_queue (set_data (alter f p (s_data s))) s) ->
  wp (if negb (p =? 0) then update_timer p f else mret tt) s Phi.
Proof.
  intros H0 Hp HP. destruct (Z.eqb_spec p 0) as [->|Hne]; simpl.
  - apply wp_ret. revert HP. rewrite alter_id by (intros; congruence). by destruct s as [[]].
  - destruct Hp as [?|Hp]; [done|]. by apply wp_update_alter.
Qed.

Record list_changed (l l' : list timer_ptr) s s' : Prop := {
  lc_world : tworld s' = tworld s;
  lc_heap : s_heap s' = s_heap s;
  lc_data : relinked l (s_data s) (s_data s');
  lc_list : dlist (s_data s') (timers_ (queue s')) l';
}.

(** The pointers of the neighbours lead elsewhere, the timer's own are
    cleared. *)
Definition bypass (x y p pr nx : timer_ptr) (D : gmap timer_ptr per_timer_data) : gmap timer_ptr per_timer_data :=
  alter (set_links 0 0) p
    (alter (fun e => set_links (t_next_ e) y e) nx (alter (fun e => set_links x (t_prev_ e) e) pr D)).

Lemma links_bypass x y p pr nx D z :
  links (bypass x y p pr nx D) z = if decide (p = z) then (fun _ => (0, 0)) <$> links D z else
    (fun l => (if decide (pr = z) then x else l.1, if decide (nx = z) then y else l.2)) <$> links D z.
Proof.
  unfold bypass. rewrite (links_alter (fun _ => (0, 0))), (links_alter (fun l => (l.1, y))),
    (links_alter (fun l => (x, l.2))) by done.
  destruct (links D z) as [[]|]; repeat case_decide; done.
Qed.

Lemma relinked_bypass D l x y p pr nx : D !! 0 = None -> p ∈ l -> pr = 0 \/ pr ∈ l -> nx = 0 \/ nx ∈ l ->
  relinked l D (bypass x y p pr nx D).
Proof.
  intros H0 Hp Hpr Hnx. unfold bypass.
  eapply relinked_trans; [apply (relinked_alter _ _ pr (fun e => set_links x (t_prev_ e) e)); done|].
  eapply relinked_trans; [apply (relinked_alter _ _ nx (fun e => set_links (t_next_ e) y e)); [done| |done]|].
  { by apply lookup_alter_None. }
  apply relinked_alter; [by right|by rewrite !lookup_alter_None|done].
Qed.

(** The list around [p], when its neighbours point to [x] and [y]. *)
Lemma bypass_around D D' a l1 p l2 : D !! 0 = None -> dlist D a (l1 ++ p :: l2) ->
  let pr := default 0 (last l1) in let nx := default 0 (head l2) in
  forall x y, (forall z, z ∈ l1 ++ l2 -> links D' z = links (bypass x y p pr nx D) z) ->
  (forall z q, last l1 = Some z -> links D z = Some (p, q) -> links D' z = Some (x, q)) /\
  (forall z n, head l2 = Some z -> links D z = Some (n, p) -> links D' z = Some (n, y)) /\
  (forall z, z ∈ l1 -> last l1 <> Some z -> links D' z = links D z) /\
  (forall z, z ∈ l2 -> head l2 <> Some z -> links D' z = links D z).
Proof.
  intros H0 Hd pr nx x y HD'. destruct (around_distinct _ _ _ _ _ (links_null _ H0) Hd) as (Hp0 & Hpr & Hnx & F1 & F2 & Hnd & Hl1).
  split_and!.
  - intros z q Hz Ez. apply last_Some_elem_of in Hz as Hin. destruct (F1 z Hin) as (Z1 & Z2 & Z3).
    rewrite HD', links_bypass, decide_False by (done || set_solver). rewrite Ez. simpl.
    by rewrite decide_True, decide_False by (by apply Z3 || done).
  - intros z n Hz Ez. assert (z ∈ l2) as Hin by (destruct l2; [done|injection Hz as ->; by left]).
    destruct (F2 z Hin) as (Z1 & Z2 & Z3). rewrite HD', links_bypass, decide_False by (done || set_solver).
    rewrite Ez. simpl. by rewrite decide_False, decide_True by (by apply Z3 || done).
  - intros z Hin Hz. destruct (F1 z Hin) as (Z1 & Z2 & Z3).
    rewrite HD', links_bypass, decide_False by (done || set_solver).
    destruct (links D z) as [[]|]; [|done]. simpl. by rewrite !decide_False by (by (intros E; apply Z3 in E) || (intros E; by apply Z2)).
  - intros z Hin Hz. destruct (F2 z Hin) as (Z1 & Z2 & Z3).
    rewrite HD', links_bypass, decide_False by (done || set_solver).
    destruct (links D z) as [[]|]; [|done]. simpl. by rewrite !decide_False by (by (intros E; apply Z3 in E) || (intros E; by apply Z2)).
Qed.

(** The assignment to [timers_]. *)
Lemma wp_set_head p nx s (Phi : unit -> S -> Prop) :
  Phi tt (on_queue (set_timers (if timers_ (queue s) =? p then nx else timers_ (queue s))) s) ->
  wp (if timers_ (queue s) =? p then modify_queue (set_timers nx) else mret tt) s Phi.
Proof.
  intros HP. destruct (timers_ (queue s) =? p); [by apply wp_modify_queue|].
  apply wp_ret. revert HP. by destruct s as [[]].
Qed.

Lemma head_after D a l1 p l2 x : D !! 0 = None -> dlist D a (l1 ++ p :: l2) ->
  (if a =? p then x else a) = match l1 with [] => x | _ => a end.
Proof.
  intros H0 Hd. destruct (around_distinct _ _ _ _ _ (links_null _ H0) Hd) as (_ & _ & _ & _ & _ & _ & Hl1).
  destruct (Z.eqb_spec a p) as [E|E]; [by rewrite (proj2 Hl1 E)|]. destruct l1; [by destruct E; apply Hl1|done].
Qed.

Lemma around_members D a l1 p l2 : dlist D a (l1 ++ p :: l2) ->
  let pr := default 0 (last l1) in let nx := default 0 (head l2) in
  (pr = 0 \/ pr ∈ l1 ++ p :: l2) /\ (nx = 0 \/ nx ∈ l1 ++ p :: l2) /\
  (pr = 0 \/ is_Some (D !! pr)) /\ (nx = 0 \/ is_Some (D !! nx)).
Proof.
  intros Hd pr nx. assert (pr = 0 \/ pr ∈ l1 ++ p :: l2) as Mpr.
  { destruct (default_last_in l1); [by left|right; set_solver]. }
  assert (nx = 0 \/ nx ∈ l1 ++ p :: l2) as Mnx by (destruct (default_head_in l2); [by left|right; set_solver]).
  split_and!; [done|done|destruct Mpr; [by left|right]|destruct Mnx; [by left|right]]; by eapply dlist_member_timer.
Qed.

Lemma wp_unlink_active l1 p l2 s : s_data s !! 0 = None -> dlist (s_data s) (timers_ (queue s)) (l1 ++ p :: l2) ->
  wp (unlink_active p) s (fun _ s' => list_changed (l1 ++ p :: l2) (l1 ++ l2) s s' /\ links (s_data s') p = Some (0, 0)).
Proof.
  intros H0 Hd. destruct (around_distinct _ _ _ _ _ (links_null _ H0) Hd) as (Hp0 & _ & _ & _ & _ & Hnd & _).
  pose proof (dlist_member_timer _ _ _ p Hd) as [d Hp]; [set_solver|].
  pose proof (dll_around _ _ _ _ _ Hd) as (_ & Hlp & _).
  destruct (around_members _ _ _ _ _ Hd) as (Mpr & Mnx & Spr & Snx).
  pose proof Hlp as (d' & Hp' & [= En Epr])%links_Some. assert (d' = d) as -> by congruence.
  set (pr := default 0 (last l1)) in *. set (nx := default 0 (head l2)) in *.
  unfold unlink_active. apply wp_bind, wp_get_queue. apply wp_bind. eapply wp_load_timer; [done|].
  rewrite <- En, <- Epr. apply wp_bind, wp_set_head.
  apply wp_bind, wp_update_if; [done|done|].
  apply wp_bind, wp_update_if; [by apply lookup_alter_None|unfold s_data; simpl; by rewrite lookup_alter_is_Some|].
  apply wp_update_alter; [unfold s_data; simpl; rewrite !lookup_alter_is_Some; by eexists|].
  set (s' := on_queue _ _). assert (s_data s' = bypass nx pr p pr nx (s_data s)) as ED by done.
  split; [split; [done|done| |]|].
  - rewrite ED. apply relinked_bypass; [done|set_solver|done|done].
  - assert (timers_ (queue s') = match l1 with [] => nx | _ => timers_ (queue s) end) as ->.
    { by eapply head_after. }
    rewrite ED. eapply (dll_replace (links (s_data s)) _ _ l1 p l2 []); [done|done|].
    destruct (bypass_around _ (bypass nx pr p pr nx (s_data s)) _ _ _ _ H0 Hd nx pr) as (B1 & B2 & B3 & B4); [done|].
    by split_and!.
  - rewrite ED, links_bypass, decide_True by done. by rewrite Hlp.
Qed.

Lemma wp_insert_active p l s : s_data s !! 0 = None -> dlist (s_data s) (timers_ (queue s)) l -> p ∉ l ->
  is_Some (s_data s !! p) -> wp (insert_active p) s (fun _ s' => list_changed (p :: l) (p :: l) s s').
Proof.
  intros H0 Hd Hp [d Hdp]. pose proof (dlist_nonnull _ _ _ H0 Hd) as Hnn.
  assert (p <> 0) as Hp0 by (intros ->; congruence).
  pose proof (dseg_first _ _ _ _ _ (proj1 Hd)) as Ea. set (a := timers_ (queue s)) in *.
  assert (a = 0 \/ a ∈ l) as Ma by (rewrite Ea; apply default_head_in).
  assert (a <> p) as Hap by (destruct Ma; congruence).
  unfold insert_active. apply wp_bind, wp_get_queue. apply wp_bind. eapply wp_load_timer; [done|].
  fold a. apply wp_bind, wp_update_alter; [by eexists|]. apply wp_bind, wp_update_if.
  { by apply lookup_alter_None. }
  { unfold s_data. simpl. rewrite lookup_alter_is_Some. destruct Ma; [by left|right]. by eapply dlist_member_timer. }
  apply wp_modify_queue. set (s' := on_queue _ _).
  set (D' := alter (fun e => set_links (t_next_ e) p e) a (alter (set_links a 0) p (s_data s))).
  assert (s_data s' = D') as ED by done.
  assert (forall z, links D' z = if decide (a = z) then (fun l => (l.1, p)) <$> links (s_data s) z
            else if decide (p = z) then Some (a, 0) else links (s_data s) z) as Hlk.
  { intros z. subst D'. rewrite (links_alter (fun l => (l.1, p))), (links_alter (fun _ => (a, 0))) by done.
    destruct (decide (a = z)); [by rewrite decide_False by congruence|].
    case_decide; [|done]. subst. unfold links. by rewrite Hdp. }
  split; [done|done| |].
  - rewrite ED. subst D'. eapply relinked_trans; [apply (relinked_alter _ _ p (set_links a 0)); [right; by left|done..]|].
    apply relinked_alter; [|by apply lookup_alter_None|done]. destruct Ma; [by left|right; by right].
  - rewrite ED. change (timers_ (queue s')) with p. apply (dll_cons (links (s_data s)) (links D') a l p Hd Hp).
    + by rewrite Hlk, decide_False, decide_True.
    + intros x Hx. destruct l as [|y l]; [done|]. injection Hx as ->. simpl in Ea. subst a.
      destruct Hd as [Hd _]. simpl in Hd. destruct Hd as (_ & n & Hn & _). exists n. split; [done|].
      rewrite Hlk, decide_True by (by symmetry). rewrite Hn. done.
    + intros x Hx Hne. rewrite Hlk, !decide_False; [done| |]; intros E; [by subst x|].
      destruct Ma as [M|M]; [congruence|]. destruct l as [|y l]; [set_solver|]. simpl in Ea. apply Hne. simpl. congruence.
Qed.

(** Timer [t] takes the place of [p], whose links it is given. *)
Lemma wp_replace_active l1 p l2 t s (Phi : unit -> S -> Prop) : s_data s !! 0 = None ->
  dlist (s_data s) (timers_ (queue s)) (l1 ++ p :: l2) -> t ∉ l1 ++ p :: l2 -> is_Some (s_data s !! t) ->
  let pr := default 0 (last l1) in let nx := default 0 (head l2) in
  (forall s', list_changed (t :: l1 ++ p :: l2) (l1 ++ t :: l2) s s' -> links (s_data s') p = Some (0, 0) -> Phi tt s') ->
  wp (q ← get_queue;
      (if timers_ q =? p then modify_queue (set_timers t) else mret tt);;
      (if negb (pr =? 0) then update_timer pr (fun e => set_links t (t_prev_ e) e) else mret tt);;
      (if negb (nx =? 0) then update_timer nx (fun e => set_links (t_next_ e) t e) else mret tt);;
      update_timer t (set_links nx pr);;
      update_timer p (set_links 0 0)) s Phi.
Proof.
  intros H0 Hd Ht [dt Hdt] pr nx HP. destruct (around_distinct _ _ _ _ _ (links_null _ H0) Hd) as (Hp0 & Hprp & Hnxp & _ & _ & Hnd & _).
  pose proof (dlist_member_timer _ _ _ p Hd) as [d Hp]; [set_solver|].
  pose proof (dll_around _ _ _ _ _ Hd) as (_ & Hlp & _).
  destruct (around_members _ _ _ _ _ Hd) as (Mpr & Mnx & Spr & Snx). fold pr in Mpr, Spr, Hprp, Hlp. fold nx in Mnx, Snx, Hnxp, Hlp.
  assert (t <> 0) as Ht0 by (intros ->; congruence).
  assert (t <> p /\ t <> pr /\ t <> nx) as (Tp & Tpr & Tnx).
  { split_and!; [set_solver| |]; intros E; [destruct Mpr|destruct Mnx]; congruence. }
  apply wp_bind, wp_get_queue. apply wp_bind, wp_set_head.
  apply wp_bind, wp_update_if; [done|done|].
  apply wp_bind, wp_update_if; [by apply lookup_alter_None|unfold s_data; simpl; by rewrite lookup_alter_is_Some|].
  apply wp_bind, wp_update_alter; [unfold s_data; simpl; rewrite !lookup_alter_is_Some; by eexists|].
  apply wp_update_alter; [unfold s_data; simpl; rewrite !lookup_alter_is_Some; by eexists|].
  set (s' := on_queue _ _). set (B := bypass t t p pr nx (s_data s)).
  assert (s_data s' = alter (set_links nx pr) t B) as ED.
  { subst B. unfold bypass. by rewrite alter_alter_ne by done. }
  assert (forall z, links (s_data s') z = if decide (t = z) then Some (nx, pr) else links B z) as Hlk.
  { intros z. rewrite ED, (links_alter (fun _ => (nx, pr))) by done. case_decide; [|done]. subst z. subst B.
    rewrite links_bypass, decide_False by done. unfold links. by rewrite Hdt. }
  apply HP; [split; [done|done| |]|].
  - rewrite ED. eapply relinked_trans; [apply (relinked_bypass (s_data s) _ t t p pr nx); [done|set_solver| |]|].
    { destruct Mpr; [by left|right; by right]. }
    { destruct Mnx; [by left|right; by right]. }
    apply relinked_alter; [right; by left| |done]. subst B. unfold bypass. by rewrite !lookup_alter_None.
  - assert (timers_ (queue s') = match l1 with [] => t | _ => timers_ (queue s) end) as -> by by eapply head_after.
    eapply (dll_replace (links (s_data s)) _ _ l1 p l2 [t]); [done| |].
    { simpl. rewrite <- Permutation_middle. constructor; [set_solver|done]. }
    destruct (bypass_around _ (s_data s') _ _ _ _ H0 Hd t t) as (B1 & B2 & B3 & B4).
    { intros z Hz. rewrite Hlk, decide_False; [done|]. set_solver. }
    split_and!; [done|done|done|done|]. by rewrite Hlk, decide_True.
  - rewrite Hlk, decide_False by done. subst B. rewrite links_bypass, decide_True by done. by rewrite Hlp.
Qed.
End list_ops.
