(* ===== verification/TimerQueueRefines.v ===== *)
(** * The timer queue is a map of timers

    timer_queue implements a finite map that gives each active timer its time
    and the operations that wait on it: for each operation, what it does to
    the map.  TimerQueueTheorems.v puts them together. *)

From S2P Require Import Prelude LinkedList SocketOps OpQueue EpollReactor ReactorRules TimerQueue TimerHeap TimerList.

(** ** The map *)

Abbreviation timers_map := (gmap timer_ptr (time_type * list op_ptr)).

Definition entries (A : timers_map) : list heap_entry := (fun x => mkEntry x.2.1 x.1) <$> map_to_list A.

Lemma entries_delete A p t ops : A !! p = Some (t, ops) ->
  entries A ≡ₚ mkEntry t p :: entries (delete p A).
Proof. intros Hp. unfold entries. by rewrite <- (map_to_list_delete A p (t, ops)). Qed.

Lemma entries_insert A p t ops : A !! p = None -> entries (<[p:=(t, ops)]> A) ≡ₚ mkEntry t p :: entries A.
Proof. intros Hp. unfold entries. by rewrite map_to_list_insert. Qed.

Lemma entries_update A p t ops ops' : A !! p = Some (t, ops) -> entries (<[p:=(t, ops')]> A) ≡ₚ entries A.
Proof.
  intros Hp. rewrite (entries_delete A p t ops Hp), (entries_delete _ p t ops') by apply lookup_insert_eq.
  by rewrite delete_insert_eq.
Qed.

Lemma elem_of_entries A e : e ∈ entries A <-> exists ops, A !! timer_ e = Some (time_ e, ops).
Proof.
  unfold entries. rewrite list_elem_of_fmap. split.
  - intros ([p [t ops]] & -> & Hin%elem_of_map_to_list). by exists ops.
  - intros [ops Hp]. exists (timer_ e, (time_ e, ops)). split; [by destruct e|]. by apply elem_of_map_to_list.
Qed.

(** The queue [q] stands for the map [A]. *)
Record rep (q : TimerQueue) (A : timers_map) : Prop := {
  rp_indexed : indexed (heap_ q) (timer_data q);
  rp_ordered : heap_ordered (heap_ q);
  rp_entries : heap_ q ≡ₚ entries A;
  rp_list : exists l, dlist (timer_data q) (timers_ q) l /\ forall p, p ∈ l <-> is_Some (A !! p);
  rp_active p t ops : A !! p = Some (t, ops) -> t_ops <$> timer_data q !! p = Some ops;
  rp_inactive p d : A !! p = None -> timer_data q !! p = Some d -> d = per_timer_data_new;
  rp_null : timer_data q !! 0 = None;
}.

(** ... and every active timer has operations waiting. *)
Definition represents (q : TimerQueue) (A : timers_map) : Prop :=
  rep q A /\ map_Forall (fun _ x => x.2 <> []) A.

(** ** What the changes of a timer keep *)

Lemma same_timers_ops ps D D' p : same_timers ps D D' -> t_ops <$> D' !! p = t_ops <$> D !! p.
Proof.
  intros Hs. destruct (Hs p) as [E _]. destruct (D' !! p) as [[]|], (D !! p) as [[]|]; by simplify_eq/=.
Qed.

Lemma same_timers_links ps D D' p : same_timers ps D D' -> links D' p = links D p.
Proof.
  intros Hs. destruct (Hs p) as [E _]. unfold links.
  destruct (D' !! p) as [[]|], (D !! p) as [[]|]; by simplify_eq/=.
Qed.

Lemma relinked_ops l D D' p : relinked l D D' -> t_ops <$> D' !! p = t_ops <$> D !! p.
Proof.
  intros Hs. destruct (Hs p) as [E _]. destruct (D' !! p) as [[]|], (D !! p) as [[]|]; by simplify_eq/=.
Qed.

Lemma relinked_index l D D' p : relinked l D D' -> heap_index_ <$> D' !! p = heap_index_ <$> D !! p.
Proof.
  intros Hs. destruct (Hs p) as [E _]. destruct (D' !! p) as [[]|], (D !! p) as [[]|]; by simplify_eq/=.
Qed.

Lemma same_timers_None ps D D' p : same_timers ps D D' -> D !! p = None -> D' !! p = None.
Proof. intros Hs Hp. destruct (Hs p) as [E _]. rewrite Hp in E. by destruct (D' !! p). Qed.

Lemma relinked_None l D D' p : relinked l D D' -> D !! p = None -> D' !! p = None.
Proof. intros Hs Hp. destruct (Hs p) as [E _]. rewrite Hp in E. by destruct (D' !! p). Qed.

Lemma indexed_relinked l h D D' : relinked l D D' -> indexed h D -> indexed h D'.
Proof.
  intros Hs Hi i e He. destruct (Hi i e He) as (d & Hd & Ed). pose proof (relinked_index _ _ _ (timer_ e) Hs) as E.
  rewrite Hd in E. destruct (D' !! timer_ e) as [d'|]; [|done]. injection E as E. exists d'. split; [done|congruence].
Qed.

Lemma dlist_links D D' a l : (forall p, links D' p = links D p) -> dlist D a l -> dlist D' a l.
Proof. intros Hl [Hd Hn]. split; [|done]. eapply dseg_same; [|exact Hd]. intros. apply Hl. Qed.

(** The root is the earliest entry. *)
Lemma root_earliest h r : heap_ordered h -> h !! 0%nat = Some r -> forall k e, h !! k = Some e -> time_ r <= time_ e.
Proof.
  intros Ho Hr k. induction k as [k IH] using lt_wf_ind. intros e He.
  destruct (decide (k = 0)%nat) as [->|Hk]; [assert (e = r) as -> by congruence; lia|].
  pose proof (parent_lt k ltac:(lia)) as Hp. apply lookup_lt_Some in He as Hlt.
  destruct (lookup_lt_is_Some_2 h (parent k) ltac:(lia)) as [a Ha].
  pose proof (IH _ Hp a Ha). pose proof (Ho k ltac:(lia) a e Ha He). lia.
Qed.

Section refines.
Context {W : Type} `{ReactorWorld W} `{Clock W}.
Abbreviation S := (TimerState W).
Implicit Types (s : S) (A : timers_map) (p : timer_ptr) (o : op_ptr).

Lemma rep_entry s A p t ops : rep (queue s) A -> A !! p = Some (t, ops) ->
  exists i, s_heap s !! i = Some (mkEntry t p).
Proof.
  intros Hr Hp. apply list_elem_of_lookup. unfold s_heap. rewrite (rp_entries _ _ Hr).
  apply elem_of_entries. by exists ops.
Qed.

Lemma rep_data s A p t ops : rep (queue s) A -> A !! p = Some (t, ops) ->
  exists d, s_data s !! p = Some d /\ t_ops d = ops.
Proof. intros Hr Hp. apply (rp_active _ _ Hr) in Hp. apply fmap_Some in Hp as (d & Hd & ->). by exists d. Qed.

Lemma rep_active_iff s A p d : rep (queue s) A -> s_data s !! p = Some d ->
  negb (t_prev_ d =? 0) || (timers_ (queue s) =? p) = bool_decide (is_Some (A !! p)).
Proof.
  intros Hr Hd. destruct (rp_list _ _ Hr) as (l & Hl & Hin). pose proof (rp_null _ _ Hr) as H0'.
  case_bool_decide as HA.
  - apply Hin, list_elem_of_split in HA as (l1 & l2 & ->).
    destruct (around_distinct _ _ _ _ _ (links_null _ H0') Hl) as (_ & _ & _ & F1 & _ & _ & Hl1).
    destruct (dll_around _ _ _ _ _ Hl) as (_ & Hlp & _). apply links_Some in Hlp as (d' & Hd' & [= _ Epr]).
    assert (d' = d) as -> by (unfold s_data in Hd; congruence).
    destruct (decide (l1 = [])) as [E|E].
    + apply Hl1 in E. rewrite E, Z.eqb_refl. apply orb_true_r.
    + destruct (last l1) as [y|] eqn:Ey; [|by apply last_None in Ey]. simpl in Epr. apply last_Some_elem_of in Ey as Hy.
      assert (y <> 0); [|by rewrite <- Epr; apply Z.eqb_neq in H1 as ->].
      intros ->. eapply dlist_nonnull; [exact H0'|exact Hl|set_solver].
  - assert (A !! p = None) as HAn by by apply eq_None_not_Some.
    rewrite (rp_inactive _ _ Hr p d HAn Hd). simpl. apply Z.eqb_neq. intros E.
    pose proof (dseg_first _ _ _ _ _ (proj1 Hl)) as Ea. rewrite E in Ea.
    destruct (default_head_in l) as [E'|Hp']; [|apply HA, Hin; congruence].
    rewrite E' in Ea. subst p. unfold s_data in Hd. congruence.
Qed.

(** *** Setting the operations of a timer *)

Lemma rep_set_ops s A p t ops ops' : rep (queue s) A -> A !! p = Some (t, ops) ->
  rep (queue (on_queue (set_data (alter (set_ops ops') p (s_data s))) s)) (<[p:=(t, ops')]> A).
Proof.
  intros Hr Hp. destruct Hr as [Ri Ro Re (l & Hl & Hin) Ra Rn R0]. unfold s_data. split; simpl.
  - intros i e He. destruct (Ri i e He) as (d & Hd & Ed). destruct (decide (p = timer_ e)) as [->|Hne].
    + exists (set_ops ops' d). rewrite lookup_alter_eq, Hd. done.
    + exists d. by rewrite lookup_alter_ne.
  - done.
  - by rewrite (entries_update _ _ _ _ _ Hp).
  - exists l. split.
    + eapply dlist_links; [|exact Hl]. intros q. rewrite (links_alter id) by done.
      case_decide; [by destruct (links _ q)|done].
    + intros q. rewrite Hin. destruct (decide (p = q)) as [<-|]; [|by rewrite lookup_insert_ne].
      rewrite lookup_insert_eq, Hp. split; intros _; by eexists.
  - intros q t' ops'' Hq. destruct (decide (p = q)) as [<-|Hne].
    + rewrite lookup_insert_eq in Hq. injection Hq as <- <-. rewrite lookup_alter_eq.
      apply Ra in Hp. by destruct (timer_data (queue s) !! p).
    + rewrite lookup_insert_ne in Hq by done. rewrite lookup_alter_ne by done. by eapply Ra.
  - intros q d Hq. destruct (decide (p = q)) as [<-|Hne]; [by rewrite lookup_insert_eq in Hq|].
    rewrite lookup_insert_ne in Hq by done. rewrite lookup_alter_ne by done. by apply Rn.
  - by apply lookup_alter_None.
Qed.

Lemma wp_set_ops p t ops ops' A s (Phi : unit -> S -> Prop) : rep (queue s) A -> A !! p = Some (t, ops) ->
  (forall s', rep (queue s') (<[p:=(t, ops')]> A) -> tworld s' = tworld s -> s_heap s' = s_heap s -> Phi tt s') ->
  wp (update_timer p (set_ops ops')) s Phi.
Proof.
  intros Hr Hp HP. apply wp_update_alter; [destruct (rep_data _ _ _ _ _ Hr Hp) as (d & -> & _); by eexists|].
  apply HP; [by eapply rep_set_ops|done|done].
Qed.

(** *** Removing a timer *)

Lemma wp_remove_timer p t A s : rep (queue s) A -> A !! p = Some (t, []) ->
  wp (remove_timer p) s (fun _ s' => rep (queue s') (delete p A) /\ tworld s' = tworld s).
Proof.
  intros Hr Hp. destruct (rep_entry _ _ _ _ _ Hr Hp) as [i Hi]. destruct (rep_data _ _ _ _ _ Hr Hp) as (d & Hd & Eops).
  destruct Hr as [Ri Ro Re (l & Hl & Hin) Ra Rn R0].
  assert (p ∈ l) as (l1 & l2 & ->)%list_elem_of_split by (apply Hin; by eexists).
  apply wp_bind. eapply wp_mono; [by eapply (wp_remove_from_heap p)|]. intros ? s1 [W1 T1 P1 I1 O1 D1 Hp1].
  assert (s_data s1 !! 0 = None) as H01 by by eapply same_timers_None.
  assert (dlist (s_data s1) (timers_ (queue s1)) (l1 ++ p :: l2)) as Hl1.
  { rewrite T1. eapply dlist_links; [|exact Hl]. intros q. by eapply same_timers_links. }
  pose proof (dlist_nonnull _ _ _ H01 Hl1) as Hnn.
  pose proof (proj2 Hl1) as Hnd. eapply wp_mono; [by apply wp_unlink_active|].
  intros ? s2 [[W2 P2 D2 L2] Hlp]. split; [|congruence].
  assert (forall q, q ∈ l1 ++ l2 <-> q ∈ l1 ++ p :: l2 /\ q <> p) as Hq.
  { intros q. rewrite <- Permutation_middle, NoDup_cons in Hnd. rewrite !elem_of_app, elem_of_cons in *.
    split; [|naive_solver]. intros Hq. split; [tauto|]. intros ->. tauto. }
  unfold s_heap, s_data in *. split.
  - rewrite P2. by eapply indexed_relinked.
  - by rewrite P2.
  - rewrite P2. rewrite Re, (entries_delete _ _ _ _ Hp) in P1. by apply Permutation_cons_inv in P1.
  - exists (l1 ++ l2). split; [done|]. intros q. rewrite Hq, Hin, lookup_delete_is_Some. naive_solver.
  - intros q t' ops [Hqp Hq']%lookup_delete_Some.
    rewrite (relinked_ops _ _ _ _ D2), (same_timers_ops _ _ _ _ D1). by eapply Ra.
  - intros q d2 Hq2 Hd2. destruct (decide (q = p)) as [->|Hqp].
    + apply links_Some in Hlp as (d2' & Hd2' & [= En Epr]). assert (d2' = d2) as -> by congruence.
      destruct (D2 p) as [E _]. rewrite Hd2, Hp1 in E. destruct d2, d. by simplify_eq/=.
    + rewrite lookup_delete_ne in Hq2 by done.
      assert (q ∉ l1 ++ p :: l2) as Hql by (rewrite Hin; by intros [? ?]; simplify_eq).
      destruct (D2 q) as [_ F2]. destruct (D1 q) as [_ F1]. apply (Rn q d2 Hq2).
      rewrite <- F1, <- F2; [done|done|]. intros (e & -> & He)%list_elem_of_fmap.
      rewrite Re in He. apply elem_of_entries in He as [? He]. congruence.
  - by eapply relinked_None.
Qed.

(** *** Inserting a timer *)

Lemma up_inv_snoc h e : heap_ordered h -> up_inv (h ++ [e]) (length h).
Proof.
  intros Ho. split.
  - intros k Hk Hne a b Ha Hb. pose proof (parent_lt k Hk). apply lookup_lt_Some in Hb as Hlt.
    rewrite length_app in Hlt. simpl in Hlt. rewrite lookup_app_l in Ha, Hb by lia. by apply (Ho k Hk).
  - intros k a b H0' Hk Hpk Ha Hb. apply lookup_lt_Some in Hb. rewrite length_app in Hb. simpl in Hb.
    pose proof (parent_lt k Hk). lia.
Qed.

(** The part of [enqueue_timer] for a timer that is not active. *)
Definition start_timer (time : time_type) p : prog S unit :=
  n ← heap_size;
  update_timer p (set_index (Z.of_nat n));;
  modify_queue (fun q => set_heap (heap_ q ++ [mkEntry time p]) q);;
  up_from n;;
  insert_active p.

Lemma wp_start_timer time p A s : rep (queue s) A -> A !! p = None -> is_Some (s_data s !! p) ->
  wp (start_timer time p) s (fun _ s' => rep (queue s') (<[p:=(time, [])]> A) /\ tworld s' = tworld s).
Proof.
  intros [Ri Ro Re (l & Hl & Hin) Ra Rn R0] Hp [d Hd]. pose proof (Rn p d Hp Hd) as ->.
  unfold start_timer. apply wp_bind, wp_heap_size. set (n := length (s_heap s)).
  apply wp_bind. eapply wp_update_timer; [done|]. apply wp_bind, wp_modify_queue. set (s1 := on_queue _ _).
  set (D1 := <[p:=set_index (Z.of_nat n) per_timer_data_new]> (s_data s)). set (h1 := s_heap s ++ [mkEntry time p]).
  assert (forall e, e ∈ s_heap s -> timer_ e <> p) as Hnew.
  { intros e He E. unfold s_heap in He. rewrite Re in He. apply elem_of_entries in He as [? He]. congruence. }
  assert (indexed h1 D1) as I1.
  { intros i e He. subst h1 D1. apply lookup_app_Some in He as [He|[Hn He]].
    - pose proof (Hnew e ltac:(by eapply list_elem_of_lookup_2)). rewrite lookup_insert_ne by done. by apply Ri.
    - apply list_lookup_singleton_Some in He as [Ei <-]. simpl. rewrite lookup_insert_eq. eexists. split; [done|].
      simpl. fold n in Hn, Ei. lia. }
  assert (same_timers [p] (s_data s) D1) as Hs1 by (apply same_timers_index; [by left|done]).
  apply wp_bind. eapply wp_mono; [apply (wp_up_from n s1)|].
  { change (n < length h1)%nat. subst h1. rewrite length_app. simpl. lia. }
  { done. }
  { by apply up_inv_snoc. }
  intros ? s2 [[W2 T2 P2 I2 D2] O2]. change (s_heap s2 ≡ₚ h1) in P2. change (s_data s1) with D1 in D2.
  assert (forall q, links (s_data s2) q = links (s_data s) q) as Hlk.
  { intros q. rewrite (same_timers_links _ _ _ _ D2). by eapply same_timers_links. }
  assert (dlist (s_data s2) (timers_ (queue s2)) l) as Hl2 by (rewrite T2; by eapply dlist_links).
  eapply wp_mono; [apply (wp_insert_active p l)|].
  { eapply same_timers_None; [exact D2|]. by eapply same_timers_None. }
  { done. }
  { rewrite Hin, Hp. by intros [? ?]. }
  { eapply (same_timers_ops _ _ _ p) in D2. subst D1. rewrite lookup_insert_eq in D2.
    destruct (s_data s2 !! p); [by eexists|done]. }
  intros ? s3 [W3 P3 D3 L3]. split; [|rewrite W3, W2; done]. unfold s_heap, s_data in *.
  assert (forall q, t_ops <$> timer_data (queue s3) !! q = t_ops <$> timer_data (queue s) !! q) as Hops.
  { intros q. by rewrite (relinked_ops _ _ _ _ D3), (same_timers_ops _ _ _ _ D2), (same_timers_ops _ _ _ _ Hs1). }
  split.
  - rewrite P3. by eapply indexed_relinked.
  - by rewrite P3.
  - rewrite P3, P2. subst h1. rewrite Permutation_app_comm, (entries_insert _ _ _ _ Hp). simpl. by rewrite Re.
  - exists (p :: l). split; [done|]. intros q. rewrite elem_of_cons, Hin, lookup_insert_is_Some'.
    split; (intros [E|E]; [by left|by right]).
  - intros q t ops. rewrite Hops. intros [[<- [= <- <-]]|[Hne Hq]]%lookup_insert_Some; [by rewrite Hd|by eapply Ra].
  - intros q d3 [Hq Hne]%lookup_insert_None Hd3. apply (Rn q d3 Hq).
    destruct (D3 q) as [_ F3]. rewrite F3 in Hd3 by (rewrite elem_of_cons, Hin, Hq; intros [?|[? ?]]; congruence).
    destruct (D2 q) as [_ F2]. rewrite F2 in Hd3; [subst D1; by rewrite lookup_insert_ne in Hd3|].
    change (q ∉ timer_ <$> (heap_ (queue s) ++ [mkEntry time p])). rewrite fmap_app, elem_of_app. intros [(e & -> & He)%list_elem_of_fmap|Hq1]; [|set_solver].
    rewrite Re in He. apply elem_of_entries in He as [? He]. congruence.
  - eapply relinked_None; [done|]. eapply same_timers_None; [exact D2|]. by eapply same_timers_None.
Qed.

(** *** The operations *)

Lemma wp_is_active p d A s (Phi : bool -> S -> Prop) : rep (queue s) A -> s_data s !! p = Some d ->
  Phi (bool_decide (is_Some (A !! p))) s -> wp (is_active p) s Phi.
Proof.
  intros Hr Hd HP. apply wp_bind. eapply wp_load_timer; [done|]. apply wp_bind, wp_get_queue, wp_ret.
  by rewrite (rep_active_iff s A).
Qed.

(** A timer that starts is due first, or another is not due later. *)
Definition due_first (time : time_type) A : Prop := forall q t ops, A !! q = Some (t, ops) -> time <= t.
Definition due_before (time : time_type) A : Prop := exists q t ops, A !! q = Some (t, ops) /\ t <= time.

Lemma wp_enqueue_timer time p o A s : represents (queue s) A -> is_Some (s_data s !! p) ->
  (forall t ops, A !! p = Some (t, ops) -> o ∉ ops) ->
  wp (enqueue_timer time p o) s (fun earliest s' => tworld s' = tworld s /\
    match A !! p with
    | Some (t, ops) => represents (queue s') (<[p:=(t, ops ++ [o])]> A) /\ earliest = false
    | None => represents (queue s') (<[p:=(time, [o])]> A) /\
        if earliest then due_first time A else due_before time A
    end).
Proof.
  intros [Hr Hne] [d Hd] Ho. unfold enqueue_timer. apply wp_bind. eapply wp_is_active; [done..|].
  apply wp_bind. destruct (A !! p) as [[t ops]|] eqn:Hp.
  - rewrite bool_decide_eq_true_2 by by eexists. apply wp_ret.
    destruct (rep_data _ _ _ _ _ Hr Hp) as (d' & Hd' & Eops). assert (d' = d) as -> by congruence.
    apply wp_bind. eapply wp_load_timer; [done|]. apply wp_bind. rewrite Eops.
    eapply wp_set_ops; [done..|]. intros s1 Hr1 W1 _.
    destruct (rep_data s1 _ p _ _ Hr1 (lookup_insert_eq _ _ _)) as (d1 & Hd1 & Eops1).
    apply wp_bind. eapply wp_load_timer; [done|]. apply wp_ret. split; [done|]. split; [split; [done|]|].
    + apply map_Forall_insert_2; [by destruct ops|done].
    + rewrite Eops1. pose proof (Hne p _ Hp) as Hne'. simpl in Hne'. destruct ops as [|o' ops]; [done|]. simpl.
      rewrite bool_decide_eq_false_2; [apply andb_false_r|]. intros [= ->]. eapply Ho; [done|by left].
  - rewrite bool_decide_eq_false_2 by (by intros [? ?]). simpl.
    eapply wp_mono; [apply (wp_start_timer time p A); [done|done|by eexists]|]. intros ? s1 [Hr1 W1].
    destruct (rep_data s1 _ p _ _ Hr1 (lookup_insert_eq _ _ _)) as (d1 & Hd1 & Eops1).
    apply wp_bind. eapply wp_load_timer; [done|]. apply wp_bind. rewrite Eops1.
    eapply wp_set_ops; [exact Hr1|apply lookup_insert_eq|]. intros s2 Hr2 W2 _. rewrite insert_insert_eq in Hr2.
    destruct (rep_data s2 _ p _ _ Hr2 (lookup_insert_eq _ _ _)) as (d2 & Hd2 & Eops2).
    apply wp_bind. eapply wp_load_timer; [done|]. apply wp_ret. split; [congruence|].
    split; [split; [done|by apply map_Forall_insert_2]|]. rewrite Eops2. simpl.
    rewrite bool_decide_eq_true_2, andb_true_r by done.
    destruct (rep_entry s2 _ p _ _ Hr2 (lookup_insert_eq _ _ _)) as [i Hi].
    destruct (rp_indexed _ _ Hr2 i _ Hi) as (d' & Hd' & Ei). simpl in Hd'.
    assert (d' = d2) as -> by (unfold s_data in Hd2; congruence). rewrite Ei.
    destruct (lookup_lt_is_Some_2 (s_heap s2) 0) as [r Hroot]; [apply lookup_lt_Some in Hi; lia|].
    assert (r ∈ entries (<[p:=(time, [o])]> A)) as Hrin.
    { rewrite <- (rp_entries _ _ Hr2). by eapply list_elem_of_lookup_2. }
    destruct (Z.eqb_spec (Z.of_nat i) 0) as [E|E].
    + assert (i = 0)%nat as -> by lia. intros q t ops Hq.
      assert (q <> p) as Hqp by (intros ->; congruence).
      destruct (rep_entry s2 _ q t ops Hr2) as [k Hk]; [by rewrite lookup_insert_ne|].
      apply (root_earliest _ _ (rp_ordered _ _ Hr2) Hi k _ Hk).
    + apply elem_of_entries in Hrin as [ops [[Ep _]|[Hqp Hq]]%lookup_insert_Some].
      * destruct E. pose proof (indexed_inj _ _ _ _ _ _ (rp_indexed _ _ Hr2) Hi Hroot Ep). lia.
      * exists (timer_ r), (time_ r), ops. split; [done|].
        apply (root_earliest _ _ (rp_ordered _ _ Hr2) Hroot i _ Hi).
Qed.

(** The error set for a list of operations. *)
Definition set_all (e : error_code) (ops : list op_ptr) (w : W) : W := foldl (fun w o => set_op_ec o e w) w ops.

Lemma wp_set_ecs e ops : forall s, wp (set_ecs e ops) s (fun _ s' =>
  queue s' = queue s /\ tworld s' = set_all e ops (tworld s)).
Proof.
  induction ops as [|o ops IH]; intros s; simpl; [by apply wp_ret|].
  apply wp_bind. apply wp_bind, wp_get, wp_put. eapply wp_mono; [apply IH|]. simpl. done.
Qed.

(** The map when [kept] is what stays of the operations of timer [p]. *)
Definition keep_timer p (t : time_type) (kept : list op_ptr) A : timers_map :=
  match kept with [] => delete p A | _ => <[p:=(t, kept)]> A end.

Lemma wp_take_ops {X} (e : error_code) p t ops taken kept A s (r : X) : represents (queue s) A -> A !! p = Some (t, ops) ->
  wp (set_ecs e taken;; update_timer p (set_ops kept);; remove_if_empty p;; mret r) s (fun r' s' =>
    r' = r /\ represents (queue s') (keep_timer p t kept A) /\ tworld s' = set_all e taken (tworld s)).
Proof.
  intros [Hr Hne] Hp. apply wp_bind. eapply wp_mono; [apply wp_set_ecs|]. intros ? s1 [Q1 W1].
  rewrite <- Q1 in Hr. apply wp_bind. eapply wp_set_ops; [done..|]. intros s2 Hr2 W2 _.
  destruct (rep_data s2 _ p _ _ Hr2 (lookup_insert_eq _ _ _)) as (d & Hd & Eops).
  apply wp_bind. unfold remove_if_empty. apply wp_bind. eapply wp_load_timer; [done|]. rewrite Eops.
  destruct kept as [|o kept]; simpl.
  - eapply wp_mono; [eapply wp_remove_timer; [done|apply lookup_insert_eq]|]. intros ? s3 [Hr3 W3].
    rewrite delete_insert_eq in Hr3. apply wp_ret. split_and!; [done|split; [done|]|congruence].
    by apply map_Forall_delete.
  - apply wp_ret, wp_ret. split_and!; [done|split; [done|]|congruence]. by apply map_Forall_insert_2.
Qed.

Lemma split_cancelled_ok ops : forall n max, 0 <= n <= max -> let '(c, k) := split_cancelled n max ops in
  ops = c ++ k /\ Z.of_nat (length c) = Z.min (max - n) (Z.of_nat (length ops)).
Proof.
  induction ops as [|o ops IH]; intros n max Hn; cbn [split_cancelled]; [split; [done|cbn; lia]|].
  destruct (Z.eqb_spec n max); [split; [done|cbn [length]; lia]|].
  specialize (IH (n + 1) max ltac:(lia)). destruct (split_cancelled (n + 1) max ops) as [c k].
  destruct IH as [-> E]. split; [done|]. cbn [length app]. lia.
Qed.

Lemma wp_cancel_timer p max A s : represents (queue s) A -> is_Some (s_data s !! p) ->
  wp (cancel_timer p max) s (fun cancelled s' =>
    match A !! p with
    | Some (t, ops) =>
        cancelled = (split_cancelled 0 max ops).1 /\
        represents (queue s') (keep_timer p t (split_cancelled 0 max ops).2 A) /\
        tworld s' = set_all operation_aborted cancelled (tworld s)
    | None => cancelled = [] /\ s' = s
    end).
Proof.
  intros Hr [d Hd]. unfold cancel_timer. apply wp_bind. eapply wp_is_active; [apply Hr|done|].
  destruct (A !! p) as [[t ops]|] eqn:Hp.
  - rewrite bool_decide_eq_true_2 by by eexists. destruct (rep_data _ _ _ _ _ (proj1 Hr) Hp) as (d' & Hd' & <-).
    assert (d' = d) as -> by congruence. apply wp_bind. eapply wp_load_timer; [done|].
    destruct (split_cancelled 0 max (t_ops d)) as [c k] eqn:E.
    eapply wp_mono; [by eapply wp_take_ops|]. by intros ? s' (-> & ? & ?).
  - rewrite bool_decide_eq_false_2 by (by intros [? ?]). by apply wp_ret.
Qed.

Lemma wp_cancel_timer_by_key p key A s : represents (queue s) A -> is_Some (s_data s !! p) ->
  wp (cancel_timer_by_key p key) s (fun cancelled s' =>
    match A !! p with
    | Some (t, ops) =>
        let has_key o := bool_decide (cancellation_key o (tworld s) = key) in
        cancelled = List.filter has_key ops /\
        represents (queue s') (keep_timer p t (List.filter (fun o => negb (has_key o)) ops) A) /\
        tworld s' = set_all operation_aborted cancelled (tworld s)
    | None => cancelled = [] /\ s' = s
    end).
Proof.
  intros Hr [d Hd]. unfold cancel_timer_by_key. apply wp_bind. eapply wp_is_active; [apply Hr|done|].
  destruct (A !! p) as [[t ops]|] eqn:Hp.
  - rewrite bool_decide_eq_true_2 by by eexists. destruct (rep_data _ _ _ _ _ (proj1 Hr) Hp) as (d' & Hd' & <-).
    assert (d' = d) as -> by congruence. apply wp_bind. eapply wp_load_timer; [done|]. apply wp_bind, wp_get.
    eapply wp_mono; [by eapply wp_take_ops|]. by intros ? s' (-> & ? & ?).
  - rewrite bool_decide_eq_false_2 by (by intros [? ?]). by apply wp_ret.
Qed.

(** *** The timers that are due *)

Definition due (now : time_type) A : timers_map := filter (fun x => x.2.1 <= now) A.
Definition not_due (now : time_type) A : timers_map := filter (fun x => now < x.2.1) A.

(** The timers [L] in the order of their times. *)
Definition by_time (L : list (timer_ptr * (time_type * list op_ptr))) : Prop :=
  StronglySorted (fun x y => x.2.1 <= y.2.1) L.

(** What the loop does: the operations [ops] it collects are those of the due
    timers, the earlier first; they will report success. *)
Definition readied (now : time_type) A (ops : list op_ptr) s s' : Prop := exists L,
  L ≡ₚ map_to_list (due now A) /\ by_time L /\ ops = (L ≫= fun x => x.2.2) /\
  represents (queue s') (not_due now A) /\ tworld s' = set_all no_error ops (tworld s).

Lemma set_all_app e ops ops' w : set_all e (ops ++ ops') w = set_all e ops' (set_all e ops w).
Proof. apply foldl_app. Qed.

Lemma none_due now A : map_Forall (fun _ x => now < x.1) A -> due now A = ∅ /\ not_due now A = A.
Proof.
  intros Hall. split.
  - apply map_empty_filter_2. intros q x Hq. specialize (Hall q x Hq). simpl in *. lia.
  - apply map_filter_id. intros q x Hq. by apply (Hall q x).
Qed.

Lemma readied_none now A s : represents (queue s) A -> map_Forall (fun _ x => now < x.1) A -> readied now A [] s s.
Proof.
  intros Hr Hall. destruct (none_due now A Hall) as [E1 E2]. exists []. unfold readied. rewrite E1, E2, map_to_list_empty.
  by split_and!; [|constructor| | |].
Qed.

Lemma readied_step now A p t ops ops' s s1 s' : A !! p = Some (t, ops) -> t <= now -> due_first t A ->
  tworld s1 = set_all no_error ops (tworld s) -> readied now (delete p A) ops' s1 s' ->
  readied now A (ops ++ ops') s s'.
Proof.
  intros Hp Ht Hfirst W1 (L & HL & Hs & -> & Hr & W2). exists ((p, (t, ops)) :: L). split_and!.
  - rewrite HL. unfold due. rewrite <- (map_to_list_delete (filter _ A) p (t, ops)), map_filter_delete; [done|].
    by apply map_lookup_filter_Some_2.
  - constructor; [done|]. apply Forall_forall. intros [q [t' ops']]. rewrite HL, elem_of_map_to_list.
    intros [Hq _]%map_lookup_filter_Some. apply lookup_delete_Some in Hq as [_ Hq]. simpl. by eapply Hfirst.
  - done.
  - unfold not_due in *. rewrite map_filter_delete_not in Hr; [done|]. intros x Hx. assert (x = (t, ops)) as -> by congruence.
    simpl. lia.
  - by rewrite set_all_app, W2, W1.
Qed.

Lemma wp_ready_loop now fuel : forall acc A s, (length (s_heap s) < fuel)%nat -> represents (queue s) A ->
  wp (ready_loop fuel now acc) s (fun ops s' => exists ops', ops = acc ++ ops' /\ readied now A ops' s s').
Proof.
  induction fuel as [|fuel IH]; intros acc A s Hf Hr; [lia|]. cbn [ready_loop]. apply wp_bind, wp_get_queue.
  pose proof Hr as [Hrep Hne].
  assert (forall q t ops, A !! q = Some (t, ops) -> exists k, s_heap s !! k = Some (mkEntry t q)) as Hent.
  { intros q t ops. by apply rep_entry. }
  destruct (heap_ (queue s)) as [|e h] eqn:Eh.
  - apply wp_ret. exists []. split; [by rewrite app_nil_r|]. apply readied_none; [done|].
    intros q [t ops] Hq. destruct (Hent q t ops Hq) as [k Hk]. unfold s_heap in Hk. by rewrite Eh in Hk.
  - assert (s_heap s !! 0%nat = Some e) as He by (unfold s_heap; by rewrite Eh).
    assert (due_first (time_ e) A) as Hfirst.
    { intros q t ops Hq. destruct (Hent q t ops Hq) as [k Hk].
      apply (root_earliest _ _ (rp_ordered _ _ Hrep) He k _ Hk). }
    unfold less_than. zcase (now <? time_ e).
    + apply wp_ret. exists []. split; [by rewrite app_nil_r|]. apply readied_none; [done|].
      intros q [t ops] Hq. specialize (Hfirst q t ops Hq). simpl. lia.
    + assert (e ∈ entries A) as Hin by (rewrite <- (rp_entries _ _ Hrep), Eh; by left).
      apply elem_of_entries in Hin as [ops Hp].
      destruct (rep_data _ _ _ _ _ Hrep Hp) as (d & Hd & Eops). apply wp_bind. eapply wp_load_timer; [done|].
      rewrite Eops. apply wp_bind. eapply wp_mono; [apply wp_set_ecs|]. intros ? s1 [Q1 W1].
      rewrite <- Q1 in Hrep. apply wp_bind. eapply wp_set_ops; [done..|]. intros s2 Hr2 W2 _.
      apply wp_bind. eapply wp_mono; [eapply wp_remove_timer; [done|apply lookup_insert_eq]|].
      intros ? s3 [Hr3 W3]. rewrite delete_insert_eq in Hr3.
      assert (length (s_heap s) = Datatypes.S (length (s_heap s3))) as Hlen.
      { rewrite <- Q1 in *. unfold s_heap. rewrite (rp_entries _ _ Hr3), <- Q1, (rp_entries _ _ Hrep).
        by rewrite (entries_delete _ _ _ _ Hp). }
      eapply wp_mono; [apply (IH _ (delete (timer_ e) A) s3)|].
      * lia.
      * split; [done|]. by apply map_Forall_delete.
      * intros r s' (ops' & -> & Hrd). exists (ops ++ ops'). split; [by rewrite app_assoc|].
        eapply readied_step; [done|done|done| |done]. congruence.
Qed.

Lemma wp_get_ready_timers A s : represents (queue s) A ->
  wp get_ready_timers s (fun ops s' => readied (clock_now (tworld s)) A ops s s').
Proof.
  intros Hr. unfold get_ready_timers. apply wp_bind, wp_get_queue. destruct (heap_ (queue s)) as [|e h] eqn:Eh.
  - apply wp_ret, readied_none; [done|]. intros q [t ops] Hq.
    destruct (rep_entry _ _ _ _ _ (proj1 Hr) Hq) as [k Hk]. unfold s_heap in Hk. by rewrite Eh in Hk.
  - apply wp_bind, wp_get. rewrite <- Eh. eapply wp_mono; [apply (wp_ready_loop _ _ [] A); [|done]|].
    + unfold s_heap. lia.
    + intros ops s' (ops' & -> & Hrd). done.
Qed.

(** *** All the timers *)

(** Timer [p] is as a timer that is not active, but for its index. *)
Definition idle (D : gmap timer_ptr per_timer_data) p : Prop :=
  exists d, D !! p = Some d /\ set_index no_index d = per_timer_data_new.

Lemma wp_all_loop fuel : forall acc l s, (length l < fuel)%nat -> s_data s !! 0 = None ->
  (exists prev, tseg (s_data s) prev (timers_ (queue s)) l 0) -> NoDup l ->
  wp (all_loop fuel acc) s (fun ops s' =>
    ops = acc ++ (l ≫= fun p => default [] (t_ops <$> s_data s !! p)) /\
    tworld s' = tworld s /\ timers_ (queue s') = 0 /\
    forall p, if decide (p ∈ l) then idle (s_data s') p else s_data s' !! p = s_data s !! p).
Proof.
  induction fuel as [|fuel IH]; intros acc l s Hf H0' [prev Hd] Hnd; [lia|]. cbn [all_loop].
  apply wp_bind, wp_get_queue. destruct l as [|p l]; simpl in Hd.
  { rewrite Hd, Z.eqb_refl. cbn [negb]. apply wp_ret. split_and!; [by rewrite app_nil_r|done|done|]. intros p.
    case_decide; [set_solver|done]. }
  destruct Hd as (Ep & n & Hlp & Hd). rewrite Ep. apply links_Some in Hlp as (d & Hdp & [= En _]).
  destruct (Z.eqb_spec p 0) as [->|Hp0]; [congruence|]. cbn [negb].
  apply NoDup_cons in Hnd as [Hpl Hnd]. apply wp_bind. eapply wp_load_timer; [done|].
  apply wp_bind, wp_modify_queue. apply wp_bind. eapply wp_update_timer; [done|].
  set (s1 := on_queue _ _). assert (s_data s1 = <[p:=set_links 0 0 (set_ops [] d)]> (s_data s)) as E1 by done.
  assert (forall q, q ∈ l -> s_data s1 !! q = s_data s !! q) as Hsame.
  { intros q Hq. rewrite E1, lookup_insert_ne; [done|]. by intros ->. }
  eapply wp_mono; [apply (IH _ l s1)|].
  - simpl in Hf. lia.
  - by rewrite E1, lookup_insert_ne.
  - exists p. change (timers_ (queue s1)) with (t_next_ d). rewrite <- En. eapply dseg_same; [|exact Hd].
    intros q Hq. unfold links. by rewrite Hsame.
  - done.
  - intros r s' (-> & W' & T' & Hs'). split_and!; [|done|done|].
    + cbn. rewrite Hdp. cbn. rewrite <- app_assoc. do 2 f_equal.
      apply Forall_bind_ext, Forall_forall. intros q Hq. by rewrite Hsame.
    + intros q. specialize (Hs' q). destruct (decide (q ∈ l)) as [Hq|Hq].
      * by rewrite decide_True by by right.
      * destruct (decide (p = q)) as [<-|Hpq].
        -- rewrite decide_True by by left. exists (set_links 0 0 (set_ops [] d)).
           rewrite Hs', E1, lookup_insert_eq. split; [done|by destruct d].
        -- rewrite decide_False by set_solver. by rewrite Hs', E1, lookup_insert_ne.
Qed.

(** The operations of a map of timers. *)
Definition all_ops A : list op_ptr := map_to_list A ≫= fun x => x.2.2.

Lemma active_ops q A l : rep q A -> NoDup l -> (forall p, p ∈ l <-> is_Some (A !! p)) ->
  (l ≫= fun p => default [] (t_ops <$> timer_data q !! p)) ≡ₚ all_ops A.
Proof.
  intros Hr Hnd Hin. unfold all_ops. assert (l ≡ₚ (map_to_list A).*1) as ->.
  { apply NoDup_Permutation; [done|apply NoDup_fst_map_to_list|]. intros p. rewrite Hin, list_elem_of_fmap.
    split; [intros [x Hx]; exists (p, x); split; [done|by apply elem_of_map_to_list]|].
    intros ([p' x] & -> & Hx%elem_of_map_to_list). by exists x. }
  rewrite list_fmap_bind. erewrite Forall_bind_ext; [reflexivity|]. apply Forall_forall.
  intros [p [t ops]] Hp%elem_of_map_to_list. simpl. by rewrite (rp_active _ _ Hr p t ops Hp).
Qed.

Lemma wp_get_all_timers A s : represents (queue s) A -> wp get_all_timers s (fun ops s' =>
  ops ≡ₚ all_ops A /\ tworld s' = tworld s /\ timers_ (queue s') = 0 /\ heap_ (queue s') = [] /\
  forall p, if decide (is_Some (A !! p)) then idle (s_data s') p else s_data s' !! p = s_data s !! p).
Proof.
  intros [Hr _]. destruct (rp_list _ _ Hr) as (l & [Hl Hnd] & Hin). unfold get_all_timers.
  apply wp_bind, wp_get_queue, wp_bind. eapply wp_mono; [apply (wp_all_loop _ [] l s)|].
  - assert (length l <= size (timer_data (queue s)))%nat; [|unfold s_data; lia].
    rewrite <- size_dom. transitivity (size (list_to_set l : gset Z)).
    { by rewrite size_list_to_set. }
    apply subseteq_size. intros p. rewrite elem_of_list_to_set, elem_of_dom. by eapply dlist_member_timer.
  - apply (rp_null _ _ Hr).
  - by exists 0.
  - done.
  - intros ops s' (-> & W' & T' & Hs'). apply wp_bind, wp_modify_queue, wp_ret. split_and!; [|done|done|done|].
    + simpl. by apply active_ops.
    + intros p. specialize (Hs' p). destruct (decide (is_Some (A !! p))) as [HA|HA].
      * by rewrite decide_True in Hs' by by apply Hin.
      * rewrite decide_False in Hs'; [done|]. by rewrite Hin.
Qed.

(** *** Moving a timer *)

Lemma wp_update_id p d f s (Phi : unit -> S -> Prop) : s_data s !! p = Some d -> f d = d -> Phi tt s ->
  wp (update_timer p f) s Phi.
Proof.
  intros Hd Hf HP. eapply wp_update_timer; [done|]. rewrite Hf, insert_id by done. by destruct s as [[]].
Qed.

Lemma insert_permutation (h : list heap_entry) i a b : h !! i = Some a ->
  exists h', h ≡ₚ a :: h' /\ <[i:=b]> h ≡ₚ b :: h'.
Proof.
  intros Ha. apply list_elem_of_split_length in Ha as (h1 & h2 & -> & ->). exists (h1 ++ h2).
  rewrite insert_app_r_alt, Nat.sub_diag by lia. simpl. split; by rewrite Permutation_middle.
Qed.

Lemma heap_ordered_insert h i a b : heap_ordered h -> h !! i = Some a -> time_ b = time_ a ->
  heap_ordered (<[i:=b]> h).
Proof.
  intros Ho Ha Eb. assert (forall k x, <[i:=b]> h !! k = Some x -> exists y, h !! k = Some y /\ time_ y = time_ x) as Hl.
  { intros k x [(-> & <- & _)|[Hne Hx]]%list_lookup_insert_Some; [by exists a|by exists x]. }
  intros k Hk x y (x' & Hx & <-)%Hl (y' & Hy & <-)%Hl. by apply (Ho k Hk).
Qed.

(** The map when timer [source] has been moved to [target]. *)
Definition moved (target source : timer_ptr) A : timers_map :=
  match A !! source with Some x => <[target:=x]> (delete source A) | None => A end.

(** The heap and the timers after the operations, the index and the heap entry
    of [source] are given to [target], before the list is changed. *)
Lemma handed_over target source t ops i ds A s : rep (queue s) A -> target <> source -> A !! target = None ->
  s_data s !! target = Some per_timer_data_new -> s_data s !! source = Some ds ->
  A !! source = Some (t, ops) -> s_heap s !! i = Some (mkEntry t source) -> heap_index_ ds = Z.of_nat i ->
  let D' := <[source:=set_index no_index (set_ops [] ds)]>
              (<[target:=set_index (heap_index_ ds) (set_ops ops per_timer_data_new)]> (s_data s)) in
  let h' := <[i:=mkEntry t target]> (s_heap s) in
  indexed h' D' /\ heap_ordered h' /\ h' ≡ₚ entries (<[target:=(t, ops)]> (delete source A)) /\
  (forall p, links D' p = links (s_data s) p).
Proof.
  intros Hr Hts HAt Hdt Hds HAs Hi Ei D' h'. destruct Hr as [Ri Ro Re _ _ _ _]. split_and!.
  - intros k e [(-> & <- & _)|[Hne Hk]]%list_lookup_insert_Some.
    + subst D'. rewrite lookup_insert_ne, lookup_insert_eq by done. eexists. by split.
    + destruct (Ri k e Hk) as (d & Hd & Ed). exists d. split; [|done]. subst D'. rewrite !lookup_insert_ne; [done| |].
      * intros E. assert (e ∈ heap_ (queue s)) as Hin by by eapply list_elem_of_lookup_2.
        rewrite Re in Hin. apply elem_of_entries in Hin as [? Hin]. congruence.
      * intros E. apply Hne. by eapply (indexed_inj (s_heap s)).
  - by eapply heap_ordered_insert.
  - destruct (insert_permutation (s_heap s) i _ (mkEntry t target) Hi) as (h0 & E1 & E2).
    subst h'. rewrite E2, entries_insert by (by rewrite lookup_delete_ne). constructor.
    unfold s_heap in E1. rewrite Re, (entries_delete _ _ _ _ HAs) in E1. by apply Permutation_cons_inv in E1.
  - intros p. subst D'. unfold links. destruct (decide (source = p)) as [<-|]; [by rewrite lookup_insert_eq, Hds|].
    rewrite lookup_insert_ne by done.
    destruct (decide (target = p)) as [<-|]; [by rewrite lookup_insert_eq, Hdt|by rewrite lookup_insert_ne].
Qed.

(** ... and after it. *)
Lemma moved_rep target source t ops i ds A l1 l2 s s2 s3 : rep (queue s) A -> target <> source -> A !! target = None ->
  s_data s !! target = Some per_timer_data_new -> s_data s !! source = Some ds -> t_ops ds = ops ->
  A !! source = Some (t, ops) -> s_heap s !! i = Some (mkEntry t source) -> heap_index_ ds = Z.of_nat i ->
  s_data s2 = <[source:=set_index no_index (set_ops [] ds)]>
              (<[target:=set_index (heap_index_ ds) (set_ops ops per_timer_data_new)]> (s_data s)) ->
  s_heap s2 = <[i:=mkEntry t target]> (s_heap s) ->
  (forall p, p ∈ l1 ++ source :: l2 <-> is_Some (A !! p)) -> NoDup (l1 ++ source :: l2) ->
  list_changed (target :: l1 ++ source :: l2) (l1 ++ target :: l2) s2 s3 -> links (s_data s3) source = Some (0, 0) ->
  rep (queue s3) (<[target:=(t, ops)]> (delete source A)).
Proof.
  intros Hr Hts HAt Hdt Hds Eops HAs Hi Ei ED Eh Hin Hnd [W3 P3 D3 L3] Hls.
  destruct (handed_over target source t ops i ds A s Hr Hts HAt Hdt Hds HAs Hi Ei) as (I2 & O2 & E2 & _).
  rewrite <- ED, <- Eh in I2. rewrite <- Eh in O2, E2. destruct Hr as [_ _ _ _ Ra Rn R0].
  assert (forall p, p ∈ l1 ++ target :: l2 <-> p = target \/ p ∈ l1 ++ source :: l2 /\ p <> source) as Hq.
  { intros p. rewrite <- Permutation_middle, NoDup_cons in Hnd. rewrite !elem_of_app, !elem_of_cons in *.
    split; [|naive_solver]. intros Hp. destruct (decide (p = target)); [by left|right]. split; [tauto|]. intros ->. tauto. }
  unfold s_heap, s_data in *. split.
  - rewrite P3. by eapply indexed_relinked.
  - by rewrite P3.
  - by rewrite P3.
  - exists (l1 ++ target :: l2). split; [done|]. intros p.
    rewrite Hq, Hin, lookup_insert_is_Some', lookup_delete_is_Some. naive_solver.
  - intros p t' ops' Hp. rewrite (relinked_ops _ _ _ _ D3), ED.
    apply lookup_insert_Some in Hp as [[<- [= <- <-]]|[Hpt [Hps Hp]%lookup_delete_Some]].
    + by rewrite lookup_insert_ne, lookup_insert_eq.
    + rewrite !lookup_insert_ne by done. by eapply Ra.
  - intros p d [Hp Hpt]%lookup_insert_None Hd. destruct (decide (p = source)) as [->|Hps].
    + apply links_Some in Hls as (d' & Hd' & [= En Epr]). assert (d' = d) as -> by congruence.
      destruct (D3 source) as [E _]. rewrite Hd, ED, lookup_insert_eq in E. destruct d, ds. by simplify_eq/=.
    + rewrite lookup_delete_ne in Hp by done. destruct (D3 p) as [_ F].
      rewrite F, ED, !lookup_insert_ne in Hd; [by apply Rn in Hd|done|done|].
      rewrite elem_of_cons, Hin, Hp. intros [?|[? ?]]; congruence.
  - eapply relinked_None; [done|]. rewrite ED, !lookup_insert_ne; [done| |]; intros ->; congruence.
Qed.

Lemma wp_move_timer target source A s : represents (queue s) A -> target <> source -> A !! target = None ->
  is_Some (s_data s !! target) -> is_Some (s_data s !! source) -> Z.of_nat (length (s_heap s)) <= UINT64_MAX ->
  wp (move_timer target source) s (fun _ s' => represents (queue s') (moved target source A) /\ tworld s' = tworld s).
Proof.
  intros [Hr Hne] Hts HAt [dt Hdt] [ds Hds] Hsize. pose proof (rp_inactive _ _ Hr target dt HAt Hdt) as ->.
  unfold move_timer, moved. apply wp_bind. eapply wp_load_timer; [done|]. apply wp_bind. eapply wp_load_timer; [done|].
  destruct (A !! source) as [[t ops]|] eqn:HAs.
  2: { pose proof (rp_inactive _ _ Hr source ds HAs Hds) as ->.
    apply wp_bind. eapply wp_update_id; [done|done|]. apply wp_bind. eapply wp_update_id; [done|done|].
    apply wp_bind, wp_heap_size, wp_bind. rewrite (proj2 (Z.ltb_ge _ _)) by done. apply wp_ret.
    apply wp_bind, wp_get_queue, wp_bind.
    assert ((timers_ (queue s) =? source) = false) as ->.
    { pose proof (rep_active_iff s A source _ Hr Hds) as E. rewrite HAs in E. simpl in E. by rewrite E. }
    apply wp_ret. apply wp_bind, wp_ret. apply wp_bind, wp_ret. apply wp_bind.
    eapply wp_update_id; [done|done|]. eapply wp_update_id; [done|done|]. done. }
  destruct (rep_entry _ _ _ _ _ Hr HAs) as [i Hi]. destruct (rep_data _ _ _ _ _ Hr HAs) as (ds' & Hds' & Eops).
  assert (ds' = ds) as -> by congruence. destruct (rp_indexed _ _ Hr i _ Hi) as (ds' & Hds2 & Ei).
  assert (ds' = ds) as -> by (simpl in Hds2; unfold s_data in Hds; congruence).
  destruct (handed_over target source t ops i ds A s Hr Hts HAt Hdt Hds HAs Hi Ei) as (_ & _ & _ & Hlk).
  destruct (rp_list _ _ Hr) as (l & Hl & Hin).
  assert (source ∈ l) as (l1 & l2 & ->)%list_elem_of_split by (apply Hin; rewrite HAs; by eexists).
  pose proof (dll_around _ _ _ _ _ Hl) as (_ & Hls & _). apply links_Some in Hls as (ds' & Hds3 & [= En Epr]).
  assert (ds' = ds) as -> by (unfold s_data in Hds; congruence). apply lookup_lt_Some in Hi as Hlt.
  apply wp_bind. eapply wp_update_timer; [done|]. rewrite Eops. simpl.
  apply wp_bind. eapply wp_update_timer; [unfold s_data; simpl; by rewrite lookup_insert_ne|].
  apply wp_bind, wp_heap_size, wp_bind. rewrite (proj2 (Z.ltb_lt _ _)) by (rewrite Ei; unfold s_heap in *; simpl; lia).
  rewrite Ei, Nat2Z.id. apply wp_bind. eapply wp_heap_at; [done|]. apply wp_heap_set; [done|]. rewrite <- Ei.
  set (s2 := on_queue _ _).
  assert (s_data s2 = <[source:=set_index no_index (set_ops [] ds)]>
    (<[target:=set_index (heap_index_ ds) (set_ops ops per_timer_data_new)]> (s_data s))) as ED by done.
  rewrite <- ED in Hlk.
  rewrite <- En, <- Epr. apply (wp_replace_active l1 source l2 target s2).
  - pose proof (rp_null _ _ Hr) as H0'. rewrite ED, !lookup_insert_ne; [done| |]; intros ->; unfold s_data in *; congruence.
  - by eapply dlist_links.
  - rewrite Hin, HAt. by intros [? ?].
  - rewrite ED, lookup_insert_ne, lookup_insert_eq by done. by eexists.
  - intros s3 Hc Hls3. split; [|by rewrite (lc_world _ _ _ _ Hc)]. split.
    + eapply (moved_rep target source t ops i ds A l1 l2 s s2 s3); [done..|apply Hl|done|done].
    + apply map_Forall_insert_2; [by apply (Hne source (t, ops))|by apply map_Forall_delete].
Qed.
End refines.
