(* ===== verification/TimerQueueTheorems.v ===== *)
(** * Theorems about the timer queue

    The timer queue keeps the promise that the reactor relies on, and
    implements a map of timers; waiting for as long as it says, the reactor
    wakes when the first timer is due. *)

From S2P Require Import Prelude LinkedList SocketOps OpQueue EpollReactor ReactorRules TimerQueue TimerHeap TimerList TimerQueueRefines.

(** ** Time spans *)

Definition is_time (t : time_type) : Prop := time_min <= t <= time_max.

Lemma subtract_saturates t1 t2 : is_time t1 -> is_time t2 ->
  subtract t1 t2 = Z.max time_min (Z.min time_max (t1 - t2)).
Proof.
  unfold is_time, subtract, time_min, time_max. intros H1 H2.
  repeat match goal with |- context [if ?b then _ else _] => destruct b eqn:?; zb end; lia.
Qed.

Lemma add_saturates t d : is_time t -> is_time d -> add t d = Z.max time_min (Z.min time_max (t + d)).
Proof.
  unfold is_time, add, time_min, time_max. intros H1 H2.
  repeat match goal with |- context [if ?b then _ else _] => destruct b eqn:? end;
    rewrite ?andb_true_iff, ?andb_false_iff, ?negb_true_iff, ?negb_false_iff in *; zb; destr_all; zb;
    repeat match goal with H : _ \/ _ |- _ => destruct H; zb end; lia.
Qed.

(** [d] is what is left until [t], in units of [per] ticks and at most
    [max_duration]: 0 if nothing is left, and otherwise no more than is left,
    except that less than a unit is rounded up. *)
Definition waits (per : Z) (now max_duration d : Z) (t : time_type) : Prop :=
  0 <= d <= max_duration /\ (d = 0 <-> t <= now) /\ per * d <= Z.max per (t - now).

Lemma to_wait_ok (per : Z) (total : Z -> Z) (now max_duration : Z) (t : time_type) :
  is_time t -> is_time now -> 0 < per -> 0 < max_duration -> (forall ticks, total ticks = Z.quot ticks per) ->
  waits per now max_duration
    (let d := subtract t now in
     if d <=? 0 then 0 else let n := total d in if n =? 0 then 1 else if max_duration <? n then max_duration else n) t.
Proof.
  intros Ht Hn Hper Hmax Htot. pose proof (subtract_saturates t now Ht Hn) as E. unfold is_time, time_min, time_max in *.
  cbv zeta. set (d := subtract t now) in *. unfold waits. zcase (d <=? 0); [lia|]. rewrite Htot.
  assert (Z.quot d per = d / per) as -> by (apply Z.quot_div_nonneg; lia).
  pose proof (Z.mul_div_le d per Hper). pose proof (Z.div_pos d per ltac:(lia) Hper).
  zcase (d / per =? 0); [|zcase (max_duration <? d / per)]; split_and!; try lia; nia.
Qed.

Section theorems.
Context {W : Type} `{ReactorWorld W} `{Clock W}.
Abbreviation S := (TimerState W).
Implicit Types (s : S) (A : timers_map) (p : timer_ptr) (o : op_ptr).

(** ** The promise to the reactor *)

Definition waiting_of (q : TimerQueue) : list op_ptr :=
  heap_ q ≫= fun e => default [] (t_ops <$> timer_data q !! timer_ e).

Lemma waiting_of_rep q A : rep q A -> waiting_of q ≡ₚ all_ops A.
Proof.
  intros Hr. unfold waiting_of, all_ops. rewrite (rp_entries _ _ Hr). unfold entries. rewrite list_fmap_bind.
  erewrite Forall_bind_ext; [reflexivity|]. apply Forall_forall.
  intros [p [t ops]] Hp%elem_of_map_to_list. simpl. by rewrite (rp_active _ _ Hr p t ops Hp).
Qed.

Lemma all_ops_due now A : all_ops A ≡ₚ all_ops (due now A) ++ all_ops (not_due now A).
Proof.
  unfold all_ops. rewrite <- bind_app. f_equiv. apply NoDup_Permutation; [apply NoDup_map_to_list| |].
  - apply NoDup_app. split_and!; [apply NoDup_map_to_list| |apply NoDup_map_to_list].
    intros [q x]. rewrite !elem_of_map_to_list. intros [_ Hx]%map_lookup_filter_Some [_ Hy]%map_lookup_filter_Some.
    simpl in *. lia.
  - intros [q x]. rewrite elem_of_app, !elem_of_map_to_list. unfold due, not_due.
    rewrite !map_lookup_filter_Some. simpl. destruct (Z.le_gt_cases x.1 now); naive_solver lia.
Qed.

Lemma readied_ops now A ops s s' : readied now A ops s s' -> ops ≡ₚ all_ops (due now A).
Proof. intros (L & HL & _ & -> & _). unfold all_ops. by rewrite HL. Qed.

Lemma watched_set_all `{!WorldOk W} e ops : forall w d, watched (set_all e ops w) d -> watched w d.
Proof.
  induction ops as [|o ops IH]; intros w d; [done|]. intros Hd. eapply set_op_ec_ok. by apply (IH _ _ Hd).
Qed.

#[export] Instance timer_queue_ok `{!WorldOk W} : TimerQueueOk TimerQueue W.
Proof.
  refine {| tq_ok := fun q => exists A, represents q A; tq_waiting := waiting_of |}.
  intros q w [A Hr]. destruct (wp_get_ready_timers A (mkTState q w) Hr) as (ops & s' & E & Hrd).
  exists ops, (queue s'), (tworld s'). split; [simpl; unfold call_queue; by rewrite E|].
  pose proof (readied_ops _ _ _ _ _ Hrd) as Hops. destruct Hrd as (L & _ & _ & _ & Hr' & W').
  split_and!; [by eexists| |].
  - rewrite (waiting_of_rep q A) by apply Hr. rewrite (waiting_of_rep _ _ (proj1 Hr')), Hops. apply all_ops_due.
  - intros d. rewrite W'. apply watched_set_all.
Defined.

(** ** The first timer *)

Lemma first_timer s A : represents (queue s) A -> match s_heap s with
  | [] => A = ∅
  | e :: _ => (exists ops, A !! timer_ e = Some (time_ e, ops)) /\ due_first (time_ e) A
  end.
Proof.
  intros [Hr _]. pose proof (fun q t ops => rep_entry s A q t ops Hr) as Hent.
  destruct (s_heap s) as [|e h] eqn:Eh.
  - apply map_empty. intros q. apply eq_None_not_Some. intros [[t ops] Hq].
    destruct (Hent q t ops Hq) as [k Hk]. done.
  - split.
    + apply elem_of_entries. rewrite <- (rp_entries _ _ Hr). unfold s_heap in Eh. rewrite Eh. by left.
    + intros q t ops Hq. destruct (Hent q t ops Hq) as [k Hk]. rewrite <- Eh in Hk.
      apply (root_earliest (s_heap s) e (rp_ordered _ _ Hr) ltac:(by rewrite Eh) k _ Hk).
Qed.

(** How long the reactor is told to wait: all the time it may if there are no
    timers, and until the first of them otherwise. *)
Definition waits_for_first (per now max_duration d : Z) A : Prop :=
  A = ∅ /\ d = max_duration \/
  exists p t ops, A !! p = Some (t, ops) /\ due_first t A /\ waits per now max_duration d t.

Lemma wait_duration_ok A s now max_duration : represents (queue s) A -> map_Forall (fun _ x => is_time x.1) A ->
  is_time now -> 0 < max_duration ->
  waits_for_first 1000 now max_duration (wait_duration_usec (queue s) now max_duration) A /\
  waits_for_first 1000000 now max_duration (wait_duration_msec (queue s) now max_duration) A.
Proof.
  intros Hr Ht Hn Hmax. pose proof (first_timer s A Hr) as Hf. unfold wait_duration_usec, wait_duration_msec.
  unfold s_heap in Hf. destruct (heap_ (queue s)) as [|e h]; [by split; left|].
  destruct Hf as [[ops Hp] Hfirst]. pose proof (Ht _ _ Hp) as Hte. simpl in Hte.
  split; right; exists (timer_ e), (time_ e), ops; (split_and!; [done|done|]).
  - by apply (to_wait_ok 1000 total_microseconds).
  - by apply (to_wait_ok 1000000 total_milliseconds).
Qed.

(** ** The claim *)

(** C40. timer_queue implements a map from the active timers to their times
    and the operations waiting on them, each operation doing what it should
    to the map, whatever the shape of the heap and of the linked list:
    [enqueue_timer] adds the operation, behind those of the timer if that is
    active, and says whether the timer has become the first to be due;
    [cancel_timer] and [cancel_timer_by_key] take the operations asked for, in
    order, set their error, and forget a timer with none left;
    [get_ready_timers] takes the timers that are due in the order of their
    times, and no others; [get_all_timers] takes every operation; [move_timer]
    puts one timer in the place of another; and the wait it asks for is 0 if
    a timer is due, and otherwise ends when the first one is due or before,
    to the unit. *)
Theorem timer_queue_refines s A p target time o max_cancelled key max_duration :
  represents (queue s) A -> is_Some (s_data s !! p) -> is_Some (s_data s !! target) ->
  target <> p -> A !! target = None -> Z.of_nat (length (s_heap s)) <= UINT64_MAX ->
  (forall t ops, A !! p = Some (t, ops) -> o ∉ ops) -> 0 <= max_cancelled ->
  map_Forall (fun _ x => is_time x.1) A -> is_time (clock_now (tworld s)) -> 0 < max_duration ->
  let aborted ops := set_all operation_aborted ops (tworld s) in
  let has_key o := bool_decide (cancellation_key o (tworld s) = key) in
  wp (enqueue_timer time p o) s (fun earliest s' => tworld s' = tworld s /\
    match A !! p with
    | Some (t, ops) => represents (queue s') (<[p:=(t, ops ++ [o])]> A) /\ earliest = false
    | None => represents (queue s') (<[p:=(time, [o])]> A) /\
        if earliest then due_first time A else due_before time A
    end) /\
  wp (cancel_timer p max_cancelled) s (fun cancelled s' =>
    match A !! p with
    | Some (t, ops) => exists kept, ops = cancelled ++ kept /\
        Z.of_nat (length cancelled) = Z.min max_cancelled (Z.of_nat (length ops)) /\
        represents (queue s') (keep_timer p t kept A) /\ tworld s' = aborted cancelled
    | None => cancelled = [] /\ s' = s
    end) /\
  wp (cancel_timer_by_key p key) s (fun cancelled s' =>
    match A !! p with
    | Some (t, ops) => cancelled = List.filter has_key ops /\
        represents (queue s') (keep_timer p t (List.filter (fun o => negb (has_key o)) ops) A) /\
        tworld s' = aborted cancelled
    | None => cancelled = [] /\ s' = s
    end) /\
  wp get_ready_timers s (fun ops s' => readied (clock_now (tworld s)) A ops s s') /\
  wp get_all_timers s (fun ops s' => ops ≡ₚ all_ops A /\ tworld s' = tworld s /\ empty (queue s') = true /\
    heap_ (queue s') = []) /\
  wp (move_timer target p) s (fun _ s' => represents (queue s') (moved target p A) /\ tworld s' = tworld s) /\
  empty (queue s) = bool_decide (A = ∅) /\
  waits_for_first 1000 (clock_now (tworld s)) max_duration
    (wait_duration_usec (queue s) (clock_now (tworld s)) max_duration) A /\
  waits_for_first 1000000 (clock_now (tworld s)) max_duration
    (wait_duration_msec (queue s) (clock_now (tworld s)) max_duration) A.
Proof.
  intros Hr Hp Ht Htp HAt Hsize Ho Hmaxc Htimes Hnow Hmax aborted has_key. split_and!.
  - by apply wp_enqueue_timer.
  - eapply wp_mono; [by apply (wp_cancel_timer p max_cancelled A)|]. intros c s' Hc.
    destruct (A !! p) as [[t ops]|]; [|done]. pose proof (split_cancelled_ok ops 0 max_cancelled ltac:(lia)) as Hsp.
    destruct (split_cancelled 0 max_cancelled ops) as [c' kept]. destruct Hsp as [-> Hlen].
    destruct Hc as (-> & Hr' & W'). exists kept. split_and!; [done| |done|done]. simpl in Hlen |- *. lia.
  - by apply wp_cancel_timer_by_key.
  - by apply wp_get_ready_timers.
  - eapply wp_mono; [by apply (wp_get_all_timers A)|]. intros ops s' (Hops & W' & T' & H' & _).
    split_and!; [done|done| |done]. unfold empty. by rewrite T'.
  - by apply wp_move_timer.
  - pose proof (proj1 Hr) as Hrep. destruct (rp_list _ _ Hrep) as (l & Hl & Hin).
    pose proof (dlist_nonnull _ _ _ (rp_null _ _ Hrep) Hl) as H0'.
    unfold empty. rewrite (dseg_first _ _ _ _ _ (proj1 Hl)). case_bool_decide as E.
    + destruct l as [|q l]; [done|]. destruct (proj1 (Hin q) ltac:(by left)). by rewrite E, lookup_empty in H1.
    + destruct l as [|q l]; simpl; [|apply Z.eqb_neq; set_solver]. destruct E. apply map_empty. intros q.
      apply eq_None_not_Some. rewrite <- Hin. set_solver.
  - by apply wait_duration_ok.
  - by apply wait_duration_ok.
Qed.
End theorems.
