(* ===== verification/SimWorld.v ===== *)
(** * A simulated world

    A small world that satisfies what is assumed of the operating system and
    of the handlers, in which the theorems about the event loop are applied to
    concrete contexts: an operation performs its I/O when a datagram has
    arrived, epoll reports the pending events of the descriptors that were
    added to it, and a handler posts its operation again until a number of
    rounds has been run, or stops the context. *)

From S2P Require Import Prelude SocketOps OpQueue Scheduler EpollReactor ReactorRules ReactorBooks ReactorPerform TimerQueue TimerHeap TimerQueueRefines TimerQueueTheorems.

Record sim := mkSim {
  sim_watched : list op_ptr;
  sim_errors : list (op_ptr * error_code);
  sim_events : list (event_ptr * Z);
  sim_datagrams : Z;
  sim_rounds : Z;
  sim_time : Z;
}.

Definition sim_error (w : sim) (o : op_ptr) : error_code :=
  match List.find (fun x => x.1 =? o) (sim_errors w) with Some (_, e) => e | None => no_error end.

Definition sim_set_events (evs : list (event_ptr * Z)) (w : sim) : sim :=
  mkSim (sim_watched w) (sim_errors w) evs (sim_datagrams w) (sim_rounds w) (sim_time w).

Definition sim_perform (o : op_ptr) (w : sim) : outcome (perform_status * sim) :=
  if 0 <? sim_datagrams w then
    Ok (done, mkSim (sim_watched w) (sim_errors w) (sim_events w) (sim_datagrams w - 1) (sim_rounds w) (sim_time w))
  else Ok (not_done, w).

Definition sim_reported (w : sim) : list (event_ptr * Z) :=
  List.filter (fun ev => match ev.1 with DescriptorPtr d => bool_decide (d ∈ sim_watched w) | _ => true end)
    (sim_events w).

#[export] Instance sim_world : ReactorWorld sim := {
  perform := sim_perform;
  set_op_ec o e w :=
    mkSim (sim_watched w) ((o, e) :: sim_errors w) (sim_events w) (sim_datagrams w) (sim_rounds w) (sim_time w);
  cancellation_key o w := o;
  destroy_reactor_op o w := w;
  epoll_ctl op fd events p w :=
    (0, 0, match p with
           | DescriptorPtr d =>
               if op =? EPOLL_CTL_ADD then
                 mkSim (d :: sim_watched w) (sim_errors w) (sim_events w) (sim_datagrams w) (sim_rounds w) (sim_time w)
               else w
           | _ => w
           end);
  epoll_wait timeout w := (sim_reported w, sim_set_events [] w);
  timerfd_settime flags sec nsec w := w;
  allocate_object w := (100, w);
}.

#[export] Instance sim_clock : Clock sim := sim_time.

#[export] Instance sim_ok : WorldOk sim.
Proof.
  refine {| watched := fun w d => d ∈ sim_watched w; op_ec := sim_error |}.
  - intros o w. simpl. unfold sim_perform. destruct (0 <? sim_datagrams w); by eexists _, _.
  - done.
  - done.
  - intros op fd ev p w d. simpl. destruct p as [| |d']; [by left..|].
    destruct (Z.eqb_spec op EPOLL_CTL_ADD) as [->|]; [|by left]. simpl.
    rewrite elem_of_cons. intros [->|?]; [by right|by left].
  - intros timeout w d. simpl. split; [done|]. intros ([p ev] & E & Hin)%list_elem_of_fmap. simpl in E. subst p.
    apply list_elem_of_In, filter_In in Hin as [_ Hd]. by apply bool_decide_eq_true in Hd.
  - done.
  - intros o e w o'. unfold sim_error. simpl. destruct (Z.eqb_spec o o') as [->|Hne]; [by rewrite decide_True|].
    by rewrite decide_False.
  - intros op fd ev p w o. simpl. destruct p; [done..|]. by destruct (op =? EPOLL_CTL_ADD).
Defined.

(** The handlers. *)
Definition sim_next_round (w : sim) : sim :=
  mkSim (sim_watched w) (sim_errors w) (sim_events w) (sim_datagrams w) (sim_rounds w - 1) (sim_time w).

(** The operations of [stops] stop the context. *)
Definition handler (stops : op_ptr -> bool) : Handlers TimerQueue sim := fun o =>
  if stops o then stop else
  r ← get_reactor;
  if 0 <? sim_rounds (world r) then
    modify_world sim_next_round;; post_immediate_completion default_config o false
  else mret tt.

Lemma handler_posts stops o (c : Ctx (Reactor TimerQueue sim)) : busy c -> op_ok (rest c) o ->
  wp (handler stops o) c (fun _ c' => wf c' /\ balance c' = balance c /\
    outstanding_work_ (scheduler c) <= outstanding_work_ (scheduler c') /\
    (stops o = false -> stopped_ (scheduler c') = stopped_ (scheduler c))).
Proof.
  intros [Hwf Hout] Ho. unfold handler. destruct (stops o).
  - eapply wp_mono; [apply wp_stop|]. intros ? c' Hq. split_and!; [|by rewrite (quiet_balance _ _ Hq)| |done].
    + eapply quiet_wf; [exact Hq|]. destruct Hwf. by split.
    + by destruct Hq as (_ & _ & -> & _).
  - apply wp_bind, wp_get_reactor. destruct (0 <? sim_rounds (world (rest c))); [|by apply wp_ret].
    apply wp_bind, wp_modify_rest. set (c1 := with_rest _ c). assert (quiet c c1) as Hq by by apply world_quiet.
    eapply wp_mono; [apply wp_post_immediate; [by eapply quiet_wf|done]|]. intros ? c' He.
    split_and!; [apply He| |apply (en_outstanding _ _ _ _ _ He)|intros _; apply (en_stopped _ _ _ _ _ He)].
    rewrite (entered_balance _ _ _ _ _ He), (quiet_balance _ _ Hq). simpl. lia.
Qed.

Lemma handler_ok stops : HandlersOk (H2 := handler stops) TimerQueue sim.
Proof.
  split. intros o c Hb Ho. eapply wp_mono; [by apply (handler_posts stops)|]. by intros ? c' (? & ? & ? & _).
Defined.

(** Operation 9 stops the context in one world, and none does in the other. *)
Definition stopping_handlers : Handlers TimerQueue sim := handler (fun o => o =? 9).
Definition stopping_handlers_ok : HandlersOk (H2 := stopping_handlers) TimerQueue sim := handler_ok _.

#[export] Instance sim_handlers : Handlers TimerQueue sim := handler (fun _ => false).
#[export] Instance sim_handlers_ok : HandlersOk TimerQueue sim := handler_ok _.

Lemma sim_never_stop : never_stop TimerQueue sim.
Proof.
  intros o c Hb Ho. eapply wp_mono; [by apply (handler_posts (fun _ => false))|].
  intros ? c' (_ & _ & _ & Hs). by apply Hs.
Qed.

(** ** Concrete queues and contexts *)

(** A queue of timers before any of them is started. *)
Lemma represents_new D : D !! 0 = None -> map_Forall (fun _ d => d = per_timer_data_new) D ->
  represents (mkQueue 0 [] D) ∅.
Proof.
  intros H0 Hnew. split; [|by apply map_Forall_empty]. split; simpl.
  - by intros i e.
  - by intros k _ a b.
  - done.
  - exists []. split; [split; [done|constructor]|]. intros p. rewrite lookup_empty. split; [set_solver|by intros [? ?]].
  - intros p t ops. by rewrite lookup_empty.
  - intros p d _ Hp. by apply (Hnew p).
  - done.
Qed.

Definition sim_timers : gmap Z per_timer_data :=
  list_to_map ((fun p => (p, per_timer_data_new)) <$> [1; 2; 3]).

(** Descriptor 10 with operations waiting to read and to write, one datagram
    to read, and operations in the queue. *)
Definition sim_descriptor (reads writes : list op_ptr) : descriptor_state :=
  mkDescriptor 7 (Z.lor EPOLLIN EPOLLET)
    (fun t => match t with read_op => reads | write_op => writes | except_op => [] end) (fun _ => true) false 0.

Definition sim_context (running : bool) (reads writes : list op_ptr) (n : Z) (ops : list op_ptr) :
    Ctx (Reactor TimerQueue sim) :=
  mkCtx (mkScheduler (TaskOperation :: (Operation <$> ops)) n false false true true running [] 0)
    (mkReactor {[10 := sim_descriptor reads writes]} [10] [] [mkQueue 0 [] sim_timers] 5 6 false
       (mkSim [10] [] [(DescriptorPtr 10, EPOLLIN)] 1 2 50)).

Lemma sim_timers_ok : represents (mkQueue 0 [] sim_timers) ∅.
Proof.
  apply represents_new; [done|]. intros p d Hp. apply elem_of_list_to_map_2, list_elem_of_fmap in Hp.
  by destruct Hp as (? & [= _ ->] & _).
Qed.

Definition sim_op (o : op_ptr) : Prop := o <> null /\ o <> 10.

Lemma sim_context_wf running reads writes n ops : Forall sim_op (reads ++ writes ++ ops) ->
  wf (sim_context running reads writes n ops).
Proof.
  intros Hops. rewrite Forall_forall in Hops. split; simpl.
  - done.
  - intros d s t o [<- <-]%lookup_singleton_Some Ho. assert (sim_op o) as [H1 H2].
    { apply Hops. destruct t; simpl in Ho; set_solver. }
    split; [done|]. by apply lookup_singleton_ne.
  - intros o Ho. simpl in Ho. set_solver.
  - constructor; [|constructor]. exists ∅. apply sim_timers_ok.
  - intros o. rewrite app_nil_r, elem_of_cons, list_elem_of_fmap. intros [?|(o' & [= ->] & Ho)]; [done|].
    apply (Hops o'). set_solver.
  - intros d ->%list_elem_of_singleton. by eexists.
  - done.
Qed.

Ltac sim_wf := apply sim_context_wf; repeat constructor; by vm_compute.

(** The queue with timer 1 due at 60, and timer 2 at 20, at time 50. *)
Definition sim_started : outcome (unit * TimerState sim) :=
  (enqueue_timer 60 1 101;; enqueue_timer 20 2 102;; mret tt)
    (mkTState (mkQueue 0 [] sim_timers) (mkSim [] [] [] 0 0 50)).

Definition sim_map : timers_map := {[1 := (60, [101]); 2 := (20, [102])]}.

Lemma sim_started_ok : exists s, sim_started = Ok (tt, s) /\ represents (queue s) sim_map /\
  clock_now (tworld s) = 50 /\ length (s_heap s) = 2%nat /\ is_Some (s_data s !! 2) /\ is_Some (s_data s !! 3).
Proof.
  unfold sim_started.
  destruct (wp_enqueue_timer 60 1 101 ∅ (mkTState (mkQueue 0 [] sim_timers) (mkSim [] [] [] 0 0 50)) sim_timers_ok)
    as (e1 & s1 & E1 & W1 & R1); [by eexists|done|].
  rewrite lookup_empty in R1. destruct R1 as [R1 _].
  destruct (wp_enqueue_timer 20 2 102 _ s1 R1) as (e2 & s2 & E2 & W2 & R2).
  { vm_compute in E1. injection E1 as <- <-. by eexists. }
  { intros t ops. by rewrite lookup_insert_ne. }
  rewrite lookup_insert_ne, lookup_empty in R2 by done. destruct R2 as [R2 _].
  exists s2. rewrite (bind_Ok _ _ _ _ _ E1), (bind_Ok _ _ _ _ _ E2). split_and!; [done| |by rewrite W2, W1|..].
  - assert (sim_map = <[2:=(20, [102])]> (<[1:=(60, [101])]> ∅)) as -> by done. done.
  - unfold s_heap. rewrite (rp_entries _ _ (proj1 R2)). done.
  - vm_compute in E1. injection E1 as <- <-. vm_compute in E2. injection E2 as <- <-. by eexists.
  - vm_compute in E1. injection E1 as <- <-. vm_compute in E2. injection E2 as <- <-. by eexists.
Qed.

Lemma sim_map_times : map_Forall (fun _ x => is_time x.1) sim_map.
Proof.
  apply map_Forall_insert_2; [|apply map_Forall_singleton]; unfold is_time, time_min, time_max; simpl; lia.
Qed.
