(* ===== verification/ReactorTheorems.v ===== *)
(** * Theorems about the event loop

    The reactor and the scheduler account for every operation, from its start
    to its handler; the claims are applied in the simulated world. *)

From S2P Require Import Prelude SocketOps OpQueue Scheduler EpollReactor ReactorRules ReactorBooks ReactorPerform TimerQueue TimerHeap TimerQueueRefines TimerQueueTheorems SimWorld.

Section theorems.
Context {Q W : Type} `{HandlersOk Q W} (cfg : scheduler_config).
Abbreviation R := (Reactor Q W).
Implicit Types (c : Ctx R) (d o : op_ptr) (t : op_type).
#[local] Instance context_operations : Operations R := reactor_operations cfg.

(** C37. No operation given to the reactor is lost, duplicated or reordered.
    In a context that is well formed, for a descriptor state [d]: [start_op]
    leaves the operation unfinished, counted as work, at the back of its queue
    or else posted for completion; [cancel_ops], [cancel_ops_by_key] and
    [deregister_descriptor] take exactly the operations they are to cancel out
    of the queues and post them in order with the error operation_aborted,
    which no other operation gets; [perform_io] takes a prefix of each queue
    and completes these operations in the order except, write, read, the
    first at once, making up for the work when there are none.  All of them
    keep the context well formed and neither lose nor invent work. *)
Theorem reactor_keeps_operations c d s o t descriptor ic sp key closing events :
  wf c -> states (rest c) !! d = Some s -> d <> null -> op_ok (rest c) o ->
  wp (start_op t descriptor d o ic sp (call_post_immediate_completion cfg)) c (fun _ c' => started t d o c c') /\
  wp (cancel_ops cfg d) c (fun _ c' => cancelled cfg d (emptied s) (waiting_ops s) c c') /\
  wp (cancel_ops_by_key cfg t key d) c (fun _ c' =>
    cancelled cfg d (set_queue t (without_key (rest c) key (op_queues s t)) s)
      (with_key (rest c) key (op_queues s t)) c c') /\
  wp (deregister_descriptor cfg descriptor d closing) c (fun d' c' =>
    if d_shutdown_ s then d' = null /\ c' = c
    else d' = d /\ cancelled cfg d (set_closed (emptied s)) (waiting_ops s) c c') /\
  wp (perform_io cfg events d) c (fun first_op c' => exists s' performed_ops,
    (forall t', op_queues s t' = performed_ops t' ++ op_queues s' t') /\
    performed cfg (<[d:=s']> (states (rest c)))
      (performed_ops except_op ++ performed_ops write_op ++ performed_ops read_op) first_op c c').
Proof.
  intros Hwf Hd Hd0 Ho. split_and!.
  - apply wp_start_op; [done|done|]. right. by eexists.
  - by apply wp_cancel_ops.
  - by apply wp_cancel_ops_by_key.
  - by apply wp_deregister.
  - by apply wp_perform_io.
Qed.

(** C38. One turn of the event loop, [do_run_one], in a thread between two
    operations: whatever is at the front of the queue, the task, a descriptor
    with events, or an operation, the turn has no undefined behaviour and
    keeps the context well formed and the work in step with the unfinished
    operations (as many more, or fewer, of one as of the other).  It returns 1
    having run an operation, or 0 if the scheduler is stopped; and when an
    operation is in the queue behind the task it does return, with fuel for
    one round of the loop for each time the task comes first.

    [run], called on a context whose work is that of its unfinished
    operations, returns only when the scheduler is stopped: either a handler
    has called [stop], and then the operations not completed are still there,
    waiting on a descriptor, in a timer queue or queued, each of them counted
    as work; or, when no handler ever does, every operation started, by then
    or by a handler, has been completed and no work is left.  It has no
    undefined behaviour, and returns at once when there is nothing to do.

    The handlers ([HandlersOk]) may start and post operations and stop the
    scheduler; they keep the context well formed and the balance, and do not
    take back work. *)
Theorem event_loop_accounts fuel c :
  (between c ->
   match do_run_one cfg fuel c with
   | Ok (n, c') => between c' /\ balance c' = balance c /\
       (n = 1 /\ stopped_ (scheduler c) = false \/
        n = 0 /\ stopped_ (scheduler c) = true /\ stopped_ (scheduler c') = true)
   | Undefined _ => False
   | OutOfFuel => forall k o q,
       op_queue_ (scheduler c) = replicate k TaskOperation ++ Operation o :: q -> (fuel <= k)%nat
   end) /\
  (at_rest c -> balance c = 0 ->
   match run cfg fuel c with
   | Ok (_, c') => at_rest c' /\ stopped_ (scheduler c') = true /\
       work c' = Z.of_nat (length (unfinished c')) /\
       (never_stop Q W -> stopped_ (scheduler c) = false -> unfinished c' = [])
   | Undefined _ => False
   | OutOfFuel => unfinished c <> []
   end).
Proof.
  split; [intros Hb|apply (run_ok cfg fuel c)]. pose proof (do_run_one_ok cfg fuel c Hb) as Hr. unfold ran_one in Hr.
  destruct (do_run_one cfg fuel c) as [[n c']| |]; [|done..]. by destruct Hr as (? & ? & ? & _).
Qed.
End theorems.

(** ** In the simulated world *)

Definition started_at : Ctx (Reactor TimerQueue sim) := sim_context true [1; 2] [3] 4 [5].

Lemma started_at_wf : wf started_at.
Proof. sim_wf. Qed.

Lemma started_at_between : between started_at.
Proof. split; [apply started_at_wf|done|done|by split]. Qed.

Lemma reactor_keeps_operations_witness :
  exists c', start_op read_op 7 10 6 false true (call_post_immediate_completion default_config) started_at =
      Ok (tt, c') /\
    started read_op 10 6 started_at c' /\ unfinished c' = [5; 1; 2; 6; 3].
Proof.
  destruct (reactor_keeps_operations default_config started_at 10 (sim_descriptor [1; 2] [3]) 6 read_op 7
    false true 1 false EPOLLIN started_at_wf eq_refl ltac:(done) ltac:(by split)) as [([] & c' & E & Hs) _].
  exists c'. split_and!; [exact E|exact Hs|]. vm_compute in E. injection E as <-. reflexivity.
Defined.

(** One operation waits to read the datagram, another is queued; the handlers
    post twice more. *)
Definition at_start : Ctx (Reactor TimerQueue sim) := sim_context false [1] [] 2 [5].

Lemma at_start_rest : at_rest at_start.
Proof. split; [sim_wf|done|done|done]. Qed.

(** An operation whose handler stops the context is queued before another. *)
Definition at_stop : Ctx (Reactor TimerQueue sim) := sim_context false [1] [] 3 [9; 5].

Lemma at_stop_rest : at_rest at_stop.
Proof. split; [sim_wf|done|done|done]. Qed.

Lemma event_loop_accounts_witness :
  (exists c', do_run_one (H1 := reactor_operations default_config) default_config 2 started_at = Ok (1, c') /\
     balance c' = 0 /\ unfinished c' = [5; 1; 2; 3]) /\
  (exists c', run (H1 := context_operations default_config) default_config 20 at_start = Ok (4, c') /\
    unfinished at_start = [5; 1] /\ unfinished c' = [] /\ work c' = 0) /\
  exists c', run (H1 := context_operations (H2 := stopping_handlers) default_config) default_config 20 at_stop = Ok (1, c') /\
    unfinished at_stop = [9; 5; 1] /\ unfinished c' = [5; 1] /\ work c' = 2.
Proof.
  pose proof (proj1 (event_loop_accounts default_config 2 started_at) started_at_between) as Hl.
  pose proof (proj2 (event_loop_accounts default_config 20 at_start) at_start_rest eq_refl) as Hr.
  pose proof (proj2 (event_loop_accounts (H3 := stopping_handlers_ok) default_config 20 at_stop) at_stop_rest eq_refl)
    as Hp.
  split_and!.
  - assert (exists c', do_run_one (H1 := context_operations default_config) default_config 2 started_at = Ok (1, c') /\
      unfinished c' = [5; 1; 2; 3]) as (c' & E & Hu) by (eexists; split; [vm_compute; reflexivity|reflexivity]).
    rewrite E in Hl. destruct Hl as (_ & Hbal & _). exists c'. split_and!; [exact E|by rewrite Hbal|exact Hu].
  - assert (exists c', run (H1 := context_operations default_config) default_config 20 at_start = Ok (4, c'))
      as [c' E] by (eexists; vm_compute; reflexivity).
    rewrite E in Hr. destruct Hr as (_ & _ & Hw & Hu). specialize (Hu sim_never_stop eq_refl).
    rewrite Hu in Hw. exists c'. split_and!; [exact E|reflexivity|exact Hu|exact Hw].
  - assert (exists c', run (H1 := context_operations (H2 := stopping_handlers) default_config) default_config 20 at_stop
      = Ok (1, c') /\ unfinished c' = [5; 1]) as (c' & E & Hu)
      by (eexists; split; [vm_compute; reflexivity|reflexivity]).
    rewrite E in Hp. destruct Hp as (_ & _ & Hw & _). rewrite Hu in Hw.
    exists c'. split_and!; [exact E|reflexivity|exact Hu|exact Hw].
Defined.

(** The timer due at 20 is ready at 50, the one due at 60 is not; timer 3 can
    take the place of timer 2. *)
Lemma timer_queue_refines_witness : exists s, sim_started = Ok (tt, s) /\
  wp get_ready_timers s (fun ops s' => readied 50 sim_map ops s s') /\
  wp (move_timer 3 2) s (fun _ s' => represents (queue s') (moved 3 2 sim_map) /\ tworld s' = tworld s).
Proof.
  destruct sim_started_ok as (s & E & Hr & Hnow & Hlen & H2 & H3). exists s. split; [exact E|].
  destruct (timer_queue_refines s sim_map 2 3 40 103 1 101 1000 Hr H2 H3 ltac:(done) eq_refl
    ltac:(by rewrite Hlen) ltac:(by intros t ops [= <- <-] ?%list_elem_of_singleton) ltac:(done)
    sim_map_times ltac:(by rewrite Hnow) ltac:(done))
    as (_ & _ & _ & Hready & _ & Hmove & _).
  rewrite Hnow in Hready. split; [exact Hready|exact Hmove].
Defined.
