(* ===== verification/SocketService.v ===== *)
(** * The socket service

    Asio's implementation of a socket object on Linux
    (src/include/asio/detail/reactive_socket_service_base.hpp and
    impl/reactive_socket_service_base.ipp, with the parts of
    reactive_socket_service.hpp that are not templates over the handler): the
    descriptor, its state and its registration with the reactor, what opens,
    assigns, moves, cancels, closes and destroys them, and how an
    asynchronous operation is started on them. *)

From S2P Require Import Prelude SocketOps OpQueue Scheduler EpollReactor.

(** [base_implementation_type]: a socket object. *)
Record base_implementation_type := mkImpl {
  socket_ : Z;
  state_ : Z;
  reactor_data_ : op_ptr;
}.

Definition set_state (state : Z) (impl : base_implementation_type) : base_implementation_type :=
  mkImpl (socket_ impl) state (reactor_data_ impl).
Definition set_reactor_data (d : op_ptr) (impl : base_implementation_type) : base_implementation_type :=
  mkImpl (socket_ impl) (state_ impl) d.

Definition already_open : error_code := mkEc 1 misc_category.

(** [error_code()], which the service keeps as [success_ec_]. *)
Definition success_ec_ : error_code := system_error 0.

Definition SOCK_STREAM : Z := 1.
Definition SOCK_DGRAM : Z := 2.

(** The operating system in a world: the kernel and [errno]; and [ec_] of the
    reactor operations. *)
Class SocketWorld (K W : Type) := {
  os_kernel : W -> K;
  os_errno : W -> Z;
  os_update : K -> Z -> W -> W;
  op_ec_ : op_ptr -> W -> error_code;
}.

Section service.
Context {Q K W : Type} `{Kernel K} `{TimerQueueBase Q W} `{ReactorWorld W} `{SocketWorld K W} `{Handlers Q W}
  (cfg : scheduler_config).
Abbreviation R := (Reactor Q W).
Abbreviation M := (prog (Ctx R)).
Abbreviation Impl := base_implementation_type.
Implicit Types (impl : Impl) (o d : op_ptr) (t : op_type) (x : error_code).

(** A call of socket_ops with [ec] set to [x]: its result, and [ec] after. *)
Definition sys {A} x (m : prog (Env K) A) : M (A * error_code) :=
  r ← get_reactor;
  '(a, e) ← lift (m (mkEnv (os_kernel (world r)) (os_errno (world r)) x));
  modify_world (os_update (kernel e) (errno e));;
  mret (a, ec e).

Definition construct : Impl := mkImpl invalid_socket 0 null.

Definition is_open impl : bool := negb (socket_ impl =? invalid_socket).

(** The target's and the source's implementation after the move. *)
Definition base_move_construct (other_impl : Impl) : Impl * Impl :=
  let '(target, source) := move_descriptor (reactor_data_ other_impl) in
  (mkImpl (socket_ other_impl) (state_ other_impl) target, mkImpl invalid_socket 0 source).

(** [closing] is false when the descriptor may have been duplicated. *)
Definition is_closing impl : bool := Z.land (state_ impl) possible_dup =? 0.

(** Deregistering, closing the socket, and giving the descriptor state back,
    as both the destructor and [close] do. *)
Definition close_registered (destruction : bool) impl x : M (Impl * error_code) :=
  d ← deregister_descriptor cfg (socket_ impl) (reactor_data_ impl) (is_closing impl);
  '((_, state), x) ← sys x (socket_ops.close (socket_ impl) (state_ impl) destruction);
  d ← cleanup_descriptor_data d;
  mret (mkImpl (socket_ impl) state d, x).

Definition destroy impl : M Impl :=
  if negb (socket_ impl =? invalid_socket) then
    '(impl, _) ← close_registered true impl success_ec_; mret impl
  else mret impl.

Definition base_move_assign impl (other_impl : Impl) : M (Impl * Impl) :=
  destroy impl;;
  mret (base_move_construct other_impl).

(** The socket is closed even if [close] reports an error. *)
Definition close impl x : M (Impl * error_code) :=
  x ← (if is_open impl then '(_, x) ← close_registered false impl x; mret x
       else mret success_ec_);
  mret (construct, x).

(** The descriptor released, or [invalid_socket]. *)
Definition release impl : M (Z * Impl * error_code) :=
  if negb (is_open impl) then mret (invalid_socket, impl, error.bad_descriptor) else
  d ← deregister_descriptor cfg (socket_ impl) (reactor_data_ impl) false;
  cleanup_descriptor_data d;;
  mret (socket_ impl, construct, success_ec_).

Definition cancel impl : M error_code :=
  if negb (is_open impl) then mret error.bad_descriptor else
  cancel_ops cfg (reactor_data_ impl);;
  mret success_ec_.

Definition state_of_type (type : Z) : Z :=
  if type =? SOCK_STREAM then stream_oriented
  else if type =? SOCK_DGRAM then datagram_oriented else 0.

(** When the registration fails, the destructor of the [socket_holder] closes
    the new socket, whose state is 0. *)
Definition do_open impl (af type protocol : Z) : M (Impl * error_code) :=
  if is_open impl then mret (impl, already_open) else
  '(sock, x) ← sys success_ec_ (socket_ops.socket af type protocol);
  if sock =? invalid_socket then mret (impl, x) else
  '(err, d) ← register_descriptor sock;
  if negb (err =? 0) then
    sys success_ec_ (socket_ops.close sock 0 true);;
    mret (set_reactor_data d impl, system_error err)
  else mret (mkImpl sock (state_of_type type) d, success_ec_).

Definition do_assign impl (type native_socket : Z) : M (Impl * error_code) :=
  if is_open impl then mret (impl, already_open) else
  '(err, d) ← register_descriptor native_socket;
  if negb (err =? 0) then mret (set_reactor_data d impl, system_error err)
  else mret (mkImpl native_socket (add_flags (state_of_type type) possible_dup) d, success_ec_).

(** *** Starting operations *)

(** [set_internal_non_blocking(impl.socket_, impl.state_, true, op->ec_)]. *)
Definition make_non_blocking impl o : M (bool * Impl) :=
  r ← get_reactor;
  '((ok, state), x) ← sys (op_ec_ o (world r))
    (socket_ops.set_internal_non_blocking (socket_ impl) (state_ impl) true);
  modify_world (set_op_ec o x);;
  mret (ok, set_state state impl).

Definition do_start_op impl t o (is_continuation allow_speculative noop needs_non_blocking : bool)
    (on_immediate : op_ptr -> bool -> M unit) : M Impl :=
  '(start, impl) ←
    (if noop then mret (false, impl)
     else if has (state_ impl) non_blocking || negb needs_non_blocking then mret (true, impl)
     else make_non_blocking impl o);
  (if (start : bool) then
     start_op t (socket_ impl) (reactor_data_ impl) o is_continuation allow_speculative on_immediate
   else on_immediate o is_continuation);;
  mret impl.

(** The version for handlers without an associated immediate executor. *)
Definition service_start_op impl t o (is_continuation allow_speculative noop needs_non_blocking : bool) : M Impl :=
  do_start_op impl t o is_continuation allow_speculative noop needs_non_blocking
    (call_post_immediate_completion cfg).

Definition do_start_accept_op impl o (is_continuation peer_is_open : bool)
    (on_immediate : op_ptr -> bool -> M unit) : M Impl :=
  if negb peer_is_open then
    do_start_op impl read_op o is_continuation true false true on_immediate
  else
    modify_world (set_op_ec o already_open);;
    on_immediate o is_continuation;;
    mret impl.

(** [connect]'s result is not 0 and the error is one that says to wait. *)
Definition do_start_connect_op impl o (is_continuation : bool) (addr : sockaddr) (addrlen : Z)
    (on_immediate : op_ptr -> bool -> M unit) : M Impl :=
  '(ok, impl) ← (if has (state_ impl) non_blocking then mret (true, impl) else make_non_blocking impl o);
  waits ← (if (ok : bool) then
             r ← get_reactor;
             '(result, x) ← sys (op_ec_ o (world r)) (socket_ops.connect (socket_ impl) addr addrlen);
             modify_world (set_op_ec o x);;
             mret (negb (result =? 0) && (ec_eqb x error.in_progress || ec_eqb x error.would_block))
           else mret false);
  (if (waits : bool) then
     modify_world (set_op_ec o success_ec_);;
     start_op write_op (socket_ impl) (reactor_data_ impl) o is_continuation false on_immediate
   else on_immediate o is_continuation);;
  mret impl.

(** *** The socket's modes, options and addresses *)

Definition native_non_blocking impl : bool := negb (Z.land (state_ impl) internal_non_blocking =? 0).
Definition user_non_blocking impl : bool := negb (Z.land (state_ impl) user_set_non_blocking =? 0).

Definition set_user_mode impl (mode : bool) : M (Impl * error_code) :=
  '((_, state), x) ← sys success_ec_ (socket_ops.set_user_non_blocking (socket_ impl) (state_ impl) mode);
  mret (set_state state impl, x).

Definition set_native_mode impl (mode : bool) : M (Impl * error_code) :=
  '((_, state), x) ← sys success_ec_ (socket_ops.set_internal_non_blocking (socket_ impl) (state_ impl) mode);
  mret (set_state state impl, x).

Definition service_bind impl (addr : ptr) (addrlen : Z) : M error_code :=
  '(_, x) ← sys success_ec_ (socket_ops.bind (socket_ impl) addr addrlen); mret x.

(** An option with the value of an int. *)
Definition set_option impl (level name value : Z) : M (Impl * error_code) :=
  '((_, state), x) ← sys success_ec_
    (socket_ops.setsockopt (socket_ impl) (state_ impl) level name value sizeof_int);
  mret (set_state state impl, x).

Definition service_listen impl (backlog : Z) : M error_code :=
  '(_, x) ← sys success_ec_ (socket_ops.listen (socket_ impl) backlog); mret x.

Definition service_available impl : M (Z * error_code) :=
  sys success_ec_ (socket_ops.available (socket_ impl)).

Definition at_mark impl : M (bool * error_code) :=
  sys success_ec_ (socket_ops.sockatmark (socket_ impl)).

Definition service_shutdown impl (what : Z) : M error_code :=
  '(_, x) ← sys success_ec_ (socket_ops.shutdown (socket_ impl) what); mret x.
End service.
