(* ===== verification/NetworkThread.v ===== *)
(** * The network thread

    FeedHandler.h on top of Asio: the socket it opens, the receive operation
    it starts (src/include/asio/detail/reactive_socket_recvfrom_op.hpp and
    async_receive_from in reactive_socket_service.hpp), and the completion
    handler that starts the next one, run by the scheduler and the reactor.
    The operating system, its allocator and its clock are a parameter
    ([NetKernel]), as are the other operations of the same io_context
    ([OtherOperations]).  These act on the world while they are performed and
    on the whole context when they complete; one that posts while it is
    performed, as the read of the signals' pipe does once a signal has come,
    is not among them. *)

From S2P Require Import Prelude SPSCQueue Protocol FeedHandler SocketOps OpQueue Scheduler EpollReactor SocketService.

(** ** What the thread is given *)

(** The system calls, the allocator (a pointer, and giving one back), the
    time stamp counter, and the bytes in memory at a pointer. *)
Class NetKernel (K : Type) := {
  #[global] net_kernel_calls :: Kernel K;
  k_epoll_ctl : Z -> Z -> Z -> event_ptr -> K -> Z * Z * K;
  k_epoll_wait : Z -> K -> list (event_ptr * Z) * K;
  k_timerfd_settime : Z -> Z -> Z -> K -> K;
  k_new : K -> ptr * K;
  k_delete : ptr -> K -> K;
  k_rdtsc : K -> Z * K;
  k_memory : ptr -> Z -> K -> list Z;
  (** A bound on the signals that will still interrupt the thread, which is
      the fuel of the loop that retries. *)
  k_interruptions : K -> nat;
}.

(** ** State *)

(** [reactive_socket_recvfrom_op]: its members and those of [reactor_op].
    Its handler is the lambda of [start_receive], and there is one buffer. *)
Record recvfrom_op := mkRecvfrom {
  ro_ec_ : error_code;
  ro_cancellation_key_ : Z;
  ro_bytes_transferred_ : Z;
  ro_socket_ : Z;
  ro_data : ptr;
  ro_size : Z;
  ro_flags_ : Z;
  ro_sender_endpoint_ : ptr;
}.

Definition set_ro_ec (x : error_code) (op : recvfrom_op) : recvfrom_op :=
  mkRecvfrom x (ro_cancellation_key_ op) (ro_bytes_transferred_ op) (ro_socket_ op) (ro_data op) (ro_size op)
    (ro_flags_ op) (ro_sender_endpoint_ op).
Definition set_ro_bytes (n : Z) (op : recvfrom_op) : recvfrom_op :=
  mkRecvfrom (ro_ec_ op) (ro_cancellation_key_ op) n (ro_socket_ op) (ro_data op) (ro_size op)
    (ro_flags_ op) (ro_sender_endpoint_ op).

(** The kernel and [errno], the receive operations by address, and the feed
    handler with its socket. *)
Record NetWorld (K : Type) := mkNet {
  net_kernel : K;
  net_errno : Z;
  net_ops : gmap op_ptr recvfrom_op;
  net_feed : FeedHandler;
  _socket : base_implementation_type;
}.
Arguments mkNet {K} _ _ _ _ _.
Arguments net_kernel {K} _.
Arguments net_errno {K} _.
Arguments net_ops {K} _.
Arguments net_feed {K} _.
Arguments _socket {K} _.

Section net_world.
Context {K : Type} `{NetKernel K}.
Abbreviation W := (NetWorld K).
Implicit Types (w : W) (o : op_ptr).

Definition set_kernel (k : K) w : W := mkNet k (net_errno w) (net_ops w) (net_feed w) (_socket w).
Definition set_errno (v : Z) w : W := mkNet (net_kernel w) v (net_ops w) (net_feed w) (_socket w).
Definition set_ops (ops : gmap op_ptr recvfrom_op) w : W :=
  mkNet (net_kernel w) (net_errno w) ops (net_feed w) (_socket w).
Definition set_feed (h : FeedHandler) w : W := mkNet (net_kernel w) (net_errno w) (net_ops w) h (_socket w).
Definition set_socket (impl : base_implementation_type) w : W :=
  mkNet (net_kernel w) (net_errno w) (net_ops w) (net_feed w) impl.

(** [sizeof(data_)] of an ip endpoint, and [sizeof(sockaddr_storage)]. *)
Definition endpoint_capacity : Z := 28.
Definition sizeof_sockaddr_storage : Z := 128.

(** [endpoint::resize] throws when the size is too large. *)
Definition endpoint_resize (new_size : Z) : outcome unit :=
  if sizeof_sockaddr_storage <? new_size then Undefined Thrown else Ok tt.

(** [do_perform], with an attempt for each interruption to come and one
    more. *)
Definition recvfrom_perform o (op : recvfrom_op) w : outcome (perform_status * W) :=
  '((done', bytes, addr_len), e) ←
    socket_ops.non_blocking_recvfrom1 (Datatypes.S (k_interruptions (net_kernel w))) (ro_socket_ op) (ro_data op)
      (ro_size op) (ro_flags_ op) (ro_sender_endpoint_ op) (Some endpoint_capacity) (ro_bytes_transferred_ op)
      (mkEnv (net_kernel w) (net_errno w) (ro_ec_ op));
  let op := set_ro_bytes bytes (set_ro_ec (ec e) op) in
  let w := set_ops (<[o:=op]> (net_ops w)) (set_errno (errno e) (set_kernel (kernel e) w)) in
  if (done' : bool) && negb (failed (ec e)) then
    endpoint_resize (default 0 addr_len);; Ok (done, w)
  else Ok (if (done' : bool) then done else not_done, w).
End net_world.

(** The other operations of the io_context: how they perform and complete,
    their error, key and destruction. *)
Class OtherOperations (Q K : Type) := {
  other_perform : op_ptr -> NetWorld K -> outcome (perform_status * NetWorld K);
  other_set_ec : op_ptr -> error_code -> NetWorld K -> NetWorld K;
  other_ec : op_ptr -> NetWorld K -> error_code;
  other_key : op_ptr -> NetWorld K -> Z;
  other_destroy : op_ptr -> NetWorld K -> NetWorld K;
  other_complete : op_ptr -> prog (Ctx (Reactor Q (NetWorld K))) unit;
}.

(** The reactor's world. *)
#[export] Instance net_reactor_world {Q K} `{NetKernel K} `{OtherOperations Q K} : ReactorWorld (NetWorld K) := {
  perform o w := match net_ops w !! o with
                 | Some op => recvfrom_perform o op w
                 | None => other_perform o w
                 end;
  set_op_ec o x w := match net_ops w !! o with
                     | Some op => set_ops (<[o:=set_ro_ec x op]> (net_ops w)) w
                     | None => other_set_ec o x w
                     end;
  cancellation_key o w := match net_ops w !! o with
                          | Some op => ro_cancellation_key_ op
                          | None => other_key o w
                          end;
  destroy_reactor_op o w := match net_ops w !! o with
                            | Some _ => set_ops (delete o (net_ops w)) (set_kernel (k_delete o (net_kernel w)) w)
                            | None => other_destroy o w
                            end;
  epoll_ctl op fd events p w :=
    let '(result, err, k) := k_epoll_ctl op fd events p (net_kernel w) in (result, err, set_kernel k w);
  epoll_wait timeout w := let '(evs, k) := k_epoll_wait timeout (net_kernel w) in (evs, set_kernel k w);
  timerfd_settime flags sec nsec w := set_kernel (k_timerfd_settime flags sec nsec (net_kernel w)) w;
  allocate_object w := let '(p, k) := k_new (net_kernel w) in (p, set_kernel k w);
}.

#[export] Instance net_socket_world {Q K} `{OtherOperations Q K} : SocketWorld K (NetWorld K) := {
  os_kernel := net_kernel;
  os_errno := net_errno;
  os_update k v w := set_errno v (set_kernel k w);
  op_ec_ o w := match net_ops w !! o with Some op => ro_ec_ op | None => other_ec o w end;
}.

(** ** The handler *)

Section thread.
Context {Q K : Type} `{TimerQueueBase Q (NetWorld K)} `{NetKernel K} `{!OtherOperations Q K}.
Context (cfg : scheduler_config) (recv_buffer remote_endpoint : ptr).
Abbreviation W := (NetWorld K).
Abbreviation M := (prog (Ctx (Reactor Q W))).

Definition get_world : M W := r ← get_reactor; mret (world r).

Definition message_out_of_band : Z := 1.

(** The handler has no associated cancellation slot and is not a
    continuation. *)
Definition async_receive_from (data : ptr) (size : Z) (sender_endpoint : ptr) (flags : Z) : M unit :=
  w ← get_world;
  let '(o, k) := k_new (net_kernel w) in
  let impl := _socket w in
  let op := mkRecvfrom success_ec_ 0 0 (socket_ impl) data size flags sender_endpoint in
  modify_world (fun w => set_ops (<[o:=op]> (net_ops w)) (set_kernel k w));;
  impl ← service_start_op cfg impl (if has flags message_out_of_band then except_op else read_op) o
           false true false true;
  modify_world (set_socket impl).

Definition start_receive : M unit :=
  async_receive_from (recv_buffer + 8) (sizeof_PacketPayload - 8) remote_endpoint 0.

(** What the kernel wrote in memory is what [_recv_buffer] holds. *)
Definition load_buffer (k : K) : prog FeedHandler unit :=
  h ← get_state;
  put_state (set_recv_buffer
    (mkPacket (ingress_tsc (_recv_buffer h)) (k_memory (recv_buffer + 8) BUFFER_SIZE k)) h).

Definition run_feed (m : prog FeedHandler unit) : M unit :=
  w ← get_world;
  '(_, h) ← lift (m (net_feed w));
  modify_world (set_feed h).

(** The lambda of [start_receive]. *)
Definition receive_handler (x : error_code) (bytes_recvd : Z) : M unit :=
  w ← get_world;
  let '(tsc, k) := k_rdtsc (net_kernel w) in
  modify_world (set_kernel k);;
  run_feed (load_buffer k;; on_receive (failed x) tsc bytes_recvd);;
  start_receive.

(** [do_complete]: the operation is deleted before the handler is called. *)
Definition recvfrom_complete (o : op_ptr) (op : recvfrom_op) : M unit :=
  modify_world (fun w => set_ops (delete o (net_ops w)) (set_kernel (k_delete o (net_kernel w)) w));;
  receive_handler (ro_ec_ op) (ro_bytes_transferred_ op).

Definition net_complete (o : op_ptr) : M unit :=
  w ← get_world;
  match net_ops w !! o with
  | Some op => recvfrom_complete o op
  | None => other_complete o
  end.

(** ** The constructor *)

Definition AF_INET : Z := 2.
Definition IPPROTO_UDP : Z := 17.
Definition receive_buffer_size : Z := 8 * 1024 * 1024.

(** [basic_socket(context, endpoint)], on a socket service that is new: the
    error it throws, if one. *)
Definition open_and_bind (addr : ptr) (addrlen : Z) : M error_code :=
  '(impl, x) ← do_open construct AF_INET SOCK_DGRAM IPPROTO_UDP;
  modify_world (set_socket impl);;
  if failed x then mret x else service_bind impl addr addrlen.

(** The destructor of the member [_socket]. *)
Definition destroy_socket : M unit :=
  w ← get_world;
  impl ← destroy (Q := Q) cfg (_socket w);
  modify_world (set_socket impl).

Definition FeedHandler_new (addr : ptr) (addrlen : Z) : M error_code :=
  init_task;;
  x ← open_and_bind addr addrlen;
  if failed x then destroy_socket;; mret x else
  w ← get_world;
  '(impl, x) ← set_option (_socket w) SOL_SOCKET SO_RCVBUF receive_buffer_size;
  modify_world (set_socket impl);;
  if failed x then destroy_socket;; mret x else
  start_receive;;
  mret success_ec_.
End thread.

(** The handlers of the thread's operations. *)
#[export] Instance net_handlers {Q K} `{TimerQueueBase Q (NetWorld K)} `{NetKernel K} `{!OtherOperations Q K}
    (cfg : scheduler_config) (recv_buffer remote_endpoint : ptr) : Handlers Q (NetWorld K) :=
  net_complete cfg recv_buffer remote_endpoint.
