(* ===== verification/NetworkRules.v ===== *)
(** * Rules for the network thread

    What is assumed of the operating system and of the other operations of
    the io_context, the invariant of the network thread, and what one receive
    does to it. *)

From S2P Require Import Prelude SPSCQueue Protocol FeedHandler SocketOps SocketRules SocketModes OpQueue Scheduler EpollReactor ReactorRules SocketService NetworkThread.

(** ** The operating system

    The datagrams waiting on a socket ([inbox]), which sockets are datagram
    sockets, the allocated objects, and the descriptor states registered with
    epoll.  A receive takes one whole datagram and stores what fits, here in
    the 56 bytes at [data]; other calls leave all this alone, but datagrams
    may arrive during any of them. *)
Class NetKernelOk (K : Type) `{NetKernel K} (data : ptr) := {
  inbox : K -> Z -> list (list Z);
  datagram_socket : K -> Z -> Prop;
  heap : K -> gset ptr;
  k_watched : K -> op_ptr -> Prop;
  buffer (k : K) : list Z := k_memory data BUFFER_SIZE k;

  arrives (k k' : K) : Prop := forall s, datagram_socket k s ->
    datagram_socket k' s /\ exists arrived, inbox k' s = inbox k s ++ arrived;
  frame (k k' : K) : Prop := arrives k k' /\ buffer k' = buffer k /\ heap k' = heap k /\
    forall d, k_watched k' d -> k_watched k d;
  took (s : Z) (d : list Z) (k k' : K) : Prop :=
    datagram_socket k' s /\ (exists arrived, inbox k s ++ arrived = d :: inbox k' s) /\
    buffer k' = write_at 0 (take (Z.to_nat BUFFER_SIZE) d) (buffer k) /\ heap k' = heap k /\
    forall d, k_watched k' d -> k_watched k d;

  heap_null k : 0 ∉ heap k;
  recvfrom_law s addr addrlen k r k' :
    sys_call (Sys_recvfrom s data BUFFER_SIZE 0 addr addrlen) k = (r, k') ->
    (forall n, addrlen = Some n -> 0 <= n <= sizeof_sockaddr_storage -> 0 <= r_len r <= sizeof_sockaddr_storage) /\
    (0 <= r_ret r /\ (datagram_socket k s ->
       exists d, took s d k k' /\ r_ret r = Z.min (Z.of_nat (length d)) BUFFER_SIZE) \/
     r_ret r = -1 /\ frame k k' /\
       (r_errno r = EAGAIN /\ inbox k s = [] \/ r_errno r = EINTR /\ (k_interruptions k' < k_interruptions k)%nat \/
        r_errno r ∉ [0; EAGAIN; EINTR]));
  ioctl_law s cmd arg k r k' :
    sys_call (Sys_ioctl s cmd arg) k = (r, k') -> frame k k' /\ (r_ret r < 0 -> r_errno r <> 0);
  fcntl_law s cmd arg k r k' :
    sys_call (Sys_fcntl s cmd arg) k = (r, k') -> frame k k' /\ (r_ret r < 0 -> r_errno r <> 0);
  socket_law af type protocol k r k' :
    sys_call (Sys_socket af type protocol) k = (r, k') -> frame k k' /\
    (r_ret r = -1 /\ r_errno r <> 0 \/
     0 <= r_ret r /\ (af = AF_INET -> type = SOCK_DGRAM -> protocol = IPPROTO_UDP -> datagram_socket k' (r_ret r)));
  bind_law s addr addrlen k r k' :
    sys_call (Sys_bind s addr addrlen) k = (r, k') -> frame k k' /\ (r_ret r <> 0 -> r_errno r <> 0);
  setsockopt_law s level name value len k r k' :
    sys_call (Sys_setsockopt s level name value len) k = (r, k') -> frame k k' /\ (r_ret r <> 0 -> r_errno r <> 0);
  epoll_ctl_law op fd ev p k :
    let k' := (k_epoll_ctl op fd ev p k).2 in
    arrives k k' /\ buffer k' = buffer k /\ heap k' = heap k /\
    forall d, k_watched k' d -> k_watched k d \/ op = EPOLL_CTL_ADD /\ p = DescriptorPtr d;
  epoll_wait_law timeout k :
    frame k (k_epoll_wait timeout k).2 /\
    forall d, DescriptorPtr d ∈ (k_epoll_wait timeout k).1.*1 -> k_watched k d;
  timerfd_law flags sec nsec k : frame k (k_timerfd_settime flags sec nsec k);
  rdtsc_law k : frame k (k_rdtsc k).2;
  new_law k : let '(p, k') := k_new k in
    (p ∉ heap k) /\ arrives k k' /\ buffer k' = buffer k /\ heap k' = {[p]} ∪ heap k /\
    forall d, k_watched k' d -> k_watched k d;
  delete_law p k : let k' := k_delete p k in
    arrives k k' /\ buffer k' = buffer k /\ heap k' = heap k ∖ {[p]} /\
    forall d, k_watched k' d -> k_watched k d;
}.

Section kernel.
Context {K : Type} (data : ptr) `{NetKernelOk K data}.
Implicit Types (k : K) (s : Z).

Lemma arrives_refl k : arrives k k.
Proof. intros s Hs. split; [done|]. exists []. by rewrite app_nil_r. Qed.

Lemma arrives_trans k1 k2 k3 : arrives k1 k2 -> arrives k2 k3 -> arrives k1 k3.
Proof.
  intros H1 H2 s Hs. destruct (H1 s Hs) as [Hs2 [a Ha]]. destruct (H2 s Hs2) as [Hs3 [b Hb]].
  split; [done|]. exists (a ++ b). by rewrite Hb, Ha, app_assoc.
Qed.

#[export] Instance frame_preorder : PreOrder frame.
Proof.
  split.
  - intros k. split_and!; [apply arrives_refl|done..|auto].
  - intros k1 k2 k3 (A1 & B1 & C1 & D1) (A2 & B2 & C2 & D2). split_and!; [by eapply arrives_trans|congruence..|auto].
Qed.

(** The datagrams [ds] have been taken from the socket, in order. *)
Definition flow s (ds : list (list Z)) k k' : Prop := exists arrived, inbox k s ++ arrived = ds ++ inbox k' s.

Lemma flow_trans s ds ds' k1 k2 k3 : flow s ds k1 k2 -> flow s ds' k2 k3 -> flow s (ds ++ ds') k1 k3.
Proof.
  intros [a Ha] [b Hb]. exists (a ++ b). by rewrite app_assoc, Ha, <- !app_assoc, Hb.
Qed.

Lemma arrives_flow s k k' : datagram_socket k s -> arrives k k' -> flow s [] k k'.
Proof. intros Hs Ha. destruct (Ha s Hs) as [_ [a E]]. by exists a. Qed.

Lemma frame_took s d k1 k2 k3 : frame k1 k2 -> datagram_socket k1 s -> took s d k2 k3 -> took s d k1 k3.
Proof.
  intros (A1 & B1 & C1 & D1) Hs (A2 & B2 & C2 & D2 & E2). split_and!; [done| |congruence|congruence|auto].
  destruct (A1 s Hs) as [_ [a Ea]]. destruct B2 as [b Eb]. exists (a ++ b). by rewrite app_assoc, <- Ea.
Qed.

(** ** One receive *)

Lemma non_blocking_loop_last {A} (P : A -> Prop) (m : A -> prog (Env K) (Z * A)) fuel b bt a e p e' :
  (forall a e, P a -> wp (m a) e (fun p _ => P p.2)) -> P a ->
  socket_ops.non_blocking_loop fuel b m bt a e = Ok (p, e') -> P p.2.
Proof.
  intros Hm. revert a e. induction fuel as [|fuel IH]; intros a e Ha; simpl; [done|].
  destruct (Hm a e Ha) as ([n a'] & e1 & E & HP). intros Hr.
  apply bind_Ok_inv in Hr as ([n' a''] & e2 & E2 & Hr). rewrite E in E2. injection E2 as <- <- <-. simpl in HP.
  repeat match type of Hr with
         | (if ?b then _ else _) _ = _ => destruct b
         | (_ ≫= _) _ = _ => apply bind_Ok_inv in Hr as (? & ? & ? & Hr)
         end; try (by injection Hr as <- <-); by eapply IH; [exact HP|exact Hr].
Qed.


Definition received_done s (n : Z) k k' : Prop :=
  datagram_socket k s -> exists d, took s d k k' /\ n = Z.min (Z.of_nat (length d)) BUFFER_SIZE.

Definition no_data s k k' : Prop := datagram_socket k s -> inbox k s = [].

Lemma recvfrom_attempt s addr :
  is_attempt (received_done s) frame (no_data s) (fun _ => False) k_interruptions
    (socket_ops.recvfrom1 s data BUFFER_SIZE 0 addr).
Proof.
  intros a e. unfold socket_ops.recvfrom1, socket_ops.call_recvfrom. repeat sstep.
  destruct (recvfrom_law _ _ _ _ _ _ Hcall) as (_ & [[Hr Hd]|(Hr & Hf & Hcases)]).
  - replace (r_ret r <? 0) with false by (symmetry; apply Z.ltb_ge; lia). by constructor.
  - rewrite Hr. simpl. destruct Hcases as [[-> He]|[[-> Hs]|Hv]].
    + apply attempt_blocked; [lia|by intros []|by intros ?|done].
    + by apply attempt_interrupted.
    + by apply attempt_failed.
Qed.

(** An address length that any endpoint can be resized to. *)
Definition small_length (a : option Z) : Prop := exists n, a = Some n /\ 0 <= n <= sizeof_sockaddr_storage.

Lemma recvfrom_length s addr a (e : Env K) :
  small_length a -> wp (socket_ops.recvfrom1 s data BUFFER_SIZE 0 addr a) e (fun p _ => small_length p.2).
Proof.
  intros (n & -> & Hn). unfold socket_ops.recvfrom1, socket_ops.call_recvfrom. repeat sstep.
  rewrite wrap_small in Hcall by (unfold sizeof_sockaddr_storage in *; lia).
  destruct (recvfrom_law _ _ _ _ _ _ Hcall) as (Hlen & _).
  specialize (Hlen n eq_refl Hn). unfold sizeof_sockaddr_storage in *. exists (r_len r).
  by rewrite wrap_small by lia.
Qed.

(** What [do_perform] comes to: the operation then holds the outcome, unless
    nothing was ready. *)
Inductive received := Got (d : list Z) | Failed.

Definition holds (op : recvfrom_op) (v : received) : Prop :=
  match v with
  | Got d => failed (ro_ec_ op) = false /\ ro_bytes_transferred_ op = Z.min (Z.of_nat (length d)) BUFFER_SIZE
  | Failed => failed (ro_ec_ op) = true
  end.

(** A receive that finds a datagram is not refused: only a signal makes it
    fail.  (A kernel may report another error instead, and keep the
    datagram.) *)
Definition receives_reliably : Prop := forall s addr addrlen k r k',
  sys_call (Sys_recvfrom s data BUFFER_SIZE 0 addr addrlen) k = (r, k') ->
  datagram_socket k s -> inbox k s <> [] -> 0 <= r_ret r \/ r_errno r = EINTR.

Lemma recvfrom_reliable s addr bt fuel : receives_reliably -> forall a (e : Env K) p e',
  datagram_socket (kernel e) s -> inbox (kernel e) s <> [] ->
  socket_ops.non_blocking_loop fuel false (socket_ops.recvfrom1 s data BUFFER_SIZE 0 addr) bt a e = Ok (p, e') ->
  failed (ec e') = false.
Proof.
  intros Hrel. induction fuel as [|fuel IH]; intros a e p e' Hs Hin Hr; [done|]. simpl in Hr.
  assert (wp (socket_ops.recvfrom1 s data BUFFER_SIZE 0 addr a) e (fun p e1 =>
    0 <= p.1 /\ failed (ec e1) = false \/
    p.1 < 0 /\ ec e1 = error.interrupted /\ datagram_socket (kernel e1) s /\ inbox (kernel e1) s <> [])) as Hm.
  { unfold socket_ops.recvfrom1, socket_ops.call_recvfrom. repeat sstep.
    destruct (recvfrom_law _ _ _ _ _ _ Hcall) as (_ & [[Hret _]|(Hret & Hf & _)]).
    - replace (r_ret r <? 0) with false by (symmetry; apply Z.ltb_ge; lia). by left.
    - destruct (Hrel _ _ _ _ _ _ Hcall Hs Hin) as [?|Ei]; [lia|]. rewrite Hret. right. simpl. rewrite Ei.
      destruct (proj1 Hf s Hs) as [Hs' [arr Ea]]. split_and!; [done|done|done|]. rewrite Ea.
      by intros [? _]%app_eq_nil. }
  destruct Hm as ([n a1] & e1 & E & HP). apply bind_Ok_inv in Hr as ([n' a'] & e2 & E2 & Hr).
  rewrite E in E2. injection E2 as <- <- <-. simpl in HP.
  destruct HP as [[Hn Hf]|(Hn & Hi & Hs1 & Hin1)].
  - replace (n >=? 0) with true in Hr by (symmetry; apply Z.geb_le; lia). by injection Hr as _ <-.
  - replace (n >=? 0) with false in Hr by (symmetry; rewrite Z.geb_leb; apply Z.leb_gt; lia).
    apply bind_Ok_inv in Hr as (x & e3 & E3 & Hr). injection E3 as <- <-. rewrite Hi in Hr. by apply IH in Hr.
Qed.

(** The receive operation of the feed handler, on the socket [s]. *)
Definition receives_on (s : Z) (op : recvfrom_op) : Prop :=
  ro_socket_ op = s /\ ro_data op = data /\ ro_size op = BUFFER_SIZE /\ ro_flags_ op = 0.

Definition outcome_of s (v : option received) k k' : Prop :=
  match v with
  | Some (Got d) => took s d k k'
  | Some Failed => frame k k'
  | None => frame k k' /\ inbox k s = []
  end.

(** The datagrams an attempt has taken, and the buffer after it. *)
Definition taken (v : option received) : list (list Z) := match v with Some (Got d) => [d] | _ => [] end.
Definition stored (v : option received) (bs : list Z) : list Z :=
  match v with Some (Got d) => write_at 0 (take (Z.to_nat BUFFER_SIZE) d) bs | _ => bs end.

Lemma outcome_facts s v k k' : datagram_socket k s -> outcome_of s v k k' ->
  datagram_socket k' s /\ flow s (taken v) k k' /\ buffer k' = stored v (buffer k) /\ heap k' = heap k /\
  forall d, k_watched k' d -> k_watched k d.
Proof.
  intros Hs Ho. destruct v as [[d|]|]; simpl in *; [|destruct Ho as (Ha & Hf)|destruct Ho as [(Ha & Hf) _]].
  - destruct Ho as (O1 & [a O2] & O3). split_and!; [done|by exists a|apply O3..].
  - split_and!; [by apply Ha|by apply arrives_flow|apply Hf..].
  - split_and!; [by apply Ha|by apply arrives_flow|apply Hf..].
Qed.

Lemma recvfrom_performed s o op (w : NetWorld K) :
  receives_on s op -> datagram_socket (net_kernel w) s ->
  exists st op' k' v, recvfrom_perform o op w =
      Ok (st, set_ops (<[o:=op']> (net_ops w)) (set_errno v (set_kernel k' w))) /\
    receives_on s op' /\
    match st with
    | done => exists x, holds op' x /\ outcome_of s (Some x) (net_kernel w) k' /\
        (receives_reliably -> x = Failed -> inbox (net_kernel w) s = [])
    | not_done => outcome_of s None (net_kernel w) k'
    | done_and_exhausted => False
    end.
Proof.
  intros (Es & Ed & Ez & Ef) Hs. unfold recvfrom_perform. rewrite Es, Ed, Ez, Ef.
  set (e := mkEnv _ _ _).
  destruct (non_blocking_loop_reports (received_done s) frame (no_data s) (fun _ => False) k_interruptions
    ltac:(intros n k1 k2 k3 Hf Hd Hk; destruct (Hd (proj1 (proj1 Hf s Hk))) as (d & Ht & Hn); exists d;
          split; [by eapply frame_took|done])
    ltac:(intros ???; apply transitivity)
    ltac:(intros k1 k2 k3 Hf Hn Hk; destruct (proj1 Hf s Hk) as [Hk2 [a Ea]]; rewrite (Hn Hk2) in Ea;
          by destruct (inbox k1 s))
    (socket_ops.recvfrom1 s data BUFFER_SIZE 0 (ro_sender_endpoint_ op))
    (ro_bytes_transferred_ op) (recvfrom_attempt s (ro_sender_endpoint_ op)) (Datatypes.S (k_interruptions (net_kernel w)))
    (Some endpoint_capacity) e ltac:(simpl; lia)) as ([[done' bytes] addrlen] & e' & Hr & HR).
  unfold socket_ops.non_blocking_recvfrom1.
  assert (small_length addrlen) as (n & -> & Hn).
  { refine (non_blocking_loop_last small_length _ _ _ _ _ _ _ _ (recvfrom_length s _) _ Hr).
    exists endpoint_capacity. split; [done|]. unfold endpoint_capacity, sizeof_sockaddr_storage. lia. }
  rewrite Hr. cbn [mbind outcome_bind fst snd] in *.
  set (op' := set_ro_bytes bytes (set_ro_ec (ec e') op)).
  assert (receives_on s op') as Hop' by done.
  destruct HR as [(-> & Hf & Hb & Hd)|[(-> & _ & _ & Hn' & Hi)|(-> & -> & Hf & _ & _ & Hi)]].
  - rewrite Hf. simpl. unfold endpoint_resize. replace (sizeof_sockaddr_storage <? n) with false
      by (symmetry; apply Z.ltb_ge; lia).
    destruct (Hd Hs) as (d & Ht & Hbd). eexists done, op', (kernel e'), (errno e'). split; [done|]. split; [done|].
    exists (Got d). by split_and!.
  - simpl. eexists not_done, op', (kernel e'), (errno e'). split; [done|]. split; [done|]. split; [done|by apply Hn'].
  - rewrite Hf. simpl. eexists done, op', (kernel e'), (errno e'). split; [done|]. split; [done|]. exists Failed.
    split_and!; [done|done|]. intros Hrel _. destruct (decide (inbox (net_kernel w) s = [])) as [|Hin]; [done|].
    by rewrite (recvfrom_reliable s _ _ _ Hrel _ e _ _ Hs Hin Hr) in Hf.
Qed.

(** ** Making the socket non-blocking

    A result and the error code agree. *)
Definition mode_result (e : Env K) (result : Z) (e' : Env K) : Prop :=
  frame (kernel e) (kernel e') /\ failed (ec e') = (result <? 0).

Lemma mode_result_last result v e e' : frame (kernel e) (kernel e') -> (result < 0 -> v <> 0) ->
  mode_result e result (mkEnv (kernel e') v (if result <? 0 then system_error v else error.clear (ec e'))).
Proof.
  intros Hf Hv. split; [done|]. simpl. zcase (result <? 0); [|done]. apply failed_errno. auto.
Qed.

Lemma set_fd_frame s state value (e : Env K) :
  wp (socket_ops.set_fd_non_blocking s state value) e (mode_result e).
Proof.
  unfold socket_ops.set_fd_non_blocking. apply wp_bind.
  eapply (wp_mono _ _ (fun result e' => frame (kernel e) (kernel e') /\
    (has state possible_dup = false -> mode_result e result e'))).
  { unfold has. destruct (Z.land state possible_dup =? 0); simpl; [|sstep; done].
    repeat sstep. destruct (ioctl_law _ _ _ _ _ _ Hcall) as [Hf Hv]. split; [done|]. intros _.
    apply (mode_result_last _ _ e (mkEnv k (r_errno r) (ec e))); [exact Hf|exact Hv]. }
  intros result e1 [Hf Hr]. sstep. sstep. destruct (has state possible_dup) eqn:Ed; simpl.
  2: destruct (ec_value (ec e1) =? ENOTTY); [|sstep; by apply Hr].
  all: do 4 sstep; destruct (fcntl_law _ _ _ _ _ _ Hcall) as [Hf2 Hv2].
  all: assert (frame (kernel e) k) as Hf3 by (by etrans).
  all: destruct (r_ret r >=? 0) eqn:Ege; [rewrite Z.geb_leb in Ege|].
  all: try (sstep; by apply (mode_result_last _ _ e (mkEnv k (r_errno r) (ec e1)))).
  all: zb; rewrite (proj2 (Z.ltb_ge _ _) Ege); simpl; sstep.
  all: match goal with |- wp (if ?b then _ else _) _ _ => destruct b end; repeat sstep.
  all: try (destruct (fcntl_law _ _ _ _ _ _ Hcall0) as [Hf4 Hv4]).
  all: try (apply (mode_result_last _ _ e (mkEnv k0 (r_errno r0) (error.clear (ec e1)))); [by etrans|done]).
  all: by apply (mode_result_last 0 _ e (mkEnv k (r_errno r) (error.clear (ec e1)))).
Qed.

Lemma set_internal_frame s state value (e : Env K) :
  s <> invalid_socket -> negb value && has state user_set_non_blocking = false ->
  wp (socket_ops.set_internal_non_blocking s state value) e (fun p e' =>
    frame (kernel e) (kernel e') /\ failed (ec e') = negb p.1).
Proof.
  intros Hs Hv. unfold socket_ops.set_internal_non_blocking. rewrite (proj2 (Z.eqb_neq _ _) Hs), Hv.
  apply wp_bind. eapply wp_mono; [apply set_fd_frame|]. intros result e' [Hf He]. rewrite Z.geb_leb.
  zcase (0 <=? result); sstep; (split; [done|]); simpl; rewrite He; [by apply Z.ltb_ge|by apply Z.ltb_lt].
Qed.
End kernel.

(** ** The invariant *)

Section thread.
Context {Q K : Type} `{TimerQueueBase Q (NetWorld K)} `{NetKernel K} `{!OtherOperations Q K}.
Context (recv_buffer : ptr) `{!NetKernelOk K (recv_buffer + 8)}.
Context (kq : Z).
Abbreviation data := (recv_buffer + 8).
Abbreviation W := (NetWorld K).
Abbreviation R := (Reactor Q W).
Implicit Types (w : W) (r : R) (c : Ctx R) (o d x : op_ptr) (t : op_type).

Abbreviation kernel_of c := (net_kernel (world (rest c))).
Abbreviation feed_of c := (net_feed (world (rest c))).
Abbreviation ops_of c := (net_ops (world (rest c))).
Abbreviation socket_of c := (_socket (world (rest c))).

(** Steps that leave the receive operation, the feed handler and its socket
    alone. *)
Record apart w w' : Prop := {
  ap_ops : net_ops w' = net_ops w;
  ap_feed : net_feed w' = net_feed w;
  ap_socket : _socket w' = _socket w;
  ap_kernel : frame (net_kernel w) (net_kernel w');
}.

#[export] Instance apart_preorder : PreOrder apart.
Proof.
  split; [by split|]. intros w1 w2 w3 [] []. split; try congruence. by etrans.
Qed.

(** All the operations queued, for the scheduler or by its thread. *)
Definition queued c : list operation := op_queue_ (scheduler c) ++ private_op_queue (scheduler c).

(** [ops] have been queued; nothing else has changed. *)
Record posted (ops : list operation) c c' : Prop := {
  po_queued : queued c' ≡ₚ ops ++ queued c;
  po_states : states (rest c') = states (rest c);
  po_timers : timer_queues_ (rest c') = timer_queues_ (rest c);
  po_world : apart (world (rest c)) (world (rest c'));
}.

Lemma posted_refl c : posted [] c c.
Proof. by split. Qed.

Lemma posted_trans ops ops' c1 c2 c3 : posted ops c1 c2 -> posted ops' c2 c3 -> posted (ops' ++ ops) c1 c3.
Proof.
  intros [A1 A2 A3 A4] [B1 B2 B3 B4]. split; [by rewrite B1, A1, app_assoc|congruence..|by etrans].
Qed.

Lemma posted_trans_nil ops c1 c2 c3 : posted ops c1 c2 -> posted [] c2 c3 -> posted ops c1 c3.
Proof. intros A B. exact (posted_trans ops [] _ _ _ A B). Qed.

(** Where the feed handler's receive operation is: waiting at its descriptor,
    queued with its outcome, held by the function that runs (with an outcome
    if there is one yet), or there is none, while the handler runs. *)
Inductive phase :=
| Waiting (o : op_ptr)
| Queued (o : op_ptr) (v : received)
| InHand (o : op_ptr) (v : option received)
| Running.

Definition op_is (ph : phase) (s : Z) (ops : gmap op_ptr recvfrom_op) : Prop :=
  match ph with
  | Waiting o => exists op, ops = {[o := op]} /\ receives_on data s op
  | Queued o v => exists op, ops = {[o := op]} /\ receives_on data s op /\ holds op v
  | InHand o v => exists op, ops = {[o := op]} /\ receives_on data s op /\ from_option (holds op) True v
  | Running => ops = ∅
  end.

(** The bytes of [_recv_buffer], past what the outcome has overwritten. *)
Definition buffer_is (ph : phase) (bytes bs : list Z) : Prop :=
  match ph with
  | Queued _ (Got d) | InHand _ (Some (Got d)) => bs = write_at 0 (take (Z.to_nat BUFFER_SIZE) d) bytes
  | _ => bs = bytes
  end.

Definition queue_is (ph : phase) (q : list operation) : Prop :=
  match ph with
  | Waiting o | InHand o _ => Operation o ∉ q
  | Queued o _ => exists q', q ≡ₚ Operation o :: q' /\ Operation o ∉ q'
  | Running => True
  end.

Definition waits_at (ph : phase) : list op_ptr := match ph with Waiting o => [o] | _ => [] end.

(** An address that is not the receive operation, nor a descriptor state. *)
Definition other_op c x : Prop := x ∈ heap (kernel_of c) /\ ops_of c !! x = None /\ states (rest c) !! x = None.

Record listening c (ph : phase) : Prop := {
  li_timers : timer_queues_ (rest c) = [];
  li_socket : datagram_socket (kernel_of c) (socket_ (socket_of c));
  li_open : socket_ (socket_of c) <> invalid_socket;
  li_ops : op_is ph (socket_ (socket_of c)) (ops_of c);
  li_new x : is_Some (ops_of c !! x) -> x ∈ heap (kernel_of c) /\ states (rest c) !! x = None;
  li_state : exists s, states (rest c) !! reactor_data_ (socket_of c) = Some s /\ d_shutdown_ s = false /\
    op_queues s read_op = waits_at ph /\ op_queues s write_op = [] /\ op_queues s except_op = [];
  li_states d s : states (rest c) !! d = Some s -> d ∈ heap (kernel_of c) /\
    (d <> reactor_data_ (socket_of c) -> forall t x, x ∈ op_queues s t -> other_op c x);
  li_watched d : k_watched (kernel_of c) d -> is_Some (states (rest c) !! d);
  li_queued x : Operation x ∈ queued c -> x ∈ heap (kernel_of c);
  li_queue : queue_is ph (queued c);
  li_buffer : buffer_is ph (payload (_recv_buffer (feed_of c))) (buffer (kernel_of c));
  li_feed : exists l, feeding kq (feed_of c) l;
}.

Lemma posted_other_op ops c c' x : posted ops c c' -> other_op c x -> other_op c' x.
Proof.
  intros [_ Es _ [Eo _ _ (_ & _ & Eh & _)]] (H1 & H2 & H3). unfold other_op. by rewrite Es, Eo, Eh.
Qed.

Lemma queue_is_posted ph ops q q' : queue_is ph q -> q' ≡ₚ ops ++ q ->
  (forall o, match ph with Waiting o' | InHand o' _ | Queued o' _ => o = o' | Running => False end -> Operation o ∉ ops) ->
  queue_is ph q'.
Proof.
  intros Hq E Ho. destruct ph as [o|o v|o v|]; simpl in *; [| | |done].
  - rewrite E, not_elem_of_app. eauto.
  - destruct Hq as (q1 & E1 & Hq). exists (ops ++ q1). split; [rewrite E, E1; solve_Permutation|].
    rewrite not_elem_of_app. eauto.
  - rewrite E, not_elem_of_app. eauto.
Qed.

(** Other operations may be queued, and descriptors. *)
Lemma listening_posted ops c c' ph : listening c ph -> posted ops c c' ->
  (forall x, Operation x ∈ ops -> x ∈ heap (kernel_of c) /\ ops_of c !! x = None) -> listening c' ph.
Proof.
  intros [] Hp Hops. pose proof Hp as [Eq Es Et [Eo Ef Esk (Ha & Eb & Eh & Hw)]].
  split; rewrite ?Es, ?Et, ?Eo, ?Ef, ?Esk, ?Eb, ?Eh; try done.
  - by apply Ha.
  - intros d s Hd. destruct (li_states0 d s Hd) as [? Hx]. split; [done|]. intros Hne t x Hin.
    eapply posted_other_op; [done|]. by eapply Hx.
  - intros d Hd. auto.
  - intros x. rewrite Eq, elem_of_app. intros [Hx|Hx]; [by apply Hops|auto].
  - eapply queue_is_posted; [done..|]. intros o Ho Hin. apply Hops in Hin as [_ Hn].
    assert (is_Some (ops_of c !! o)) as [op Hop]; [|congruence].
    destruct ph; [..|done]; subst; simpl in li_ops0; destr_all;
      match goal with E : net_ops _ = _ |- _ => rewrite E, lookup_singleton_eq; by eexists end.
Qed.
(** ** From one phase to the next *)

Lemma op_found c ph o : listening c ph ->
  match ph with Waiting o' | InHand o' _ | Queued o' _ => o = o' | Running => False end ->
  exists op, ops_of c = {[o := op]} /\ receives_on data (socket_ (socket_of c)) op.
Proof. intros [] Ho. destruct ph; [..|done]; subst; simpl in li_ops0; destr_all; eauto. Qed.

(** The operation is waiting or held by [o]'s holder, not queued. *)
Definition unqueued (ph : phase) (o : op_ptr) : Prop :=
  match ph with Waiting o' | InHand o' _ => o = o' | _ => False end.

(** The operation, its descriptor state and the world are changed. *)
Lemma listening_change o ph ph' op' s' w' c : listening c ph -> unqueued ph o -> unqueued ph' o ->
  net_ops w' = {[o := op']} -> op_is ph' (socket_ (socket_of c)) {[o := op']} ->
  net_feed w' = feed_of c -> _socket w' = socket_of c ->
  datagram_socket (net_kernel w') (socket_ (socket_of c)) -> heap (net_kernel w') = heap (kernel_of c) ->
  (forall d, k_watched (net_kernel w') d -> k_watched (kernel_of c) d) ->
  buffer_is ph' (payload (_recv_buffer (feed_of c))) (buffer (net_kernel w')) ->
  d_shutdown_ s' = false -> op_queues s' read_op = waits_at ph' -> op_queues s' write_op = [] ->
  op_queues s' except_op = [] ->
  listening (with_rest (fun r => put_at (reactor_data_ (socket_of c)) s' (set_world w' r)) c) ph'.
Proof.
  intros Hl Hu Hu' Eo Hop Ef Es Hd Eh Hw Hb Hs1 Hs2 Hs3 Hs4.
  destruct (op_found _ _ o Hl) as (op & Eop & _); [by destruct ph|]. destruct Hl.
  destruct li_state0 as (s0 & Hs0 & _).
  assert (forall x, net_ops w' !! x = None <-> ops_of c !! x = None) as Hnone.
  { intros x. rewrite Eo, Eop. by rewrite !lookup_singleton_None. }
  assert (forall x, states (rest c) !! x = None -> <[reactor_data_ (socket_of c):=s']> (states (rest c)) !! x = None) as Hst.
  { intros x Hx. rewrite lookup_insert_ne; [done|]. intros <-. congruence. }
  split; simpl; rewrite ?Es, ?Ef, ?Eh, ?Eo; try done.
  - intros x Hx. destruct (li_new0 x) as [? Hn]; [|by auto].
    apply not_eq_None_Some. rewrite <- Hnone, Eo. by apply not_eq_None_Some.
  - exists s'. by rewrite lookup_insert_eq.
  - intros d s. destruct (decide (reactor_data_ (socket_of c) = d)) as [<-|Hne].
    { rewrite lookup_insert_eq. intros [= <-]. split; [by apply (li_states0 _ s0)|by intros []]. }
    rewrite lookup_insert_ne by done. intros Hds. destruct (li_states0 d s Hds) as [? Hx]. split; [done|].
    intros Hne' t x Hin. destruct (Hx Hne' t x Hin) as (X1 & X2 & X3). split; simpl; [by rewrite Eh|].
    split; [by apply Hnone|by apply Hst].
  - intros d Hk. destruct (decide (reactor_data_ (socket_of c) = d)) as [<-|Hne]; [rewrite lookup_insert_eq; by eexists|].
    rewrite lookup_insert_ne by done. by apply li_watched0, Hw.
  - destruct ph, ph'; simpl in *; subst; done.
Qed.

(** Only the operation and the world. *)
Lemma listening_hold o v v' op' w' c : listening c (InHand o v) ->
  net_ops w' = {[o := op']} -> receives_on data (socket_ (socket_of c)) op' -> from_option (holds op') True v' ->
  net_feed w' = feed_of c -> _socket w' = socket_of c ->
  datagram_socket (net_kernel w') (socket_ (socket_of c)) -> heap (net_kernel w') = heap (kernel_of c) ->
  (forall d, k_watched (net_kernel w') d -> k_watched (kernel_of c) d) ->
  buffer_is (InHand o v') (payload (_recv_buffer (feed_of c))) (buffer (net_kernel w')) ->
  listening (with_rest (set_world w') c) (InHand o v').
Proof.
  intros Hl Eo Hop Hv Ef Es Hd Eh Hw Hb. destruct (li_state _ _ Hl) as (s & Hs & Hs1 & Hs2 & Hs3 & Hs4).
  replace (with_rest (set_world w') c) with
    (with_rest (fun r => put_at (reactor_data_ (socket_of c)) s (set_world w' r)) c).
  { eapply (listening_change o _ _ op'); [exact Hl|done..| |done|done|done|done|done|done|done|done|done|done].
    by exists op'. }
  unfold with_rest, put_at, set_world, set_states. simpl. by rewrite (insert_id _ _ _ Hs).
Qed.

(** The operation is queued with its outcome. *)
Lemma listening_queue o v c c' : listening c (InHand o (Some v)) -> posted [Operation o] c c' ->
  listening c' (Queued o v).
Proof.
  intros Hl Hp. destruct (op_found _ _ o Hl eq_refl) as (op & Eop & _). destruct Hl.
  pose proof Hp as [Eq Es Et [Eo Ef Esk (Ha & Eb & Eh & Hw)]].
  split; rewrite ?Es, ?Et, ?Eo, ?Ef, ?Esk, ?Eb, ?Eh; try done.
  - by apply Ha.
  - intros d s Hd. destruct (li_states0 d s Hd) as [? Hx]. split; [done|]. intros Hne t x Hin.
    eapply posted_other_op; [done|]. by eapply Hx.
  - intros d Hd. auto.
  - intros x. rewrite Eq, elem_of_app. intros [[= ->]%list_elem_of_singleton|Hx]; [|auto].
    apply (li_new0 o). rewrite Eop, lookup_singleton_eq. by eexists.
  - by exists (queued c).
Qed.

(** The operation at the front of the queue is taken. *)
Lemma listening_take o v c c' : listening c (Queued o v) ->
  queued c ≡ₚ Operation o :: queued c' -> rest c' = rest c -> listening c' (InHand o (Some v)).
Proof.
  intros [] Eq Er. unfold other_op in *. split; unfold other_op; rewrite ?Er; try done.
  - intros x Hx. apply li_queued0. rewrite Eq. by right.
  - simpl in *. destruct li_queue0 as (q' & Eq' & Hq). rewrite Eq in Eq'. apply Permutation_cons_inv in Eq'.
    by rewrite Eq'.
Qed.

(** Something else at the front of the queue is taken. *)
Lemma listening_drop op ph c c' : listening c ph ->
  (forall o v, ph = Queued o v -> op <> Operation o) ->
  queued c ≡ₚ op :: queued c' -> rest c' = rest c -> listening c' ph.
Proof.
  intros [] Ho Eq Er. unfold other_op in *. split; unfold other_op; rewrite ?Er; try done.
  - intros x Hx. apply li_queued0. rewrite Eq. by right.
  - destruct ph as [o|o v|o v|]; simpl in *; [| | |done].
    + rewrite Eq, not_elem_of_cons in li_queue0. tauto.
    + destruct li_queue0 as (q' & Eq' & Hq). specialize (Ho o v eq_refl). assert (op ∈ q') as Hop.
      { assert (op ∈ Operation o :: q') as [->|?]%elem_of_cons by (rewrite <- Eq', Eq; by left); done. }
      apply elem_of_Permutation in Hop as [q'' E2]. exists q''. rewrite E2 in Eq', Hq. split.
      * apply (Permutation_cons_inv (a := op)). rewrite <- Eq, Eq'. apply perm_swap.
      * rewrite not_elem_of_cons in Hq. tauto.
    + rewrite Eq, not_elem_of_cons in li_queue0. tauto.
Qed.
(** ** What the handler has been given *)

(** Between two operations of the scheduler the receive operation waits or
    is queued. *)
Definition resting (ph : phase) : Prop := match ph with Waiting _ | Queued _ _ => True | _ => False end.

(** The datagram received whose handler has not run. *)
Definition seen (ph : phase) : list (list Z) :=
  match ph with Queued _ (Got d) | InHand _ (Some (Got d)) => [d] | _ => [] end.

Definition datagram (cpl : completion) : option (list Z) :=
  match cpl with Datagram _ bs => Some bs | RecvError _ => None end.

(** The handler has run for the completions [cs], and these are the datagrams
    that came from the socket, in order. *)
Record turned c ph c' ph' (cs : list completion) : Prop := {
  tu_flow : exists ds, flow data (socket_ (socket_of c)) ds (kernel_of c) (kernel_of c') /\
    seen ph ++ ds = omap datagram cs ++ seen ph';
  tu_feed : feed cs (feed_of c) = Ok (tt, feed_of c');
  tu_socket : socket_ (socket_of c') = socket_ (socket_of c) /\
    reactor_data_ (socket_of c') = reactor_data_ (socket_of c);
}.

Lemma turned_by ds c ph c' ph' : flow data (socket_ (socket_of c)) ds (kernel_of c) (kernel_of c') ->
  seen ph ++ ds = seen ph' -> feed_of c' = feed_of c -> socket_of c' = socket_of c ->
  turned c ph c' ph' [].
Proof. intros Hf Hs Ef Es. split; [by exists ds|by rewrite Ef|by rewrite Es]. Qed.

Lemma feed_app cs cs' (h : FeedHandler) : feed (cs ++ cs') h = (feed cs;; feed cs') h.
Proof.
  revert h. induction cs as [|cpl cs IH]; intros h; [done|]. simpl. unfold mbind, prog_bind in *.
  destruct (handle cpl h) as [[? h1]| |]; [apply IH|done|done].
Qed.

Lemma turned_trans c1 ph1 c2 ph2 c3 ph3 cs cs' :
  turned c1 ph1 c2 ph2 cs -> turned c2 ph2 c3 ph3 cs' -> turned c1 ph1 c3 ph3 (cs ++ cs').
Proof.
  intros [(ds & A1 & A2) A3 [A4 A5]] [(ds' & B1 & B2) B3 [B4 B5]]. rewrite A4 in B1.
  split; [|by rewrite feed_app, (bind_Ok _ _ _ _ _ A3)|split; congruence].
  exists (ds ++ ds'). split; [by eapply flow_trans|]. by rewrite omap_app, app_assoc, A2, <- !app_assoc, B2.
Qed.

Lemma turned_posted ops c c' ph : listening c ph -> posted ops c c' -> turned c ph c' ph [].
Proof.
  intros [] [_ _ _ [_ Ef Es (Ha & _)]]. apply (turned_by []); [|by rewrite app_nil_r|done|done].
  by apply arrives_flow.
Qed.

(** The socket object's flags do not matter. *)
Lemma listening_socket impl c ph : listening c ph ->
  socket_ impl = socket_ (socket_of c) -> reactor_data_ impl = reactor_data_ (socket_of c) ->
  listening (with_rest (update_world (set_socket impl)) c) ph /\
  turned c ph (with_rest (update_world (set_socket impl)) c) ph [].
Proof.
  intros [] Es Ed. split; [split; simpl; rewrite ?Es, ?Ed; done|].
  split; simpl; [|done|by rewrite Es, Ed]. exists []. split; [apply arrives_flow, arrives_refl; done|by rewrite app_nil_r].
Qed.
End thread.
