(* ===== verification/NetworkSteps.v ===== *)
(** * The network thread, step by step

    The scheduler's and the reactor's operations keep the invariant of the
    network thread: those that only queue operations; starting a receive; the
    completion handler; performing I/O on a descriptor; and waiting for
    events. *)

From S2P Require Import Prelude SPSCQueue Protocol FeedHandler SocketOps SocketRules SocketModes OpQueue Scheduler EpollReactor ReactorRules SocketService NetworkThread NetworkRules.

Section steps.
Context {Q K : Type} `{TimerQueueBase Q (NetWorld K)} `{NetKernel K} `{!OtherOperations Q K}.
Context (recv_buffer remote_endpoint : ptr) `{!NetKernelOk K (recv_buffer + 8)}.
Context (kq : Z) (kq_range : 0 <= kq <= 63) (cfg : scheduler_config).
Abbreviation data := (recv_buffer + 8).
Abbreviation W := (NetWorld K).
Abbreviation R := (Reactor Q W).
Implicit Types (w : W) (r : R) (c : Ctx R) (o d x : op_ptr) (t : op_type).

Abbreviation kernel_of c := (net_kernel (world (rest c))).
Abbreviation feed_of c := (net_feed (world (rest c))).
Abbreviation ops_of c := (net_ops (world (rest c))).
Abbreviation socket_of c := (_socket (world (rest c))).
Abbreviation posted := (posted recv_buffer).
Abbreviation apart := (apart recv_buffer).
Abbreviation listening := (listening recv_buffer kq).
Abbreviation queue_ops ops := (Operation <$> ops : list operation).

(** ** Queueing *)

Lemma interrupt_apart c : posted [] c (with_rest interrupt c).
Proof.
  unfold with_rest, interrupt, ctl. simpl.
  destruct (k_epoll_ctl _ _ _ _ _) as [[x y] k'] eqn:E. split; try done. simpl.
  pose proof (epoll_ctl_law EPOLL_CTL_MOD interrupter_fd
    (Z.lor (Z.lor EPOLLIN EPOLLERR) EPOLLET) InterrupterPtr (kernel_of c)) as (La & Lb & Lh & Lw).
  rewrite E in *. split; try done. split_and!; [done..|]. intros d Hd. by destruct (Lw d Hd) as [|[? ?]].
Qed.

Lemma modify_posted f c c' :
  queued (with_sched f c') = queued c' -> posted [] c c' -> posted [] c (with_sched f c').
Proof.
  intros Eq Hp. apply (posted_trans_nil recv_buffer _ _ _ _ Hp). split; [by rewrite Eq|reflexivity..].
Qed.

Lemma wp_interrupt_task_posted c : wp interrupt_task c (fun _ c' => posted [] c c').
Proof.
  unfold interrupt_task. apply wp_bind, wp_get_sched.
  destruct (negb _ && _); [|by apply wp_ret, posted_refl].
  apply wp_bind, wp_modify, wp_modify_rest.
  eapply posted_trans_nil; [|apply interrupt_apart]. by apply modify_posted; [|apply posted_refl].
Qed.

Lemma wp_stop_posted c : wp stop c (fun _ c' => posted [] c c').
Proof.
  unfold stop, stop_all_threads. apply wp_bind, wp_modify.
  eapply wp_mono; [apply wp_interrupt_task_posted|]. intros ? c' Hp.
  eapply posted_trans_nil; [|exact Hp]. by apply modify_posted; [|apply posted_refl].
Qed.

Lemma wp_enqueue_posted ops c : wp (enqueue ops) c (fun _ c' => posted ops c c').
Proof.
  unfold enqueue. apply wp_bind, wp_get_sched, wp_bind, wp_modify.
  eapply wp_mono; [apply wp_interrupt_task_posted|]. intros ? c' Hp.
  eapply posted_trans_nil; [|exact Hp]. split; try done. unfold queued. simpl. solve_Permutation.
Qed.

Lemma wp_push_private_posted ops n c : wp (push_private ops n) c (fun _ c' => posted ops c c').
Proof.
  eapply wp_mono; [apply wp_push_private|]. intros ? c' ->. split; try done.
  unfold queued. simpl. solve_Permutation.
Qed.

Lemma wp_work_started_posted c : wp work_started c (fun _ c' => posted [] c c').
Proof. eapply wp_mono; [apply wp_work_started|]. intros ? c' ->. by apply modify_posted; [|apply posted_refl]. Qed.

Lemma wp_post_immediate_posted o ic c :
  wp (post_immediate_completion cfg o ic) c (fun _ c' => posted [Operation o] c c').
Proof.
  unfold post_immediate_completion. apply wp_bind, wp_get_sched.
  destruct (_ && _); [apply wp_push_private_posted|].
  apply wp_bind. eapply wp_mono; [apply wp_work_started_posted|]. intros ? c1 H1.
  eapply wp_mono; [apply wp_enqueue_posted|]. intros ? c2 H2. exact (posted_trans recv_buffer [] _ _ _ _ H1 H2).
Qed.

Lemma wp_post_deferred_posted ops c :
  wp (post_deferred_completions cfg ops) c (fun _ c' => posted (queue_ops ops) c c').
Proof.
  unfold post_deferred_completions. destruct ops as [|o ops]; [by apply wp_ret, posted_refl|].
  apply wp_bind, wp_get_sched. destruct (_ && _); [apply wp_push_private_posted|apply wp_enqueue_posted].
Qed.

Lemma wp_work_finished_posted c : wp work_finished c (fun _ c' => posted [] c c').
Proof.
  unfold work_finished. apply wp_bind, wp_get_sched, wp_bind, wp_modify.
  assert (forall n, posted [] c (with_sched (set_work n) c)) as Hp
    by (intros n; by apply modify_posted; [|apply posted_refl]).
  destruct (_ =? 0); [|by apply wp_ret]. eapply wp_mono; [apply wp_stop_posted|].
  intros ? c'. by apply posted_trans_nil.
Qed.

Lemma wp_work_cleanup_posted c : wp work_cleanup c (fun _ c' => posted [] c c').
Proof.
  unfold work_cleanup. apply wp_bind, wp_get_sched, wp_bind.
  eapply (wp_mono _ _ (fun _ c' => posted [] c c')).
  { destruct (_ >? 1); [apply wp_modify; by apply modify_posted; [|apply posted_refl]|].
    destruct (_ <? 1); [apply wp_work_finished_posted|by apply wp_ret, posted_refl]. }
  intros ? c1 H1. apply wp_bind, wp_get_sched, wp_bind, wp_modify, wp_bind, wp_get_sched, wp_bind, wp_modify.
  apply wp_modify. eapply posted_trans_nil; [exact H1|]. split; try done.
  unfold queued. simpl. by rewrite app_nil_r.
Qed.

(** The task goes back at the end of the queue. *)
Lemma wp_task_cleanup_posted c : wp task_cleanup c (fun _ c' => posted [TaskOperation] c c').
Proof.
  unfold task_cleanup. apply wp_bind, wp_get_sched, wp_bind.
  eapply (wp_mono _ _ (fun _ c' => posted [] c c' /\ private_op_queue (scheduler c') = private_op_queue (scheduler c))).
  { destruct (_ >? 0); [apply wp_modify|apply wp_ret]; (split; [|done]); [|apply posted_refl].
    by apply modify_posted; [|apply posted_refl]. }
  intros ? c1 [H1 Ep]. repeat first [apply wp_bind, wp_modify | apply wp_bind, wp_get_sched | apply wp_modify].
  refine (posted_trans recv_buffer [] [TaskOperation] _ _ _ H1 _). split; try done.
  unfold queued. simpl. rewrite app_nil_r, Ep. solve_Permutation.
Qed.

(** ** Starting a receive *)

Abbreviation turned := (turned recv_buffer).

(** The handler, or a function on its behalf, ends with the operation waiting
    or queued. *)
Definition settles c ph (cs : list completion -> Prop) : unit -> Ctx R -> Prop := fun _ c' =>
  exists ph' cs', resting ph' /\ listening c' ph' /\ turned c ph c' ph' cs' /\ cs cs'.

Lemma settles_later c1 ph1 c2 ph2 cs a c' : turned c1 ph1 c2 ph2 [] -> settles c2 ph2 cs a c' -> settles c1 ph1 cs a c'.
Proof.
  intros H1 (ph' & cs' & Hr & Hl & H2 & Hcs). exists ph', cs'. split_and!; [done|done| |done].
  exact (turned_trans recv_buffer _ _ _ _ _ _ [] _ H1 H2).
Qed.

Lemma settles_here c ph a : resting ph -> listening c ph -> settles c ph (eq []) a c.
Proof.
  intros Hr Hl. exists ph, []. split_and!; [done|done| |done].
  apply (turned_posted recv_buffer kq []); [done|apply posted_refl].
Qed.

Lemma settles_posted ops c ph c' a : resting ph -> listening c ph -> posted ops c c' ->
  (forall x, Operation x ∈ ops -> x ∈ heap (kernel_of c) /\ ops_of c !! x = None) -> settles c ph (eq []) a c'.
Proof.
  intros Hr Hl Hp Hops. eapply settles_later; [by eapply turned_posted|].
  apply settles_here; [done|]. by eapply listening_posted.
Qed.

(** The operation, with an outcome, is queued. *)
Lemma wp_settle_post o v ic c : listening c (InHand o (Some v)) ->
  wp (call_post_immediate_completion cfg o ic) c (settles c (InHand o (Some v)) (eq [])).
Proof.
  intros Hl. eapply wp_mono; [apply wp_post_immediate_posted|]. intros ? c' Hp.
  pose proof (listening_queue _ _ _ _ _ _ Hl Hp) as Hl'.
  exists (Queued o v), []. split_and!; [done|done| |done].
  destruct Hl, Hp as [_ _ _ [_ Ef Es (Ha & _)]]. apply (turned_by recv_buffer []); [by apply arrives_flow| |done|done].
  by rewrite app_nil_r.
Qed.

Lemma with_rest_update (f : W -> W) c :
  with_rest (update_world f) c = with_rest (set_world (f (world (rest c)))) c.
Proof. done. Qed.

(** Its error is set while it is held. *)
Lemma set_ec_held o (y : error_code) c v : listening c (InHand o v) -> seen (InHand o v) = [] ->
  exists v', listening (with_rest (update_world (set_op_ec o y)) c) (InHand o v') /\
    turned c (InHand o v) (with_rest (update_world (set_op_ec o y)) c) (InHand o v') [] /\
    socket_of (with_rest (update_world (set_op_ec o y)) c) = socket_of c /\
    v' = if failed y then Some Failed else None.
Proof.
  intros Hl Hs. destruct (op_found _ _ _ _ o Hl eq_refl) as (op & Eop & Hop).
  exists (if failed y then Some Failed else None). rewrite with_rest_update. simpl.
  rewrite Eop, lookup_singleton_eq.
  split_and!.
  - eapply (listening_hold _ _ _ _ _ (set_ro_ec y op)); [exact Hl|..]; try done.
    + simpl. by rewrite insert_singleton_eq.
    + by destruct (failed y) eqn:E.
    + apply (li_socket _ _ _ _ Hl).
    + pose proof (li_buffer _ _ _ _ Hl) as Hb. destruct v as [[d|]|]; [done|by destruct (failed y)..].
  - apply (turned_by recv_buffer []); [|by rewrite app_nil_r, Hs; destruct (failed y)|done|done].
    apply arrives_flow; [apply (li_socket _ _ _ _ Hl)|apply arrives_refl].
  - done.
  - done.
Qed.

(** Its state is stored with the operation in the read queue. *)
Lemma wp_settle_enqueue o c : listening c (InHand o None) ->
  wp (enqueue_op read_op o (reactor_data_ (socket_of c))) c (settles c (InHand o None) (eq [])).
Proof.
  intros Hl. destruct (li_state _ _ _ _ Hl) as (s & Hs & S1 & S2 & S3 & S4).
  destruct (op_found _ _ _ _ o Hl eq_refl) as (op & Eop & Hop).
  unfold enqueue_op. apply wp_bind. eapply wp_load_state; [exact Hs|]. apply wp_bind, wp_modify_rest.
  rewrite S2. cbn [waits_at app]. set (s' := EpollReactor.set_queue read_op [o] s).
  assert (listening (with_rest (put_at (reactor_data_ (socket_of c)) s') c) (Waiting o)) as Hl'.
  { refine (listening_change _ _ o (InHand o None) (Waiting o) op s' (world (rest c)) c Hl _ _ _ _ _ _ _ _ _ _ _ _ _ _);
      try done; [by exists op|apply (li_socket _ _ _ _ Hl)|exact (li_buffer _ _ _ _ Hl)]. }
  eapply wp_mono; [apply wp_work_started_posted|]. intros a c' Hp.
  refine (settles_later _ _ _ _ _ _ _ _ (settles_posted [] _ (Waiting o) _ a I Hl' Hp _)); [|by intros x ?%elem_of_nil].
  apply (turned_by recv_buffer []); try done.
  apply arrives_flow; [apply (li_socket _ _ _ _ Hl)|apply arrives_refl].
Qed.

(** The phase of an operation that was waiting, or held, after an attempt. *)
Definition after (o : op_ptr) (waits : bool) (v : option received) : phase :=
  match v with
  | Some _ => InHand o v
  | None => if waits then Waiting o else InHand o None
  end.

(** An attempt's outcome, stored with a new descriptor state. *)
Lemma listening_outcome o waits v op' k' n s' c :
  listening c (after o waits None) ->
  receives_on data (socket_ (socket_of c)) op' -> from_option (holds op') True v ->
  outcome_of data (socket_ (socket_of c)) v (kernel_of c) k' ->
  d_shutdown_ s' = false -> op_queues s' read_op = waits_at (after o waits v) ->
  op_queues s' write_op = [] -> op_queues s' except_op = [] ->
  let w' := set_ops {[o := op']} (set_errno n (set_kernel k' (world (rest c)))) in
  let c' := with_rest (fun r => put_at (reactor_data_ (socket_of c)) s' (set_world w' r)) c in
  listening c' (after o waits v) /\ turned c (after o waits None) c' (after o waits v) [] /\
  forall x, other_op recv_buffer c x -> other_op recv_buffer c' x.
Proof.
  intros Hl Hop Hv Ho Hs1 Hs2 Hs3 Hs4 w' c'. destruct (li_state _ _ _ _ Hl) as (s & Hs & _).
  pose proof (li_socket _ _ _ _ Hl) as Hsock.
  assert (buffer (kernel_of c) = payload (_recv_buffer (feed_of c))) as Hb
    by (pose proof (li_buffer _ _ _ _ Hl); by destruct waits).
  destruct (op_found _ _ _ _ o Hl) as (op & Eop & _); [by destruct waits|].
  assert (unqueued (after o waits None) o /\ unqueued (after o waits v) o) as [Hu Hu'] by (by destruct v, waits).
  assert (op_is recv_buffer (after o waits v) (socket_ (socket_of c)) {[o := op']}) as Hop2
    by (destruct v, waits; by exists op').
  destruct (outcome_facts data _ v (kernel_of c) k' Hsock Ho) as (O1 & O2 & O3 & O4 & O5).
  split; [|split].
  - refine (listening_change _ _ o _ _ op' s' w' c Hl Hu Hu' eq_refl Hop2 eq_refl eq_refl O1 O4 O5 _ Hs1 Hs2 Hs3 Hs4).
    rewrite Hb in O3. by destruct v as [[d|]|], waits.
  - apply (turned_by recv_buffer (taken v)); [exact O2|by destruct v as [[d|]|], waits|done..].
  - intros x (X1 & X2 & X3). split_and!; simpl; [by rewrite O4|..].
    + rewrite Eop, lookup_singleton_None in X2. by rewrite lookup_singleton_None.
    + rewrite lookup_insert_ne; [done|]. intros <-. congruence.
Qed.

(** Performing the receive operation, before its outcome is stored. *)
Lemma wp_perform_receive o waits c : listening c (after o waits None) ->
  wp (perform_op o) c (fun st c' => exists op' k' n v,
    c' = with_rest (set_world (set_ops {[o := op']} (set_errno n (set_kernel k' (world (rest c)))))) c /\
    receives_on data (socket_ (socket_of c)) op' /\ from_option (holds op') True v /\
    outcome_of data (socket_ (socket_of c)) v (kernel_of c) k' /\
    st = match v with Some _ => done | None => not_done end /\
    (receives_reliably data -> v = Some Failed -> inbox (data := data) (kernel_of c) (socket_ (socket_of c)) = [])).
Proof.
  intros Hl. destruct (op_found _ _ _ _ o Hl) as (op & Eop & Hop); [by destruct waits|].
  destruct (recvfrom_performed data _ o op _ Hop (li_socket _ _ _ _ Hl)) as (st & op' & k' & n & Hr & Hop' & Hst).
  unfold perform_op. apply wp_bind, wp_get_reactor, wp_bind. cbn [perform net_reactor_world]. rewrite Eop, lookup_singleton_eq.
  eapply wp_lift; [exact Hr|]. apply wp_bind, wp_modify_rest, wp_ret. rewrite Eop, insert_singleton_eq.
  destruct st; [|destruct Hst as (x & Hx & Ho & Hrel)|done].
  - by exists op', k', n, None.
  - exists op', k', n, (Some x). split_and!; [done..|]. intros Hrel' [= ->]. by apply Hrel.
Qed.

(** Performing the receive that is held. *)
Lemma wp_perform_held o c : listening c (InHand o None) ->
  wp (perform_op o) c (fun st c' => exists v,
    st = match v with Some _ => done | None => not_done end /\
    listening c' (InHand o v) /\ turned c (InHand o None) c' (InHand o v) [] /\
    socket_of c' = socket_of c).
Proof.
  intros Hl. destruct (li_state _ _ _ _ Hl) as (s & Hs & S1 & S2 & S3 & S4).
  eapply wp_mono; [by apply (wp_perform_receive o false)|]. intros st c' (op' & k' & n & v & -> & Hop & Hv & Ho & -> & _).
  assert (after o false v = InHand o v) as Ea by (by destruct v).
  destruct (listening_outcome o false v op' k' n s c Hl Hop Hv Ho S1) as (G1 & G2 & _); [by rewrite Ea|done..|].
  set (w' := set_ops _ _) in *.
  assert (forall r, r = rest c -> put_at (reactor_data_ (socket_of c)) s (set_world w' r) = set_world w' r) as Ep.
  { intros r ->. unfold put_at, set_world, set_states. simpl. by rewrite (insert_id _ _ _ Hs). }
  exists v. rewrite Ea in *. unfold with_rest in *. by rewrite Ep in G1, G2.
Qed.

(** The operation's error is set, and it is queued. *)
Lemma wp_settle_error o (y : error_code) v ic c : listening c (InHand o v) -> seen (InHand o v) = [] -> failed y = true ->
  wp (modify_world (set_op_ec o y);; call_post_immediate_completion cfg o ic) c (settles c (InHand o v) (eq [])).
Proof.
  intros Hl Hs Hy. destruct (set_ec_held o y c v Hl Hs) as (v' & Hl' & Ht & _ & ->). rewrite Hy in *.
  apply wp_bind, wp_modify_rest. eapply wp_mono; [by apply wp_settle_post|]. intros a c'. by apply settles_later.
Qed.

Lemma wp_net_start_op o c : listening c (InHand o None) ->
  wp (start_op read_op (socket_ (socket_of c)) (reactor_data_ (socket_of c)) o false true
        (call_post_immediate_completion cfg)) c (settles c (InHand o None) (eq [])).
Proof.
  intros Hl. destruct (li_state _ _ _ _ Hl) as (s & Hs & S1 & S2 & S3 & S4).
  unfold start_op. cbv zeta.
  replace (reactor_data_ (socket_of c) =? null) with false; [|symmetry; apply Z.eqb_neq; intros E;
    rewrite E in Hs; apply (heap_null (data := data) (kernel_of c)), (li_states _ _ _ _ Hl _ _ Hs)].
  apply wp_bind. eapply wp_load_state; [exact Hs|]. rewrite S1, S2. cbn [waits_at].
  rewrite S4, (bool_decide_eq_true_2 (@eq (list op_ptr) [] [])) by done. simpl. apply wp_bind.
  eapply (wp_mono _ _ (fun st c' => exists v,
    st = match v with Some _ => done | None => not_done end /\
    listening c' (InHand o v) /\ turned c (InHand o None) c' (InHand o v) [] /\ socket_of c' = socket_of c)).
  { destruct (try_speculative_ s read_op); [by apply wp_perform_held|]. apply wp_ret. exists None. split_and!; [done..| |done].
    apply (turned_posted recv_buffer kq []); [done|apply posted_refl]. }
  intros st c' ([v|] & -> & Hl' & Ht & Esk).
  - eapply wp_mono; [by apply wp_settle_post|]. intros a c2. by apply settles_later.
  - destruct (registered_events_ s =? 0).
    + eapply wp_mono; [by apply wp_settle_error|]. intros a c2. by apply settles_later.
    + rewrite <- Esk. eapply wp_mono; [by apply wp_settle_enqueue|]. intros a c2. by apply settles_later.
Qed.

(** Making the socket non-blocking, for the operation. *)
Lemma wp_make_non_blocking o c impl : listening c (InHand o None) -> socket_ impl = socket_ (socket_of c) ->
  wp (make_non_blocking impl o) c (fun p c' =>
    let v := if (p.1 : bool) then None else Some Failed in
    listening c' (InHand o v) /\ turned c (InHand o None) c' (InHand o v) [] /\ socket_of c' = socket_of c /\
    socket_ p.2 = socket_ impl /\ reactor_data_ p.2 = reactor_data_ impl).
Proof.
  intros Hl Esk. unfold make_non_blocking. apply wp_bind, wp_get_reactor, wp_bind. unfold sys.
  apply wp_bind, wp_get_reactor, wp_bind.
  set (e := mkEnv _ _ _).
  destruct (set_internal_frame data (socket_ impl) (state_ impl) true e) as ([ok state] & e' & Hr & Hf & Hx);
    [rewrite Esk; apply (li_open _ _ _ _ Hl)|done|].
  eapply wp_lift; [exact Hr|]. apply wp_bind, wp_modify_rest, wp_ret, wp_bind.
  set (c1 := with_rest (update_world (os_update (kernel e') (errno e'))) c).
  assert (posted [] c c1) as Hp1 by (split; [done..|]; by split).
  assert (listening c1 (InHand o None)) as Hl1 by (eapply listening_posted; [done..|]; by intros x ?%elem_of_nil).
  destruct (set_ec_held o (ec e') c1 None Hl1 eq_refl) as (v' & Hl2 & Ht2 & Esk2 & ->).
  apply wp_modify_rest, wp_ret. simpl in Hx. cbn [fst snd].
  replace (if ok then None else Some Failed) with (if failed (ec e') then Some Failed else None)
    by (rewrite Hx; by destruct ok).
  split; [exact Hl2|]. split; [|by split_and!; [rewrite Esk2|..]].
  exact (turned_trans recv_buffer _ _ _ _ _ _ [] [] (turned_posted recv_buffer kq [] _ _ _ Hl Hp1) Ht2).
Qed.

(** ... and starting it, from a socket object that is the thread's. *)
Lemma wp_do_start o c : listening c (InHand o None) ->
  wp (service_start_op cfg (socket_of c) read_op o false true false true) c (fun impl c' =>
    settles c (InHand o None) (eq []) tt c' /\
    socket_ impl = socket_ (socket_of c) /\ reactor_data_ impl = reactor_data_ (socket_of c)).
Proof.
  intros Hl. unfold service_start_op, do_start_op. apply wp_bind.
  eapply (wp_mono _ _ (fun p c' =>
    let v := if (p.1 : bool) then None else Some Failed in
    listening c' (InHand o v) /\ turned c (InHand o None) c' (InHand o v) [] /\ socket_of c' = socket_of c /\
    socket_ p.2 = socket_ (socket_of c) /\ reactor_data_ p.2 = reactor_data_ (socket_of c))).
  { destruct (has _ _); simpl; [|by apply wp_make_non_blocking]. apply wp_ret. split_and!; try done.
    apply (turned_posted recv_buffer kq []); [done|apply posted_refl]. }
  intros [start impl] c1 (Hl1 & Ht1 & Esk & E1 & E2). cbn [fst snd] in *. apply wp_bind.

  eapply (wp_mono _ _ (settles c1 (InHand o (if start then None else Some Failed)) (eq []))).
  { destruct start; [|by apply wp_settle_post]. rewrite E1, E2, <- Esk. by apply wp_net_start_op. }
  intros [] c2 Hs2. apply wp_ret. split; [|done]. by eapply settles_later.
Qed.

(** [start_receive], called when there is no receive operation. *)
Lemma wp_start_receive c : listening c Running ->
  wp (start_receive cfg recv_buffer remote_endpoint) c (settles c Running (eq [])).
Proof.
  intros Hl. unfold start_receive, async_receive_from. apply wp_bind. unfold get_world.
  apply wp_bind, wp_get_reactor, wp_ret. destruct (k_new (kernel_of c)) as [o k] eqn:Enew.
  pose proof (new_law (kernel_of c)) as Hnew. rewrite Enew in Hnew. destruct Hnew as (N1 & N2 & N3 & N4 & N5).
  apply wp_bind, wp_modify_rest. set (op := mkRecvfrom _ _ _ _ _ _ _ _). set (c1 := with_rest _ c).
  assert (listening c1 (InHand o None) /\ turned c Running c1 (InHand o None) []) as [Hl1 Ht1].
  { pose proof (li_ops _ _ _ _ Hl) as Eop. cbn in Eop. pose proof (li_states _ _ _ _ Hl) as Hst.
    assert (forall x, x ∈ heap (kernel_of c) -> x <> o) as Hne by (by intros x Hx ->). destruct Hl.
    split; [|apply (turned_by recv_buffer []); [by apply arrives_flow|done..]].
    split; simpl; rewrite ?N4, ?Eop, ?insert_empty; try done.
    - by apply N2.
    - exists op. by split_and!.
    - intros x [op' Hx]. apply lookup_singleton_Some in Hx as [<- _].
      split; [by apply elem_of_union_l, elem_of_singleton|].
      apply eq_None_not_Some. intros [s Hs]. by apply (Hne o (proj1 (Hst o s Hs))).
    - intros d s Hs. destruct (Hst d s Hs) as [Hd Hx]. split; [by apply elem_of_union_r|]. intros Hdd t x Hin.
      destruct (Hx Hdd t x Hin) as (X1 & X2 & X3). split; [simpl; rewrite N4; by apply elem_of_union_r|].
      split; [|done].
      simpl. rewrite Eop, insert_empty. apply lookup_singleton_None. intros <-. by apply (Hne o).
    - intros x Hx. auto.
    - intros x Hx. by apply elem_of_union_r, li_queued.
    - intros Hin. by apply (Hne o); [apply li_queued|].
    - by rewrite N3. }
  cbn [has message_out_of_band]. apply wp_bind. change (_socket (world (rest c))) with (socket_of c1).
  eapply wp_mono; [by apply wp_do_start|]. intros impl c2 ((ph' & cs & Hr & Hl2 & Ht2 & <-) & E1 & E2).
  apply wp_modify_rest. destruct (tu_socket _ _ _ _ _ _ Ht2) as [E3 E4].
  destruct (listening_socket _ _ impl c2 ph' Hl2) as [Hl3 Ht3]; [congruence..|].
  exists ph', []. split_and!; [done|exact Hl3| |done].
  exact (turned_trans recv_buffer _ _ _ _ _ _ [] [] Ht1 (turned_trans recv_buffer _ _ _ _ _ _ [] [] Ht2 Ht3)).
Qed.

(** ** The completion handler *)

(** The completion that an outcome is, at the time stamp [tsc]. *)
Definition completion_of (tsc : Z) (v : received) : completion :=
  match v with Got d => Datagram tsc d | Failed => RecvError tsc end.

Lemma on_receive_payload b tsc n h h' :
  on_receive b tsc n h = Ok (tt, h') -> payload (_recv_buffer h') = payload (_recv_buffer h).
Proof.
  unfold on_receive. intros Hr. apply bind_Ok_inv in Hr as (? & ? & [= <- <-] & Hr).
  apply bind_Ok_inv in Hr as (? & ? & [= <- <-] & Hr). destruct (negb b && _).
  - apply bind_Ok_inv in Hr as (pushed & h1 & Hp & Hr). unfold push_buffer in Hp.
    destruct (push _ _) as [[? q]| |]; [|done|done]. injection Hp as <- <-. destruct (negb _); injection Hr as <-; done.
  - destruct b; injection Hr as <-; done.
Qed.

(** With what the kernel wrote loaded, the lambda does what FeedHandler.v's
    [handle] does. *)
Lemma handler_is_handle o v op tsc k h :
  buffer_is (InHand o (Some v)) (payload (_recv_buffer h)) (buffer (data := data) k) -> holds op v ->
  (load_buffer recv_buffer k;; on_receive (failed (ro_ec_ op)) tsc (ro_bytes_transferred_ op)) h =
    handle (completion_of tsc v) h /\
  forall h', handle (completion_of tsc v) h = Ok (tt, h') -> payload (_recv_buffer h') = buffer (data := data) k.
Proof.
  unfold buffer. destruct v as [d|]; simpl; intros Hb Hop.
  - destruct Hop as [-> ->]. unfold load_buffer. rewrite Hb.
    assert (Z.min (Z.of_nat (length d)) BUFFER_SIZE = Z.of_nat (length (take (Z.to_nat BUFFER_SIZE) d))) as ->.
    { rewrite length_take. change BUFFER_SIZE with 56. lia. }
    split; [done|]. intros h' Hr. apply bind_Ok_inv in Hr as (? & ? & [= <- <-] & Hr). unfold received_into in Hr.
    apply bind_Ok_inv in Hr as (? & ? & [= <- <-] & Hr). by apply on_receive_payload in Hr.
  - rewrite Hop. unfold load_buffer. rewrite Hb. destruct h as [q [t p] n e]. split; [done|].
    intros h' Hr. by apply on_receive_payload in Hr.
Qed.

Lemma wp_recvfrom_complete o v op c : listening c (InHand o (Some v)) -> ops_of c !! o = Some op ->
  wp (recvfrom_complete cfg recv_buffer remote_endpoint o op) c
    (settles c (InHand o (Some v)) (fun cs => exists tsc, cs = [completion_of tsc v])).
Proof.
  intros Hl Hop. pose proof (li_ops _ _ _ _ Hl) as (op' & Eop & Hrec & Hv). cbn in Hv.
  rewrite Eop, lookup_singleton_eq in Hop. injection Hop as ->.
  unfold recvfrom_complete. apply wp_bind, wp_modify_rest. set (c1 := with_rest _ c).
  unfold receive_handler. apply wp_bind. unfold get_world at 1. apply wp_bind, wp_get_reactor, wp_ret.
  destruct (k_rdtsc (kernel_of c1)) as [tsc k] eqn:Etsc.
  destruct (delete_law (data := data) o (kernel_of c)) as (D1 & D2 & D3 & D4).
  pose proof (rdtsc_law (data := data) (kernel_of c1)) as Hf. rewrite Etsc in Hf. destruct Hf as (F1 & F2 & F3 & F4).
  cbn [snd] in *. apply wp_bind, wp_modify_rest, wp_bind. unfold run_feed.
  apply wp_bind. unfold get_world at 1. apply wp_bind, wp_get_reactor, wp_ret, wp_bind.
  destruct (li_feed _ _ _ _ Hl) as [l Hfeed].
  destruct (wp_handle kq kq_range (completion_of tsc v) (feed_of c) l (fun _ h' => exists l', feeding kq h' l') Hfeed)
    as ([] & h' & Hh & Hfeed').
  { intros h'. destruct (admit_packets _ _ _). eauto. }
  assert (buffer (data := data) k = buffer (data := data) (kernel_of c)) as Ebuf by (rewrite F2; exact D2).
  destruct (handler_is_handle o v op tsc k (feed_of c)) as [Eh Hpay]; [rewrite Ebuf; apply (li_buffer _ _ _ _ Hl)|done|].
  eapply wp_lift; [by etrans; [exact Eh|exact Hh]|]. apply wp_modify_rest.
  match goal with |- wp _ ?x _ => set (c2 := x) end.
  assert (Htake : listening c2 Running /\ turned c (InHand o (Some v)) c2 Running [completion_of tsc v]).
  { assert (arrives (data := data) (kernel_of c) k) as Ha by (by eapply arrives_trans).
    assert (heap (data := data) k = heap (data := data) (kernel_of c) ∖ {[o]}) as Eheap by (by rewrite F3).
    pose proof (li_queue _ _ _ _ Hl) as Hq. cbn in Hq.
    assert (forall x, x <> o -> x ∈ heap (data := data) (kernel_of c) -> x ∈ heap (data := data) k) as Hkeep.
    { intros x Hx Hin. rewrite Eheap. by apply elem_of_difference; split; [|intros ?%elem_of_singleton]. }
    destruct Hl. split.
    - split; simpl; rewrite ?Eop, ?delete_singleton_eq; try done.
      + by apply Ha.
      + by intros x [? Hx].
      + intros d s Hs. destruct (li_states d s Hs) as [Hd Hx]. split.
        { apply Hkeep; [|done]. intros ->. destruct (li_new o) as [_ Hn]; [rewrite Eop, lookup_singleton_eq; by eexists|].
          congruence. }
        intros Hne t x Hin. destruct (Hx Hne t x Hin) as (X1 & X2 & X3). split.
        { apply Hkeep; [|done]. intros ->. by rewrite Eop, lookup_singleton_eq in X2. }
        simpl. by rewrite Eop, delete_singleton_eq.
      + intros d Hd. auto.
      + intros x Hx. apply Hkeep; [|auto]. by intros ->.
      + symmetry. by apply Hpay.
    - split; [|simpl; by rewrite (bind_Ok _ _ _ _ _ Hh)|done].
      exists []. split; [by apply arrives_flow|]. by destruct v. }
  destruct Htake as [Hl2 Ht2]. eapply wp_mono; [by apply wp_start_receive|].
  intros [] c3 (ph' & cs & Hr & Hl3 & Ht3 & <-). exists ph', [completion_of tsc v]. split_and!; [done|done| |by exists tsc].
  exact (turned_trans recv_buffer _ _ _ _ _ _ [_] [] Ht2 Ht3).
Qed.
End steps.
