(* ===== verification/NetworkLoop.v ===== *)
(** * The network thread's event loop

    Completing a descriptor's operations, waiting for events, and one turn of
    [do_run_one], from any state between two operations of the scheduler. *)

From S2P Require Import Prelude SPSCQueue Protocol FeedHandler SocketOps SocketRules OpQueue Scheduler EpollReactor ReactorRules SocketService NetworkThread NetworkRules NetworkSteps.

(** What is assumed of the other operations of the io_context: they leave the
    feed handler's operation alone, and their handlers leave the thread as it
    must be between two operations. *)
Class OtherOperationsOk (Q K : Type) `{TimerQueueBase Q (NetWorld K)} `{NetKernel K} `{!OtherOperations Q K}
    (recv_buffer : ptr) `{!NetKernelOk K (recv_buffer + 8)} (kq : Z) := {
  other_perform_ok x (w : NetWorld K) : exists st w', other_perform x w = Ok (st, w') /\ apart recv_buffer w w';
  other_complete_ok x c ph : resting ph -> listening recv_buffer kq c ph -> other_op recv_buffer c x ->
    wp (other_complete x) c (settles recv_buffer kq c ph (eq []));
}.

Section loop.
Context {Q K : Type} `{TimerQueueBase Q (NetWorld K)} `{NetKernel K} `{!OtherOperations Q K}.
Context (recv_buffer remote_endpoint : ptr) `{!NetKernelOk K (recv_buffer + 8)}.
Context (kq : Z) (kq_range : 0 <= kq <= 63) (cfg : scheduler_config).
Context `{!OtherOperationsOk Q K recv_buffer kq}.
Abbreviation data := (recv_buffer + 8).
Abbreviation W := (NetWorld K).
Abbreviation R := (Reactor Q W).
Implicit Types (w : W) (r : R) (c : Ctx R) (o d x : op_ptr) (t : op_type).

Abbreviation kernel_of c := (net_kernel (world (rest c))).
Abbreviation feed_of c := (net_feed (world (rest c))).
Abbreviation ops_of c := (net_ops (world (rest c))).
Abbreviation socket_of c := (_socket (world (rest c))).
Abbreviation posted := (posted recv_buffer).
Abbreviation apart := (apart recv_buffer).
Abbreviation listening := (listening recv_buffer kq).
Abbreviation turned := (turned recv_buffer).
Abbreviation other_op := (other_op recv_buffer).
Abbreviation settles := (settles recv_buffer kq).

(** A descriptor state is stored with operations taken out of its queues,
    none of which is the socket's. *)
Lemma listening_put d s s' c ph : listening c ph -> states (rest c) !! d = Some s ->
  (forall t x, x ∈ op_queues s' t -> x ∈ op_queues s t) ->
  (d = reactor_data_ (socket_of c) -> d_shutdown_ s' = d_shutdown_ s /\ forall t, op_queues s' t = op_queues s t) ->
  listening (with_rest (put_at d s') c) ph /\ turned c ph (with_rest (put_at d s') c) ph [] /\
  forall x, other_op c x -> other_op (with_rest (put_at d s') c) x.
Proof.
  intros Hl Hs Hq Hd.
  assert (forall x, states (rest c) !! x = None -> <[d:=s']> (states (rest c)) !! x = None) as Hst.
  { intros x Hx. rewrite lookup_insert_ne; [done|]. intros ->. congruence. }
  assert (forall x, other_op c x -> other_op (with_rest (put_at d s') c) x) as Ho.
  { intros x (X1 & X2 & X3). split_and!; [done|done|by apply Hst]. }
  split_and!; [|apply (turned_by recv_buffer []); [|by rewrite app_nil_r|done|done]|exact Ho].
  2: { apply arrives_flow; [apply (li_socket _ _ _ _ Hl)|apply arrives_refl]. }
  destruct Hl. split; simpl; try done.
  - intros x Hx. destruct (li_new x Hx) as [? Hn]. split; [done|by apply Hst].
  - destruct li_state as (s0 & Hs0 & E1 & E2 & E3 & E4).
    destruct (decide (d = reactor_data_ (socket_of c))) as [->|Hne].
    + rewrite Hs in Hs0. injection Hs0 as <-. exists s'. rewrite lookup_insert_eq. destruct (Hd eq_refl) as [-> Hq'].
      by rewrite !Hq'.
    + exists s0. by rewrite lookup_insert_ne.
  - intros d' s0. destruct (decide (d = d')) as [<-|Hne].
    + rewrite lookup_insert_eq. intros [= <-]. destruct (li_states d s Hs) as [? Hx]. split; [done|].
      intros Hne t x Hin. apply Ho. eapply Hx; eauto.
    + rewrite lookup_insert_ne by done. intros Hs0. destruct (li_states d' s0 Hs0) as [? Hx]. split; [done|].
      intros Hne' t x Hin. apply Ho. eapply Hx; eauto.
  - intros d' Hw. destruct (decide (d = d')) as [<-|Hne]; [rewrite lookup_insert_eq; by eexists|].
    rewrite lookup_insert_ne by done. auto.
Qed.

(** ** The operations of other descriptors *)

Lemma wp_perform_queue_other q c ph : listening c ph -> (forall x, x ∈ q -> other_op c x) ->
  wp (perform_queue q) c (fun p c' => q = p.1.1 ++ p.1.2 /\ posted [] c c').
Proof.
  revert c. induction q as [|x q IH]; intros c Hl Hq; simpl; [apply wp_ret; split; [done|apply posted_refl]|].
  apply wp_bind. unfold perform_op. apply wp_bind, wp_get_reactor, wp_bind.
  destruct (other_perform_ok x (world (rest c))) as (st & w' & Hr & Ha).
  destruct (Hq x) as (X1 & X2 & X3); [by left|]. cbn [perform net_reactor_world]. rewrite X2.
  eapply wp_lift; [exact Hr|]. apply wp_bind, wp_modify_rest, wp_ret.
  assert (posted [] c (with_rest (set_world w') c)) as Hp by (by split).
  assert (listening (with_rest (set_world w') c) ph) as Hl' by (eapply listening_posted; [done..|]; by intros ? ?%elem_of_nil).
  destruct st; [by apply wp_ret| |by apply wp_ret].
  apply wp_bind. eapply wp_mono; [apply IH; [done|]|].
  - intros y Hy. eapply posted_other_op; [done|]. apply Hq. by right.
  - intros [[ops rem] ex] c' [-> Hp']. apply wp_ret. split; [done|]. by eapply posted_trans_nil.
Qed.

(** What performing some of the operations of a descriptor leaves. *)
Definition performs c ph (ops : list op_ptr) c' ph' : Prop :=
  listening c' ph' /\ turned c ph c' ph' [] /\ (forall x, other_op c x -> other_op c' x) /\
  (resting ph' /\ (forall x, x ∈ ops -> other_op c' x) \/ exists o v, ops = [o] /\ ph' = InHand o (Some v)).

Lemma performs_none c ph : listening c ph -> resting ph -> performs c ph [] c ph.
Proof.
  intros Hl Hr. split_and!; [done|by apply (turned_posted recv_buffer kq []); [|apply posted_refl]|done|].
  left. split; [done|]. by intros x ?%elem_of_nil.
Qed.

Lemma wp_perform_type_other events d t c ph : resting ph -> listening c ph -> is_Some (states (rest c) !! d) ->
  d <> reactor_data_ (socket_of c) ->
  wp (perform_type events d t) c (fun ops c' => performs c ph ops c' ph /\ is_Some (states (rest c') !! d)).
Proof.
  intros Hr Hl [s Hs] Hd. unfold perform_type. destruct (negb _); [|by apply wp_ret; split; [apply performs_none|]].
  apply wp_bind. eapply wp_load_state; [exact Hs|]. apply wp_bind.
  assert (forall x, x ∈ op_queues s t -> other_op c x) as Ho by (intros x; by apply (li_states _ _ _ _ Hl d s Hs)).
  eapply wp_mono; [by eapply wp_perform_queue_other|]. intros [[ops rem] ex] c1 [Eq Hp1]. cbn [fst snd] in *.
  assert (listening c1 ph) as Hl1 by (eapply listening_posted; [done..|]; by intros ? ?%elem_of_nil).
  apply wp_bind, wp_modify_rest, wp_ret.
  assert (states (rest c1) !! d = Some s) as Hs1 by (by rewrite (po_states _ _ _ _ Hp1)).
  set (s' := EpollReactor.set_queue t rem (set_speculative t (negb ex) s)).
  destruct (listening_put d s s' c1 ph Hl1 Hs1) as (Hl2 & Ht2 & Ho2).
  { intros t' x. unfold s', EpollReactor.set_queue, array_set. simpl. destruct (decide (t = t')) as [<-|]; [|done].
    rewrite Eq, elem_of_app. auto. }
  { intros E. by rewrite (ap_socket _ _ _ (po_world _ _ _ _ Hp1)) in E. }
  split; [|simpl; rewrite lookup_insert_eq; by eexists].
  assert (forall x, other_op c x -> other_op (with_rest (put_at d s') c1) x) as Hkeep
    by (intros x Hx; apply Ho2; by eapply posted_other_op).
  split_and!; [done| |exact Hkeep|].
  - exact (turned_trans recv_buffer _ _ _ _ _ _ [] [] (turned_posted recv_buffer kq [] _ _ _ Hl Hp1) Ht2).
  - left. split; [done|]. intros x Hx. apply Hkeep, Ho. rewrite Eq, elem_of_app. auto.
Qed.

(** ** The socket's receive operation *)

(** Types with nothing waiting. *)
Lemma wp_perform_type_idle events t c ph s : resting ph -> listening c ph ->
  states (rest c) !! reactor_data_ (socket_of c) = Some s -> op_queues s t = [] ->
  wp (perform_type events (reactor_data_ (socket_of c)) t) c (fun ops c' =>
    ops = [] /\ performs c ph [] c' ph /\ world (rest c') = world (rest c)).
Proof.
  intros Hr Hl Hs Ht. unfold perform_type.
  destruct (negb _); [|by apply wp_ret; split_and!; [|apply performs_none|]].
  apply wp_bind. eapply wp_load_state; [exact Hs|]. rewrite Ht. apply wp_bind, wp_ret, wp_bind, wp_modify_rest, wp_ret.
  set (s' := EpollReactor.set_queue t [] (set_speculative t (negb false) s)).
  assert (forall t', op_queues s' t' = op_queues s t') as Hq.
  { intros t'. unfold s', EpollReactor.set_queue, array_set. simpl. by destruct (decide (t = t')) as [<-|]. }
  destruct (listening_put _ s s' c ph Hl Hs) as (Hl' & Ht' & Ho); [by intros t' x; rewrite Hq|done|].
  split_and!; [done| |done]. split_and!; [done|done|exact Ho|]. left. split; [done|]. by intros x ?%elem_of_nil.
Qed.

(** Why a receive operation that waits would go on waiting: the events are
    not for it, or no datagram has arrived. *)
Definition unready (events : Z) c ph : Prop :=
  match ph with
  | Waiting _ => Z.land events (Z.lor (Z.lor EPOLLIN EPOLLERR) EPOLLHUP) = 0 \/
                 inbox (data := data) (kernel_of c) (socket_ (socket_of c)) = []
  | _ => True
  end.

(** What shows that the receive has come to nothing: it goes on waiting, or
    has failed although a receive that finds a datagram does not. *)
Definition unserved ph : Prop := resting ph \/ receives_reliably data /\ exists o, ph = InHand o (Some Failed).

(** The read queue, with the receive operation in it. *)
Lemma wp_perform_type_read events c o : listening c (Waiting o) ->
  wp (perform_type events (reactor_data_ (socket_of c)) read_op) c (fun ops c' =>
    exists ph', performs c (Waiting o) ops c' ph' /\ (ops = [] -> resting ph') /\
      (unserved ph' -> unready events c (Waiting o))).
Proof.
  intros Hl. unfold perform_type. destruct (Z.land _ _ =? 0) eqn:Ev; simpl negb; cbv iota; zb.
  { apply wp_ret. exists (Waiting o). split_and!; [by apply performs_none|done|]. intros _. by left. }
  destruct (li_state _ _ _ _ Hl) as (s & Hs & S1 & S2 & S3 & S4).
  apply wp_bind. eapply wp_load_state; [exact Hs|]. rewrite S2. cbn [waits_at perform_queue].
  apply wp_bind, wp_bind. eapply wp_mono; [by apply (wp_perform_receive _ kq o true)|].
  intros st c' (op' & k' & n & v & -> & Hop & Hv & Ho & -> & Hrel). set (w' := set_ops _ _).
  destruct v as [x|].
  - apply wp_bind, wp_ret, wp_ret, wp_bind, wp_modify_rest, wp_ret.
    set (s' := EpollReactor.set_queue read_op [] (set_speculative read_op (negb false) s)).
    destruct (listening_outcome _ _ o true (Some x) op' k' n s' c Hl Hop Hv Ho) as (G1 & G2 & G3); [done..|].
    exists (InHand o (Some x)). split; [|split; [done|]].
    + split_and!; [exact G1|exact G2|exact G3|]. right. by exists o, x.
    + intros [?|[Hr (? & [= <- ->])]]; [done|]. right. by apply Hrel.
  - apply wp_ret, wp_bind, wp_modify_rest, wp_ret.
    set (s' := EpollReactor.set_queue read_op [o] (set_speculative read_op (negb false) s)).
    destruct (listening_outcome _ _ o true None op' k' n s' c Hl Hop Hv Ho) as (G1 & G2 & G3); [done..|].
    exists (Waiting o). split; [|split; [done|intros _; right; apply Ho]].
    split_and!; [exact G1|exact G2|exact G3|]. left. split; [done|]. by intros y ?%elem_of_nil.
Qed.

(** ** Completing a descriptor *)

Lemma performs_trans c1 ph1 c2 ph2 ops2 c3 ph3 ops3 :
  performs c1 ph1 ops2 c2 ph2 -> performs c2 ph2 ops3 c3 ph3 ->
  listening c3 ph3 /\ turned c1 ph1 c3 ph3 [] /\ (forall x, other_op c1 x -> other_op c3 x) /\
  (forall x, other_op c2 x -> other_op c3 x).
Proof.
  intros (A1 & A2 & A3 & _) (B1 & B2 & B3 & _). split_and!; [done| |auto|done].
  exact (turned_trans recv_buffer _ _ _ _ _ _ [] [] A2 B2).
Qed.

(** The operation to complete: none, another operation, or the receive. *)
Definition to_complete x c ph : Prop :=
  resting ph /\ (x = null \/ other_op c x) \/ exists v, ph = InHand x (Some v).

Lemma wp_finish_io ops c1 ph1 c ph : listening c1 ph1 -> performs c1 ph1 ops c ph ->
  wp (match ops with
      | first_op :: ops => post_deferred_completions cfg ops;; mret first_op
      | [] => compensating_work_started;; mret null
      end) c (fun x c' => listening c' ph /\ turned c1 ph1 c' ph [] /\
                          ((ops = [] -> resting ph) -> to_complete x c' ph)).
Proof.
  intros Hl1 (Hl & Ht & _ & Hops). destruct ops as [|x ops]; apply wp_bind.
  - eapply wp_mono; [apply (wp_push_private_posted recv_buffer [] 1)|]. intros ? c' Hp. apply wp_ret.
    assert (listening c' ph) as Hl' by (eapply listening_posted; [exact Hl|exact Hp|]; by intros ? ?%elem_of_nil).
    split_and!; [done| |intros Hr; left; split; [by apply Hr|by left]].
    exact (turned_trans recv_buffer _ _ _ _ _ _ [] [] Ht (turned_posted recv_buffer kq [] _ _ _ Hl Hp)).
  - eapply wp_mono; [apply wp_post_deferred_posted|]. intros ? c' Hp. apply wp_ret.
    assert (listening c' ph) as Hl'.
    { eapply listening_posted; [exact Hl|exact Hp|]. intros y (z & [= <-] & Hy)%list_elem_of_fmap.
      destruct Hops as [[_ Hops]|(o & v & [= -> ->] & _)]; [|by apply elem_of_nil in Hy].
      destruct (Hops y) as (Y1 & Y2 & _); [by right|]. done. }
    split_and!; [done| |intros _].
    + exact (turned_trans recv_buffer _ _ _ _ _ _ [] [] Ht (turned_posted recv_buffer kq _ _ _ _ Hl Hp)).
    + destruct Hops as [[Hr Hops]|(o & v & [= -> ->] & ->)]; [|right; by exists v].
      left. split; [done|]. right. eapply posted_other_op; [exact Hp|]. apply Hops. by left.
Qed.

Lemma wp_net_perform_io events d c ph : resting ph -> listening c ph -> is_Some (states (rest c) !! d) ->
  wp (perform_io cfg events d) c (fun x c' => exists ph',
    listening c' ph' /\ turned c ph c' ph' [] /\ to_complete x c' ph' /\
    (d <> reactor_data_ (socket_of c) -> ph' = ph) /\
    (d = reactor_data_ (socket_of c) -> unserved ph' -> unready events c ph)).
Proof.
  intros Hr Hl Hd. unfold perform_io. destruct (decide (d = reactor_data_ (socket_of c))) as [->|Hne].
  - destruct (li_state _ _ _ _ Hl) as (s & Hs & S1 & S2 & S3 & S4).
    apply wp_bind. eapply wp_mono; [by eapply wp_perform_type_idle|]. intros ops1 c1 (-> & P1 & E1).
    assert (listening c1 ph) as Hl1 by apply P1.
    destruct (li_state _ _ _ _ Hl1) as (s1 & Hs1 & _ & T2 & T3 & T4).
    apply wp_bind. rewrite <- E1. eapply wp_mono; [by eapply wp_perform_type_idle|]. intros ops2 c2 (-> & P2 & E2).
    destruct (performs_trans _ _ _ _ _ _ _ _ P1 P2) as (Hl2 & Ht2 & _).
    destruct (li_state _ _ _ _ Hl2) as (s2 & Hs2 & _ & U2 & U3 & U4).
    apply wp_bind. rewrite <- E2. simpl.
    eapply (wp_mono _ _ (fun ops c' => exists ph', performs c2 ph ops c' ph' /\ (ops = [] -> resting ph') /\
      (unserved ph' -> unready events c2 ph))).
    { destruct ph as [o|o v| |]; [by apply wp_perform_type_read| |done|done].
      eapply wp_mono; [by eapply wp_perform_type_idle|]. intros ops c' (-> & P3 & _). by exists (Queued o v). }
    intros ops c3 (ph' & P3 & Hre & Hun). eapply wp_mono; [by eapply (wp_finish_io ops c2 ph)|].
    intros x c' (F1 & F2 & F4). exists ph'. split_and!; [done| |by apply F4|done|].
    + exact (turned_trans recv_buffer _ _ _ _ _ _ [] [] Ht2 F2).
    + intros _ Hre'. specialize (Hun Hre'). unfold unready in *. by rewrite E2, E1 in Hun.
  - apply wp_bind. eapply wp_mono; [by apply wp_perform_type_other|]. intros ops1 c1 [P1 D1].
    assert (forall c', turned c ph c' ph [] -> d <> reactor_data_ (socket_of c')) as Hne'
      by (intros c' [_ _ [_ ->]]; done).
    pose proof P1 as (Hl1 & Ht1 & _).
    apply wp_bind. eapply wp_mono; [apply wp_perform_type_other; by eauto|]. intros ops2 c2 [P2 D2].
    destruct (performs_trans _ _ _ _ _ _ _ _ P1 P2) as (Hl2 & Ht2 & _ & K2).
    apply wp_bind. eapply wp_mono; [apply wp_perform_type_other; by eauto|]. intros ops3 c3 [P3 D3].
    pose proof P3 as (Hl3 & Ht3 & K3 & _).
    eapply wp_mono; [eapply (wp_finish_io (ops1 ++ ops2 ++ ops3) c ph c3 ph); [done|]|].
    { split; [done|]. split; [exact (turned_trans recv_buffer _ _ _ _ _ _ [] [] Ht2 Ht3)|].
      split; [destruct P1 as (_ & _ & K1 & _); by auto|].
      left. split; [done|]. intros x. rewrite !elem_of_app. intros [Hx|[Hx|Hx]].
      - destruct P1 as (_ & _ & _ & [[_ P1]|(o & v & _ & ->)]); [auto|done].
      - destruct P2 as (_ & _ & _ & [[_ P2]|(o & v & _ & ->)]); [auto|done].
      - destruct P3 as (_ & _ & _ & [[_ P3]|(o & v & _ & ->)]); [auto|done]. }
    intros x c' (F1 & F2 & F4). exists ph. split_and!; [done|done|by apply F4|done|done].
Qed.

(** ** Completing an operation *)

Abbreviation handlers := (net_handlers cfg recv_buffer remote_endpoint).

Definition at_most_one (cs : list completion) : Prop := (length cs <= 1)%nat.

Lemma settles_mono c ph (P P' : list completion -> Prop) a c' :
  (forall cs, P cs -> P' cs) -> settles c ph P a c' -> settles c ph P' a c'.
Proof. intros HP (ph' & cs & Hr & Hl & Ht & Hcs). exists ph', cs. auto. Qed.

Lemma wp_complete_receive x v c : listening c (InHand x (Some v)) ->
  wp (complete_op (Handlers := handlers) x) c
    (settles c (InHand x (Some v)) (fun cs => exists tsc, cs = [completion_of tsc v])).
Proof.
  intros Hl. unfold complete_op, net_handlers, net_complete.
  destruct (op_found _ _ _ _ x Hl eq_refl) as (op & Eop & _).
  apply wp_bind. unfold get_world. apply wp_bind, wp_get_reactor, wp_ret. rewrite Eop, lookup_singleton_eq.
  apply (wp_recvfrom_complete recv_buffer remote_endpoint kq kq_range cfg x v op c Hl).
  by rewrite Eop, lookup_singleton_eq.
Qed.

Lemma wp_complete_other x c ph : resting ph -> listening c ph -> other_op c x ->
  wp (complete_op (Handlers := handlers) x) c (settles c ph at_most_one).
Proof.
  intros Hr Hl Ho. unfold complete_op, net_handlers, net_complete.
  apply wp_bind. unfold get_world. apply wp_bind, wp_get_reactor, wp_ret.
  destruct Ho as (X1 & X2 & X3). rewrite X2.
  eapply wp_mono; [by apply (other_complete_ok x c ph)|]. intros a c'. apply settles_mono. intros cs <-.
  unfold at_most_one. simpl. lia.
Qed.

(** Nothing has been handled, or no datagram although receives are reliable. *)
Definition fruitless (cs : list completion) : Prop :=
  cs = [] \/ receives_reliably data /\ omap datagram cs = [].

(** A turn runs the handler at most once, and does if the descriptor is the
    socket's and a datagram is ready. *)
Definition handled (events : Z) x c ph (cs : list completion) : Prop :=
  at_most_one cs /\ (x = reactor_data_ (socket_of c) -> fruitless cs -> unready events c ph).

Lemma wp_net_do_complete d bytes c ph : resting ph -> listening c ph -> is_Some (states (rest c) !! d) ->
  wp (do_complete (H1 := handlers) cfg d bytes) c (settles c ph (handled (u32 bytes) d c ph)).
Proof.
  intros Hr Hl Hd. unfold do_complete. apply wp_bind. eapply wp_mono; [by eapply wp_net_perform_io|].
  intros x c1 (ph1 & Hl1 & Ht1 & Hx & _ & Hun).
  assert (forall a c', resting ph1 -> settles c1 ph1 at_most_one a c' ->
    settles c ph (handled (u32 bytes) d c ph) a c') as Hrest.
  { intros a c' Hr1 Hs. eapply settles_later; [exact Ht1|]. eapply settles_mono; [|exact Hs].
    split; [done|]. intros Hd' _. apply Hun; [done|by left]. }
  destruct Hx as [[Hr1 Hx]|[v ->]].
  - destruct (negb (x =? null)) eqn:Enull.
    + destruct Hx as [->|Ho]; [done|]. eapply wp_mono; [by apply wp_complete_other|]. auto.
    + apply wp_ret, Hrest; [done|]. eapply settles_mono; [|by apply settles_here].
      intros cs <-. unfold at_most_one. simpl. lia.
  - assert (x <> null) as Hx.
    { intros ->. apply (heap_null (data := data) (kernel_of c1)). apply (li_new _ _ _ _ Hl1).
      destruct (op_found _ _ _ _ null Hl1 eq_refl) as (op & Eop & _). rewrite Eop, lookup_singleton_eq. by eexists. }
    rewrite (proj2 (Z.eqb_neq _ _) Hx). simpl. eapply wp_mono; [by apply wp_complete_receive|].
    intros a c' Hs. eapply settles_later; [exact Ht1|]. eapply settles_mono; [|exact Hs].
    intros cs [tsc ->]. split; [by unfold at_most_one|]. intros Hd' [?|[Hrel Hcs]]; [done|]. apply Hun; [done|].
    right. split; [done|]. exists x. by destruct v.
Qed.

(** ** Waiting for events *)

(** A context with [ops] in the private queue. *)
Definition with_private (ops : list operation) r c : Ctx R :=
  mkCtx (set_thread (running (scheduler c)) ops (private_outstanding_work (scheduler c)) (scheduler c)) r.

Definition keeps_phase c ph c' : Prop := listening c' ph /\ turned c ph c' ph [].

Lemma keeps_refl c ph : listening c ph -> keeps_phase c ph c.
Proof. intros Hl. split; [done|]. by apply (turned_posted recv_buffer kq []); [|apply posted_refl]. Qed.

Lemma keeps_trans c1 c2 c3 ph : keeps_phase c1 ph c2 -> keeps_phase c2 ph c3 -> keeps_phase c1 ph c3.
Proof. intros [_ H1] [Hl H2]. split; [done|]. exact (turned_trans recv_buffer _ _ _ _ _ _ [] [] H1 H2). Qed.

Lemma keeps_posted ops c c' ph : listening c ph -> posted ops c c' ->
  (forall x, Operation x ∈ ops -> x ∈ heap (kernel_of c) /\ ops_of c !! x = None) -> keeps_phase c ph c'.
Proof. intros Hl Hp Hops. split; [by eapply listening_posted|by eapply turned_posted]. Qed.

(** A descriptor's address is allocated, and is not the receive operation. *)
Lemma state_heap c ph d : listening c ph -> is_Some (states (rest c) !! d) ->
  d ∈ heap (kernel_of c) /\ ops_of c !! d = None.
Proof.
  intros Hl [s Hs]. split; [by apply (li_states _ _ _ _ Hl d s Hs)|]. apply eq_None_not_Some. intros Ho.
  destruct (li_new _ _ _ _ Hl d Ho). congruence.
Qed.

Lemma dispatch_event_keeps ev check ops r c ph : listening (with_private ops r c) ph ->
  (forall d, ev.1 = DescriptorPtr d -> is_Some (states r !! d)) ->
  exists check' ops' r', dispatch_event ev (check, ops, r) = Ok (check', ops', r') /\
    keeps_phase (with_private ops r c) ph (with_private ops' r' c) /\
    (forall d, is_Some (states r !! d) -> is_Some (states r' !! d)).
Proof.
  intros Hl Hd. unfold dispatch_event. destruct ev as [[| |d] events]; simpl in *.
  - eexists _, ops, r. split; [done|]. split; [by apply keeps_refl|done].
  - eexists _, ops, r. split; [done|]. split; [by apply keeps_refl|done].
  - destruct (Hd d eq_refl) as [s Hs]. unfold state_at. rewrite Hs. cbn [mbind outcome_bind].
    assert (forall s', op_queues s' = op_queues s -> d_shutdown_ s' = d_shutdown_ s ->
      keeps_phase (with_private ops r c) ph (with_private ops (put_at d s' r) c) /\
      (forall d', is_Some (states r !! d') -> is_Some (states (put_at d s' r) !! d'))) as Hput.
    { intros s' Eq Es. destruct (listening_put d s s' (with_private ops r c) ph Hl Hs) as (Hl' & Ht' & _).
      - intros t x. by rewrite Eq.
      - intros _. by rewrite Eq.
      - split; [by split|]. intros d' Hd'. simpl. destruct (decide (d = d')) as [<-|Hne].
        + rewrite lookup_insert_eq. by eexists.
        + by rewrite lookup_insert_ne. }
    destruct (negb _).
    + destruct (Hput (set_ready_events events s)) as [Hk Hsome]; [done..|].
      eexists _, _, _. split; [done|]. split; [|exact Hsome]. eapply keeps_trans; [exact Hk|].
      eapply (keeps_posted [Operation d]); [by apply Hk|split; [|done..]|].
      * unfold queued, with_private. simpl. solve_Permutation.
      * intros x [= ->]%list_elem_of_singleton. eapply state_heap; [by apply Hk|]. apply Hsome. by eexists.
    + destruct (Hput (add_ready_events events s)) as [Hk Hsome]; [done..|].
      eexists _, _, _. split; [done|]. by split.
Qed.

Lemma dispatch_events_keeps evs check ops r c ph : listening (with_private ops r c) ph ->
  (forall d, DescriptorPtr d ∈ evs.*1 -> is_Some (states r !! d)) ->
  exists check' ops' r', dispatch_events evs (check, ops, r) = Ok (check', ops', r') /\
    keeps_phase (with_private ops r c) ph (with_private ops' r' c).
Proof.
  revert check ops r. induction evs as [|ev evs IH]; intros check ops r Hl Hd.
  { eexists _, _, _. split; [done|]. by apply keeps_refl. }
  destruct (dispatch_event_keeps ev check ops r c ph Hl) as (check1 & ops1 & r1 & E1 & Hk1 & Hs1).
  { intros d Ed. apply Hd. rewrite fmap_cons, Ed. by left. }
  destruct (IH check1 ops1 r1) as (check2 & ops2 & r2 & E2 & Hk2).
  { apply Hk1. }
  { intros d Hin. apply Hs1, Hd. rewrite fmap_cons. by right. }
  exists check2, ops2, r2. cbn [dispatch_events]. rewrite E1. cbn [mbind outcome_bind]. split; [exact E2|]. by eapply keeps_trans.
Qed.

Lemma wp_net_run_task usec c ph : listening c ph -> wp (run_task usec) c (fun _ c' => keeps_phase c ph c').
Proof.
  intros Hl. unfold run_task. apply wp_bind, wp_get, wp_bind. cbn [task_run reactor_task]. unfold reactor_run.
  match goal with |- context [epoll_wait ?x _] => generalize x; intros timeout end.
  cbn [epoll_wait net_reactor_world]. destruct (k_epoll_wait timeout (kernel_of c)) as [evs k] eqn:Ew.
  destruct (epoll_wait_law (data := data) timeout (kernel_of c)) as [Hf Hev]. rewrite Ew in Hf, Hev. cbn [fst snd] in *.
  set (r1 := set_world _ _). set (ops := private_op_queue (scheduler c)).
  assert (posted [] c (with_private ops r1 c)) as Hp1 by (split; [done..|]; by split).
  assert (keeps_phase c ph (with_private ops r1 c)) as Hk1
    by (eapply keeps_posted; [done..|]; by intros ? ?%elem_of_nil).
  destruct (dispatch_events_keeps evs (timer_fd_ r1 =? -1) ops r1 c ph) as (check & ops2 & r2 & E2 & Hk2).
  { apply Hk1. }
  { intros d Hin. apply (li_watched _ _ _ _ Hl), Hev, Hin. }
  rewrite E2. cbn [mbind outcome_bind].
  assert (keeps_phase c ph (with_private ops2 r2 c)) as Hk3 by (by eapply keeps_trans).
  destruct check; [|eapply wp_lift; [done|]; apply wp_put; exact Hk3].
  pose proof (li_timers _ _ _ _ (proj1 Hk3)) as Et. simpl in Et. rewrite Et. cbn [get_ready_timers mbind outcome_bind].
  eapply wp_lift; [done|]. apply wp_put. rewrite fmap_nil, app_nil_r. eapply keeps_trans; [exact Hk3|].
  assert (set_world (world r2) (set_timer_queues [] r2) = r2) as -> by (unfold set_world, set_timer_queues; simpl; rewrite <- Et; by destruct r2).
  eapply (keeps_posted []); [apply Hk3| |by intros ? ?%elem_of_nil]. split; [done|..]; simpl; destruct (negb _); try done;
    unfold set_timer; destruct (get_timeout_ts _) as [[flags sec] nsec]; try done. split; try done.
  apply (timerfd_law (data := data)).
Qed.

(** ** One turn *)

Abbreviation net_operations := (reactor_operations (H1 := handlers) cfg).

(** An operation taken from the queue that can be completed. *)
Definition ready x c ph : Prop :=
  resting ph /\ (is_Some (states (rest c) !! x) \/ other_op c x) \/ exists v, ph = InHand x (Some v).

Lemma ready_posted x c c' ph : posted [] c c' -> ready x c ph -> ready x c' ph.
Proof.
  intros Hp [[Hr [Hs|Ho]]|Hv]; [left; split; [done|]..|by right].
  - left. by rewrite (po_states _ _ _ _ Hp).
  - right. by eapply posted_other_op.
Qed.

Lemma take_operation x c c' ph : resting ph -> listening c ph ->
  queued c ≡ₚ Operation x :: queued c' -> rest c' = rest c ->
  exists ph', listening c' ph' /\ turned c ph c' ph' [] /\ ready x c' ph' /\ (forall o, ph = Waiting o -> ph' = ph).
Proof.
  intros Hr Hl Eq Er.
  assert (forall ph', seen ph' = seen ph -> turned c ph c' ph' []) as Ht.
  { intros ph' Hs. apply (turned_by recv_buffer []); rewrite ?Er, ?Hs, ?app_nil_r; try done.
    apply arrives_flow; [apply (li_socket _ _ _ _ Hl)|apply arrives_refl]. }
  assert ((exists v, ph = Queued x v) \/ forall o v, ph = Queued o v -> Operation x <> Operation o) as [[v ->]|Hne].
  { destruct ph as [o|o v|o v|]; try (right; by intros). destruct (decide (x = o)) as [->|]; [left; by eexists|].
    right. intros ? ? [= <- <-] [= ?]. congruence. }
  - exists (InHand x (Some v)). split_and!; [by eapply listening_take|by apply Ht| |done]. right. by exists v.
  - assert (listening c' ph) as Hl' by (by eapply listening_drop).
    exists ph. split_and!; [done|by apply Ht| |done]. left. split; [done|].
    destruct (states (rest c') !! x) as [s|] eqn:Es; [left; by eexists|right].
    assert (Operation x ∈ queued c) as Hin by (rewrite Eq; by left).
    split_and!; [rewrite Er; by apply (li_queued _ _ _ _ Hl)| |done]. rewrite Er.
    pose proof (li_ops _ _ _ _ Hl) as Hop. pose proof (li_queue _ _ _ _ Hl) as Hq.
    destruct ph as [o|o v|o v|]; try done; destruct Hop as (op & -> & _); apply lookup_singleton_None.
    + intros <-. done.
    + intros <-. by apply (Hne o v).
Qed.

Lemma unready_earlier events c c' ph : listening c ph -> posted [] c c' -> unready events c' ph -> unready events c ph.
Proof.
  intros Hl Hp. destruct ph; [|done..]. intros [?|He]; [by left|right].
  rewrite (ap_socket _ _ _ (po_world _ _ _ _ Hp)) in He.
  destruct (proj1 (ap_kernel _ _ _ (po_world _ _ _ _ Hp)) _ (li_socket _ _ _ _ Hl)) as [_ [a Ea]].
  rewrite He in Ea. symmetry in Ea. by apply app_eq_nil in Ea as [? _].
Qed.

Definition result_of x c : Z := task_result (Operations := net_operations) x (rest c).

Lemma wp_net_complete_operation x more c ph : listening c ph -> ready x c ph ->
  wp (complete_operation (H1 := net_operations) cfg x more) c (settles c ph (handled (u32 (result_of x c)) x c ph)).
Proof.
  intros Hl Hx. unfold complete_operation. apply wp_bind, wp_get, wp_bind.
  eapply (wp_mono _ _ (fun _ c' => posted [] c c')).
  { destruct (more && _); [apply wp_interrupt_task_posted|apply wp_ret, posted_refl]. }
  intros ? c1 Hp1.
  assert (listening c1 ph) as Hl1 by (eapply listening_posted; [exact Hl|exact Hp1|]; by intros ? ?%elem_of_nil).
  apply (ready_posted x) with (ph := ph) in Hp1 as Hx1; [|done]. fold (result_of x c).
  apply wp_bind. eapply (wp_mono _ _ (settles c1 ph (handled (u32 (result_of x c)) x c ph))).
  { cbn [op_complete reactor_operations]. generalize (result_of x c). intros result.
    change (wp (fun c => match states (rest c) !! x with
                         | Some _ => do_complete (H1 := handlers) cfg x result c
                         | None => complete_op (Handlers := handlers) x c end) c1
              (settles c1 ph (handled (u32 result) x c ph))).
    unfold wp. destruct Hx1 as [[Hr [Hs|Ho]]|[v ->]].
    - pose proof Hs as [s ->]. eapply wp_mono; [by apply wp_net_do_complete|]. intros ? c'. apply settles_mono.
      intros cs [H1 H2]. split; [done|]. intros Ex Ecs. eapply unready_earlier; [exact Hl|exact Hp1|].
      apply H2; [|done]. by rewrite (ap_socket _ _ _ (po_world _ _ _ _ Hp1)).
    - destruct Ho as (X1 & X2 & X3) eqn:E. rewrite X3. eapply wp_mono; [by apply wp_complete_other|].
      intros ? c'. apply settles_mono. intros cs H1. split; [done|]. intros Ex _. exfalso.
      destruct (li_state _ _ _ _ Hl1) as (s & Hs & _). rewrite (ap_socket _ _ _ (po_world _ _ _ _ Hp1)), <- Ex in Hs. congruence.
    - destruct (li_new _ _ _ _ Hl1 x) as [_ ->].
      { destruct (op_found _ _ _ _ x Hl1 eq_refl) as (op & -> & _). rewrite lookup_singleton_eq. by eexists. }
      eapply wp_mono; [by apply wp_complete_receive|]. intros ? c'. apply settles_mono. intros cs [tsc ->].
      split; [by unfold at_most_one|]. intros -> _. exfalso. destruct (li_state _ _ _ _ Hl1) as (s & Hs & _).
      rewrite (ap_socket _ _ _ (po_world _ _ _ _ Hp1)) in Hs. destruct (li_new _ _ _ _ Hl1 (reactor_data_ (socket_of c))) as [_ ?].
      { destruct (op_found _ _ _ _ (reactor_data_ (socket_of c)) Hl1 eq_refl) as (op & -> & _). rewrite lookup_singleton_eq. by eexists. }
      congruence. }
  intros ? c2 (ph2 & cs & Hr2 & Hl2 & Ht2 & Hcs). eapply wp_mono; [apply wp_work_cleanup_posted|]. intros ? c3 Hp3.
  exists ph2, (cs ++ []). split_and!; [done| | |by rewrite app_nil_r].
  - eapply listening_posted; [exact Hl2|exact Hp3|]. by intros ? ?%elem_of_nil.
  - refine (turned_trans recv_buffer _ _ _ _ _ _ _ _ _ (turned_posted recv_buffer kq _ _ _ _ Hl2 Hp3)).
    exact (turned_trans recv_buffer _ _ _ _ _ _ [] _ (turned_posted recv_buffer kq _ _ _ _ Hl Hp1) Ht2).
Qed.

(** The outcome of a computation whose fuel may run out. *)
Definition if_done {A} (m : prog (Ctx R) A) c (Phi : A -> Ctx R -> Prop) : Prop :=
  match m c with Ok (a, c') => Phi a c' | Undefined _ => False | OutOfFuel => True end.

Lemma if_done_bind {A B} (m : prog (Ctx R) A) (k : A -> prog (Ctx R) B) c Phi :
  wp m c (fun a c' => if_done (k a) c' Phi) -> if_done (m ≫= k) c Phi.
Proof. intros (a & c' & E & Hk). unfold if_done, mbind, prog_bind in *. by rewrite E. Qed.

Lemma if_done_wp {A} (m : prog (Ctx R) A) c Phi : wp m c Phi -> if_done m c Phi.
Proof. intros (a & c' & E & HP). unfold if_done. by rewrite E. Qed.

Lemma if_done_mono {A} (m : prog (Ctx R) A) c (Phi Psi : A -> Ctx R -> Prop) :
  if_done m c Phi -> (forall a c', Phi a c' -> Psi a c') -> if_done m c Psi.
Proof. unfold if_done. destruct (m c) as [[a c']| |]; auto. Qed.

Lemma keeps_settles c c1 ph a c' : keeps_phase c ph c1 -> settles c1 ph at_most_one a c' -> settles c ph at_most_one a c'.
Proof. intros [_ Ht]. by apply settles_later. Qed.

Lemma do_run_one_keeps fuel c ph : resting ph -> listening c ph ->
  if_done (do_run_one (H1 := net_operations) cfg fuel) c (fun _ c' => settles c ph at_most_one tt c').
Proof.
  intros Hr. revert c. induction fuel as [|fuel IH]; intros c Hl; [done|]. cbn [do_run_one].
  apply if_done_bind, wp_get_sched.
  assert (settles c ph at_most_one tt c) as Hnone.
  { eapply settles_mono; [|by apply settles_here]. intros cs <-. unfold at_most_one. simpl. lia. }
  destruct (stopped_ (scheduler c)); [apply if_done_wp, wp_ret; exact Hnone|].
  destruct (op_queue_ (scheduler c)) as [|x q] eqn:Eq; [by apply IH|]. cbv zeta.
  apply if_done_bind, wp_modify.
  set (c1 := with_sched (Scheduler.set_op_queue q) c).
  assert (queued c ≡ₚ x :: queued c1) as Eq1 by (unfold queued; simpl; by rewrite Eq).
  destruct x as [|x].
  - apply if_done_bind, wp_modify. set (c2 := with_sched _ c1).
    assert (keeps_phase c ph c2) as Hk2.
    { split; [by eapply (listening_drop _ _ TaskOperation ph c); [|intros|exact Eq1|]|]. apply (turned_by recv_buffer []); [|by rewrite app_nil_r|done|done].
      apply arrives_flow; [apply (li_socket _ _ _ _ Hl)|apply arrives_refl]. }
    apply if_done_bind. eapply wp_mono; [apply wp_net_run_task, Hk2|]. intros ? c3 Hk3.
    apply if_done_bind. eapply wp_mono; [apply wp_task_cleanup_posted|]. intros ? c4 Hp4.
    assert (keeps_phase c ph c4) as Hk4.
    { eapply keeps_trans; [exact Hk2|]. eapply keeps_trans; [exact Hk3|]. eapply keeps_posted; [apply Hk3|exact Hp4|].
      by intros ? [= ]%list_elem_of_singleton. }
    eapply if_done_mono; [apply IH, Hk4|]. intros n c' Hs. by eapply keeps_settles.
  - destruct (take_operation x c c1 ph Hr Hl Eq1 eq_refl) as (ph1 & Hl1 & Ht1 & Hx1 & _).
    apply if_done_bind. eapply wp_mono; [by apply wp_net_complete_operation|]. intros ? c2 Hs2.
    apply if_done_wp, wp_ret. eapply settles_later; [exact Ht1|]. eapply settles_mono; [|exact Hs2]. by intros cs [Hcs _].
Qed.

End loop.
