(* ===== verification/NetworkLive.v ===== *)
(** * The network thread gets on

    A datagram that has arrived, whose socket epoll reports, is handled after
    finitely many turns of the loop, whatever else is queued or reported. *)

From S2P Require Import Prelude SPSCQueue Protocol FeedHandler SocketOps SocketRules OpQueue Scheduler SchedulerFair EpollReactor ReactorRules SocketService NetworkThread NetworkRules NetworkSteps NetworkLoop.

(** ** Steps that leave the queue and a descriptor alone

    New entries go to the back of the queue, and the state of the descriptor
    [d] is as it was. *)
Section calm.
Context {Q W : Type} `{TimerQueueBase Q W} `{ReactorWorld W} (cfg : scheduler_config) (d : op_ptr).
Abbreviation R := (Reactor Q W).
Implicit Types (c : Ctx R).

Definition calm c c' : Prop :=
  grows (scheduler c) (scheduler c') /\ states (rest c') !! d = states (rest c) !! d.

Lemma calm_refl c : calm c c.
Proof. split; [apply grows_refl|done]. Qed.

Lemma calm_trans c1 c2 c3 : calm c1 c2 -> calm c2 c3 -> calm c1 c3.
Proof. intros [G1 S1] [G2 S2]. split; [by eapply grows_trans|congruence]. Qed.

(** Whatever [m] returns, it is calm. *)
Definition calmly {A} (m : prog (Ctx R) A) : Prop := forall c a c', m c = Ok (a, c') -> calm c c'.

Lemma calmly_ret {A} (a : A) : calmly (mret a).
Proof. intros c b c' [= <- <-]. apply calm_refl. Qed.

Lemma calmly_bind {A B} (m : prog (Ctx R) A) (k : A -> prog (Ctx R) B) :
  calmly m -> (forall a, calmly (k a)) -> calmly (m ≫= k).
Proof.
  intros Hm Hk c b c' (a & c1 & E1 & E2)%bind_Ok_inv. eapply calm_trans; [by eapply Hm|by eapply Hk].
Qed.

Lemma calmly_modify f : (forall s, grows s (f s)) -> calmly (modify f).
Proof. intros Hf c a c' [= <- <-]. split; [apply Hf|done]. Qed.

Lemma calmly_modify_rest f : (forall r, states (f r) !! d = states r !! d) -> calmly (modify_rest f).
Proof. intros Hf c a c' [= <- <-]. split; [apply grows_refl|apply Hf]. Qed.

Lemma calmly_get_sched : calmly get_sched.
Proof. intros c a c' [= <- <-]. apply calm_refl. Qed.

Lemma calmly_get_state : calmly get_state.
Proof. intros c a c' [= <- <-]. apply calm_refl. Qed.

Lemma calmly_get_reactor : calmly get_reactor.
Proof. intros c a c' [= <- <-]. apply calm_refl. Qed.

Lemma calmly_lift {A} (o : outcome A) : calmly (lift o).
Proof. intros c a c'. unfold lift. destruct o; [|done..]. intros [= <- <-]. apply calm_refl. Qed.

Lemma wp_calm {A} (m : prog (Ctx R) A) c Phi : wp m c Phi -> calmly m -> wp m c (fun a c' => Phi a c' /\ calm c c').
Proof. intros (a & c' & E & HP) Hm. exists a, c'. split_and!; [done|done|by eapply Hm]. Qed.

(** A change of the scheduler that appends to the queue and does not start
    it. *)
Lemma grows_by f s new : op_queue_ (f s) = op_queue_ s ++ new -> (stopped_ s = true -> stopped_ (f s) = true) -> grows s (f s).
Proof. intros Hq Hs. split; [by exists new|done]. Qed.

Ltac keeps_queue := intros s; apply (grows_by _ s []); [by rewrite app_nil_r|done].

Ltac calm_one := first
  [ apply calmly_ret | apply calmly_get_sched | apply calmly_get_state | apply calmly_get_reactor | apply calmly_lift
  | apply calmly_modify; keeps_queue ].
Ltac calm_step := first [calm_one | apply calmly_bind; [try calm_one|intros ?]].

Lemma calmly_interrupt : calmly (interrupt_task (R := R)).
Proof.
  unfold interrupt_task. calm_step. destruct (_ && _); [|calm_step].
  calm_step. apply calmly_modify_rest. intros r. simpl. unfold interrupt, ctl. by destruct (epoll_ctl _ _ _ _ _) as [[??]?].
Qed.

Lemma calmly_stop : calmly (stop (R := R)).
Proof. unfold stop, stop_all_threads. calm_step. apply calmly_interrupt. Qed.

Lemma calmly_work_finished : calmly (work_finished (R := R)).
Proof. unfold work_finished. do 2 calm_step. destruct (_ =? 0); [apply calmly_stop|calm_step]. Qed.

(** The private queue may be put behind the queue. *)
Lemma calmly_append : calmly (s ← get_sched; modify (set_op_queue (op_queue_ s ++ private_op_queue s))).
Proof.
  intros c a c' (s & c1 & [= <- <-] & [= <- <-])%bind_Ok_inv. split; [|done].
  apply (grows_by (set_op_queue (op_queue_ (scheduler c) ++ private_op_queue (scheduler c))) _ (private_op_queue (scheduler c))); done.
Qed.

Lemma calmly_seq {A B D} (m : prog (Ctx R) A) (k : A -> prog (Ctx R) B) (j : A -> prog (Ctx R) D) :
  calmly (m ≫= k) -> (forall a, calmly (j a)) -> calmly (x ← m; k x;; j x).
Proof.
  intros Hm Hj c b c' (x & c1 & E1 & (y & c2 & E2 & E3)%bind_Ok_inv)%bind_Ok_inv.
  eapply calm_trans; [|by eapply Hj]. apply (Hm c y c2). by rewrite (bind_Ok _ _ _ _ _ E1).
Qed.

Lemma calmly_work_cleanup : calmly (work_cleanup (R := R)).
Proof.
  unfold work_cleanup. do 2 calm_step.
  - destruct (_ >? 1); [calm_step|]. destruct (_ <? 1); [apply calmly_work_finished|calm_step].
  - do 2 calm_step. apply calmly_seq; [apply calmly_append|intros ?; calm_step].
Qed.

Lemma calmly_enqueue ops : calmly (enqueue (R := R) ops).
Proof.
  unfold enqueue. apply calmly_seq; [|intros ?; apply calmly_interrupt].
  intros c a c' (s & c1 & [= <- <-] & [= <- <-])%bind_Ok_inv. split; [|done].
  by apply (grows_by (set_op_queue (op_queue_ (scheduler c) ++ ops)) _ ops).
Qed.

Lemma calmly_push_private ops n : calmly (push_private (R := R) ops n).
Proof. unfold push_private. by repeat calm_step. Qed.

Lemma calmly_post_deferred ops : calmly (post_deferred_completions (R := R) cfg ops).
Proof.
  unfold post_deferred_completions. destruct ops; [calm_step|]. calm_step.
  destruct (_ && _); [apply calmly_push_private|apply calmly_enqueue].
Qed.

(** The I/O of another descriptor. *)
Lemma calmly_perform_queue q : calmly (perform_queue (Q := Q) q).
Proof.
  induction q as [|o q IH]; simpl; [calm_step|]. calm_step.
  - unfold perform_op. do 2 calm_step. destruct a0 as [st w]. calm_step; [|calm_step]. by apply calmly_modify_rest.
  - destruct a; [calm_step| |calm_step]. calm_step; [exact IH|]. destruct a as [[??]?]. calm_step.
Qed.

Lemma calmly_perform_type events d' t : d' <> d -> calmly (perform_type (Q := Q) events d' t).
Proof.
  intros Hd. unfold perform_type. destruct (negb _); [|calm_step]. unfold load_state. calm_step; [by repeat calm_step|].
  calm_step; [apply calmly_perform_queue|]. destruct a0 as [[??]?]. calm_step; [|calm_step].
  apply calmly_modify_rest. intros r. by apply lookup_insert_ne.
Qed.

Lemma calmly_perform_io events d' : d' <> d -> calmly (perform_io cfg events d').
Proof.
  intros Hd. unfold perform_io. do 3 (calm_step; [by apply calmly_perform_type|]).
  destruct (_ ++ _); (calm_step; [|calm_step]); [apply calmly_push_private|apply calmly_post_deferred].
Qed.
End calm.

(** What is assumed of the other operations' handlers for this: they leave the
    receive operation where it is, and the socket's descriptor as it is, and
    only add to the queue. *)
Class OtherOperationsCalm (Q K : Type) `{TimerQueueBase Q (NetWorld K)} `{NetKernel K} `{!OtherOperations Q K}
    (recv_buffer : ptr) `{!NetKernelOk K (recv_buffer + 8)} (kq : Z) := {
  other_complete_calm x c ph : resting ph -> listening recv_buffer kq c ph -> other_op recv_buffer c x ->
    wp (other_complete x) c (fun _ c' => keeps_phase recv_buffer kq c ph c' /\
      calm (reactor_data_ (_socket (world (rest c)))) c c');
}.

Section live.
Context {Q K : Type} `{TimerQueueBase Q (NetWorld K)} `{NetKernel K} `{!OtherOperations Q K}.
Context (recv_buffer remote_endpoint : ptr) `{!NetKernelOk K (recv_buffer + 8)}.
Context (kq : Z) (kq_range : 0 <= kq <= 63) (cfg : scheduler_config).
Context `{!OtherOperationsOk Q K recv_buffer kq} `{!OtherOperationsCalm Q K recv_buffer kq}.
Abbreviation data := (recv_buffer + 8).
Abbreviation R := (Reactor Q (NetWorld K)).
Implicit Types (r : R) (c : Ctx R) (o d x : op_ptr).

Abbreviation kernel_of c := (net_kernel (world (rest c))).
Abbreviation socket_of c := (_socket (world (rest c))).
Abbreviation socket_state c := (reactor_data_ (socket_of c)).
Abbreviation listening := (listening recv_buffer kq).
Abbreviation turned := (turned recv_buffer).
Abbreviation keeps_phase := (keeps_phase recv_buffer kq).
Abbreviation handlers := (net_handlers cfg recv_buffer remote_endpoint).
Abbreviation net_operations := (reactor_operations (H1 := handlers) cfg).
Abbreviation loop := (do_run_one (H1 := net_operations) cfg).

Lemma keeps_socket c ph c' : keeps_phase c ph c' -> socket_state c' = socket_state c.
Proof. intros [_ [_ _ [_ E]]]. exact E. Qed.

(** ** The operations in front of the socket's *)

(** [c'] comes after [c], with the receive operation waiting still. *)
Definition waits c o c' : Prop := keeps_phase c (Waiting o) c' /\ calm (socket_state c) c c'.

Lemma waits_trans c1 c2 c3 o : waits c1 o c2 -> waits c2 o c3 -> waits c1 o c3.
Proof.
  intros [K1 C1] [K2 C2]. split; [by eapply keeps_trans|]. rewrite (keeps_socket _ _ _ K1) in C2.
  by eapply calm_trans.
Qed.

(** A step that posts nothing. *)
Lemma wp_waits {A} (m : prog (Ctx R) A) c o : listening c (Waiting o) ->
  wp m c (fun _ c' => posted recv_buffer [] c c') -> calmly (socket_state c) m -> wp m c (fun _ c' => waits c o c').
Proof.
  intros Hl Hm Hc. eapply wp_mono; [by eapply wp_calm|]. intros a c' [Hp Hcalm]. split; [|done].
  eapply keeps_posted; [exact Hl|exact Hp|]. by intros ? ?%elem_of_nil.
Qed.

Lemma wp_waits_complete_other x c o : listening c (Waiting o) -> other_op recv_buffer c x ->
  wp (complete_op (Handlers := handlers) x) c (fun _ c' => waits c o c').
Proof.
  intros Hl Ho. unfold complete_op, net_handlers, net_complete.
  apply wp_bind. unfold get_world. apply wp_bind, wp_get_reactor, wp_ret.
  pose proof Ho as (X1 & X2 & X3). rewrite X2. by apply (other_complete_calm x c (Waiting o)).
Qed.

Lemma wp_waits_do_complete d bytes c o : listening c (Waiting o) -> is_Some (states (rest c) !! d) ->
  d <> socket_state c -> wp (do_complete (H1 := handlers) cfg d bytes) c (fun _ c' => waits c o c').
Proof.
  intros Hl Hd Hne. unfold do_complete. apply wp_bind.
  eapply wp_mono; [eapply wp_calm; [by apply (wp_net_perform_io recv_buffer kq cfg _ d c (Waiting o))|by apply calmly_perform_io]|].
  intros x c1 [(ph' & Hl1 & Ht1 & Hx & Hph & _) Hc1]. rewrite (Hph Hne) in *.
  assert (waits c o c1) as Hw by (split; [by split|done]).
  destruct Hx as [[_ Hx]|[v [=]]]. destruct (negb (x =? null)) eqn:Enull; [|by apply wp_ret].
  destruct Hx as [->|Hx]; [done|]. eapply wp_mono; [by apply wp_waits_complete_other|].
  intros ? c' Hw'. by eapply waits_trans.
Qed.

Lemma wp_waits_complete x more c o : listening c (Waiting o) ->
  is_Some (states (rest c) !! x) \/ other_op recv_buffer c x -> x <> socket_state c ->
  wp (complete_operation (H1 := net_operations) cfg x more) c (fun _ c' => waits c o c').
Proof.
  intros Hl Hx Hne. unfold complete_operation. apply wp_bind, wp_get, wp_bind.
  eapply wp_mono; [eapply (wp_both _ _ (fun _ c' => posted recv_buffer [] c c') (fun _ c' => waits c o c'))|].
  { destruct (more && _); [apply wp_interrupt_task_posted|apply wp_ret, posted_refl]. }
  { apply wp_waits; [done|..].
    - destruct (more && _); [apply wp_interrupt_task_posted|apply wp_ret, posted_refl].
    - destruct (more && _); [apply calmly_interrupt|apply calmly_ret]. }
  intros ? c1 [Hp1 Hw1]. pose proof (proj1 (proj1 Hw1)) as Hl1. pose proof (keeps_socket _ _ _ (proj1 Hw1)) as Es1.
  apply wp_bind. eapply (wp_mono _ _ (fun _ c' => waits c o c')).
  { set (result := task_result _ _). generalize result. clear result. intros result. unfold wp. cbn [op_complete reactor_operations].
    destruct Hx as [Hs|Ho].
    - rewrite <- (po_states _ _ _ _ Hp1) in Hs. pose proof Hs as [s ->].
      eapply wp_mono; [apply wp_waits_do_complete; [done|done|by rewrite Es1]|]. intros ? c' Hw'. by eapply waits_trans.
    - eapply posted_other_op in Ho; [|exact Hp1]. pose proof Ho as (_ & _ & ->).
      eapply wp_mono; [by apply wp_waits_complete_other|]. intros ? c' Hw'. by eapply waits_trans. }
  intros ? c2 Hw2. eapply wp_mono; [apply (wp_waits _ c2 o)|].
  - apply Hw2.
  - apply wp_work_cleanup_posted.
  - apply calmly_work_cleanup.
  - intros ? c' Hw'. by eapply waits_trans.
Qed.

(** ** The socket's turn *)

(** The descriptor has been found readable. *)
Definition readable d r : Prop := exists s, states r !! d = Some s /\ Z.testbit (task_result_ s) 0 = true.

Definition arrived c : Prop := inbox (data := data) (kernel_of c) (socket_ (socket_of c)) <> [].

(** The receive operation waits for a datagram that is there, and the socket's
    descriptor, found readable, is queued behind [n] operations. *)
Record pending (n : nat) c o : Prop := {
  pe_listening : listening c (Waiting o);
  pe_arrived : arrived c;
  pe_readable : readable (socket_state c) (rest c);
  pe_queue : exists q1 q2, op_queue_ (scheduler c) = q1 ++ Operation (socket_state c) :: q2 /\
    length q1 = n /\ TaskOperation ∉ q1;
}.

(** The handler has run once, for a datagram if receives are reliable. *)
Definition served c o c' : Prop := exists ph' cpl,
  resting ph' /\ listening c' ph' /\ turned c (Waiting o) c' ph' [cpl] /\
  (receives_reliably data -> is_Some (datagram cpl)).

Lemma arrived_later c ph c' : seen ph = [] -> turned c ph c' ph [] -> arrived c -> arrived c'.
Proof.
  intros Hs [(ds & [a Ea] & E) _ [Es _]] Ha Hnone. unfold arrived in Ha. rewrite Hs in E. simpl in E. subst ds.
  rewrite Es in Hnone. simpl in Ea. rewrite Hnone in Ea. by apply app_eq_nil in Ea as [? _].
Qed.

Lemma served_later c c1 c' o : turned c (Waiting o) c1 (Waiting o) [] -> served c1 o c' -> served c o c'.
Proof.
  intros Ht (ph' & cpl & Hr & Hl & Ht' & Hd). exists ph', cpl. split_and!; [done|done| |done].
  exact (turned_trans recv_buffer _ _ _ _ _ _ [] [_] Ht Ht').
Qed.

Lemma readable_events result : Z.testbit result 0 = true ->
  Z.land (u32 result) (Z.lor (Z.lor EPOLLIN EPOLLERR) EPOLLHUP) <> 0.
Proof.
  intros Hb E. pose proof (f_equal (fun z => Z.testbit z 0) E) as Hn.
  unfold u32, wrap in Hn. rewrite Z.land_spec, Z.mod_pow2_bits_low, Hb in Hn by lia. done.
Qed.

Lemma wp_serve more c o : listening c (Waiting o) -> arrived c -> readable (socket_state c) (rest c) ->
  wp (complete_operation (H1 := net_operations) cfg (socket_state c) more) c (fun _ c' => served c o c').
Proof.
  intros Hl Ha (s & Hs & Hb).
  eapply wp_mono; [apply (wp_net_complete_operation recv_buffer remote_endpoint kq kq_range cfg (socket_state c)); [exact Hl|]|].
  { left. split; [done|]. left. by eexists. }
  intros ? c' (ph' & cs & Hr & Hl' & Ht & H1 & H2).
  assert (~ fruitless recv_buffer cs) as Hcs.
  { intros Hcs. destruct (H2 eq_refl Hcs) as [E|E]; [|by apply Ha].
    revert E. apply readable_events. unfold result_of. simpl. by rewrite Hs. }
  destruct cs as [|cpl [|]]; [destruct Hcs; by left| |unfold at_most_one in H1; simpl in H1; lia].
  exists ph', cpl. split_and!; [done..|]. intros Hrel. destruct (datagram cpl) eqn:Ed; [by eexists|].
  destruct Hcs. right. split; [done|]. simpl. by rewrite Ed.
Qed.

(** What is at the front: the socket's operation, or one that brings it to the
    front by one. *)
Lemma pending_front n c o : pending n c o -> exists x q, op_queue_ (scheduler c) = Operation x :: q /\
  (x = socket_state c \/ x <> socket_state c /\ exists m q1 q2, n = Datatypes.S m /\ length q1 = m /\
     q = q1 ++ Operation (socket_state c) :: q2 /\ TaskOperation ∉ q1).
Proof.
  intros [_ _ _ (q1 & q2 & Eq & Hn & Htask)]. destruct q1 as [|[|x] q1]; simpl in Eq.
  - eexists _, _. split; [exact Eq|]. by left.
  - destruct Htask. by left.
  - exists x, (q1 ++ Operation (socket_state c) :: q2). split; [exact Eq|].
    destruct (decide (x = socket_state c)); [by left|right]. split; [done|]. exists (length q1), q1, q2.
    split_and!; [done|done|done|]. intros ?. apply Htask. by right.
Qed.

Lemma pending_turn fuel n c o : pending n c o -> stopped_ (scheduler c) = false ->
  wp (loop (Datatypes.S fuel)) c (fun y c' => y = 1 /\
    (served c o c' \/ exists m, n = Datatypes.S m /\ keeps_phase c (Waiting o) c' /\ pending m c' o)).
Proof.
  intros Hp Hst. pose proof Hp as [Hl Ha Hread _]. destruct (pending_front n c o Hp) as (x & q & Ex & Hx).
  cbn [do_run_one]. apply wp_bind, wp_get_sched. rewrite Hst, Ex. cbv zeta.
  apply wp_bind, wp_modify. set (c1 := with_sched (Scheduler.set_op_queue q) c).
  destruct (take_operation recv_buffer kq x c c1 (Waiting o)) as (ph1 & Hl1 & Ht1 & Hready & Hph);
    [done|exact Hl|unfold queued; simpl; by rewrite Ex|done|]. rewrite (Hph o eq_refl) in *. clear Hph.
  apply wp_bind. destruct Hx as [->|(Hne & m & q1 & q2 & -> & Hm & -> & Htask)].
  - eapply wp_mono; [apply (wp_serve (is_nonempty q) c1 o Hl1 (arrived_later c (Waiting o) c1 eq_refl Ht1 Ha) Hread)|].
    intros ? c' Hs. apply wp_ret. split; [done|]. left. by eapply served_later.
  - destruct Hready as [[_ Hready]|[v [=]]].
    eapply wp_mono; [by apply (wp_waits_complete x)|]. intros ? c' [Hk [[[new En] Hs'] Hsame]]. apply wp_ret.
    assert (keeps_phase c (Waiting o) c') as Hk' by (eapply keeps_trans; [by split|exact Hk]).
    pose proof (keeps_socket _ _ _ Hk') as Es.
    split; [done|]. right. exists m. split_and!; [done|done|]. split.
    + apply Hk'.
    + exact (arrived_later c (Waiting o) c' eq_refl (proj2 Hk') Ha).
    + rewrite Es. destruct Hread as (s & Hs & Hb). exists s. split; [exact (eq_trans Hsame Hs)|done].
    + exists q1, (q2 ++ new). rewrite Es, En. simpl. by rewrite <- app_assoc.
Qed.

(** ** Several turns *)

Fixpoint turns (fuel n : nat) : prog (Ctx R) unit :=
  match n with
  | O => mret tt
  | Datatypes.S n => loop fuel;; turns fuel n
  end.

(** The scheduler has been stopped before the socket's turn came, and the
    receive operation waits still; or it has been served. *)
Definition got_on c o c' : Prop :=
  stopped_ (scheduler c') = true /\ keeps_phase c (Waiting o) c' \/ served c o c'.

Lemma got_on_later c c1 c' o : keeps_phase c (Waiting o) c1 -> got_on c1 o c' -> got_on c o c'.
Proof.
  intros Hk [[Hs Hk']|Hs]; [left|right].
  - split; [done|]. by eapply keeps_trans.
  - eapply served_later; [apply Hk|done].
Qed.

Lemma pending_served fuel o n : forall f c, pending n c o -> stopped_ (scheduler c) = false ->
  exists k, (k <= n)%nat /\ wp (loop (Datatypes.S f)) c (fun y c1 => y = 1 /\
    wp (turns (Datatypes.S fuel) k) c1 (fun _ c' => got_on c o c')).
Proof.
  induction n as [|n IH]; intros f c Hp Hst; destruct (pending_turn f _ c o Hp Hst) as (y & c1 & E & -> & H1).
  - exists O. split; [done|]. exists 1, c1. split_and!; [done|done|]. apply wp_ret.
    destruct H1 as [Hs|(m & [=] & _)]. by right.
  - destruct H1 as [Hs|(m & [= <-] & Hk & Hp1)].
    { exists O. split; [lia|]. exists 1, c1. split_and!; [done|done|]. apply wp_ret. by right. }
    destruct (stopped_ (scheduler c1)) eqn:Es1.
    { exists O. split; [lia|]. exists 1, c1. split_and!; [done|done|]. apply wp_ret. by left. }
    destruct (IH fuel c1 Hp1 Es1) as (k & Hkn & Hw). exists (Datatypes.S k). split; [lia|].
    exists 1, c1. split_and!; [done|done|]. cbn [turns]. apply wp_bind. eapply wp_mono; [exact Hw|].
    intros ? c2 [_ Hw2]. eapply wp_mono; [exact Hw2|]. intros ? c' Hg. by eapply got_on_later.
Qed.

(** ** Epoll reports the socket *)

Definition reported d (ops : list operation) r : Prop := Operation d ∈ ops /\ readable d r.

(** Epoll has reported that the descriptor can be read. *)
Definition reports d (ev : event_ptr * Z) : Prop := ev.1 = DescriptorPtr d /\ Z.testbit ev.2 0 = true.

Lemma dispatch_event_reports d ev b ops r b' ops' r' : dispatch_event ev (b, ops, r) = Ok (b', ops', r') ->
  TaskOperation ∉ ops -> (TaskOperation ∉ ops') /\ (length ops' <= length ops + 1)%nat /\ timer_queues_ r' = timer_queues_ r /\
  (reported d ops r \/ reports d ev -> reported d ops' r').
Proof.
  unfold dispatch_event, reports. destruct ev as [[| |d'] events]; simpl; intros Hr Hops.
  1,2: injection Hr as <- <- <-; split_and!; [done|lia|done|by intros [?|[? _]]].
  unfold state_at in Hr. destruct (states r !! d') as [s|] eqn:Es; [|done]. cbn [mbind outcome_bind] in Hr.
  assert (forall f : descriptor_state -> descriptor_state, reported d ops r \/ DescriptorPtr d' = DescriptorPtr d /\ Z.testbit events 0 = true ->
    (d' = d -> (Z.testbit (task_result_ s) 0 = true /\ Operation d ∈ ops) \/ Z.testbit events 0 = true -> Z.testbit (task_result_ (f s)) 0 = true) ->
    readable d (put_at d' (f s) r)) as Hput.
  { intros f Hor Hf. destruct (decide (d' = d)) as [->|Hne].
    - exists (f s). simpl. rewrite lookup_insert_eq. split; [done|]. apply Hf; [done|].
      destruct Hor as [[Hin (s0 & Hs0 & Hb)]|[_ ?]]; [left|by right]. rewrite Es in Hs0. by injection Hs0 as ->.
    - destruct Hor as [[_ (s0 & Hs0 & Hb)]|[[=] _]]; [|done]. exists s0. simpl. by rewrite lookup_insert_ne. }
  destruct (bool_decide (Operation d' ∈ ops)) eqn:Ed; simpl in Hr; injection Hr as <- <- <-.
  - apply bool_decide_eq_true in Ed. split_and!; [done|lia|done|]. intros Hor. split.
    + destruct Hor as [[? _]|[[= ->] _]]; done.
    + apply (Hput (add_ready_events events) Hor). intros _ Hb.
      change (Z.testbit (Z.lor (task_result_ s) events) 0 = true). rewrite Z.lor_spec.
      destruct Hb as [[-> _]| ->]; [done|apply orb_true_r].
  - apply bool_decide_eq_false in Ed. split_and!; [set_solver|rewrite length_app; simpl; lia|done|]. intros Hor. split.
    + apply elem_of_app. destruct Hor as [[? _]|[[= ->] _]]; [by left|right; by left].
    + apply (Hput (set_ready_events events) Hor). intros -> Hb.
      change (Z.testbit events 0 = true). by destruct Hb as [[_ ?]|?].
Qed.

Lemma dispatch_events_reports d evs : forall b ops r b' ops' r', dispatch_events evs (b, ops, r) = Ok (b', ops', r') ->
  TaskOperation ∉ ops -> (TaskOperation ∉ ops') /\ (length ops' <= length ops + length evs)%nat /\
  timer_queues_ r' = timer_queues_ r /\
  (reported d ops r \/ Exists (reports d) evs -> reported d ops' r').
Proof.
  induction evs as [|ev evs IH]; intros b ops r b' ops' r' Hr Hops.
  { injection Hr as <- <- <-. split_and!; [done|simpl; lia|done|]. by intros [?|?%Exists_nil]. }
  cbn [dispatch_events] in Hr. destruct (dispatch_event ev (b, ops, r)) as [[[b1 ops1] r1]| |] eqn:E1; [|done..].
  destruct (dispatch_event_reports d _ _ _ _ _ _ _ E1 Hops) as (T1 & L1 & Q1 & R1).
  destruct (IH _ _ _ _ _ _ Hr T1) as (T2 & L2 & Q2 & R2). split_and!; [done|simpl; lia|congruence|].
  rewrite Exists_cons. intros [?|[?|?]]; apply R2; auto.
Qed.

(** Epoll reports the socket, among at most [n] events. *)
Definition epoll_reports (n : nat) c : Prop := forall timeout,
  let evs := (k_epoll_wait timeout (kernel_of c)).1 in (length evs <= n)%nat /\ Exists (reports (socket_state c)) evs.

Lemma run_task_reports usec n c c' : timer_queues_ (rest c) = [] -> private_op_queue (scheduler c) = [] ->
  epoll_reports n c -> run_task usec c = Ok (tt, c') ->
  exists ops, private_op_queue (scheduler c') = ops /\ op_queue_ (scheduler c') = op_queue_ (scheduler c) /\
    stopped_ (scheduler c') = stopped_ (scheduler c) /\ (TaskOperation ∉ ops) /\ (length ops <= n)%nat /\
    reported (socket_state c) ops (rest c').
Proof.
  intros Et Ep Hev. unfold run_task. intros Hr. apply bind_Ok_inv in Hr as (? & ? & [= <- <-] & Hr).
  apply bind_Ok_inv in Hr as ([ops r] & ? & Hl & Hr). injection Hr as <-. revert Hl. unfold lift.
  cbn [task_run reactor_task]. unfold reactor_run.
  match goal with |- context [epoll_wait ?x _] => generalize x; intros timeout end.
  cbn [epoll_wait net_reactor_world]. specialize (Hev timeout). destruct (k_epoll_wait timeout (kernel_of c)) as [evs k].
  destruct Hev as [Hlen Hev]. rewrite Ep. set (r0 := set_world _ (rest c)).
  destruct (dispatch_events evs (_, [], r0)) as [[[check ops1] r1]| |] eqn:E1; [|done..]. cbn [mbind outcome_bind].
  destruct (dispatch_events_reports (socket_state c) _ _ _ _ _ _ _ E1) as (T & L & Et1 & Hrep); [by intros ?%elem_of_nil|].
  change (timer_queues_ r0) with (timer_queues_ (rest c)) in Et1.
  specialize (Hrep (or_intror Hev)). destruct check; cbn [mbind outcome_bind].
  - rewrite Et1, Et. cbn [get_ready_timers mbind outcome_bind]. rewrite app_nil_r. intros [= <- <- <-].
    exists ops1. split_and!; try done; [simpl in L, Hlen; lia|]. destruct Hrep as [Hin Hread]. split; [done|].
    simpl. destruct (negb _); [|done]. unfold set_timer. by destruct (get_timeout_ts _) as [[??]?].
  - intros [= <- <- <-]. exists ops1. split_and!; try done. simpl in L, Hlen. lia.
Qed.

Definition cleaned (s : Scheduler) : Scheduler :=
  let n := private_outstanding_work s in
  mkScheduler (op_queue_ s ++ private_op_queue s ++ [TaskOperation])
    (if n >? 0 then outstanding_work_ s + n else outstanding_work_ s) (stopped_ s) (shutdown_ s) (task_ s) true
    (Scheduler.running s) [] 0.

Lemma task_cleanup_exact c : task_cleanup c = Ok (tt, with_sched cleaned c).
Proof.
  unfold task_cleanup, with_sched, cleaned. destruct c as [[] r]. unfold mbind, prog_bind, get_sched. simpl.
  destruct (_ >? 0); simpl; by rewrite <- app_assoc.
Qed.

(** The task's turn, with [q] behind it. *)
Lemma task_pends fuel n q c o : listening c (Waiting o) -> stopped_ (scheduler c) = false ->
  op_queue_ (scheduler c) = TaskOperation :: q -> TaskOperation ∉ q -> private_op_queue (scheduler c) = [] ->
  arrived c -> epoll_reports n c ->
  exists m c', (m < length q + n)%nat /\ loop (Datatypes.S fuel) c = loop fuel c' /\ keeps_phase c (Waiting o) c' /\
    pending m c' o /\ stopped_ (scheduler c') = false.
Proof.
  intros Hl Hst Hq Htask Hp Ha Hev. cbn [do_run_one]. rewrite (bind_Ok _ _ _ (scheduler c) c) by done. rewrite Hst, Hq.
  cbv zeta. rewrite (bind_Ok _ _ _ tt (with_sched (Scheduler.set_op_queue q) c)) by done.
  set (usec := if is_nonempty q then _ else _). set (b := is_nonempty q || _).
  set (c2 := with_sched (set_interrupted b) (with_sched (Scheduler.set_op_queue q) c)).
  rewrite (bind_Ok _ _ _ tt c2) by done.
  assert (keeps_phase c (Waiting o) c2) as Hk2.
  { split; [eapply (listening_drop _ _ TaskOperation (Waiting o) c); [done|by intros| |done]|].
    - unfold queued, c2. simpl. by rewrite Hq.
    - apply (turned_by recv_buffer []); [|done..]. apply arrives_flow; [apply (li_socket _ _ _ _ Hl)|apply arrives_refl]. }
  destruct (wp_net_run_task recv_buffer kq usec c2 (Waiting o) (proj1 Hk2)) as ([] & c3 & Hr3 & Hk3).
  destruct (run_task_reports usec n c2 c3) as (ops & P1 & P2 & P3 & P4 & P5 & P6 & P7);
    [apply (li_timers _ _ _ _ (proj1 Hk2))|exact Hp|exact Hev|exact Hr3|].
  rewrite (bind_Ok _ _ _ _ _ Hr3), (bind_Ok _ _ _ _ _ (task_cleanup_exact c3)).
  destruct (wp_task_cleanup_posted recv_buffer c3) as (? & c4 & Hr4 & Hp4). rewrite task_cleanup_exact in Hr4.
  injection Hr4 as <- <-. set (c4 := with_sched cleaned c3) in *.
  assert (keeps_phase c (Waiting o) c4) as Hk4.
  { eapply keeps_trans; [exact Hk2|]. eapply keeps_trans; [exact Hk3|]. eapply keeps_posted; [apply Hk3|exact Hp4|].
    by intros ? [= ]%list_elem_of_singleton. }
  pose proof (keeps_socket _ _ _ Hk4) as Es.
  assert (Operation (socket_state c) ∈ q ++ ops) as Hin by (apply elem_of_app; by right).
  apply list_elem_of_split in Hin as (q1 & q2 & Eq).
  exists (length q1), c4. split_and!; [|done|exact Hk4| |simpl; by rewrite P3].
  - pose proof (f_equal length Eq) as El. rewrite !length_app in El. simpl in El. lia.
  - split; [apply Hk4|exact (arrived_later c (Waiting o) c4 eq_refl (proj2 Hk4) Ha)|by rewrite Es|].
    exists q1, (q2 ++ [TaskOperation]). rewrite Es. simpl. rewrite P1, P2. simpl. split_and!; [|done|].
    + by rewrite app_assoc, Eq, <- app_assoc.
    + intros Hin. assert (TaskOperation ∈ q ++ ops) as [?|?]%elem_of_app; [|done..].
      rewrite Eq. apply elem_of_app. by left.
Qed.

Lemma datagram_served fuel n q c o : (2 <= fuel)%nat -> listening c (Waiting o) -> stopped_ (scheduler c) = false ->
  op_queue_ (scheduler c) = TaskOperation :: q -> TaskOperation ∉ q -> private_op_queue (scheduler c) = [] ->
  arrived c -> epoll_reports n c ->
  exists k c', (k < length q + n)%nat /\ turns fuel (Datatypes.S k) c = Ok (tt, c') /\ got_on c o c'.
Proof.
  intros Hf Hl Hst Hq Htask Hp Ha Hev. destruct fuel as [|[|fuel]]; [lia|lia|].
  destruct (task_pends (Datatypes.S fuel) n q c o Hl Hst Hq Htask Hp Ha Hev) as (m & c1 & Hm & E1 & Hk & Hp1 & Hs1).
  destruct (pending_served (Datatypes.S fuel) o m fuel c1 Hp1 Hs1) as (k & Hkm & y & c2 & E2 & -> & ([] & c3 & E3 & Hg)).
  exists k, c3. split_and!; [lia| |by eapply got_on_later]. cbn [turns].
  rewrite E2 in E1. by rewrite (bind_Ok _ _ _ _ _ E1).
Qed.
End live.
