(* ===== verification/NetworkOpen.v ===== *)
(** * Opening the feed handler's socket

    FeedHandler's constructor, from an io_context that is new: it ends with
    the socket open, registered and its first receive started, or with the
    error it throws and no receive. *)

From S2P Require Import Prelude SPSCQueue Protocol FeedHandler SocketOps SocketRules SocketModes OpQueue Scheduler EpollReactor ReactorRules SocketService NetworkThread NetworkRules NetworkSteps.

Section opening.
Context {Q K : Type} `{TimerQueueBase Q (NetWorld K)} `{NetKernel K} `{!OtherOperations Q K}.
Context (recv_buffer remote_endpoint : ptr) `{!NetKernelOk K (recv_buffer + 8)}.
Context (kq : Z) (kq_range : 0 <= kq <= 63) (cfg : scheduler_config).
Abbreviation data := (recv_buffer + 8).
Abbreviation W := (NetWorld K).
Abbreviation R := (Reactor Q W).
Implicit Types (w : W) (r : R) (c : Ctx R) (o d x : op_ptr) (t : op_type).

Abbreviation kernel_of c := (net_kernel (world (rest c))).
Abbreviation feed_of c := (net_feed (world (rest c))).
Abbreviation ops_of c := (net_ops (world (rest c))).
Abbreviation socket_of c := (_socket (world (rest c))).
Abbreviation posted := (posted recv_buffer).
Abbreviation listening := (listening recv_buffer kq).

(** An io_context that has no descriptor and no timer yet. *)
Record fresh c : Prop := {
  fr_timers : timer_queues_ (rest c) = [];
  fr_states : states (rest c) = ∅;
  fr_free : free_list (rest c) = [];
  fr_ops : ops_of c = ∅;
  fr_watched d : ~ k_watched (kernel_of c) d;
  fr_queued x : Operation x ∈ queued c -> x ∈ heap (kernel_of c);
  fr_buffer : payload (_recv_buffer (feed_of c)) = buffer (kernel_of c);
  fr_feed : exists l, feeding kq (feed_of c) l;
}.

(** ** System calls outside of the receive *)

(** A call that leaves everything but [errno] alone. *)
Lemma wp_sys_frame {A} y (m : prog (Env K) A) c (Phi : A -> error_code -> K -> Prop) :
  (forall e, wp m e (fun a e' => frame (data := data) (kernel e) (kernel e') /\ Phi a (ec e') (kernel e'))) ->
  wp (sys y m) c (fun p c' => posted [] c c' /\ free_list (rest c') = free_list (rest c) /\ Phi p.1 p.2 (kernel_of c')).
Proof.
  intros Hm. unfold sys. apply wp_bind, wp_get_reactor, wp_bind.
  destruct (Hm (mkEnv (kernel_of c) (net_errno (world (rest c))) y)) as (a & e' & Hr & Hf & HP).
  eapply wp_lift; [exact Hr|]. apply wp_bind, wp_modify_rest, wp_ret. split; [|done]. split; [done..|]. by split.
Qed.

Lemma socket_frame af type protocol (e : Env K) :
  wp (socket_ops.socket af type protocol) e (fun sock e' => frame (data := data) (kernel e) (kernel e') /\
    (sock = invalid_socket /\ failed (ec e') = true \/
     0 <= sock /\ (af = AF_INET -> type = SOCK_DGRAM -> protocol = IPPROTO_UDP -> datagram_socket (kernel e') sock))).
Proof.
  unfold socket_ops.socket. repeat sstep. destruct (socket_law _ _ _ _ _ _ Hcall) as [Hf [[Er Hv]|[Hr Hs]]].
  - split; [done|]. left. rewrite Er. split; [done|]. by apply failed_errno.
  - split; [done|]. right. by split.
Qed.

Lemma bind_frame s addr addrlen (e : Env K) : s <> invalid_socket ->
  wp (socket_ops.bind s addr addrlen) e (fun _ e' => frame (data := data) (kernel e) (kernel e')).
Proof.
  intros Hs. unfold socket_ops.bind. rewrite (proj2 (Z.eqb_neq _ _) Hs). repeat sstep.
  by destruct (bind_law _ _ _ _ _ _ Hcall).
Qed.

Lemma rcvbuf_frame s state value (e : Env K) : s <> invalid_socket ->
  wp (socket_ops.setsockopt s state SOL_SOCKET SO_RCVBUF value sizeof_int) e
    (fun _ e' => frame (data := data) (kernel e) (kernel e')).
Proof.
  intros Hs. unfold socket_ops.setsockopt. rewrite (proj2 (Z.eqb_neq _ _) Hs). simpl. repeat sstep.
  by destruct (setsockopt_law _ _ _ _ _ _ _ _ Hcall).
Qed.

Lemma close_finishes s state destruction (e : Env K) : wp (socket_ops.close s state destruction) e (fun _ _ => True).
Proof.
  unfold socket_ops.close, socket_ops.setsockopt. destruct (s =? invalid_socket); simpl;
    repeat first [done | sstep | match goal with |- wp (if ?b then _ else _) _ _ => destruct b; simpl end].
Qed.

(** A call of which nothing is known but that it returns. *)
Lemma wp_sys_any {A} y (m : prog (Env K) A) c : (forall e, wp m e (fun _ _ => True)) ->
  wp (sys y m) c (fun _ c' => ops_of c' = ops_of c /\ feed_of c' = feed_of c).
Proof.
  intros Hm. unfold sys. apply wp_bind, wp_get_reactor, wp_bind.
  destruct (Hm (mkEnv (kernel_of c) (net_errno (world (rest c))) y)) as (a & e' & Hr & _).
  eapply wp_lift; [exact Hr|]. by apply wp_bind, wp_modify_rest, wp_ret.
Qed.

(** ** Opening *)

(** The socket [impl] is open and registered, and has no receive operation. *)
Definition opened impl c : Prop := listening (with_rest (update_world (set_socket impl)) c) Running.

Lemma posted_opened c c' impl : opened impl c -> posted [] c c' -> opened impl c'.
Proof.
  intros Hl [E1 E2 E3 [E4 E5 E6 E7]]. unfold opened in *.
  eapply (listening_posted _ _ [] _ _ _ Hl); [|by intros ? ?%elem_of_nil]. by split.
Qed.

Lemma fresh_posted ops c c' : fresh c -> posted ops c c' -> free_list (rest c') = free_list (rest c) ->
  (forall x, Operation x ∉ ops) -> fresh c'.
Proof.
  intros [] [Eq Es Et [Eo Ef Esk (Ha & Eb & Eh & Hw)]] Efr Hops.
  split; rewrite ?Es, ?Et, ?Eo, ?Ef, ?Eb, ?Eh, ?Efr; try done.
  - intros d Hd. by eapply fr_watched0, Hw.
  - intros x. rewrite Eq, elem_of_app. intros [Hx|Hx]; [by apply Hops in Hx|auto].
Qed.

(** One descriptor state, on which nothing waits. *)
Lemma opened_by impl s c : timer_queues_ (rest c) = [] -> states (rest c) = {[reactor_data_ impl := s]} ->
  op_queues s = (fun _ => []) -> d_shutdown_ s = false -> ops_of c = ∅ ->
  reactor_data_ impl ∈ heap (data := data) (kernel_of c) ->
  (forall d, k_watched (data := data) (kernel_of c) d -> d = reactor_data_ impl) ->
  (forall x, Operation x ∈ queued c -> x ∈ heap (data := data) (kernel_of c)) ->
  buffer (data := data) (kernel_of c) = payload (_recv_buffer (feed_of c)) -> (exists l, feeding kq (feed_of c) l) ->
  datagram_socket (data := data) (kernel_of c) (socket_ impl) -> socket_ impl <> invalid_socket -> opened impl c.
Proof.
  intros Ht Es Hq Hsh Eo Hh Hw Hqu Hb Hf Hs Hi. split; simpl; rewrite ?Eo, ?Es; try done.
  - intros x. by intros [? Hx].
  - exists s. by rewrite lookup_singleton_eq, Hq.
  - intros d s0 [<- <-]%lookup_singleton_Some. split; [done|]. by intros [].
  - intros d ->%Hw. rewrite lookup_singleton_eq. by eexists.
Qed.

(** The descriptor state that registering a socket leaves. *)
Lemma wp_register sock state c : fresh c -> datagram_socket (data := data) (kernel_of c) sock -> sock <> invalid_socket ->
  wp (register_descriptor sock) c (fun p c' =>
    ops_of c' = ∅ /\ feed_of c' = feed_of c /\ opened (mkImpl sock state p.2) c').
Proof.
  intros [] Hs Hinv. unfold register_descriptor, allocate_descriptor_state. apply wp_bind, wp_bind, wp_get_reactor.
  rewrite fr_free0. cbn [allocate_object net_reactor_world].
  destruct (k_new (kernel_of c)) as [o k] eqn:Enew. pose proof (new_law (data := data) (kernel_of c)) as Hnew.
  rewrite Enew in Hnew. destruct Hnew as (N1 & N2 & N3 & N4 & N5).
  apply wp_bind, wp_modify_rest, wp_ret, wp_bind. eapply wp_load_state; [simpl; by rewrite lookup_insert_eq|].
  apply wp_bind, wp_modify_rest, wp_bind. set (s := mkDescriptor _ _ _ _ _ _).
  unfold do_epoll_ctl. apply wp_bind, wp_get_reactor. unfold ctl. cbn [epoll_ctl net_reactor_world].
  set (c1 := with_rest (put_at o s) _). change (net_kernel (world (rest c1))) with k.
  destruct (k_epoll_ctl EPOLL_CTL_ADD sock initial_events (DescriptorPtr o) k) as [[result err] k'] eqn:Ectl.
  pose proof (epoll_ctl_law (data := data) EPOLL_CTL_ADD sock initial_events (DescriptorPtr o) k) as Hctl.
  rewrite Ectl in Hctl. destruct Hctl as (L1 & L2 & L3 & L4). simpl in L1, L2, L3, L4.
  apply wp_bind, wp_modify_rest, wp_ret. set (c2 := with_rest _ c1).
  assert (forall s' c', scheduler c' = scheduler c -> states (rest c') = {[o := s']} -> op_queues s' = (fun _ => []) ->
    d_shutdown_ s' = false -> timer_queues_ (rest c') = timer_queues_ (rest c) -> world (rest c') = world (rest c2) ->
    ops_of c' = ∅ /\ feed_of c' = feed_of c /\ opened (mkImpl sock state o) c') as Hop.
  { intros s' c' Esc Est Hq Hsh Etq Ew. rewrite Ew. split; [done|]. split; [done|].
    eapply (opened_by (mkImpl sock state o) s'); rewrite ?Ew, ?Etq; simpl; rewrite ?L3, ?N4; try done.
    - by apply elem_of_union_l, elem_of_singleton.
    - intros d Hd. destruct (L4 d Hd) as [Hd'|[_ [= <-]]]; [by apply N5, fr_watched0 in Hd'|done].
    - unfold queued. rewrite Esc. intros x Hx. apply elem_of_union_r. auto.
    - congruence.
    - by apply L1, N2. }
  assert (states (rest c2) = {[o := s]}) as Est2 by (simpl; by rewrite fr_states0, insert_insert_eq).
  destruct (negb (result =? 0)).
  - destruct (err =? EPERM).
    + apply wp_bind, wp_modify_rest, wp_ret. eapply (Hop (set_registered 0 s)); try done.
      simpl. rewrite fr_states0, !insert_insert_eq. done.
    + apply wp_ret. by eapply (Hop s).
  - apply wp_ret. by eapply (Hop s).
Qed.

Lemma wp_do_open c : fresh c ->
  wp (do_open construct AF_INET SOCK_DGRAM IPPROTO_UDP) c (fun p c' =>
    feed_of c' = feed_of c /\ ops_of c' = ∅ /\
    (failed p.2 = true /\ socket_ p.1 = invalid_socket \/ failed p.2 = false /\ opened p.1 c')).
Proof.
  intros Hfr. unfold do_open. cbn [is_open construct socket_ negb].
  apply wp_bind. eapply wp_mono.
  { apply (wp_sys_frame _ _ _ (fun sock y k => sock = invalid_socket /\ failed y = true \/
      sock <> invalid_socket /\ datagram_socket (data := data) k sock)).
    intros e. eapply wp_mono; [apply socket_frame|]. intros sock e' [Hf Hs]. split; [done|].
    destruct Hs as [?|[Hs Hd]]; [by left|right]. split; [unfold invalid_socket; lia|by apply Hd]. }
  intros [sock y] c1 (Hp & Efr & Hs). cbn [fst snd] in *.
  assert (fresh c1) as Hfr1 by (eapply fresh_posted; [done..|by intros x ?%elem_of_nil]).
  pose proof (po_world _ _ _ _ Hp) as [Eo1 Ef1 _ _].
  destruct Hs as [[-> Hy]|[Hs Hd]].
  { apply wp_ret. split_and!; [done|by rewrite Eo1; apply Hfr|]. by left. }
  rewrite (proj2 (Z.eqb_neq _ _) Hs). apply wp_bind.
  eapply wp_mono; [by apply (wp_register sock (state_of_type SOCK_DGRAM))|].
  intros [err d] c2 (Eo2 & Ef2 & Hopen). cbn [fst snd] in *. destruct (err =? 0) eqn:Eerr; simpl negb; cbv iota; zb.
  - apply wp_ret. split_and!; [congruence|done|]. by right.
  - apply wp_bind. eapply wp_mono; [apply wp_sys_any; intros e; apply close_finishes|].
    intros ? c3 [Eo3 Ef3]. apply wp_ret. split_and!; [congruence|congruence|]. left. split; [by apply failed_errno|done].
Qed.

(** ** Giving up, and the constructor *)

Definition kept c c' : Prop := ops_of c' = ops_of c /\ feed_of c' = feed_of c.

Lemma wp_deregister_idle fd d closing s c : d <> null -> states (rest c) !! d = Some s -> d_shutdown_ s = false ->
  waiting_ops s = [] -> wp (deregister_descriptor cfg fd d closing) c (fun _ c' => kept c c').
Proof.
  intros Hd Hs Hsh Hw. unfold deregister_descriptor. rewrite (proj2 (Z.eqb_neq _ _) Hd).
  apply wp_bind. eapply wp_load_state; [exact Hs|]. rewrite Hsh, Hw. apply wp_bind.
  eapply (wp_mono _ _ (fun _ c' => kept c c')).
  { destruct closing; [by apply wp_ret|]. destruct (negb _); [|by apply wp_ret].
    unfold do_epoll_ctl. apply wp_bind, wp_bind, wp_get_reactor. unfold ctl. cbn [epoll_ctl net_reactor_world].
    destruct (k_epoll_ctl _ _ _ _ _) as [[??]?]. by apply wp_bind, wp_modify_rest, wp_ret, wp_ret. }
  intros ? c1 Hk. by apply wp_bind, wp_ret, wp_bind, wp_modify_rest, wp_bind, wp_ret, wp_ret.
Qed.

(** The destructor of a socket on which nothing waits. *)
Lemma wp_destroy_socket c : listening c Running -> wp (destroy_socket cfg) c (fun _ c' => kept c c').
Proof.
  intros Hl. destruct (li_state _ _ _ _ Hl) as (s & Hs & S1 & S2 & S3 & S4).
  unfold destroy_socket. apply wp_bind. unfold get_world. apply wp_bind, wp_get_reactor, wp_ret, wp_bind.
  unfold destroy. rewrite (proj2 (Z.eqb_neq _ _) (li_open _ _ _ _ Hl)). simpl negb. cbv iota.
  unfold close_registered. apply wp_bind, wp_bind. eapply wp_mono; [eapply wp_deregister_idle; [|exact Hs|exact S1|]|].
  - intros E. rewrite E in Hs. apply (heap_null (data := data) (kernel_of c)), (li_states _ _ _ _ Hl _ _ Hs).
  - unfold waiting_ops. by rewrite S2, S3, S4.
  - intros d c1 [E1 E2]. apply wp_bind. eapply wp_mono; [apply wp_sys_any; intros e; apply close_finishes|].
    intros [[n st] y] c2 [E3 E4]. apply wp_bind. unfold cleanup_descriptor_data, free_descriptor_state.
    destruct (negb _); [apply wp_bind, wp_modify_rest|]; apply wp_ret, wp_ret, wp_ret, wp_modify_rest; split; simpl; congruence.
Qed.

(** What the constructor leaves. *)
Definition constructed c (y : error_code) c' : Prop :=
  feed_of c' = feed_of c /\
  if failed y then ops_of c' = ∅ else exists ph, resting ph /\ listening c' ph.

Lemma wp_give_up y c c0 : failed y = true -> listening c Running -> feed_of c = feed_of c0 ->
  wp (destroy_socket cfg;; mret y) c (constructed c0).
Proof.
  intros Hy Hl Ef. apply wp_bind. eapply wp_mono; [by apply wp_destroy_socket|]. intros ? c' [Eo Ef'].
  apply wp_ret. split; [congruence|]. rewrite Hy, Eo. exact (li_ops _ _ _ _ Hl).
Qed.

Lemma interrupt_free_list r : free_list (interrupt r) = free_list r.
Proof. unfold interrupt. destruct (ctl _ _ _ _ _) as [[??] r'] eqn:E. unfold ctl in E. destruct (epoll_ctl _ _ _ _ _) as [[??]?]. by injection E as <- <- <-. Qed.

Lemma wp_interrupt_task_free c : wp interrupt_task c (fun _ c' => free_list (rest c') = free_list (rest c)).
Proof.
  unfold interrupt_task. apply wp_bind, wp_get_sched. destruct (_ && _); [|by apply wp_ret].
  apply wp_bind, wp_modify, wp_modify_rest. apply interrupt_free_list.
Qed.

(** The task may have been queued already. *)
Lemma wp_init_task_posted c : wp init_task c (fun _ c' => (posted [] c c' \/ posted [TaskOperation] c c') /\
  free_list (rest c') = free_list (rest c)).
Proof.
  unfold init_task. apply wp_bind, wp_get_sched. destruct (_ && _); [|by apply wp_ret; split; [left; apply posted_refl|]].
  apply wp_bind, wp_modify. set (c1 := with_sched _ c).
  destruct (wp_enqueue_posted recv_buffer [TaskOperation] c1) as ([] & c2 & Hr & Hp). exists tt, c2. split; [exact Hr|]. split.
  - right. refine (posted_trans recv_buffer [] _ _ _ _ _ Hp). by split.
  - unfold enqueue in Hr. apply bind_Ok_inv in Hr as (? & ? & [= <- <-] & Hr).
    apply bind_Ok_inv in Hr as (? & ? & [= <- <-] & Hr).
    match type of Hr with wake_one_thread_and_unlock ?x = _ => destruct (wp_interrupt_task_free x) as (? & ? & Hr' & Hf) end.
    unfold wake_one_thread_and_unlock in Hr. rewrite Hr in Hr'. by injection Hr' as <- <-.
Qed.

Lemma wp_FeedHandler_new addr addrlen c : fresh c ->
  wp (FeedHandler_new cfg recv_buffer remote_endpoint addr addrlen) c (constructed c).
Proof.
  intros Hfr. unfold FeedHandler_new. apply wp_bind. eapply wp_mono; [apply wp_init_task_posted|]. intros ? c1 [Hp Efr].
  assert (fresh c1 /\ feed_of c1 = feed_of c) as [Hfr1 Ef1].
  { destruct Hp as [Hp|Hp]; (split; [eapply fresh_posted; [done..|]; set_solver|apply (po_world _ _ _ _ Hp)]). }
  apply wp_bind. unfold open_and_bind. apply wp_bind. eapply wp_mono; [by apply wp_do_open|].
  intros [impl y] c2 (Ef2 & Eo2 & Hop). cbn [fst snd] in *. apply wp_bind, wp_modify_rest. set (c3 := with_rest _ c2).
  destruct Hop as [[Hy Hinv]|[Hy Hl3]]; rewrite Hy; cbv iota.
  { apply wp_ret. rewrite Hy. apply wp_bind. unfold destroy_socket. apply wp_bind. unfold get_world.
    apply wp_bind, wp_get_reactor, wp_ret, wp_bind. unfold destroy. simpl _socket. rewrite Hinv.
    apply wp_ret, wp_modify_rest, wp_ret. split; [simpl; congruence|]. by rewrite Hy. }
  change (listening c3 Running) in Hl3. assert (feed_of c3 = feed_of c) as Ef3 by (simpl; congruence).
  assert (socket_ impl <> invalid_socket) as Hinv by exact (li_open _ _ _ _ Hl3).
  unfold service_bind. apply wp_bind. eapply wp_mono.
  { apply (wp_sys_frame _ _ _ (fun _ _ _ => True)). intros e. eapply wp_mono; [by apply bind_frame|]. by intros. }
  intros [n y'] c4 (Hp4 & _ & _). cbn [snd] in *.
  assert (listening c4 Running /\ feed_of c4 = feed_of c) as [Hl4 Ef4].
  { split; [eapply listening_posted; [done..|]; by intros ? ?%elem_of_nil|]. by rewrite (ap_feed _ _ _ (po_world _ _ _ _ Hp4)). }
  apply wp_ret. destruct (failed y') eqn:Hy'; [by apply wp_give_up|].
  apply wp_bind. unfold get_world. apply wp_bind, wp_get_reactor, wp_ret, wp_bind.
  unfold set_option. apply wp_bind. eapply wp_mono.
  { apply (wp_sys_frame _ _ _ (fun _ _ _ => True)). intros e. eapply wp_mono; [apply rcvbuf_frame, (li_open _ _ _ _ Hl4)|]. by intros. }
  intros [[n' st] y''] c5 (Hp5 & _ & _). cbn [fst snd] in *.
  assert (listening c5 Running /\ socket_of c5 = socket_of c4 /\ feed_of c5 = feed_of c) as (Hl5 & Esk & Ef5).
  { split; [eapply listening_posted; [done..|]; by intros ? ?%elem_of_nil|].
    by rewrite (ap_feed _ _ _ (po_world _ _ _ _ Hp5)), (ap_socket _ _ _ (po_world _ _ _ _ Hp5)). }
  apply wp_ret, wp_bind, wp_modify_rest. set (impl' := set_state st _).
  destruct (listening_socket _ _ impl' c5 Running Hl5) as [Hl6 _]; [by rewrite Esk..|].
  destruct (failed y'') eqn:Hy''; [by apply wp_give_up|].
  apply wp_bind. eapply wp_mono; [by apply wp_start_receive|].
  intros ? c7 (ph & cs & Hr & Hl7 & Ht7 & <-). apply wp_ret. split; [|by exists ph].
  pose proof (tu_feed _ _ _ _ _ _ Ht7) as Ef7. simpl in Ef7. injection Ef7 as Ef7. by rewrite <- Ef7.
Qed.
End opening.
