(* ===== verification/NetworkTheorems.v ===== *)
(** * Theorems about the network thread

    What io_context::run does with FeedHandler.h on it: a turn of its loop,
    the constructor, and the program of two threads, one of which is this
    one. *)

From S2P Require Import Prelude SPSCQueue Protocol FeedHandler Engine System SocketOps OpQueue Scheduler EpollReactor ReactorRules SocketService NetworkThread NetworkRules NetworkSteps NetworkLoop NetworkLive NetworkOpen.

(** ** The program's threads

    The network thread's context and the engine, around one queue.  A turn of
    the network thread is one call of do_run_one; a turn of the worker is
    an iteration of its own. *)
Inductive turn := NetworkTurn | WorkerTurn (tsc : Z).

Section program.
Context {Q K : Type} `{TimerQueueBase Q (NetWorld K)} `{NetKernel K} `{!OtherOperations Q K}.
Context (cfg : scheduler_config) (recv_buffer remote_endpoint : ptr).
Abbreviation R := (Reactor Q (NetWorld K)).

Record Program := mkProgram { network_thread : Ctx R; worker_thread : Engine }.

Definition feed_handler (p : Program) : FeedHandler := net_feed (world (rest (network_thread p))).

(** The feed handler's queue is the engine's. *)
Definition share_queue (q : SPSCQueue PacketPayload) (c : Ctx R) : Ctx R :=
  with_rest (update_world (fun w => set_feed (FeedHandler.set_queue q (net_feed w)) w)) c.

Definition network_loop : nat -> prog (Ctx R) Z :=
  do_run_one (H1 := reactor_operations (H1 := net_handlers cfg recv_buffer remote_endpoint) cfg) cfg.

Definition program_turn (fuel : nat) (t : turn) : prog Program unit := fun p =>
  match t with
  | NetworkTurn =>
      match network_loop fuel (share_queue (queue (worker_thread p)) (network_thread p)) with
      | Ok (_, c) =>
          Ok (tt, mkProgram c (set_engine_queue (_queue (net_feed (world (rest c)))) (worker_thread p)))
      | Undefined f => Undefined f
      | OutOfFuel => OutOfFuel
      end
  | WorkerTurn tsc =>
      match Engine.poll fuel tsc (worker_thread p) with
      | Ok (_, e) => Ok (tt, mkProgram (share_queue (queue e) (network_thread p)) e)
      | Undefined f => Undefined f
      | OutOfFuel => OutOfFuel
      end
  end.

Fixpoint run_program (fuel : nat) (ts : list turn) : prog Program unit :=
  match ts with
  | [] => mret tt
  | t :: ts => program_turn fuel t;; run_program fuel ts
  end.
End program.
Arguments Program : clear implicits.

(** The completions, and the worker's turns, among events. *)
Definition completions (evs : list event) : list completion :=
  omap (fun ev => match ev with Completes c => Some c | Polls _ => None end) evs.
Definition polls (evs : list event) : list Z :=
  omap (fun ev => match ev with Polls t => Some t | Completes _ => None end) evs.
Definition worker_turns (ts : list turn) : list Z :=
  omap (fun t => match t with WorkerTurn z => Some z | NetworkTurn => None end) ts.

Section theorems.
Context {Q K : Type} `{TimerQueueBase Q (NetWorld K)} `{NetKernel K} `{!OtherOperations Q K}.
Context (recv_buffer remote_endpoint : ptr) `{!NetKernelOk K (recv_buffer + 8)}.
Context (kq : Z) (kq_range : 0 <= kq <= 63) (cfg : scheduler_config).
Context `{!OtherOperationsOk Q K recv_buffer kq}.
Abbreviation data := (recv_buffer + 8).
Abbreviation R := (Reactor Q (NetWorld K)).
Implicit Types (c : Ctx R) (p : Program Q K).
Abbreviation kernel_of c := (net_kernel (world (rest c))).
Abbreviation feed_of c := (net_feed (world (rest c))).
Abbreviation socket_of c := (_socket (world (rest c))).
Abbreviation listening := (listening recv_buffer kq).
Abbreviation turned := (turned recv_buffer).
Abbreviation loop := (network_loop cfg recv_buffer remote_endpoint).

(** ** One turn *)

(** The datagrams: those received and not handled, those in the kernel and
    those that arrive are those handled, then those not handled yet and those
    in the kernel, in order. *)
Definition in_order c ph c' ph' (cs : list completion) : Prop :=
  exists arrived,
    seen ph ++ inbox (data := data) (kernel_of c) (socket_ (socket_of c)) ++ arrived =
    omap datagram cs ++ seen ph' ++ inbox (data := data) (kernel_of c') (socket_ (socket_of c')).

Lemma turned_in_order c ph c' ph' cs : turned c ph c' ph' cs -> in_order c ph c' ph' cs.
Proof.
  intros [(ds & [a Ea] & E) _ [Es _]]. exists a. by rewrite Es, Ea, app_assoc, E, <- app_assoc.
Qed.

Lemma in_order_trans c1 ph1 c2 ph2 c3 ph3 cs cs' :
  in_order c1 ph1 c2 ph2 cs -> in_order c2 ph2 c3 ph3 cs' -> in_order c1 ph1 c3 ph3 (cs ++ cs').
Proof.
  intros [a Ea] [b Eb]. exists (a ++ b). rewrite omap_app, <- app_assoc, <- Eb, !app_assoc. f_equal.
  by rewrite <- !app_assoc, Ea.
Qed.

(** C35. One turn of the loop of io_context::run, in a thread whose receive
    operation waits or is queued with its outcome, and with whatever else in
    the queue: it has no undefined behaviour, it leaves the receive operation
    waiting or queued again, and it runs the feed handler at most once, as
    FeedHandler.v has it, on the next datagram from the socket or on an
    error.  No datagram is lost, duplicated or reordered between the kernel
    and the handler. *)
Theorem network_turn fuel c ph : resting ph -> listening c ph ->
  match loop fuel c with
  | Ok (_, c') => exists ph' cs, resting ph' /\ listening c' ph' /\ (length cs <= 1)%nat /\
      feed cs (feed_of c) = Ok (tt, feed_of c') /\ in_order c ph c' ph' cs
  | Undefined _ => False
  | OutOfFuel => True
  end.
Proof.
  intros Hr Hl. pose proof (do_run_one_keeps recv_buffer remote_endpoint kq kq_range cfg fuel c ph Hr Hl) as Hk.
  unfold if_done in Hk. fold (loop fuel c) in Hk. destruct (loop fuel c) as [[n c']| |]; [|done|done].
  destruct Hk as (ph' & cs & Hr' & Hl' & Ht & Hcs). exists ph', cs. split_and!; [done|done|done|apply Ht|by apply turned_in_order].
Qed.

(** C27. A datagram that has arrived is handled, whatever else is queued or
    reported: with the receive operation waiting, the scheduler not stopped and
    the task in front of the operations [q], if epoll reports among at most [n]
    events that the socket can be read, then after at most [length q + n] calls
    of [do_run_one] the feed handler has run exactly once, on that datagram; or
    a handler has stopped the scheduler before, and the receive operation still
    waits, nothing having been received.  The kernel may refuse the receive
    with an error although the datagram is there: then the handler runs on the
    error, and the datagram is the next that was or will be received; if the
    kernel never does so, it is the datagram that is handled. *)
Theorem datagram_handled `{!OtherOperationsCalm Q K recv_buffer kq} fuel n q c o d inbox' :
  listening c (Waiting o) -> (2 <= fuel)%nat -> stopped_ (scheduler c) = false ->
  op_queue_ (scheduler c) = TaskOperation :: q -> TaskOperation ∉ q -> private_op_queue (scheduler c) = [] ->
  inbox (data := data) (kernel_of c) (socket_ (socket_of c)) = d :: inbox' -> epoll_reports n c ->
  exists k c', (k < length q + n)%nat /\ turns recv_buffer remote_endpoint cfg fuel (Datatypes.S k) c = Ok (tt, c') /\
    (stopped_ (scheduler c') = true /\ listening c' (Waiting o) /\ feed_of c' = feed_of c /\
       in_order c (Waiting o) c' (Waiting o) [] \/
     exists ph' cpl, resting ph' /\ listening c' ph' /\ handle cpl (feed_of c) = Ok (tt, feed_of c') /\
       in_order c (Waiting o) c' ph' [cpl] /\
       (datagram cpl = Some d \/
        is_error cpl = true /\ ~ receives_reliably data /\
        exists l, seen ph' ++ inbox (data := data) (kernel_of c') (socket_ (socket_of c')) = d :: l)).
Proof.
  intros Hl Hf Hst Hq Htask Hp Hin Hev.
  destruct (datagram_served recv_buffer remote_endpoint kq kq_range cfg fuel n q c o Hf Hl Hst Hq Htask Hp)
    as (k & c' & Hk & Hr & Hg); [unfold arrived; by rewrite Hin|done|].
  exists k, c'. split_and!; [done|done|]. destruct Hg as [[Hs [Hl' Ht]]|(ph' & cpl & Hrest & Hl' & Ht & Hrel)]; [left|right].
  - pose proof (tu_feed _ _ _ _ _ _ Ht) as Hfeed. injection Hfeed as Hfeed. split_and!; [done..|by apply turned_in_order].
  - pose proof (turned_in_order _ _ _ _ _ Ht) as Hord. exists ph', cpl. split_and!; [done|done| |done|].
    + pose proof (tu_feed _ _ _ _ _ _ Ht) as Hfeed. simpl in Hfeed. apply bind_Ok_inv in Hfeed as ([] & h & Hh & [= ->]). done.
    + destruct Hord as [a Ea]. rewrite Hin in Ea. destruct cpl as [tsc|tsc bs]; simpl in *; [right|left; by injection Ea as -> _].
      split_and!; [done|intros Hr'; by destruct (Hrel Hr')|].
      rewrite <- Ea. by eexists.
Qed.

(** C34. FeedHandler's constructor, on an io_context that has no descriptor
    yet: it finishes without undefined behaviour; either it reports the error
    of opening, binding or configuring the socket, which it throws, and no
    receive operation exists; or the socket is open and registered, and a
    first receive operation waits or is queued, as the loop requires.  No
    packet has been handled. *)
Theorem feed_handler_opens c addr addrlen : fresh recv_buffer kq c ->
  exists y c', FeedHandler_new cfg recv_buffer remote_endpoint addr addrlen c = Ok (y, c') /\
    feed_of c' = feed_of c /\
    if failed y then net_ops (world (rest c')) = ∅ else exists ph, resting ph /\ listening c' ph.
Proof.
  intros Hfr. destruct (wp_FeedHandler_new recv_buffer remote_endpoint kq kq_range cfg addr addrlen c Hfr) as (y & c' & Hr & Hc).
  by exists y, c'.
Qed.

(** ** The program *)

(** The network thread as it must be between two turns, with the engine's
    queue. *)
Definition running_program p ph : Prop :=
  resting ph /\ listening (network_thread p) ph /\ _queue (feed_handler p) = queue (worker_thread p).

Definition as_system p : System := mkSystem (feed_handler p) (worker_thread p).

Lemma share_same q c : _queue (feed_of c) = q -> share_queue q c = c.
Proof.
  destruct c as [sch r]. destruct r as [? ? ? ? ? ? ? w]. destruct w as [? ? ? h ?]. destruct h. simpl. by intros <-.
Qed.

Lemma engine_same e : set_engine_queue (queue e) e = e.
Proof. by destruct e. Qed.

(** An iteration of the worker pops at most one packet. *)
Lemma poll_contents fuel t e e' l : contents kq (queue e) l -> Engine.poll fuel t e = Ok (tt, e') ->
  exists l', contents kq (queue e') l'.
Proof using kq_range.
  intros Hq Hr. unfold Engine.poll in Hr. apply bind_Ok_inv in Hr as (a & e1 & Hpop & Hr).
  assert (exists l', contents kq (queue e1) l') as [l' Hq1].
  { unfold on_queue in Hpop.
    destruct (wp_pop kq kq_range (queue e) l (fun _ q' => contents kq q' (tail l)) Hq) as (b & q1 & Hp & Hc); [auto|].
    rewrite Hp in Hpop. injection Hpop as <- <-. by exists (tail l). }
  exists l'. destruct a as [pkt|].
  - apply bind_Ok_inv in Hr as (? & ? & [= <- <-] & Hr). apply bind_Ok_inv in Hr as (? & ? & [= <- <-] & Hr).
    apply bind_Ok_inv in Hr as ([] & e2 & Hb & Hr). unfold on_book in Hb.
    destruct (dispatch_packet _ _ _) as [[[] b]| |]; [|done|done]. injection Hb as <-.
    apply bind_Ok_inv in Hr as ([] & e3 & Hs & Hr). unfold take_sample in Hs.
    apply bind_Ok_inv in Hs as (? & ? & [= <- <-] & Hs).
    apply bind_Ok_inv in Hr as (? & ? & [= <- <-] & [= <-]). simpl.
    destruct (_ <? _); [|by injection Hs as <-]. apply bind_Ok_inv in Hs as (v & ? & Hv & Hs).
    unfold lift in Hv. destruct (vwrite _ _ _); [|done|done]. injection Hv as <- <-. by injection Hs as <-.
  - apply bind_Ok_inv in Hr as (? & ? & [= <- <-] & Hr). apply bind_Ok_inv in Hr as (? & ? & [= <- <-] & Hr).
    destruct (_ >? 64); [|by injection Hr as <-]. by apply bind_Ok_inv in Hr as (? & ? & [= <- <-] & [= <-]).
Qed.

(** The queue may have been popped by the other thread. *)
Lemma listening_shared q l c ph : listening c ph -> contents kq q l -> listening (share_queue q c) ph.
Proof.
  intros [] Hq. split; try done. destruct li_feed as [l0 [_ Hb]]. exists l. split; [exact Hq|exact Hb].
Qed.

Lemma network_turn_system fuel p ph : running_program p ph ->
  match program_turn cfg recv_buffer remote_endpoint fuel NetworkTurn p with
  | Ok (_, p') => exists cs ph', run_system fuel (Completes <$> cs) (as_system p) = Ok (tt, as_system p') /\
      running_program p' ph' /\ in_order (network_thread p) ph (network_thread p') ph' cs
  | Undefined _ => False
  | OutOfFuel => True
  end.
Proof.
  intros (Hr & Hl & Eq). cbn [program_turn]. rewrite share_same by done.
  pose proof (do_run_one_keeps recv_buffer remote_endpoint kq kq_range cfg fuel _ ph Hr Hl) as Hk.
  unfold if_done in Hk. fold (loop fuel (network_thread p)) in Hk.
  destruct (loop fuel (network_thread p)) as [[n c']| |]; [|done|done].
  destruct Hk as (ph' & cs & Hr' & Hl' & Ht & Hcs). exists cs, ph'.
  split; [|by split_and!; [..|by apply turned_in_order]].
  pose proof (tu_feed _ _ _ _ _ _ Ht) as Hf. fold (feed_handler p) in Hf. unfold as_system, feed_handler at 2. simpl.
  destruct cs as [|cpl [|]]; [| |unfold at_most_one in Hcs; simpl in Hcs; lia].
  - injection Hf as Hf. simpl. rewrite <- Hf, Eq, engine_same. by destruct p.
  - simpl in Hf. apply bind_Ok_inv in Hf as ([] & h & Hh & [= ->]).
    assert (system_step fuel (Completes cpl) (mkSystem (feed_handler p) (worker_thread p)) =
      Ok (tt, mkSystem (feed_of c') (set_engine_queue (_queue (feed_of c')) (worker_thread p)))) as Hstep.
    { unfold system_step. cbn [worker network]. rewrite <- Eq.
      assert (FeedHandler.set_queue (_queue (feed_handler p)) (feed_handler p) = feed_handler p) as ->
        by (by destruct (feed_handler p)).
      by rewrite Hh. }
    cbn [fmap list_fmap run_system]. by rewrite (bind_Ok _ _ _ _ _ Hstep).
Qed.

Lemma worker_turn_system fuel t p ph : running_program p ph ->
  match program_turn cfg recv_buffer remote_endpoint fuel (WorkerTurn t) p with
  | Ok (_, p') => system_step fuel (Polls t) (as_system p) = Ok (tt, as_system p') /\
      running_program p' ph /\ in_order (network_thread p) ph (network_thread p') ph []
  | Undefined f => system_step fuel (Polls t) (as_system p) = Undefined f
  | OutOfFuel => True
  end.
Proof.
  intros (Hr & Hl & Eq). cbn [program_turn]. unfold as_system at 1 3. cbn [system_step worker network].
  destruct (Engine.poll fuel t (worker_thread p)) as [[[] e]| |] eqn:Ep; [|done|done].
  split; [done|]. destruct (li_feed _ _ _ _ Hl) as [l [Hq _]]. unfold feed_handler in Eq. rewrite Eq in Hq.
  destruct (poll_contents _ _ _ _ _ Hq Ep) as [l' Hq']. split.
  - split_and!; [done|by eapply listening_shared|done].
  - exists []. by rewrite app_nil_r.
Qed.

Lemma run_system_app fuel evs evs' s : run_system fuel (evs ++ evs') s = (run_system fuel evs;; run_system fuel evs') s.
Proof.
  revert s. induction evs as [|ev evs IH]; intros s; [done|]. simpl. unfold mbind, prog_bind in *.
  destruct (system_step fuel ev s) as [[? s1]| |]; [apply IH|done|done].
Qed.

Lemma completions_of cs evs : completions ((Completes <$> cs) ++ evs) = cs ++ completions evs.
Proof. induction cs as [|cpl cs IH]; [done|]. exact (f_equal (cons cpl) IH). Qed.

Lemma polls_of cs evs : polls ((Completes <$> cs) ++ evs) = polls evs.
Proof. by induction cs. Qed.

(** C16. The program with Asio under it behaves as System.v has it: whatever
    order the turns of io_context::run and of the worker's loop come in, the
    feed handler and the engine end as System.v's end for some list of events,
    whose polls are the worker's turns and whose completions are, in order,
    the datagrams that the kernel had for the socket, and errors; and
    behaviour is undefined only if it is there.  So what System.v shows of the
    book for every list of events holds of the program for every schedule. *)
Theorem program_refines_system fuel ts p ph : running_program p ph ->
  match run_program cfg recv_buffer remote_endpoint fuel ts p with
  | Ok (_, p') => exists evs ph', run_system fuel evs (as_system p) = Ok (tt, as_system p') /\
      running_program p' ph' /\ polls evs = worker_turns ts /\
      in_order (network_thread p) ph (network_thread p') ph' (completions evs)
  | Undefined f => exists evs, run_system fuel evs (as_system p) = Undefined f
  | OutOfFuel => True
  end.
Proof.
  revert p ph. induction ts as [|t ts IH]; intros p ph Hp.
  { exists [], ph. split_and!; [done|done|done|]. exists []. by rewrite app_nil_r. }
  cbn [run_program]. unfold mbind at 1, prog_bind at 1. destruct t as [|z].
  - pose proof (network_turn_system fuel p ph Hp) as Ht.
    destruct (program_turn _ _ _ fuel NetworkTurn p) as [[[] p1]| |]; [|done|done].
    destruct Ht as (cs & ph1 & Hs & Hp1 & Ho). specialize (IH p1 ph1 Hp1).
    destruct (run_program _ _ _ fuel ts p1) as [[[] p2]| |]; [|..|done].
    + destruct IH as (evs & ph2 & Hs2 & Hp2 & Epolls & Ho2). exists ((Completes <$> cs) ++ evs), ph2.
      rewrite run_system_app, (bind_Ok _ _ _ _ _ Hs), completions_of, polls_of.
      split_and!; [done|done|done|]. by eapply in_order_trans.
    + destruct IH as [evs Hs2]. exists ((Completes <$> cs) ++ evs). by rewrite run_system_app, (bind_Ok _ _ _ _ _ Hs).
  - pose proof (worker_turn_system fuel z p ph Hp) as Ht.
    destruct (program_turn _ _ _ fuel (WorkerTurn z) p) as [[[] p1]| |]; [| |done].
    + destruct Ht as (Hs & Hp1 & Ho). specialize (IH p1 ph Hp1).
      destruct (run_program _ _ _ fuel ts p1) as [[[] p2]| |]; [|..|done].
      * destruct IH as (evs & ph2 & Hs2 & Hp2 & Epolls & Ho2). exists (Polls z :: evs), ph2.
        cbn [run_system]. rewrite (bind_Ok _ _ _ _ _ Hs). split_and!; [done|done|exact (f_equal (cons z) Epolls)|].
        by apply (in_order_trans _ _ _ _ _ _ [] _ Ho).
      * destruct IH as [evs Hs2]. exists (Polls z :: evs). cbn [run_system]. by rewrite (bind_Ok _ _ _ _ _ Hs).
    + exists [Polls z]. cbn [run_system]. by rewrite (bind_undefined _ _ _ _ Ht).
Qed.
End theorems.
