(* ===== verification/NetworkWorld.v ===== *)
(** * A simulated operating system

    A small operating system that satisfies what NetworkRules.v assumes of
    one: datagrams for one UDP socket, the descriptors registered with epoll,
    an allocator, and a clock.  The theorems about the network thread are
    applied to it, from an io_context that is new. *)

From S2P Require Import Prelude PriceIndex PriceBitSet OrderBook SPSCQueue Protocol FeedHandler Engine System SocketOps SocketRules OpQueue Scheduler EpollReactor TimerQueue ReactorRules SocketService NetworkThread NetworkRules NetworkSteps NetworkLoop NetworkLive NetworkOpen NetworkTheorems.

(** ** The operating system *)

(** The datagrams in the socket's queue, and those that come once it has been
    found empty; the memory of the receive buffer; the objects allocated; the
    descriptors registered, with their pointers. *)
Record os := mkOs {
  os_inbox : list (list Z);
  os_coming : list (list Z);
  os_bytes : list Z;
  os_heap : list ptr;
  os_watching : list (Z * op_ptr);
  os_tsc : Z;
  os_socket : bool;
  os_signals : nat;
}.

Definition os_fd : Z := 3.
Definition sim_buffer : ptr := 4096.
Definition sim_data : ptr := sim_buffer + 8.
Definition sim_endpoint : ptr := 8192.

Definition with_inbox (arrived coming : list (list Z)) (bytes : list Z) (k : os) : os :=
  mkOs arrived coming bytes (os_heap k) (os_watching k) (os_tsc k) (os_socket k) (os_signals k).
Definition with_signals (n : nat) (k : os) : os :=
  mkOs (os_inbox k) (os_coming k) (os_bytes k) (os_heap k) (os_watching k) (os_tsc k) (os_socket k) n.
Definition with_heap (h : list ptr) (k : os) : os :=
  mkOs (os_inbox k) (os_coming k) (os_bytes k) h (os_watching k) (os_tsc k) (os_socket k) (os_signals k).
Definition with_watching (l : list (Z * op_ptr)) (k : os) : os :=
  mkOs (os_inbox k) (os_coming k) (os_bytes k) (os_heap k) l (os_tsc k) (os_socket k) (os_signals k).
Definition with_tsc (n : Z) (k : os) : os :=
  mkOs (os_inbox k) (os_coming k) (os_bytes k) (os_heap k) (os_watching k) n (os_socket k) (os_signals k).
Definition with_socket (b : bool) (k : os) : os :=
  mkOs (os_inbox k) (os_coming k) (os_bytes k) (os_heap k) (os_watching k) (os_tsc k) b (os_signals k).

Definition success (n : Z) : reply := mkReply n 0 16 0.
Definition failure (v : Z) : reply := mkReply (-1) v 0 0.

Definition os_recvfrom (s size : Z) (k : os) : reply * os :=
  if negb ((s =? os_fd) && os_socket k) then (failure EBADF, k) else
  match os_signals k, os_inbox k with
  | Datatypes.S n, _ => (failure EINTR, with_signals n k)
  | O, d :: inbox => (success (Z.min (Z.of_nat (length d)) size),
      with_inbox inbox (os_coming k) (write_at 0 (take (Z.to_nat size) d) (os_bytes k)) k)
  | O, [] => (failure EAGAIN, with_inbox (os_coming k) [] (os_bytes k) k)
  end.

#[export] Instance os_calls : Kernel os := fun call k =>
  match call with
  | Sys_recvfrom s _ size _ _ _ => os_recvfrom s size k
  | Sys_socket _ _ _ => if os_socket k then (failure 24, k) else (success os_fd, with_socket true k)
  | Sys_close s => (success 0, if s =? os_fd then with_socket false k else k)
  | _ => (success 0, k)
  end.

Definition os_new (k : os) : ptr * os :=
  let p := 1 + foldr Z.max 65535 (os_heap k) in (p, with_heap (p :: os_heap k) k).

(** The event of a socket that has datagrams. *)
Definition os_events (k : os) : list (event_ptr * Z) :=
  match os_inbox k with
  | [] => []
  | _ => (fun x => (DescriptorPtr x.2, EPOLLIN)) <$> List.filter (fun x => x.1 =? os_fd) (os_watching k)
  end.

#[export] Instance os_kernel_ops : NetKernel os := {
  net_kernel_calls := os_calls;
  k_epoll_ctl op fd events p k :=
    (0, 0, match p with
           | DescriptorPtr d =>
               if op =? EPOLL_CTL_ADD then with_watching ((fd, d) :: os_watching k) k
               else if op =? EPOLL_CTL_DEL then
                 with_watching (List.filter (fun x => negb (x.1 =? fd)) (os_watching k)) k
               else k
           | _ => k
           end);
  k_epoll_wait timeout k := (os_events k, k);
  k_timerfd_settime flags sec nsec k := k;
  k_new := os_new;
  k_delete p k := with_heap (List.filter (fun x => negb (x =? p)) (os_heap k)) k;
  k_rdtsc k := (os_tsc k, with_tsc (os_tsc k + 100) k);
  k_memory p n k := if p =? sim_data then os_bytes k else [];
  k_interruptions := os_signals;
}.

(** ** What is assumed of it holds *)

Definition os_objects (k : os) : gset ptr := list_to_set (os_heap k) ∖ {[0]}.
Definition os_queue (k : os) (s : Z) : list (list Z) := if s =? os_fd then os_inbox k else [].
Definition os_datagram_socket (k : os) (s : Z) : Prop := s = os_fd /\ os_socket k = true.
Definition os_watched (k : os) (d : op_ptr) : Prop := d ∈ (os_watching k).*2.

Lemma max_fresh l p : p ∈ l -> p <= foldr Z.max 65535 l.
Proof. induction 1; simpl; lia. Qed.

Lemma base_fresh l : 65535 <= foldr Z.max 65535 l.
Proof. induction l; simpl; lia. Qed.

(** Calls that change nothing that matters. *)
Ltac os_frame := split_and!; [intros ? Hs; split; [done|exists []; by rewrite app_nil_r]|done|done|auto].

#[export] Instance os_ok : NetKernelOk os sim_data.
Proof.
  refine {| inbox := os_queue; datagram_socket := os_datagram_socket; heap := os_objects; k_watched := os_watched |}.
  - intros k. unfold os_objects. set_solver.
  - intros s addr addrlen k r k' Hc. change (os_recvfrom s BUFFER_SIZE k = (r, k')) in Hc. unfold os_recvfrom in Hc.
    split.
    + intros n _ _. destruct (negb ((s =? os_fd) && os_socket k)), (os_signals k), (os_inbox k); injection Hc as <- <-; simpl; unfold sizeof_sockaddr_storage; lia.
    + destruct (negb ((s =? os_fd) && os_socket k)) eqn:E.
      { injection Hc as <- <-. right. split; [done|]. split; [os_frame|]. right; right. simpl. set_solver. }
      apply negb_false_iff, andb_true_iff in E as [->%Z.eqb_eq Ek].
      destruct (os_signals k) as [|n] eqn:Esig.
      2: { injection Hc as <- <-. right. split; [done|]. split; [os_frame|]. right; left. split; [done|]. simpl. lia. }
      destruct (os_inbox k) as [|d rest] eqn:Ein; injection Hc as <- <-; [right|left].
      * split; [done|]. split; [|left; by unfold os_queue].
        split_and!; [|done|done|auto]. intros ? [-> Hs]. split; [done|]. exists (os_coming k). unfold os_queue. simpl.
        by rewrite Ein.
      * split; [change BUFFER_SIZE with 56; cbn [r_ret success]; lia|]. intros _. exists d. split; [|done].
        split_and!; [done| |done|done|done]. exists []. unfold os_queue. simpl. by rewrite Ein, app_nil_r.
  - intros s cmd arg k r k' [= <- <-]. split; [os_frame|done].
  - intros s cmd arg k r k' [= <- <-]. split; [os_frame|done].
  - intros af type protocol k r k' Hc. change ((if os_socket k then (failure 24, k) else (success os_fd, with_socket true k)) = (r, k')) in Hc.
    destruct (os_socket k) eqn:Ek; injection Hc as <- <-; (split; [|simpl]).
    + os_frame.
    + by left.
    + split_and!; [|done|done|auto]. intros ? [_ Hs]. congruence.
    + right. by split.
  - intros s addr addrlen k r k' [= <- <-]. split; [os_frame|done].
  - intros s level name value len k r k' [= <- <-]. split; [os_frame|done].
  - intros op fd ev p k. simpl. destruct p as [| |d]; try (split_and!; [intros ? Hs; split; [done|exists []; by rewrite app_nil_r]|done|done|by left]).
    destruct (Z.eqb_spec op EPOLL_CTL_ADD) as [->|Hne]; [|destruct (op =? EPOLL_CTL_DEL)];
      (split_and!; [intros ? Hs; split; [done|exists []; by rewrite app_nil_r]|done|done|]); [| |by left].
    + intros d'. unfold os_watched. simpl. rewrite elem_of_cons. intros [->|?]; [by right|by left].
    + intros d'. unfold os_watched. simpl. rewrite !list_elem_of_fmap. intros (x & -> & Hx). left.
      exists x. split; [done|]. apply list_elem_of_In, filter_In in Hx as [Hx _]. by apply list_elem_of_In.
  - intros timeout k. split; [os_frame|]. intros d. simpl. unfold os_events, os_watched.
    destruct (os_inbox k); [simpl; set_solver|]. rewrite <- list_fmap_compose, !list_elem_of_fmap.
    intros (x & [= ->] & Hx). exists x. split; [done|].
    apply list_elem_of_In, filter_In in Hx as [Hx _]. by apply list_elem_of_In.
  - intros. os_frame.
  - intros. os_frame.
  - intros k. simpl. pose proof (base_fresh (os_heap k)). split_and!; [|intros s Hs; split; [done|exists []; by rewrite app_nil_r]|done| |done].
    + unfold os_objects. rewrite elem_of_difference, elem_of_list_to_set. intros [Hin%max_fresh _]. lia.
    + unfold os_objects. simpl. assert (1 + foldr Z.max 65535 (os_heap k) <> 0) by lia. set_solver.
  - intros p k. split_and!; [intros ? Hs; split; [done|exists []; by rewrite app_nil_r]|done| |done].
    unfold os_objects. simpl. apply set_eq. intros x.
    rewrite !elem_of_difference, !elem_of_list_to_set, !list_elem_of_In, filter_In, negb_true_iff, Z.eqb_neq.
    set_solver.
Defined.

(** The other operations of the io_context: they do nothing more when they
    are run. *)
#[export] Instance os_other : OtherOperations TimerQueue os := {
  other_perform o w := Ok (not_done, w);
  other_set_ec o x w := w;
  other_ec o w := success_ec_;
  other_key o w := 0;
  other_destroy o w := w;
  other_complete o := mret tt;
}.

#[export] Instance os_clock : Clock (NetWorld os) := fun w => os_tsc (net_kernel w).

#[export] Instance os_other_ok kq : OtherOperationsOk TimerQueue os sim_buffer kq.
Proof.
  split.
  - intros x w. exists not_done, w. split; [done|]. split; [done..|]. os_frame.
  - intros x c ph Hr Hl _. apply wp_ret, settles_here; done.
Defined.

#[export] Instance os_other_calm kq : OtherOperationsCalm TimerQueue os sim_buffer kq.
Proof.
  split. intros x c ph Hr Hl _. apply wp_ret. split; [by apply keeps_refl|apply calm_refl].
Defined.

Lemma os_reliable : receives_reliably sim_data.
Proof.
  intros s addr addrlen k r k' Hc [-> Hs] Hin. change (os_recvfrom os_fd BUFFER_SIZE k = (r, k')) in Hc.
  unfold os_recvfrom in Hc. rewrite Z.eqb_refl, Hs in Hc. simpl in Hc. change (os_queue k os_fd <> []) in Hin.
  unfold os_queue in Hin. rewrite Z.eqb_refl in Hin.
  destruct (os_signals k), (os_inbox k); try done; injection Hc as <- <-; [left|by right..].
  change BUFFER_SIZE with 56. cbn [r_ret success]. lia.
Qed.

(** ** The program on it *)

(** An object of another part of the program, an operation. *)
Definition sim_other : ptr := 500.

(** A new io_context and queue [q]; [signals] will interrupt the thread, and
    [coming] are the datagrams that will arrive. *)
Definition sim_start (q : SPSCQueue PacketPayload) (signals : nat) (coming : list (list Z)) :
    Ctx (Reactor TimerQueue (NetWorld os)) :=
  mkCtx scheduler_new
    (mkReactor ∅ [] [] [] 5 6 false
       (mkNet (mkOs [] coming (repeat 0 56) [sim_other] [] 1000 false signals) 0 ∅ (mkFeedHandler q zero_packet 0 0) construct)).

Lemma sim_start_fresh q signals coming l : contents 2 q l -> fresh sim_buffer 2 (sim_start q signals coming).
Proof.
  intros Hq. split; [done..| | |done|].
  - intros d. simpl. unfold os_watched. simpl. by intros ?%elem_of_nil.
  - intros x ?%elem_of_nil. done.
  - exists l. by split.
Qed.

Abbreviation sim_new := (FeedHandler_new (Q := TimerQueue) default_config sim_buffer sim_endpoint 0 16).
Abbreviation sim_loop := (network_loop (Q := TimerQueue) default_config sim_buffer sim_endpoint).

(** Once the constructor has run, the receive operation waits, and the
    datagrams have arrived. *)
Definition sim_ready (q : SPSCQueue PacketPayload) (ds : list (list Z)) (c : Ctx (Reactor TimerQueue (NetWorld os))) : Prop :=
  let sk := _socket (world (rest c)) in let k := net_kernel (world (rest c)) in
  stopped_ (scheduler c) = false /\ op_queue_ (scheduler c) = [TaskOperation] /\ private_op_queue (scheduler c) = [] /\
  os_queue k (socket_ sk) = ds /\ os_events k = [(DescriptorPtr (reactor_data_ sk), EPOLLIN)] /\
  _queue (net_feed (world (rest c))) = q.

Lemma sim_new_ready q d ds :
  match sim_new (sim_start q 1 (d :: ds)) with
  | Ok (y, c) => y = success_ec_ /\ sim_ready q (d :: ds) c
  | _ => False
  end.
Proof. vm_compute. by split_and!. Qed.

Lemma sim_opened q d ds l : contents 2 q l ->
  exists c o, sim_new (sim_start q 1 (d :: ds)) = Ok (success_ec_, c) /\
    listening sim_buffer 2 c (Waiting o) /\ sim_ready q (d :: ds) c.
Proof.
  intros Hq. pose proof (sim_new_ready q d ds) as Hready.
  pose proof (wp_FeedHandler_new (K := os) sim_buffer sim_endpoint 2 range_2 default_config 0 16) as Hn.
  destruct (Hn _ (sim_start_fresh q 1 (d :: ds) l Hq)) as (y & c & Hr & [_ Hc]). clear Hn.
  rewrite Hr in Hready. destruct Hready as [-> Hready]. simpl in Hc. destruct Hc as (ph & Hrest & Hl).
  exists c. assert (exists o, ph = Waiting o) as [o ->].
  { clear Hr. destruct ph as [o|o v| |]; [by exists o| |done|done].
    destruct (li_queue _ _ _ _ Hl) as (q' & E & _). destruct Hready as (_ & Eq & Ep & _).
    unfold queued in E. rewrite Eq, Ep in E. by apply Permutation_singleton_l in E. }
  exists o. split; [exact Hr|]. split; [exact Hl|exact Hready].
Qed.

(** ** The theorems on it *)

(** One datagram, handled by one turn of the loop. *)
Lemma network_turn_witness :
  exists (c : Ctx (Reactor TimerQueue (NetWorld os))) o, listening sim_buffer 2 c (Waiting o) /\
    match sim_loop 5 c with
    | Ok (_, c') => exists ph' cs, resting ph' /\ listening sim_buffer 2 c' ph' /\ (length cs <= 1)%nat /\
        feed cs (net_feed (world (rest c))) = Ok (tt, net_feed (world (rest c'))) /\
        in_order sim_buffer c (Waiting o) c' ph' cs
    | Undefined _ => False
    | OutOfFuel => True
    end /\ os_queue (net_kernel (world (rest c))) os_fd = [[1; 2]].
Proof.
  destruct (contents_new 2 range_2 (T := PacketPayload) false) as (q & _ & Hq).
  destruct (sim_opened q [1; 2] [] [] Hq) as (c & o & Hr & Hl & Hready). exists c, o.
  split; [exact Hl|]. split.
  - exact (network_turn sim_buffer sim_endpoint 2 range_2 default_config 5 c (Waiting o) I Hl).
  - pose proof (sim_new_ready q [1; 2] []) as Hsk. rewrite Hr in Hsk. destruct Hsk as (_ & _ & _ & _ & E & _).
    unfold os_queue in *. revert E. destruct (_ =? os_fd); [done|discriminate].
Defined.

Definition sim_add : list Z := message_bytes (create_add_order 1 100 10 CHAR_B).
Definition sim_modify : list Z := message_bytes (create_modify_order 1 101 5).

(** Another operation is queued behind the task, and counted as work. *)
Definition sim_queue (c : Ctx (Reactor TimerQueue (NetWorld os))) : Ctx (Reactor TimerQueue (NetWorld os)) :=
  with_sched (fun s => Scheduler.set_op_queue [TaskOperation; Operation sim_other]
    (set_work (outstanding_work_ s + 1) s)) c.

Abbreviation sim_turns_of := (turns (Q := TimerQueue) sim_buffer sim_endpoint default_config 5).

(** The other operation runs in the first turn, the socket in the second. *)
Definition sim_goes_on (k : nat) (c : Ctx (Reactor TimerQueue (NetWorld os))) : Prop :=
  match sim_turns_of (Datatypes.S k) (sim_queue c) with
  | Ok (_, c') => stopped_ (scheduler c') = false
  | _ => False
  end.

Lemma sim_turns_go_on : match SPSCQueue_new false (2 ^ 2) with
  | Ok q => match sim_new (sim_start q 1 [sim_add]) with
            | Ok (_, c) => sim_goes_on 0 c /\ sim_goes_on 1 c
            | _ => False
            end
  | _ => False
  end.
Proof. vm_compute. by split. Qed.

Lemma sim_queue_listening q d ds c o : sim_new (sim_start q 1 (d :: ds)) = Ok (success_ec_, c) ->
  sim_ready q (d :: ds) c -> listening sim_buffer 2 c (Waiting o) -> listening sim_buffer 2 (sim_queue c) (Waiting o).
Proof.
  intros Hr (_ & Eq & Ep & _) Hl.
  assert (match sim_new (sim_start q 1 (d :: ds)) with
          | Ok (_, c) => sim_other ∈ os_heap (net_kernel (world (rest c))) /\ net_ops (world (rest c)) !! sim_other = None
          | _ => False
          end) as Hin by (vm_compute; split; [repeat constructor|reflexivity]).
  rewrite Hr in Hin. destruct Hin as [Hin Hnone].
  eapply (listening_posted sim_buffer 2 [Operation sim_other]); [exact Hl| |].
  - split; [|done..|]; [|split; [done..|os_frame]]. unfold queued, sim_queue. simpl. rewrite Eq. solve_Permutation.
  - intros x [= ->]%list_elem_of_singleton. split; [|exact Hnone].
    change (sim_other ∈ os_objects (net_kernel (world (rest c)))). unfold os_objects.
    apply elem_of_difference. split; [by apply elem_of_list_to_set|]. by intros ?%elem_of_singleton.
Qed.

Lemma datagram_handled_witness :
  exists (c : Ctx (Reactor TimerQueue (NetWorld os))) o k c' ph' cpl, listening sim_buffer 2 c (Waiting o) /\
    op_queue_ (scheduler c) = [TaskOperation; Operation sim_other] /\ (k < 2)%nat /\
    sim_turns_of (Datatypes.S k) c = Ok (tt, c') /\ resting ph' /\ listening sim_buffer 2 c' ph' /\
    handle cpl (net_feed (world (rest c))) = Ok (tt, net_feed (world (rest c'))) /\ datagram cpl = Some sim_add.
Proof.
  destruct (contents_new 2 range_2 (T := PacketPayload) false) as (q & Eq & Hq).
  destruct (sim_opened q sim_add [] [] Hq) as (c & o & Hr & Hl & Hready).
  pose proof (sim_queue_listening q sim_add [] c o Hr Hready Hl) as Hlq.
  pose proof sim_turns_go_on as Hgo. rewrite Eq, Hr in Hgo.
  destruct Hready as (H1 & H2 & H3 & H4 & H5 & _).
  assert (TaskOperation ∉ [Operation sim_other]) as Htask by (intros [= ]%list_elem_of_singleton).
  assert (epoll_reports 1 (sim_queue c)) as Hev.
  { intros timeout. change (k_epoll_wait timeout _).1 with (os_events (net_kernel (world (rest c)))). rewrite H5.
    split; [reflexivity|]. apply Exists_cons. left. by split. }
  destruct (datagram_handled sim_buffer sim_endpoint 2 range_2 default_config 5 1 [Operation sim_other] (sim_queue c) o sim_add []
    Hlq (le_n_S _ _ (le_n_S _ _ (Nat.le_0_l 3))) H1 eq_refl Htask H3 H4 Hev)
    as (k & c' & Hk & Hrun & Hcases).
  assert (sim_goes_on k c) as Hk2 by (destruct Hgo as [G0 G1]; destruct k as [|[|k]]; [exact G0|exact G1|simpl in Hk; lia]).
  unfold sim_goes_on in Hk2. rewrite Hrun in Hk2.
  destruct Hcases as [[Hs _]|(ph' & cpl & Hrest & Hl' & Hh & _ & Hd)]; [rewrite Hk2 in Hs; discriminate Hs|].
  exists (sim_queue c), o, k, c', ph', cpl. split_and!; [exact Hlq|reflexivity|exact Hk|exact Hrun|exact Hrest|exact Hl'|exact Hh|].
  destruct Hd as [Hd|(_ & Hnr & _)]; [exact Hd|destruct (Hnr os_reliable)].
Defined.

Lemma feed_handler_opens_witness :
  exists q c', fresh sim_buffer 2 (sim_start q 1 [sim_add]) /\
    sim_new (sim_start q 1 [sim_add]) = Ok (success_ec_, c') /\
    exists ph, resting ph /\ listening sim_buffer 2 c' ph.
Proof.
  destruct (contents_new 2 range_2 (T := PacketPayload) false) as (q & _ & Hq).
  pose proof (sim_start_fresh q 1 [sim_add] [] Hq) as Hf.
  pose proof (feed_handler_opens (K := os) sim_buffer sim_endpoint 2 range_2 default_config _ 0 16 Hf) as Hn.
  destruct Hn as (y & c' & Hr & _ & Hc).
  pose proof (sim_new_ready q sim_add []) as Hready. rewrite Hr in Hready. destruct Hready as [-> _].
  exists q, c'. split; [exact Hf|]. split; [exact Hr|exact Hc].
Defined.

(** The program with two datagrams on their way, after the turns [ts]. *)
Definition sim_program (q : SPSCQueue PacketPayload) (c : Ctx (Reactor TimerQueue (NetWorld os))) : Program TimerQueue os :=
  mkProgram c (Engine_new q (OrderBook_new OrderBook.MAX_TICKS 16) zero_packet).

Abbreviation sim_run := (run_program (Q := TimerQueue) default_config sim_buffer sim_endpoint 20).

Definition sim_turns : list turn :=
  [NetworkTurn; WorkerTurn 1500; NetworkTurn; WorkerTurn 1600; WorkerTurn 1700].

(** The order of the first datagram is modified by the second. *)
Lemma program_refines_system_witness :
  exists (c : Ctx (Reactor TimerQueue (NetWorld os))) q o p' evs,
    running_program sim_buffer 2 (sim_program q c) (Waiting o) /\
    sim_run sim_turns (sim_program q c) = Ok (tt, p') /\
    run_system 20 evs (as_system (sim_program q c)) = Ok (tt, as_system p') /\
    polls evs = [1500; 1600; 1700] /\ messages_processed (worker_thread p') = 2.
Proof.
  destruct (contents_new 2 range_2 (T := PacketPayload) false) as (q & Eq & Hq).
  destruct (sim_opened q sim_add [sim_modify] [] Hq) as (c & o & Hr & Hl & Hready).
  assert (running_program sim_buffer 2 (sim_program q c) (Waiting o)) as Hp.
  { split; [exact I|]. split; [exact Hl|]. apply Hready. }
  pose proof (program_refines_system sim_buffer sim_endpoint 2 range_2 default_config 20 sim_turns _ _ Hp) as Href.
  assert (match SPSCQueue_new false (2 ^ 2) with
          | Ok q => match sim_new (sim_start q 1 [sim_add; sim_modify]) with
                    | Ok (_, c) => match sim_run sim_turns (sim_program q c) with
                                   | Ok (_, p') => messages_processed (worker_thread p') = 2
                                   | _ => False
                                   end
                    | _ => False
                    end
          | _ => False
          end) as Hrun by (clear; vm_compute; reflexivity).
  rewrite Eq, Hr in Hrun.
  destruct (sim_run sim_turns (sim_program q c)) as [[[] p']| |] eqn:Es; [|destruct Hrun..].
  destruct Href as (evs & ph' & Hs & _ & Hpolls & _). exists c, q, o, p', evs.
  split_and!; [exact Hp|exact Es|exact Hs|exact Hpolls|exact Hrun].
Defined.
