(* ===== verification/SignalSets.v ===== *)
(** * The signal set service

    Asio's signal sets on Linux (src/include/asio/detail/signal_set_service.hpp
    and impl/signal_set_service.ipp): main.cpp waits for SIGINT and SIGTERM
    with one.  A registration is linked into the sorted list of its set and
    into the list of the registrations of its signal; a signal is counted at
    each registration until somebody waits, and completes everybody who does.

    The one service of the program's io_context is modelled together with the
    state that all services share ([signal_state]: the counts and the flags),
    without its mutex; the pipe that carries the numbers of the signals from
    the handler of the operating system to [deliver_signal], and forking, are
    left out.  Queues of operations are lists (OpQueue.v). *)

From S2P Require Import Prelude SocketOps OpQueue Scheduler.

(** ** Data

    Registrations and sets are known by their addresses. *)

Abbreviation ptr := Z.

(** [NSIG] of Linux. *)
Definition max_signal_number : Z := 65.

(** [signal_set_base::flags]. *)
Definition flags_none : Z := 0.
Definition dont_care : Z := -1.

Definition operation_aborted : error_code := system_error 125.

Record registration := mkRegistration {
  signal_number_ : Z;
  queue_ : ptr;          (* the set whose queue it is *)
  undelivered_ : Z;      (* size_t *)
  next_in_table_ : ptr;
  prev_in_table_ : ptr;
  next_in_set_ : ptr;
}.

Definition registration_new : registration := mkRegistration 0 0 0 0 0 0.

Definition set_undelivered (n : Z) (r : registration) : registration :=
  mkRegistration (signal_number_ r) (queue_ r) n (next_in_table_ r) (prev_in_table_ r) (next_in_set_ r).
Definition set_next_in_table (p : ptr) (r : registration) : registration :=
  mkRegistration (signal_number_ r) (queue_ r) (undelivered_ r) p (prev_in_table_ r) (next_in_set_ r).
Definition set_prev_in_table (p : ptr) (r : registration) : registration :=
  mkRegistration (signal_number_ r) (queue_ r) (undelivered_ r) (next_in_table_ r) p (next_in_set_ r).
Definition set_next_in_set (p : ptr) (r : registration) : registration :=
  mkRegistration (signal_number_ r) (queue_ r) (undelivered_ r) (next_in_table_ r) (prev_in_table_ r) p.
Definition set_registered (n queue next : Z) (r : registration) : registration :=
  mkRegistration n queue (undelivered_ r) (next_in_table_ r) (prev_in_table_ r) next.

(** [implementation_type]: a signal set. *)
Record signal_set := mkSignalSet { set_queue : list op_ptr; signals_ : ptr }.

(** [signal_op]. *)
Record signal_op := mkSignalOp { so_ec_ : error_code; so_cancellation_key_ : Z; so_signal_number_ : Z }.

Definition signal_op_new (key : Z) : signal_op := mkSignalOp (system_error 0) key 0.
Definition set_so_ec (x : error_code) (op : signal_op) : signal_op :=
  mkSignalOp x (so_cancellation_key_ op) (so_signal_number_ op).
Definition set_so_signal (n : Z) (op : signal_op) : signal_op :=
  mkSignalOp (so_ec_ op) (so_cancellation_key_ op) n.

(** [sigaction] (with the flags of asio_signal_handler, or [None] for
    [SIG_DFL]; its result and [errno]), [new] and [delete]. *)
Class SignalKernel (K : Type) := {
  k_sigaction : Z -> option Z -> K -> Z * Z * K;
  new_registration : K -> ptr * K;
  delete_registration : ptr -> K -> K;
}.

(** The registrations and the sets by address, the table of the service, the
    counts and flags of [signal_state], and the operations by address. *)
Record Signals (K : Type) := mkSignals {
  registrations : gmap ptr registration;
  signal_sets : gmap ptr signal_set;
  registrations_ : vec ptr;
  registration_count_ : vec Z;   (* size_t *)
  flags_ : vec Z;
  signal_ops : gmap op_ptr signal_op;
  signal_kernel : K;
}.
Arguments mkSignals {K} _ _ _ _ _ _ _.
Arguments registrations {K} _.
Arguments signal_sets {K} _.
Arguments registrations_ {K} _.
Arguments registration_count_ {K} _.
Arguments flags_ {K} _.
Arguments signal_ops {K} _.
Arguments signal_kernel {K} _.

Section signals.
Context {K : Type} `{SignalKernel K}.
Abbreviation M := (prog (Signals K)).
Implicit Types (S : Signals K) (s r p : ptr) (o : op_ptr) (x : error_code).

Definition signals_new (k : K) : Signals K :=
  mkSignals ∅ ∅ (vnew max_signal_number 0) (vnew max_signal_number 0) (vnew max_signal_number flags_none) ∅ k.

(** *** Access to the members *)

Definition with_registrations m S : Signals K :=
  mkSignals m (signal_sets S) (registrations_ S) (registration_count_ S) (flags_ S) (signal_ops S) (signal_kernel S).
Definition with_sets m S : Signals K :=
  mkSignals (registrations S) m (registrations_ S) (registration_count_ S) (flags_ S) (signal_ops S) (signal_kernel S).
Definition with_table v S : Signals K :=
  mkSignals (registrations S) (signal_sets S) v (registration_count_ S) (flags_ S) (signal_ops S) (signal_kernel S).
Definition with_counts v S : Signals K :=
  mkSignals (registrations S) (signal_sets S) (registrations_ S) v (flags_ S) (signal_ops S) (signal_kernel S).
Definition with_flags v S : Signals K :=
  mkSignals (registrations S) (signal_sets S) (registrations_ S) (registration_count_ S) v (signal_ops S) (signal_kernel S).
Definition with_ops m S : Signals K :=
  mkSignals (registrations S) (signal_sets S) (registrations_ S) (registration_count_ S) (flags_ S) m (signal_kernel S).
Definition with_sig_kernel k S : Signals K :=
  mkSignals (registrations S) (signal_sets S) (registrations_ S) (registration_count_ S) (flags_ S) (signal_ops S) k.

Definition found {A} (a : option A) : M A := match a with Some a => mret a | None => throw NullDeref end.

Definition load_reg r : M registration := S ← get_state; found (registrations S !! r).
Definition store_reg r (f : registration -> registration) : M unit :=
  S ← get_state; g ← found (registrations S !! r); put_state (with_registrations (<[r:=f g]> (registrations S)) S).
Definition load_set s : M signal_set := S ← get_state; found (signal_sets S !! s).
Definition store_set s (i : signal_set) : M unit :=
  S ← get_state; _ ← found (signal_sets S !! s); put_state (with_sets (<[s:=i]> (signal_sets S)) S).
Definition store_op o (f : signal_op -> signal_op) : M unit :=
  S ← get_state; op ← found (signal_ops S !! o); put_state (with_ops (<[o:=f op]> (signal_ops S)) S).

Definition table_at n : M ptr := S ← get_state; lift (vread (registrations_ S) n).
Definition table_put n r : M unit :=
  S ← get_state; v ← lift (vwrite (registrations_ S) n r); put_state (with_table v S).
Definition count_at n : M Z := S ← get_state; lift (vread (registration_count_ S) n).
Definition count_put n c : M unit :=
  S ← get_state; v ← lift (vwrite (registration_count_ S) n c); put_state (with_counts v S).
Definition flags_at n : M Z := S ← get_state; lift (vread (flags_ S) n).
Definition flags_put n f : M unit :=
  S ← get_state; v ← lift (vwrite (flags_ S) n f); put_state (with_flags v S).

Definition allocate_registration : M ptr :=
  S ← get_state;
  let '(r, k) := new_registration (signal_kernel S) in
  put_state (with_registrations (<[r:=registration_new]> (registrations S)) (with_sig_kernel k S));; mret r.
Definition free_registration r : M unit :=
  load_reg r;;
  S ← get_state;
  put_state (with_registrations (delete r (registrations S))
    (with_sig_kernel (delete_registration r (signal_kernel S)) S)).

(** [::sigaction(...) == -1]: the error then. *)
Definition sigaction n (handler : option Z) : M (option error_code) :=
  S ← get_state;
  let '(result, err, k) := k_sigaction n handler (signal_kernel S) in
  put_state (with_sig_kernel k S);;
  mret (if result =? -1 then Some (system_error err) else None).
End signals.

Definition valid_signal (n : Z) : bool := (0 <=? n) && (n <? max_signal_number).

Module signal_set_service.
Section service.
Context {K : Type} `{SignalKernel K}.
Abbreviation M := (prog (Signals K)).
Implicit Types (s r p : ptr) (o : op_ptr) (x : error_code) (point : option ptr).

Definition construct s : M unit :=
  S ← get_state; put_state (with_sets (<[s:=mkSignalSet [] 0]> (signal_sets S)) S).

(** The place in the sorted list of a set: the registration whose
    [next_in_set_] leads to it ([None] for the set's [signals_]), and the
    registration there. *)
Fixpoint find_place (fuel : nat) (n : Z) point (next : ptr) : M (option ptr * ptr) :=
  match fuel with
  | O => loop_out
  | Datatypes.S fuel =>
      if next =? 0 then mret (point, next) else
      r ← load_reg next;
      if signal_number_ r <? n then find_place fuel n (Some next) (next_in_set_ r) else mret (point, next)
  end.

(** [*point = r]. *)
Definition write_point s point r : M unit :=
  match point with
  | None => i ← load_set s; store_set s (mkSignalSet (set_queue i) r)
  | Some p => store_reg p (set_next_in_set r)
  end.

Definition is_registered (n : Z) (next : ptr) : M bool :=
  if next =? 0 then mret false else r ← load_reg next; mret (signal_number_ r =? n).

(** Registering with the operating system, or changing the flags: the error,
    if there is one. *)
Definition install (n f : Z) : M (option error_code) :=
  count ← count_at n;
  if count =? 0 then
    err ← sigaction n (Some (if negb (f =? dont_care) then f else 0));
    match err with Some x => mret (Some x) | None => flags_put n f;; mret None end
  else if negb (f =? dont_care) then
    old ← flags_at n;
    if negb (f =? old) then
      if negb (old =? dont_care) then mret (Some error.invalid_argument) else
      err ← sigaction n (Some f);
      match err with Some x => mret (Some x) | None => flags_put n f;; mret None end
    else mret None
  else mret None.

(** Recording a new registration in its set and in the table. *)
Definition insert_registration s (n : Z) point (next r : ptr) : M unit :=
  store_reg r (set_registered n s next);;
  write_point s point r;;
  head ← table_at n;
  store_reg r (set_next_in_table head);;
  (if negb (head =? 0) then store_reg head (set_prev_in_table r) else mret tt);;
  table_put n r;;
  count ← count_at n; count_put n (u64 (count + 1)).

Definition add (fuel : nat) s (n f : Z) : M error_code :=
  if negb (valid_signal n) then mret error.invalid_argument else
  i ← load_set s;
  '(point, next) ← find_place fuel n None (signals_ i);
  registered ← is_registered n next;
  if (registered : bool) then mret (system_error 0) else
  r ← allocate_registration;
  err ← install n f;
  match err with
  | Some x => free_registration r;; mret x
  | None => insert_registration s n point next r;; mret (system_error 0)
  end.

(** Back to the default handler when the last registration goes. *)
Definition uninstall (n : Z) : M (option error_code) :=
  count ← count_at n;
  if count =? 1 then
    err ← sigaction n None;
    match err with Some x => mret (Some x) | None => flags_put n flags_none;; mret None end
  else mret None.

(** Taking a registration out of the table, which [remove] and [clear] do
    with the same statements. *)
Definition remove_from_table r : M unit :=
  g ← load_reg r;
  head ← table_at (signal_number_ g);
  (if head =? r then table_put (signal_number_ g) (next_in_table_ g) else mret tt);;
  (if negb (prev_in_table_ g =? 0) then store_reg (prev_in_table_ g) (set_next_in_table (next_in_table_ g)) else mret tt);;
  g ← load_reg r;
  (if negb (next_in_table_ g =? 0) then store_reg (next_in_table_ g) (set_prev_in_table (prev_in_table_ g)) else mret tt);;
  count ← count_at (signal_number_ g); count_put (signal_number_ g) (u64 (count - 1)).

Definition remove (fuel : nat) s (n : Z) : M error_code :=
  if negb (valid_signal n) then mret error.invalid_argument else
  i ← load_set s;
  '(point, r) ← find_place fuel n None (signals_ i);
  registered ← is_registered n r;
  if negb registered then mret (system_error 0) else
  err ← uninstall n;
  match err with
  | Some x => mret x
  | None =>
      g ← load_reg r;
      write_point s point (next_in_set_ g);;
      remove_from_table r;;
      free_registration r;;
      mret (system_error 0)
  end.

Fixpoint clear (fuel : nat) s : M error_code :=
  match fuel with
  | O => loop_out
  | Datatypes.S fuel =>
      i ← load_set s;
      let r := signals_ i in
      if r =? 0 then mret (system_error 0) else
      g ← load_reg r;
      err ← uninstall (signal_number_ g);
      match err with
      | Some x => mret x
      | None =>
          remove_from_table r;;
          g ← load_reg r;
          i ← load_set s;
          store_set s (mkSignalSet (set_queue i) (next_in_set_ g));;
          free_registration r;;
          clear fuel s
      end
  end.

(** *** Taking the operations that are complete *)

(** The loop of [cancel]: the operations aborted. *)
Fixpoint abort_all (ops : list op_ptr) : M (list op_ptr) :=
  match ops with
  | [] => mret []
  | o :: ops => store_op o (set_so_ec operation_aborted);; ops ← abort_all ops; mret (o :: ops)
  end.

Definition cancel_ops s : M (list op_ptr) :=
  i ← load_set s;
  ops ← abort_all (set_queue i);
  i ← load_set s;
  store_set s (mkSignalSet [] (signals_ i));; mret ops.

(** The loop of [cancel_ops_by_key]: those aborted and the others. *)
Fixpoint abort_by_key (key : Z) (queue : list op_ptr) : M (list op_ptr * list op_ptr) :=
  match queue with
  | [] => mret ([], [])
  | o :: queue =>
      S ← get_state; op ← found (signal_ops S !! o);
      (if so_cancellation_key_ op =? key then
         store_op o (set_so_ec operation_aborted);;
         '(ops, others) ← abort_by_key key queue; mret (o :: ops, others)
       else '(ops, others) ← abort_by_key key queue; mret (ops, o :: others))
  end.

Definition cancel_keyed s (key : Z) : M (list op_ptr) :=
  i ← load_set s;
  '(ops, others) ← abort_by_key key (set_queue i);
  i ← load_set s;
  store_set s (mkSignalSet others (signals_ i));; mret ops.

(** The inner loop of [deliver_signal] on a queue. *)
Fixpoint number_all (n : Z) (ops : list op_ptr) : M unit :=
  match ops with
  | [] => mret tt
  | o :: ops => store_op o (set_so_signal n);; number_all n ops
  end.

(** The loop over the registrations of a signal, with the operations so
    far. *)
Fixpoint deliver_loop (fuel : nat) (n : Z) r (ops : list op_ptr) : M (list op_ptr) :=
  match fuel with
  | O => loop_out
  | Datatypes.S fuel =>
      if r =? 0 then mret ops else
      g ← load_reg r;
      i ← load_set (queue_ g);
      ops ← match set_queue i with
            | [] => store_reg r (set_undelivered (u64 (undelivered_ g + 1)));; mret ops
            | waiting =>
                number_all n waiting;;
                i ← load_set (queue_ g);
                store_set (queue_ g) (mkSignalSet [] (signals_ i));; mret (ops ++ waiting)
            end;
      g ← load_reg r;
      deliver_loop fuel n (next_in_table_ g) ops
  end.

Definition deliver_ops (fuel : nat) (n : Z) : M (list op_ptr) := r ← table_at n; deliver_loop fuel n r [].

(** The loop of [start_wait_op]: true when a signal was there already. *)
Fixpoint take_undelivered (fuel : nat) r o : M bool :=
  match fuel with
  | O => loop_out
  | Datatypes.S fuel =>
      if r =? 0 then mret false else
      g ← load_reg r;
      if undelivered_ g >? 0 then
        store_reg r (set_undelivered (u64 (undelivered_ g - 1)));;
        store_op o (set_so_signal (signal_number_ g));; mret true
      else take_undelivered fuel (next_in_set_ g) o
  end.

(** True when the operation is complete; it waits otherwise. *)
Definition wait_op (fuel : nat) s o : M bool :=
  i ← load_set s;
  done ← take_undelivered fuel (signals_ i) o;
  if (done : bool) then mret true else
  i ← load_set s;
  store_set s (mkSignalSet (set_queue i ++ [o]) (signals_ i));; mret false.

(** A new operation at [o]. *)
Definition new_op o (key : Z) : M unit :=
  S ← get_state; put_state (with_ops (<[o:=signal_op_new key]> (signal_ops S)) S).
End service.
End signal_set_service.

(** ** The service and its scheduler *)

(** The rest of the context has the signal sets. *)
Class SignalStore (K R : Type) := {
  signals_of : R -> Signals K;
  put_signals : Signals K -> R -> R;
}.

Section posting.
Context {K R : Type} `{SignalKernel K} `{SignalStore K R} `{SchedulerTask R} (cfg : scheduler_config).
Abbreviation M := (prog (Ctx R)).

Definition on_signals {A} (m : prog (Signals K) A) : M A := fun c =>
  match m (signals_of (rest c)) with
  | Ok (a, st) => Ok (a, mkCtx (scheduler c) (put_signals st (rest c)))
  | Undefined f => Undefined f
  | OutOfFuel => OutOfFuel
  end.

Definition signal_cancel (s : ptr) : M error_code :=
  ops ← on_signals (signal_set_service.cancel_ops s);
  post_deferred_completions cfg ops;; mret (system_error 0).

Definition signal_cancel_by_key (s : ptr) (key : Z) : M unit :=
  ops ← on_signals (signal_set_service.cancel_keyed s key); post_deferred_completions cfg ops.

Definition deliver_signal (fuel : nat) (n : Z) : M unit :=
  ops ← on_signals (signal_set_service.deliver_ops fuel n); post_deferred_completions cfg ops.

Definition start_wait_op (fuel : nat) (s : ptr) (o : op_ptr) : M unit :=
  work_started;;
  done ← on_signals (signal_set_service.wait_op fuel s o);
  if (done : bool) then post_deferred_completion cfg o else mret tt.

Definition signal_async_wait (fuel : nat) (s : ptr) (o : op_ptr) (key : Z) : M unit :=
  on_signals (signal_set_service.new_op o key);; start_wait_op fuel s o.

Definition signal_destroy (fuel : nat) (s : ptr) : M unit :=
  on_signals (signal_set_service.clear fuel s);; signal_cancel s;; mret tt.

(** [signal_set signals(context, n1, n2)]: the error that it throws, the set
    destroyed, if there is one. *)
Definition signal_set_new (fuel : nat) (s : ptr) (n1 n2 : Z) : M error_code :=
  on_signals (signal_set_service.construct s);;
  x ← on_signals (signal_set_service.add fuel s n1 dont_care);
  if failed x then signal_destroy fuel s;; mret x else
  x ← on_signals (signal_set_service.add fuel s n2 dont_care);
  if failed x then signal_destroy fuel s;; mret x else mret x.
End posting.
