(* ===== verification/SignalRules.v ===== *)
(** * Rules for the signal set service

    What is assumed of the operating system, the shape of the lists of
    registrations, and what linking a registration in and out does to it. *)

From S2P Require Import Prelude Bits LinkedList SocketOps SocketRules SocketModes OpQueue Scheduler SignalSets.

(** ** The operating system

    The handler of each signal ([None] for the default, otherwise the flags
    with which asio_signal_handler was installed), and the objects that are
    allocated. *)
Class SignalKernelOk (K : Type) `{SignalKernel K} := {
  disposition : K -> Z -> option Z;
  sig_heap : K -> gset ptr;
  sigaction_law n h k : valid_signal n = true ->
    let '(result, err, k') := k_sigaction n h k in
    sig_heap k' = sig_heap k /\
    (result = -1 /\ err <> 0 /\ (forall m, disposition k' m = disposition k m) \/
     result <> -1 /\ forall m, disposition k' m = if decide (m = n) then h else disposition k m);
  new_registration_law k : let '(r, k') := new_registration k in
    r <> 0 /\ (r ∉ sig_heap k) /\ sig_heap k' = {[r]} ∪ sig_heap k /\ forall m, disposition k' m = disposition k m;
  delete_registration_law r k : let k' := delete_registration r k in
    sig_heap k' = sig_heap k ∖ {[r]} /\ forall m, disposition k' m = disposition k m;
}.

(** ** The lists *)

Abbreviation regs := (gmap ptr registration).

(** The links of the registrations, and the rest of them. *)
Definition table_links (m : regs) (r : ptr) : option (Z * Z) :=
  (fun g => (next_in_table_ g, prev_in_table_ g)) <$> m !! r.
Definition set_link (m : regs) (r : ptr) : option Z := next_in_set_ <$> m !! r.
Definition core (m : regs) (r : ptr) : option (Z * ptr * Z) :=
  (fun g => (signal_number_ g, queue_ g, undelivered_ g)) <$> m !! r.
Definition signal_at (m : regs) (r : ptr) : Z := default 0 ((fun x => x.1.1) <$> core m r).

Lemma core_Some m r n s u : core m r = Some (n, s, u) ->
  exists g, m !! r = Some g /\ signal_number_ g = n /\ queue_ g = s /\ undelivered_ g = u.
Proof. unfold core. intros (g & Hg & [= -> -> ->])%fmap_Some. eauto. Qed.

Lemma core_at m r g : m !! r = Some g -> core m r = Some (signal_number_ g, queue_ g, undelivered_ g).
Proof. intros Hg. unfold core. by rewrite Hg. Qed.

Lemma core_None m r : core m r = None <-> m !! r = None.
Proof. unfold core. by rewrite fmap_None. Qed.

Lemma signal_at_core m r n s u : core m r = Some (n, s, u) -> signal_at m r = n.
Proof. unfold signal_at. by intros ->. Qed.

(** [L s] is the list of the set [s], [T n] that of the signal [n]. *)
Record shape (m : regs) (sets : gmap ptr signal_set) (tab : vec ptr) (L : ptr -> list ptr) (T : Z -> list ptr) : Prop := {
  sh_null (r : ptr) : r = 0 -> m !! r = None;
  sh_sets s i : sets !! s = Some i -> sseg (set_link m) (signals_ i) (L s) 0;
  sh_size : vsize tab = max_signal_number;
  sh_table n a : vget tab n = Some a -> dll (table_links m) a (T n);
  sh_core r n s u : core m r = Some (n, s, u) ->
    r ∈ L s /\ r ∈ T n /\ valid_signal n = true /\ word64 u /\ is_Some (sets !! s);
  sh_L s r : r ∈ L s -> exists n u, core m r = Some (n, s, u);
  sh_T n r : r ∈ T n -> exists s u, core m r = Some (n, s, u);
  sh_sorted s : StronglySorted (fun x y => signal_at m x < signal_at m y) (L s);
}.

Lemma sorted_nodup m l : StronglySorted (fun x y => signal_at m x < signal_at m y) l -> NoDup l.
Proof.
  induction 1 as [|x l _ IH Hx]; constructor; [|done]. intros Hin. rewrite Forall_forall in Hx.
  specialize (Hx x Hin). simpl in Hx. lia.
Qed.

Section shape.
Context {m : regs} {sets : gmap ptr signal_set} {tab : vec ptr} {L : ptr -> list ptr} {T : Z -> list ptr}.
Context (Hsh : shape m sets tab L T).

Lemma valid_in_table n : valid_signal n = true -> exists a, vget tab n = Some a.
Proof.
  unfold valid_signal. intros Hn. zb. apply vget_lookup. rewrite (sh_size _ _ _ _ _ Hsh). lia.
Qed.

Lemma table_nodup n : valid_signal n = true -> NoDup (T n).
Proof. intros [a Ha]%valid_in_table. by destruct (sh_table _ _ _ _ _ Hsh _ _ Ha). Qed.

Lemma L_nodup s : NoDup (L s).
Proof. eapply sorted_nodup, (sh_sorted _ _ _ _ _ Hsh). Qed.

Lemma L_nonnull s : 0 ∉ L s.
Proof.
  intros (n & u & Hc)%(sh_L _ _ _ _ _ Hsh). apply core_Some in Hc as (g & Hg & _).
  rewrite (sh_null _ _ _ _ _ Hsh) in Hg; done.
Qed.

Lemma T_nonnull n : 0 ∉ T n.
Proof.
  intros (s & u & Hc)%(sh_T _ _ _ _ _ Hsh). apply core_Some in Hc as (g & Hg & _).
  rewrite (sh_null _ _ _ _ _ Hsh) in Hg; done.
Qed.

(** A set has at most one registration of a signal. *)
Lemma registered_once r r' n s u u' : core m r = Some (n, s, u) -> core m r' = Some (n, s, u') -> r = r'.
Proof.
  intros H1 H2. destruct (sh_core _ _ _ _ _ Hsh _ _ _ _ H1) as (M1 & _), (sh_core _ _ _ _ _ Hsh _ _ _ _ H2) as (M2 & _).
  pose proof (sh_sorted _ _ _ _ _ Hsh s) as Hs. apply list_elem_of_lookup in M1 as [i Hi], M2 as [j Hj].
  assert (forall i j x y, L s !! i = Some x -> L s !! j = Some y -> (i < j)%nat -> signal_at m x < signal_at m y) as Hlt.
  { clear Hi Hj. intros i' j' x y Hx Hy Hlt. revert i' j' Hx Hy Hlt. induction Hs as [|z l Hs IH Hz]; [by intros [] |].
    intros [|i'] [|j'] Hx Hy Hlt; simpl in *; [lia| |lia|eapply IH; [done..|lia]].
    injection Hx as <-. rewrite Forall_forall in Hz. apply Hz. by eapply list_elem_of_lookup_2. }
  pose proof (signal_at_core _ _ _ _ _ H1) as E1. pose proof (signal_at_core _ _ _ _ _ H2) as E2.
  destruct (Nat.lt_trichotomy i j) as [Hlt'|[->|Hlt']].
  - specialize (Hlt _ _ _ _ Hi Hj Hlt'). lia.
  - congruence.
  - specialize (Hlt _ _ _ _ Hj Hi Hlt'). lia.
Qed.

(** The lists are no longer than the heap. *)
Lemma length_bound l : NoDup l -> (forall r, r ∈ l -> exists x, core m r = Some x) -> (length l <= size m)%nat.
Proof.
  intros Hnd Hl. rewrite <- (size_list_to_set (C := gset ptr) l Hnd), <- size_dom. apply subseteq_size. intros r.
  rewrite elem_of_list_to_set, elem_of_dom. intros [x Hx]%Hl. unfold core in Hx. destruct (m !! r); [by eexists|done].
Qed.

Lemma L_length s : (length (L s) <= size m)%nat.
Proof. apply length_bound; [apply L_nodup|]. intros r (n & u & E)%(sh_L _ _ _ _ _ Hsh). eauto. Qed.

Lemma T_length n : valid_signal n = true -> (length (T n) <= size m)%nat.
Proof. intros Hn. apply length_bound; [by apply table_nodup|]. intros r (s & u & E)%(sh_T _ _ _ _ _ Hsh). eauto. Qed.
End shape.

(** ** Linking in *)

Definition upd {A} (f : Z -> A) (k : Z) (v : A) : Z -> A := fun x => if decide (x = k) then v else f x.

Lemma upd_eq {A} (f : Z -> A) k v : upd f k v k = v.
Proof. unfold upd. by rewrite decide_True. Qed.
Lemma upd_ne {A} (f : Z -> A) k v x : x <> k -> upd f k v x = f x.
Proof. intros. unfold upd. by rewrite decide_False. Qed.

(** The registration [r] of the signal [n] has been put between [l1] and [l2]
    in the list of [s], and in front of those of the signal. *)
Record linked_in s n (point : option ptr) (next first r : ptr) (m m' : regs) : Prop := {
  ln_core x : core m' x = if decide (x = r) then Some (n, s, 0) else core m x;
  ln_set x : set_link m' x = if decide (x = r) then Some next
                             else if decide (Some x = point) then (fun _ => r) <$> set_link m x else set_link m x;
  ln_table x : table_links m' x = if decide (x = r) then Some (first, 0)
                                  else if decide (x = first) then (fun p => (p.1, r)) <$> table_links m x
                                  else table_links m x;
}.

Lemma signal_at_new s n point next first r m m' x : linked_in s n point next first r m m' ->
  signal_at m' x = if decide (x = r) then n else signal_at m x.
Proof. intros Hl. unfold signal_at. rewrite (ln_core _ _ _ _ _ _ _ _ Hl). by case_decide. Qed.

Lemma sorted_insert (R : ptr -> ptr -> Prop) l1 r l2 : StronglySorted R (l1 ++ l2) ->
  (forall x, x ∈ l1 -> R x r) -> (forall x, x ∈ l2 -> R r x) -> StronglySorted R (l1 ++ r :: l2).
Proof.
  intros Hs H1 H2. induction l1 as [|y l1 IH]; simpl in *.
  - constructor; [done|]. by apply Forall_forall.
  - inversion Hs as [|? ? Hs' Hy]; subst. constructor.
    + apply IH; [done|]. intros x Hx. apply H1. by right.
    + rewrite Forall_app in *. destruct Hy. split; [done|]. constructor; [|done]. apply H1. by left.
Qed.

Lemma sorted_ext (R R' : ptr -> ptr -> Prop) l : (forall x y, x ∈ l -> y ∈ l -> R x y -> R' x y) ->
  StronglySorted R l -> StronglySorted R' l.
Proof.
  intros HR. induction 1 as [|x l Hs IH Hx]; constructor.
  - apply IH. intros y z Hy Hz. apply HR; by right.
  - rewrite Forall_forall in *. intros y Hy. apply HR; [by left|by right|auto].
Qed.

(** What is known when [r] is linked in. *)
Section linking.
Context {m : regs} {sets : gmap ptr signal_set} {tab : vec ptr} {L : ptr -> list ptr} {T : Z -> list ptr}.
Context (Hsh : shape m sets tab L T).
Context {m' : regs} {s r first : ptr} {i : signal_set} {n : Z} {l1 l2 : list ptr}.
Context (Hl : linked_in s n (last l1) (default 0 (head l2)) first r m m').
Context (Hr : r <> 0) (Hcr : core m r = None) (Hn : valid_signal n = true) (Hs : sets !! s = Some i)
  (Hf : vget tab n = Some first) (EL : L s = l1 ++ l2)
  (H1 : forall x, x ∈ l1 -> signal_at m x < n) (H2 : forall x, x ∈ l2 -> n < signal_at m x).

Lemma new_not_in_set s' : r ∉ L s'.
Proof. intros (? & ? & ?)%(sh_L _ _ _ _ _ Hsh). congruence. Qed.

Lemma new_not_in_table n' : r ∉ T n'.
Proof. intros (? & ? & ?)%(sh_T _ _ _ _ _ Hsh). congruence. Qed.

Lemma in_l1 x : x ∈ l1 -> x ∈ L s.
Proof. rewrite EL, elem_of_app. by left. Qed.

Lemma in_l2 x : x ∈ l2 -> x ∈ L s.
Proof. rewrite EL, elem_of_app. by right. Qed.

Lemma set_unlinked x : x <> r -> last l1 <> Some x -> set_link m' x = set_link m x.
Proof. intros Hx Hlast. rewrite (ln_set _ _ _ _ _ _ _ _ Hl). by rewrite !decide_False. Qed.

Lemma own_list : sseg (set_link m') (match l1 with [] => r | _ => signals_ i end) (l1 ++ r :: l2) 0.
Proof.
  pose proof (sh_sets _ _ _ _ _ Hsh _ _ Hs) as Hseg. rewrite EL in Hseg. apply sseg_app in Hseg as (a & S1 & S2).
  pose proof (L_nodup Hsh s) as Hnd. rewrite EL in Hnd. apply NoDup_app in Hnd as (N1 & N12 & N2).
  apply sseg_app. exists r. split.
  - eapply (sseg_leave (set_link m)); [exact N1|exact S1| |].
    + intros x Ex. rewrite (ln_set _ _ _ _ _ _ _ _ Hl). pose proof (last_Some_elem_of _ _ Ex) as Hx.
      rewrite decide_False by (intros ->; by apply (new_not_in_set s), in_l1). rewrite decide_True by done.
      destruct (sh_L _ _ _ _ _ Hsh s x (in_l1 x Hx)) as (? & ? & (g & Hg & _)%core_Some). unfold set_link. by rewrite Hg.
    + intros x Hx Hlast. apply set_unlinked; [|done]. intros ->. by apply (new_not_in_set s), in_l1.
  - simpl. split; [done|]. exists (default 0 (head l2)). rewrite (ln_set _ _ _ _ _ _ _ _ Hl), decide_True by done. split; [done|].
    pose proof (sseg_first _ _ _ _ S2) as Ea. subst a. eapply sseg_same; [|exact S2]. intros x Hx. apply set_unlinked.
    + intros ->. by apply (new_not_in_set s), in_l2.
    + intros Ex%last_Some_elem_of. by apply (N12 x).
Qed.

Lemma other_list s' a : s' <> s -> sseg (set_link m) a (L s') 0 -> sseg (set_link m') a (L s') 0.
Proof.
  intros Hne. apply sseg_same. intros x Hx. apply set_unlinked; [intros ->; by apply (new_not_in_set s')|].
  intros Ex%last_Some_elem_of. destruct (sh_L _ _ _ _ _ Hsh _ _ Hx) as (? & ? & E).
  destruct (sh_L _ _ _ _ _ Hsh s x (in_l1 x Ex)) as (? & ? & E'). congruence.
Qed.

Lemma first_is : first = default 0 (head (T n)).
Proof. destruct (sh_table _ _ _ _ _ Hsh _ _ Hf) as [Hd _]. by eapply dseg_first. Qed.

Lemma table_unlinked x : x <> r -> x <> first -> table_links m' x = table_links m x.
Proof. intros Hx Hx'. rewrite (ln_table _ _ _ _ _ _ _ _ Hl). by rewrite !decide_False. Qed.

Lemma own_table : dll (table_links m') r (r :: T n).
Proof.
  pose proof (sh_table _ _ _ _ _ Hsh _ _ Hf) as Hd. pose proof first_is as Ef.
  apply (dll_cons (table_links m) _ first); [done|apply new_not_in_table|by rewrite (ln_table _ _ _ _ _ _ _ _ Hl), decide_True| |].
  - intros x Ex. rewrite (ln_table _ _ _ _ _ _ _ _ Hl), Ef, Ex. simpl. rewrite decide_False.
    2: { intros ->. apply (new_not_in_table n). destruct (T n); [done|]. injection Ex as ->. by left. }
    rewrite decide_True by done. destruct (T n) as [|y l]; [done|]. injection Ex as ->. destruct Hd as [Hd _].
    simpl in Hd. destruct Hd as (_ & nx & -> & _). by exists nx.
  - intros x Hx Hne. apply table_unlinked; [by intros ->; apply (new_not_in_table n)|].
    intros ->. rewrite Ef in Hne, Hx. destruct (T n); [by apply elem_of_nil in Hx|done].
Qed.

Lemma other_table n' a : n' <> n -> dll (table_links m) a (T n') -> dll (table_links m') a (T n').
Proof.
  intros Hne [Hd Hnd]. split; [|done]. eapply dseg_same; [|exact Hd]. intros x Hx.
  apply table_unlinked; [by intros ->; apply (new_not_in_table n')|]. intros ->. rewrite first_is in Hx.
  destruct (T n) as [|y l] eqn:ET; simpl in Hx; [by apply (T_nonnull Hsh n')|].
  destruct (sh_T _ _ _ _ _ Hsh n' y Hx) as (? & ? & E).
  destruct (sh_T _ _ _ _ _ Hsh n y) as (? & ? & E'); [rewrite ET; by left|congruence].
Qed.

Lemma old_signal s' x : x ∈ L s' -> signal_at m' x = signal_at m x.
Proof.
  intros Hx. rewrite (signal_at_new _ _ _ _ _ _ _ _ _ Hl). rewrite decide_False; [done|]. intros ->. by apply (new_not_in_set s').
Qed.

Lemma new_signal : signal_at m' r = n.
Proof. rewrite (signal_at_new _ _ _ _ _ _ _ _ _ Hl). by rewrite decide_True. Qed.

Lemma own_sorted : StronglySorted (fun x y => signal_at m' x < signal_at m' y) (l1 ++ r :: l2).
Proof.
  apply sorted_insert.
  - rewrite <- EL. eapply sorted_ext; [|apply (sh_sorted _ _ _ _ _ Hsh s)]. intros x y Hx Hy. by rewrite !(old_signal s).
  - intros x Hx. rewrite new_signal, (old_signal s) by by apply in_l1. by apply H1.
  - intros x Hx. rewrite new_signal, (old_signal s) by by apply in_l2. by apply H2.
Qed.

Lemma shape_insert q :
  shape m' (<[s:=mkSignalSet q (match l1 with [] => r | _ => signals_ i end)]> sets) (vset tab n r)
    (upd L s (l1 ++ r :: l2)) (upd T n (r :: T n)).
Proof.
  pose proof (ln_core _ _ _ _ _ _ _ _ Hl) as Ec. split.
  - intros x Hx. apply core_None. rewrite Ec. rewrite decide_False by congruence. apply core_None.
    by apply (sh_null _ _ _ _ _ Hsh).
  - intros s' i'. destruct (decide (s' = s)) as [->|Hne].
    + rewrite lookup_insert_eq, upd_eq. intros [= <-]. apply own_list.
    + rewrite lookup_insert_ne, upd_ne by congruence. intros Hi. apply other_list; [done|]. by apply (sh_sets _ _ _ _ _ Hsh).
  - rewrite vsize_set. apply (sh_size _ _ _ _ _ Hsh).
  - intros n' a'. destruct (decide (n' = n)) as [->|Hne].
    + rewrite vget_set_eq by by eapply vget_Some_range. intros [= <-]. rewrite upd_eq. apply own_table.
    + rewrite vget_set_ne, upd_ne by congruence. intros Ha. apply other_table; [done|]. by apply (sh_table _ _ _ _ _ Hsh).
  - intros x n' s' u. rewrite Ec. case_decide as Ex.
    + intros [= <- <- <-]. subst x. rewrite !upd_eq, lookup_insert_eq, elem_of_app, elem_of_cons.
      split_and!; [auto|by left|done|done|by eexists].
    + intros Hc. destruct (sh_core _ _ _ _ _ Hsh _ _ _ _ Hc) as (C1 & C2 & C3 & C4 & C5). unfold upd. split_and!; [| |done|done|].
      * case_decide; [subst|done]. rewrite EL, elem_of_app in C1. rewrite elem_of_app, elem_of_cons. tauto.
      * case_decide; [subst; by right|done].
      * destruct (decide (s' = s)) as [->|]; [rewrite lookup_insert_eq; by eexists|by rewrite lookup_insert_ne].
  - intros s' x. unfold upd. rewrite Ec. case_decide; subst; intros Hx.
    + case_decide; [eauto|]. apply (sh_L _ _ _ _ _ Hsh). rewrite EL, elem_of_app. rewrite elem_of_app, elem_of_cons in Hx. tauto.
    + rewrite decide_False; [by apply (sh_L _ _ _ _ _ Hsh)|]. intros ->. by apply (new_not_in_set s').
  - intros n' x. unfold upd. rewrite Ec. case_decide; subst; intros Hx.
    + case_decide; [eauto|]. apply (sh_T _ _ _ _ _ Hsh). rewrite elem_of_cons in Hx. tauto.
    + rewrite decide_False; [by apply (sh_T _ _ _ _ _ Hsh)|]. intros ->. by apply (new_not_in_table n').
  - intros s'. unfold upd. case_decide; [apply own_sorted|]. eapply sorted_ext; [|apply (sh_sorted _ _ _ _ _ Hsh s')].
    intros x y Hx Hy. by rewrite !(old_signal s').
Qed.
End linking.

(** ** Linking out *)

(** The registration [r] has been taken out of its lists, where [point] and
    [next], [before] and [after] are around it. *)
Record linked_out (point : option ptr) (next before after r : ptr) (m m' : regs) : Prop := {
  lo_core x : core m' x = if decide (x = r) then None else core m x;
  lo_set x : set_link m' x = if decide (x = r) then None
                             else if decide (Some x = point) then (fun _ => next) <$> set_link m x else set_link m x;
  lo_table x : table_links m' x = if decide (x = r) then None
                                  else (fun p => (if decide (x = before) then after else p.1,
                                                  if decide (x = after) then before else p.2)) <$> table_links m x;
}.

Lemma sorted_remove (R : ptr -> ptr -> Prop) l1 r l2 : StronglySorted R (l1 ++ r :: l2) -> StronglySorted R (l1 ++ l2).
Proof.
  induction l1 as [|y l1 IH]; simpl; intros Hs; inversion Hs as [|? ? Hs' Hy]; subst; [done|].
  constructor; [by apply IH|]. rewrite Forall_app, Forall_cons in Hy. rewrite Forall_app. tauto.
Qed.

(** What is known when [r] is linked out. *)
Section unlinking.
Context {m : regs} {sets : gmap ptr signal_set} {tab : vec ptr} {L : ptr -> list ptr} {T : Z -> list ptr}.
Context (Hsh : shape m sets tab L T).
Context {m' : regs} {s r : ptr} {i : signal_set} {n u : Z} {l1 l2 t1 t2 : list ptr}.
Abbreviation before := (default 0 (last t1)).
Abbreviation after := (default 0 (head t2)).
Context (Hl : linked_out (last l1) (default 0 (head l2)) before after r m m').
Context (Hc : core m r = Some (n, s, u)) (Hs : sets !! s = Some i) (EL : L s = l1 ++ r :: l2) (ET : T n = t1 ++ r :: t2).

Lemma only_set s' : r ∈ L s' -> s' = s.
Proof. intros (? & ? & ?)%(sh_L _ _ _ _ _ Hsh). congruence. Qed.

Lemma only_table n' : r ∈ T n' -> n' = n.
Proof. intros (? & ? & ?)%(sh_T _ _ _ _ _ Hsh). congruence. Qed.

Lemma rest_of_set : NoDup (l1 ++ l2) /\ r ∉ l1 ++ l2.
Proof.
  pose proof (L_nodup Hsh s) as Hnd. rewrite EL in Hnd. apply NoDup_app in Hnd as (N1 & N12 & N2).
  apply NoDup_cons in N2 as [Hr N2]. split.
  - apply NoDup_app. split_and!; [done| |done]. intros x Hx Hx2. apply (N12 x Hx). by right.
  - rewrite elem_of_app. intros [Hx|Hx]; [|done]. apply (N12 r Hx). by left.
Qed.

Lemma rest_of_table : NoDup (t1 ++ t2) /\ r ∉ t1 ++ t2.
Proof.
  destruct (sh_core _ _ _ _ _ Hsh _ _ _ _ Hc) as (_ & _ & Hn & _).
  pose proof (table_nodup Hsh n Hn) as Hnd. rewrite ET in Hnd. apply NoDup_app in Hnd as (N1 & N12 & N2).
  apply NoDup_cons in N2 as [Hr N2]. split.
  - apply NoDup_app. split_and!; [done| |done]. intros x Hx Hx2. apply (N12 x Hx). by right.
  - rewrite elem_of_app. intros [Hx|Hx]; [|done]. apply (N12 r Hx). by left.
Qed.

Lemma set_kept x : x <> r -> last l1 <> Some x -> set_link m' x = set_link m x.
Proof. intros Hx Hlast. rewrite (lo_set _ _ _ _ _ _ _ Hl). by rewrite !decide_False. Qed.

Lemma own_list_out : sseg (set_link m') (match l1 with [] => default 0 (head l2) | _ => signals_ i end) (l1 ++ l2) 0.
Proof.
  pose proof (sh_sets _ _ _ _ _ Hsh _ _ Hs) as Hseg. rewrite EL in Hseg. apply sseg_app in Hseg as (a & S1 & S2).
  simpl in S2. destruct S2 as (-> & b & _ & S2). destruct rest_of_set as [Hnd Hr]. rewrite elem_of_app in Hr.
  apply NoDup_app in Hnd as (N1 & N12 & N2).
  apply sseg_app. exists (default 0 (head l2)). split.
  - eapply (sseg_leave (set_link m)); [exact N1|exact S1| |].
    + intros x Ex. rewrite (lo_set _ _ _ _ _ _ _ Hl). pose proof (last_Some_elem_of _ _ Ex) as Hx.
      rewrite decide_False by (intros ->; tauto). rewrite decide_True by done.
      destruct (sh_L _ _ _ _ _ Hsh s x) as (? & ? & (g & Hg & _)%core_Some); [rewrite EL, elem_of_app; by left|].
      unfold set_link. by rewrite Hg.
    + intros x Hx Hlast. apply set_kept; [|done]. intros ->. tauto.
  - pose proof (sseg_first _ _ _ _ S2) as Eb. subst b. eapply sseg_same; [|exact S2]. intros x Hx. apply set_kept.
    + intros ->. tauto.
    + intros Ex%last_Some_elem_of. by apply (N12 x).
Qed.

Lemma other_list_out s' a : s' <> s -> sseg (set_link m) a (L s') 0 -> sseg (set_link m') a (L s') 0.
Proof.
  intros Hne. apply sseg_same. intros x Hx. apply set_kept; [intros ->; by apply only_set in Hx|].
  intros Ex%last_Some_elem_of. destruct (sh_L _ _ _ _ _ Hsh _ _ Hx) as (? & ? & E).
  destruct (sh_L _ _ _ _ _ Hsh s x) as (? & ? & E'); [rewrite EL, elem_of_app; by left|congruence].
Qed.

Lemma table_kept x : x <> r -> x <> before -> x <> after -> table_links m' x = table_links m x.
Proof.
  intros Hx Hx1 Hx2. rewrite (lo_table _ _ _ _ _ _ _ Hl). rewrite decide_False by done.
  destruct (table_links m x) as [[]|]; simpl; [|done]. by rewrite !decide_False.
Qed.

Lemma around_in_table x : x = before \/ x = after -> x <> 0 -> x ∈ t1 ++ t2.
Proof.
  rewrite elem_of_app. intros [->| ->] Hx.
  - destruct (default_last_in t1); [done|by left].
  - destruct (default_head_in t2); [done|by right].
Qed.

Lemma own_table_out first : dll (table_links m) first (T n) ->
  dll (table_links m') (match t1 with [] => after | _ => first end) (t1 ++ t2).
Proof.
  intros Hd. rewrite ET in Hd. destruct rest_of_table as [Hnd Hr].
  assert (table_links m 0 = None) as Hnull.
  { unfold table_links. by rewrite (sh_null _ _ _ _ _ Hsh). }
  destruct (around_distinct _ _ _ _ _ Hnull Hd) as (_ & _ & _ & F1 & F2 & _).
  refine (dll_replace (table_links m) (table_links m') first t1 r t2 [] Hd Hnd _). cbn [head last default].
  assert (forall x, x ∈ t1 ++ t2 -> table_links m' x = (fun p => (if decide (x = before) then after else p.1,
    if decide (x = after) then before else p.2)) <$> table_links m x) as Ht.
  { intros x Hx. rewrite (lo_table _ _ _ _ _ _ _ Hl). rewrite decide_False; [done|by intros ->]. }
  split_and!; [| | | |done].
  - intros z q Ez Hz. pose proof (last_Some_elem_of _ _ Ez) as Hin. rewrite Ht, Hz by (rewrite elem_of_app; by left).
    destruct (F1 z Hin) as (_ & Hz2 & _). simpl. rewrite Ez. simpl. by rewrite decide_True, decide_False.
  - intros z q Ez Hz. pose proof (head_Some_elem_of _ _ Ez) as Hin. rewrite Ht, Hz by (rewrite elem_of_app; by right).
    destruct (F2 z Hin) as (_ & Hz2 & _). simpl. rewrite Ez. simpl. by rewrite decide_False, decide_True.
  - intros z Hin Hz. destruct (F1 z Hin) as (Hz1 & Hz2 & Hz3). apply table_kept; [done| |done]. intros E. symmetry in E. tauto.
  - intros z Hin Hz. destruct (F2 z Hin) as (Hz1 & Hz2 & Hz3). apply table_kept; [done|done|]. intros E. symmetry in E. tauto.
Qed.

Lemma other_table_out n' a : n' <> n -> dll (table_links m) a (T n') -> dll (table_links m') a (T n').
Proof.
  intros Hne [Hd Hnd]. split; [|done]. eapply dseg_same; [|exact Hd]. intros x Hx.
  assert (~ (x = before \/ x = after)) as Hx'.
  { intros Ha. apply around_in_table in Ha; [|by intros ->; apply (T_nonnull Hsh n')].
    destruct (sh_T _ _ _ _ _ Hsh n' x Hx) as (? & ? & E). destruct (sh_T _ _ _ _ _ Hsh n x) as (? & ? & E'); [|congruence].
    rewrite ET, elem_of_app, elem_of_cons. rewrite elem_of_app in Ha. tauto. }
  apply table_kept; [by intros ->; apply only_table in Hx|tauto..].
Qed.

Lemma kept_signal x : x <> r -> signal_at m' x = signal_at m x.
Proof. intros Hx. unfold signal_at. rewrite (lo_core _ _ _ _ _ _ _ Hl). by rewrite decide_False. Qed.

Lemma elem_without {A} (x y : A) k1 k2 : x <> y -> x ∈ k1 ++ y :: k2 <-> x ∈ k1 ++ k2.
Proof. intros Hne. rewrite !elem_of_app, elem_of_cons. naive_solver. Qed.

Lemma shape_remove q first : vget tab n = Some first ->
  shape m' (<[s:=mkSignalSet q (match l1 with [] => default 0 (head l2) | _ => signals_ i end)]> sets)
    (match t1 with [] => vset tab n after | _ => tab end) (upd L s (l1 ++ l2)) (upd T n (t1 ++ t2)).
Proof.
  intros Hf. pose proof (lo_core _ _ _ _ _ _ _ Hl) as Ec. destruct rest_of_set as [_ Hr1], rest_of_table as [_ Hr2]. split.
  - intros x Hx. apply core_None. rewrite Ec. case_decide; [done|]. apply core_None. by apply (sh_null _ _ _ _ _ Hsh).
  - intros s' i'. destruct (decide (s' = s)) as [->|Hne].
    + rewrite lookup_insert_eq, upd_eq. intros [= <-]. apply own_list_out.
    + rewrite lookup_insert_ne, upd_ne by congruence. intros Hi. apply other_list_out; [done|]. by apply (sh_sets _ _ _ _ _ Hsh).
  - destruct t1; [rewrite vsize_set|]; apply (sh_size _ _ _ _ _ Hsh).
  - intros n' a'. destruct (decide (n' = n)) as [->|Hne].
    + rewrite upd_eq. intros Ha. pose proof (own_table_out first (sh_table _ _ _ _ _ Hsh _ _ Hf)) as Hd.
      destruct t1; [|congruence]. rewrite vget_set_eq in Ha by by eapply vget_Some_range. by injection Ha as <-.
    + rewrite upd_ne by done. intros Ha. apply other_table_out; [done|]. apply (sh_table _ _ _ _ _ Hsh).
      destruct t1; [|done]. by rewrite vget_set_ne in Ha by congruence.
  - intros x n' s' u'. rewrite Ec. case_decide as Ex; [done|]. intros Hx.
    destruct (sh_core _ _ _ _ _ Hsh _ _ _ _ Hx) as (C1 & C2 & C3 & C4 & C5). unfold upd. split_and!; [| |done|done|].
    + case_decide; [subst|done]. rewrite EL in C1. by apply elem_without in C1.
    + case_decide; [subst|done]. rewrite ET in C2. by apply elem_without in C2.
    + destruct (decide (s' = s)) as [->|]; [rewrite lookup_insert_eq; by eexists|by rewrite lookup_insert_ne].
  - intros s' x. unfold upd. rewrite Ec. intros Hx. assert (x <> r /\ x ∈ L s') as [Hne Hx'].
    { case_decide; subst; [|split; [intros ->; by apply only_set in Hx|done]].
      assert (x <> r) by by intros ->. split; [done|]. rewrite EL. by apply elem_without. }
    rewrite decide_False by done. by apply (sh_L _ _ _ _ _ Hsh).
  - intros n' x. unfold upd. rewrite Ec. intros Hx. assert (x <> r /\ x ∈ T n') as [Hne Hx'].
    { case_decide; subst; [|split; [intros ->; by apply only_table in Hx|done]].
      assert (x <> r) by by intros ->. split; [done|]. rewrite ET. by apply elem_without. }
    rewrite decide_False by done. by apply (sh_T _ _ _ _ _ Hsh).
  - intros s'. unfold upd. case_decide.
    + subst s'. eapply sorted_ext; [|eapply sorted_remove; rewrite <- EL; apply (sh_sorted _ _ _ _ _ Hsh s)].
      intros x y Hx Hy. by rewrite !kept_signal by by intros ->.
    + eapply sorted_ext; [|apply (sh_sorted _ _ _ _ _ Hsh s')].
      intros x y Hx Hy. by rewrite !kept_signal by (intros ->; by apply only_set in Hx || by apply only_set in Hy).
Qed.
End unlinking.
