(* ===== verification/SignalSteps.v ===== *)
(** * The statements of the signal set service

    The rules of its statements, how [add] finds the place of a registration
    and links it in, how [remove] and [clear] take one out, and how handlers
    are installed with the operating system. *)

From S2P Require Import Prelude Bits LinkedList SocketOps SocketRules SocketModes OpQueue Scheduler SignalSets SignalRules.

Section steps.
Context {K : Type} `{SignalKernelOk K}.
Implicit Types (S : Signals K) (s r : Z) (m : regs).

(** ** Statements *)

Lemma wp_load_reg r g S (Phi : registration -> Signals K -> Prop) :
  registrations S !! r = Some g -> Phi g S -> wp (load_reg r) S Phi.
Proof. intros Hg HP. unfold load_reg. apply wp_bind, wp_get. rewrite Hg. by apply wp_ret. Qed.

Lemma alter_insert_eq {B} `{Countable Key} (k : Key) (a : B) f (m : gmap Key B) : m !! k = Some a -> <[k:=f a]> m = alter f k m.
Proof.
  intros Hk. apply map_eq. intros x. destruct (decide (k = x)) as [<-|]; [by rewrite lookup_alter_eq, lookup_insert_eq, Hk|].
  by rewrite lookup_alter_ne, lookup_insert_ne.
Qed.

Lemma wp_store_reg r f S (Phi : unit -> Signals K -> Prop) : is_Some (registrations S !! r) ->
  Phi tt (with_registrations (alter f r (registrations S)) S) -> wp (store_reg r f) S Phi.
Proof.
  intros [g Hg] HP. unfold store_reg. apply wp_bind, wp_get. rewrite Hg. apply wp_bind, wp_ret, wp_put.
  by rewrite (alter_insert_eq r g).
Qed.

(** Through a pointer that may be null. *)
Lemma wp_store_reg_if r f S (Phi : unit -> Signals K -> Prop) : registrations S !! 0 = None ->
  (r = 0 \/ is_Some (registrations S !! r)) -> Phi tt (with_registrations (alter f r (registrations S)) S) ->
  wp (if negb (r =? 0) then store_reg r f else mret tt) S Phi.
Proof.
  intros H0' Hr HP. destruct (Z.eqb_spec r 0) as [->|Hne]; simpl.
  - apply wp_ret. revert HP. rewrite alter_id by (intros; congruence). by destruct S.
  - destruct Hr as [?|Hr]; [done|]. by apply wp_store_reg.
Qed.

Lemma wp_load_set s i S (Phi : signal_set -> Signals K -> Prop) :
  signal_sets S !! s = Some i -> Phi i S -> wp (load_set s) S Phi.
Proof. intros Hi HP. unfold load_set. apply wp_bind, wp_get. rewrite Hi. by apply wp_ret. Qed.

Lemma wp_store_set s i S (Phi : unit -> Signals K -> Prop) : is_Some (signal_sets S !! s) ->
  Phi tt (with_sets (<[s:=i]> (signal_sets S)) S) -> wp (store_set s i) S Phi.
Proof. intros [j Hj] HP. unfold store_set. apply wp_bind, wp_get. rewrite Hj. by apply wp_bind, wp_ret, wp_put. Qed.

Lemma wp_store_op o f S (Phi : unit -> Signals K -> Prop) : is_Some (signal_ops S !! o) ->
  Phi tt (with_ops (alter f o (signal_ops S)) S) -> wp (store_op o f) S Phi.
Proof.
  intros [op Ho] HP. unfold store_op. apply wp_bind, wp_get. rewrite Ho. apply wp_bind, wp_ret, wp_put.
  by rewrite (alter_insert_eq o op).
Qed.

Lemma wp_table_at n a S (Phi : Z -> Signals K -> Prop) :
  vget (registrations_ S) n = Some a -> Phi a S -> wp (table_at n) S Phi.
Proof. intros Ha HP. by apply wp_bind, wp_get, (wp_lift _ a); [apply vread_Ok|]. Qed.

Lemma wp_table_put n a S (Phi : unit -> Signals K -> Prop) : is_Some (vget (registrations_ S) n) ->
  Phi tt (with_table (vset (registrations_ S) n a) S) -> wp (table_put n a) S Phi.
Proof.
  intros Hn HP. apply wp_bind, wp_get, wp_bind. eapply wp_lift; [by apply vwrite_Ok, vget_is_Some|by apply wp_put].
Qed.

Lemma wp_count_at n c S (Phi : Z -> Signals K -> Prop) :
  vget (registration_count_ S) n = Some c -> Phi c S -> wp (count_at n) S Phi.
Proof. intros Ha HP. by apply wp_bind, wp_get, (wp_lift _ c); [apply vread_Ok|]. Qed.

Lemma wp_count_put n c S (Phi : unit -> Signals K -> Prop) : is_Some (vget (registration_count_ S) n) ->
  Phi tt (with_counts (vset (registration_count_ S) n c) S) -> wp (count_put n c) S Phi.
Proof.
  intros Hn HP. apply wp_bind, wp_get, wp_bind. eapply wp_lift; [by apply vwrite_Ok, vget_is_Some|by apply wp_put].
Qed.

Lemma wp_flags_at n f S (Phi : Z -> Signals K -> Prop) : vget (flags_ S) n = Some f -> Phi f S -> wp (flags_at n) S Phi.
Proof. intros Ha HP. by apply wp_bind, wp_get, (wp_lift _ f); [apply vread_Ok|]. Qed.

Lemma wp_flags_put n f S (Phi : unit -> Signals K -> Prop) : is_Some (vget (flags_ S) n) ->
  Phi tt (with_flags (vset (flags_ S) n f) S) -> wp (flags_put n f) S Phi.
Proof.
  intros Hn HP. apply wp_bind, wp_get, wp_bind. eapply wp_lift; [by apply vwrite_Ok, vget_is_Some|by apply wp_put].
Qed.

Lemma wp_sigaction n h S (Phi : option error_code -> Signals K -> Prop) : valid_signal n = true ->
  (forall x k, failed x = true -> sig_heap k = sig_heap (signal_kernel S) ->
     (forall n', disposition k n' = disposition (signal_kernel S) n') -> Phi (Some x) (with_sig_kernel k S)) ->
  (forall k, sig_heap k = sig_heap (signal_kernel S) ->
     (forall n', disposition k n' = if decide (n' = n) then h else disposition (signal_kernel S) n') ->
     Phi None (with_sig_kernel k S)) ->
  wp (sigaction n h) S Phi.
Proof.
  intros Hn Hfail Hok. unfold sigaction. apply wp_bind, wp_get.
  pose proof (sigaction_law n h (signal_kernel S) Hn) as Hlaw. destruct (k_sigaction n h (signal_kernel S)) as [[result err] k].
  destruct Hlaw as (Hh & Hcases). apply wp_bind, wp_put, wp_ret.
  destruct Hcases as [(-> & He & Hd)|(Hr & Hd)].
  - simpl. apply Hfail; [by apply failed_errno|done|done].
  - rewrite (proj2 (Z.eqb_neq _ _) Hr). by apply Hok.
Qed.

(** ** Finding a place *)

Lemma wp_find_place fuel n point next l1 l2 S (Phi : option ptr * ptr -> Signals K -> Prop) :
  registrations S !! 0 = None -> sseg (set_link (registrations S)) next l2 0 -> point = last l1 -> (length l2 < fuel)%nat ->
  (forall k1 k2, l1 ++ l2 = k1 ++ k2 -> (forall x, x ∈ k1 -> x ∈ l1 \/ signal_at (registrations S) x < n) ->
     (forall x, head k2 = Some x -> n <= signal_at (registrations S) x) ->
     Phi (last k1, default 0 (head k2)) S) ->
  wp (signal_set_service.find_place fuel n point next) S Phi.
Proof.
  intros Hnull. revert point next l1 l2. induction fuel as [|fuel IH]; intros point next l1 l2 Hseg -> Hf HP; [lia|].
  cbn [signal_set_service.find_place]. destruct l2 as [|x l2].
  - simpl in Hseg. subst next. apply wp_ret. apply (HP l1 []); [done|by left|done].
  - simpl in Hseg. destruct Hseg as (-> & nx & Hx & Hseg). unfold set_link in Hx. apply fmap_Some in Hx as (g & Hg & ->).
    destruct (Z.eqb_spec x 0) as [->|_]; [congruence|]. apply wp_bind. eapply wp_load_reg; [exact Hg|].
    assert (signal_at (registrations S) x = signal_number_ g) as Esig.
    { unfold signal_at. by rewrite (core_at _ _ _ Hg). }
    destruct (Z.ltb_spec (signal_number_ g) n) as [Hlt|Hge].
    + apply (IH _ _ (l1 ++ [x]) l2); [exact Hseg|by rewrite last_snoc|simpl in Hf; lia|].
      intros k1 k2 E H1 H2. apply HP; [by rewrite <- E, <- app_assoc|..|done].
      intros y Hy. destruct (H1 y Hy) as [Hy'|]; [|by right]. apply elem_of_app in Hy' as [|Hy']; [by left|].
      apply list_elem_of_singleton in Hy'. subst y. right. lia.
    + apply wp_ret. apply (HP l1 (x :: l2)); [done|by left|]. intros y [= <-]. lia.
Qed.

(** The list of a set, around the place of the signal [n]. *)
Definition place_in m (L : Z -> list Z) s n (l1 l2 : list Z) : Prop :=
  L s = l1 ++ l2 /\ (forall x, x ∈ l1 -> signal_at m x < n) /\ (forall x, head l2 = Some x -> n <= signal_at m x).

Lemma wp_place fuel s n i L T S (Phi : option ptr * ptr -> Signals K -> Prop) :
  shape (registrations S) (signal_sets S) (registrations_ S) L T -> signal_sets S !! s = Some i ->
  (size (registrations S) < fuel)%nat ->
  (forall l1 l2, place_in (registrations S) L s n l1 l2 -> Phi (last l1, default 0 (head l2)) S) ->
  wp (signal_set_service.find_place fuel n None (signals_ i)) S Phi.
Proof.
  intros Hsh Hi Hf HP. apply (wp_find_place _ _ _ _ [] (L s)).
  - by apply (sh_null _ _ _ _ _ Hsh).
  - by apply (sh_sets _ _ _ _ _ Hsh).
  - done.
  - pose proof (L_length Hsh s). lia.
  - intros k1 k2 E H1 H2. apply HP. split_and!; [done| |done]. intros x Hx. destruct (H1 x Hx) as [Hn|]; [|done].
    by apply elem_of_nil in Hn.
Qed.

Lemma wp_is_registered n l2 S (Phi : bool -> Signals K -> Prop) : registrations S !! 0 = None ->
  (forall x, head l2 = Some x -> is_Some (registrations S !! x)) ->
  Phi (match head l2 with Some x => signal_at (registrations S) x =? n | None => false end) S ->
  wp (signal_set_service.is_registered n (default 0 (head l2))) S Phi.
Proof.
  intros Hnull Hl2 HP. unfold signal_set_service.is_registered. destruct (head l2) as [x|]; simpl in *; [|by apply wp_ret].
  destruct (Hl2 x eq_refl) as [g Hg]. destruct (Z.eqb_spec x 0) as [->|_]; [congruence|].
  apply wp_bind. eapply wp_load_reg; [exact Hg|]. apply wp_ret. revert HP. unfold signal_at. by rewrite (core_at _ _ _ Hg).
Qed.

(** ** Linking *)

Lemma table_links_alter g f p m x : (forall y, (next_in_table_ (f y), prev_in_table_ (f y)) = g (next_in_table_ y, prev_in_table_ y)) ->
  table_links (alter f p m) x = if decide (x = p) then g <$> table_links m x else table_links m x.
Proof.
  intros Hg. unfold table_links. case_decide as E; [|by rewrite lookup_alter_ne].
  subst. rewrite lookup_alter_eq. destruct (m !! p); simpl; [by rewrite Hg|done].
Qed.

Lemma set_link_alter g f p m x : (forall y, next_in_set_ (f y) = g (next_in_set_ y)) ->
  set_link (alter f p m) x = if decide (x = p) then g <$> set_link m x else set_link m x.
Proof.
  intros Hg. unfold set_link. case_decide as E; [|by rewrite lookup_alter_ne].
  subst. rewrite lookup_alter_eq. destruct (m !! p); simpl; [by rewrite Hg|done].
Qed.

Lemma core_alter g f p m x : (forall y, (signal_number_ (f y), queue_ (f y), undelivered_ (f y)) =
    g (signal_number_ y, queue_ y, undelivered_ y)) ->
  core (alter f p m) x = if decide (x = p) then g <$> core m x else core m x.
Proof.
  intros Hg. unfold core. case_decide as E; [|by rewrite lookup_alter_ne].
  subst. rewrite lookup_alter_eq. destruct (m !! p); simpl; [by rewrite Hg|done].
Qed.

Lemma core_alter_links f p m x : (forall y, (signal_number_ (f y), queue_ (f y), undelivered_ (f y)) =
    (signal_number_ y, queue_ y, undelivered_ y)) -> core (alter f p m) x = core m x.
Proof. intros Hf. rewrite (core_alter id) by done. case_decide; [by destruct (core m x)|done]. Qed.

Lemma table_links_set_link f p m x : (forall y, (next_in_table_ (f y), prev_in_table_ (f y)) = (next_in_table_ y, prev_in_table_ y)) ->
  table_links (alter f p m) x = table_links m x.
Proof. intros Hf. rewrite (table_links_alter id) by done. case_decide; [by destruct (table_links m x)|done]. Qed.

Lemma set_link_table f p m x : (forall y, next_in_set_ (f y) = next_in_set_ y) -> set_link (alter f p m) x = set_link m x.
Proof. intros Hf. rewrite (set_link_alter id) by done. case_decide; [by destruct (set_link m x)|done]. Qed.

(** [point]'s next pointer is set. *)
Definition relink (point : option Z) r m : regs :=
  match point with Some p => alter (set_next_in_set r) p m | None => m end.

Lemma relink_set point r m x :
  set_link (relink point r m) x = if decide (Some x = point) then (fun _ => r) <$> set_link m x else set_link m x.
Proof.
  destruct point as [p|]; simpl; [|done]. rewrite (set_link_alter (fun _ => r)) by done.
  repeat case_decide; congruence.
Qed.

Lemma relink_table point r m x : table_links (relink point r m) x = table_links m x.
Proof. destruct point; [by apply table_links_set_link|done]. Qed.

Lemma relink_core point r m x : core (relink point r m) x = core m x.
Proof. destruct point; [by apply core_alter_links|done]. Qed.

Lemma relink_is_Some point r m x : is_Some (relink point r m !! x) <-> is_Some (m !! x).
Proof. destruct point; simpl; [apply lookup_alter_is_Some|done]. Qed.

(** The registrations after [insert_registration]. *)
Definition inserted s n point next first r m : regs :=
  alter (set_prev_in_table r) first
    (alter (set_next_in_table first) r (relink point r (alter (set_registered n s next) r (<[r:=registration_new]> m)))).

Lemma inserted_linked s n point next first r m : m !! r = None -> first <> r -> point <> Some r ->
  linked_in s n point next first r m (inserted s n point next first r m).
Proof.
  intros Hr Hfr Hpr. unfold inserted. split; intros x.
  - rewrite core_alter_links, core_alter_links, relink_core, (core_alter (fun y => (n, s, y.2))) by done.
    unfold core. case_decide; [subst; by rewrite lookup_insert_eq|by rewrite lookup_insert_ne].
  - rewrite set_link_table, set_link_table, relink_set, (set_link_alter (fun _ => next)) by done.
    unfold set_link. destruct (decide (x = r)) as [->|].
    + rewrite decide_False by done. by rewrite lookup_insert_eq.
    + rewrite lookup_insert_ne by done. done.
  - rewrite (table_links_alter (fun p => (p.1, r))), (table_links_alter (fun p => (first, p.2))), relink_table,
      table_links_set_link by done.
    unfold table_links. destruct (decide (x = r)) as [->|].
    + rewrite decide_False by done. by rewrite lookup_insert_eq.
    + rewrite lookup_insert_ne by done. done.
Qed.

(** The sets after the pointer at [point] has been written. *)
Definition pointed s (i : signal_set) (point : option Z) r (sets : gmap Z signal_set) : gmap Z signal_set :=
  match point with Some _ => sets | None => <[s:=mkSignalSet (set_queue i) r]> sets end.

Lemma wp_write_point s i point r S (Phi : unit -> Signals K -> Prop) : signal_sets S !! s = Some i ->
  (forall p, point = Some p -> is_Some (registrations S !! p)) ->
  Phi tt (with_sets (pointed s i point r (signal_sets S)) (with_registrations (relink point r (registrations S)) S)) ->
  wp (signal_set_service.write_point s point r) S Phi.
Proof.
  intros Hi Hp HP. unfold signal_set_service.write_point. destruct point as [p|]; simpl in *.
  - apply wp_store_reg; [by apply Hp|]. revert HP. by destruct S.
  - apply wp_bind. eapply wp_load_set; [exact Hi|]. apply wp_store_set; [by eexists|]. revert HP. by destruct S.
Qed.

Lemma wp_insert_registration s i n point next first r c S m (Phi : unit -> Signals K -> Prop) :
  registrations S = <[r:=registration_new]> m -> m !! 0 = None -> r <> 0 -> signal_sets S !! s = Some i ->
  (forall p, point = Some p -> is_Some (m !! p)) -> (first = 0 \/ is_Some (m !! first)) ->
  vget (registrations_ S) n = Some first -> vget (registration_count_ S) n = Some c ->
  Phi tt (mkSignals (inserted s n point next first r m) (pointed s i point r (signal_sets S))
    (vset (registrations_ S) n r) (vset (registration_count_ S) n (u64 (c + 1))) (flags_ S) (signal_ops S) (signal_kernel S)) ->
  wp (signal_set_service.insert_registration s n point next r) S Phi.
Proof.
  intros Em Hnull Hr Hi Hp Hf Ht Hc HP. destruct S as [m1 sets tab counts fl ops k]. simpl in *. subst m1.
  assert (forall x, is_Some (m !! x) -> is_Some (<[r:=registration_new]> m !! x)) as Hin.
  { intros x Hx. destruct (decide (r = x)) as [->|]; [rewrite lookup_insert_eq; by eexists|by rewrite lookup_insert_ne]. }
  unfold signal_set_service.insert_registration. apply wp_bind.
  apply wp_store_reg; [simpl; rewrite lookup_insert_eq; by eexists|]. apply wp_bind.
  apply (wp_write_point s i); [done|intros p Ep; simpl; rewrite lookup_alter_is_Some; auto|].
  apply wp_bind. eapply wp_table_at; [exact Ht|]. apply wp_bind, wp_store_reg.
  { simpl. rewrite relink_is_Some, lookup_alter_is_Some, lookup_insert_eq. by eexists. }
  apply wp_bind, wp_store_reg_if.
  { simpl. apply eq_None_not_Some. rewrite lookup_alter_is_Some, relink_is_Some, lookup_alter_is_Some.
    rewrite lookup_insert_ne, Hnull by done. by intros [? ?]. }
  { simpl. rewrite lookup_alter_is_Some, relink_is_Some, lookup_alter_is_Some. destruct Hf; [by left|right; auto]. }
  apply wp_bind, wp_table_put; [by eexists|]. apply wp_bind. eapply wp_count_at; [exact Hc|].
  apply wp_count_put; [by eexists|]. exact HP.
Qed.

(** The registrations around [r] in the table are linked past it. *)
Definition bypassed before after m : regs :=
  alter (set_prev_in_table before) after (alter (set_next_in_table after) before m).

Lemma bypassed_is_Some before after m x : is_Some (bypassed before after m !! x) <-> is_Some (m !! x).
Proof. unfold bypassed. by rewrite !lookup_alter_is_Some. Qed.

Lemma bypassed_core before after m x : core (bypassed before after m) x = core m x.
Proof. unfold bypassed. by rewrite !core_alter_links. Qed.

Lemma bypassed_set before after m x : set_link (bypassed before after m) x = set_link m x.
Proof. unfold bypassed. by rewrite !set_link_table. Qed.

Lemma bypassed_linked point next before after r m :
  linked_out point next before after r m (delete r (bypassed before after (relink point next m))).
Proof.
  split; intros x.
  - unfold core at 1. case_decide as E; [subst; by rewrite lookup_delete_eq|]. rewrite lookup_delete_ne by done.
    change (core (bypassed before after (relink point next m)) x = core m x). by rewrite bypassed_core, relink_core.
  - unfold set_link at 1. case_decide as E; [subst; by rewrite lookup_delete_eq|]. rewrite lookup_delete_ne by done.
    change (set_link (bypassed before after (relink point next m)) x = 
      if decide (Some x = point) then (fun _ => next) <$> set_link m x else set_link m x).
    by rewrite bypassed_set, relink_set.
  - unfold table_links at 1. case_decide as E; [subst; by rewrite lookup_delete_eq|]. rewrite lookup_delete_ne by done.
    change (table_links (bypassed before after (relink point next m)) x =
      (fun p => (if decide (x = before) then after else p.1, if decide (x = after) then before else p.2)) <$> table_links m x).
    unfold bypassed. rewrite (table_links_alter (fun p => (p.1, before))), (table_links_alter (fun p => (after, p.2))), relink_table by done.
    destruct (table_links m x) as [[]|]; repeat case_decide; done.
Qed.

Lemma wp_remove_from_table r g first c S (Phi : unit -> Signals K -> Prop) : registrations S !! r = Some g ->
  registrations S !! 0 = None ->
  vget (registrations_ S) (signal_number_ g) = Some first -> vget (registration_count_ S) (signal_number_ g) = Some c ->
  (prev_in_table_ g <> r) ->
  (prev_in_table_ g = 0 \/ is_Some (registrations S !! prev_in_table_ g)) ->
  (next_in_table_ g = 0 \/ is_Some (registrations S !! next_in_table_ g)) ->
  Phi tt (mkSignals (bypassed (prev_in_table_ g) (next_in_table_ g) (registrations S)) (signal_sets S)
    (if first =? r then vset (registrations_ S) (signal_number_ g) (next_in_table_ g) else registrations_ S)
    (vset (registration_count_ S) (signal_number_ g) (u64 (c - 1))) (flags_ S) (signal_ops S) (signal_kernel S)) ->
  wp (signal_set_service.remove_from_table r) S Phi.
Proof.
  intros Hg Hnull Ht Hc Hpr Hp Hn HP. destruct S as [m sets tab counts fl ops k]. simpl in *.
  unfold signal_set_service.remove_from_table. apply wp_bind. eapply wp_load_reg; [exact Hg|].
  apply wp_bind. eapply wp_table_at; [exact Ht|]. apply wp_bind.
  apply (wp_mono _ _ (fun _ S' => S' = mkSignals m sets (if first =? r then vset tab (signal_number_ g) (next_in_table_ g) else tab)
    counts fl ops k)).
  { destruct (first =? r); [apply wp_table_put; [by eexists|done]|by apply wp_ret]. }
  intros ? ? ->. apply wp_bind, wp_store_reg_if; [done|done|]. apply wp_bind. eapply wp_load_reg.
  { simpl. rewrite lookup_alter_ne by done. exact Hg. }
  apply wp_bind, wp_store_reg_if.
  { simpl. apply eq_None_not_Some. rewrite lookup_alter_is_Some, Hnull. by intros [? ?]. }
  { simpl. by rewrite lookup_alter_is_Some. }
  apply wp_bind. eapply wp_count_at; [exact Hc|]. apply wp_count_put; [by eexists|]. exact HP.
Qed.

(** ** The operating system's handlers *)

Definition flags_value (f : Z) : Z := if f =? dont_care then 0 else f.

(** The handler of a signal is asio_signal_handler, or the default. *)
Definition handler_ok S n (installed : bool) : Prop :=
  exists f, vget (flags_ S) n = Some f /\
    disposition (signal_kernel S) n = if installed then Some (flags_value f) else None.

(** Each signal is counted, and handled if there are registrations. *)
Record counted S (T : Z -> list Z) : Prop := {
  co_count n : valid_signal n = true -> vget (registration_count_ S) n = Some (Z.of_nat (length (T n)));
  co_handler n : valid_signal n = true -> handler_ok S n (bool_decide (T n <> []));
}.

(** Only the flags and the kernel differ. *)
Definition same_lists S S' : Prop := exists fl k, S' = with_flags fl (with_sig_kernel k S) /\
  sig_heap k = sig_heap (signal_kernel S).

Lemma same_lists_refl S : same_lists S S.
Proof. exists (flags_ S), (signal_kernel S). by destruct S. Qed.

Lemma same_lists_kernel S k : sig_heap k = sig_heap (signal_kernel S) -> same_lists S (with_sig_kernel k S).
Proof. intros Hk. exists (flags_ S), k. by destruct S. Qed.

(** The handler of the signal [n] is set as [b] says, if there is no error. *)
Definition handled n (b : bool) S (T : Z -> list Z) (e : option error_code) S' : Prop :=
  same_lists S S' /\
  forall n', valid_signal n' = true -> handler_ok S' n'
    (match e with None => if decide (n' = n) then b else bool_decide (T n' <> []) | Some _ => bool_decide (T n' <> []) end) /\
    from_option (fun x => failed x = true) True e.

Lemma handled_none n b S T : counted S T -> (valid_signal n = true -> bool_decide (T n <> []) = b) ->
  handled n b S T None S.
Proof.
  intros Hc Hb. split; [apply same_lists_refl|]. intros n' Hn'. split; [|done].
  case_decide; [subst; rewrite <- Hb by done|]; by apply (co_handler _ _ Hc).
Qed.

Lemma handled_error n b S T x : counted S T -> failed x = true -> handled n b S T (Some x) S.
Proof. intros Hc Hx. split; [apply same_lists_refl|]. intros n' Hn'. split; [by apply (co_handler _ _ Hc)|done]. Qed.

Lemma wp_set_handler n h f (b : bool) S T : counted S T -> valid_signal n = true -> h = (if b then Some (flags_value f) else None) ->
  wp (err ← sigaction n h; match err with Some x => mret (Some x) | None => flags_put n f;; mret None end) S
    (handled n b S T).
Proof.
  intros Hc Hn ->. apply wp_bind, wp_sigaction; [done|..].
  - intros x k Hx Hk Hd. apply wp_ret. split; [by apply same_lists_kernel|]. intros n' Hn'. split; [|done].
    destruct (co_handler _ _ Hc n' Hn') as (f' & Hf' & Hd'). exists f'. split; [done|]. simpl. by rewrite Hd.
  - intros k Hk Hd. destruct (co_handler _ _ Hc n Hn) as (f0 & Hf0 & _). apply wp_bind, wp_flags_put; [by eexists|].
    apply wp_ret. split; [by exists (vset (flags_ S) n f), k|]. intros n' Hn'. split; [|done]. case_decide as E.
    + subst n'. exists f. simpl. rewrite vget_set_eq by by eapply vget_Some_range. split; [done|]. by rewrite Hd, decide_True.
    + destruct (co_handler _ _ Hc n' Hn') as (f' & Hf' & Hd'). exists f'. simpl. rewrite vget_set_ne by congruence.
      split; [done|]. by rewrite Hd, decide_False.
Qed.

Lemma wp_install n f S T : counted S T -> valid_signal n = true ->
  wp (signal_set_service.install n f) S (handled n true S T).
Proof.
  intros Hc Hn. unfold signal_set_service.install. apply wp_bind. eapply wp_count_at; [by apply (co_count _ _ Hc)|].
  zcase (Z.of_nat (length (T n)) =? 0).
  { apply wp_set_handler; [done|done|]. unfold flags_value. by destruct (f =? dont_care). }
  assert (bool_decide (T n <> []) = true) as Hb by (apply bool_decide_eq_true; by destruct (T n)).
  zcase (f =? dont_care); simpl; [by apply wp_ret, handled_none|].
  destruct (co_handler _ _ Hc n Hn) as (old & Hold & _). apply wp_bind. eapply wp_flags_at; [exact Hold|].
  zcase (f =? old); simpl; [by apply wp_ret, handled_none|].
  zcase (old =? dont_care); simpl; [|by apply wp_ret, handled_error].
  apply wp_set_handler; [done|done|]. unfold flags_value. by rewrite (proj2 (Z.eqb_neq _ _) E0).
Qed.

Lemma wp_uninstall n S T : counted S T -> valid_signal n = true -> T n <> [] ->
  wp (signal_set_service.uninstall n) S (handled n (bool_decide (1 < length (T n))%nat) S T).
Proof.
  intros Hc Hn HT. unfold signal_set_service.uninstall. apply wp_bind. eapply wp_count_at; [by apply (co_count _ _ Hc)|].
  zcase (Z.of_nat (length (T n)) =? 1).
  - rewrite bool_decide_eq_false_2 by lia. by apply wp_set_handler.
  - apply wp_ret, handled_none; [done|]. intros _. apply bool_decide_ext.
    destruct (T n) as [|x [|y l]]; simpl in *; [done|lia|]. split; [lia|done].
Qed.

(** The operating system lets a signal that is handled go back to the
    default. *)
Definition restorable : Prop := forall n k, is_Some (disposition k n) -> (k_sigaction n None k).1.1 <> -1.

Lemma wp_uninstall_restores n S T : restorable -> counted S T -> valid_signal n = true -> T n <> [] ->
  wp (signal_set_service.uninstall n) S (fun e _ => e = None).
Proof.
  intros Hre Hc Hn HT. unfold signal_set_service.uninstall. apply wp_bind. eapply wp_count_at; [by apply (co_count _ _ Hc)|].
  zcase (Z.of_nat (length (T n)) =? 1); [|by apply wp_ret].
  destruct (co_handler _ _ Hc n Hn) as (f0 & Hf0 & Hd). rewrite bool_decide_eq_true_2 in Hd by done.
  specialize (Hre n (signal_kernel S) ltac:(rewrite Hd; by eexists)).
  unfold sigaction. apply wp_bind, wp_bind, wp_get. destruct (k_sigaction n None (signal_kernel S)) as [[result err] k]. simpl in Hre.
  apply wp_bind, wp_put, wp_ret. zcase (result =? -1); [done|]. apply wp_bind, wp_flags_put; [by eexists|]. by apply wp_ret.
Qed.
End steps.
