(* ===== verification/SignalSpec.v ===== *)
(** * What signal sets promise

    The specification of the signal set service: which sets have registered
    which signals, how many of each are undelivered, and who waits; and what
    it means that the service implements it. *)

From S2P Require Import Prelude Bits LinkedList SocketOps SocketRules OpQueue Scheduler SignalSets SignalRules SignalSteps.

(** ** The specification *)

(** The undelivered signals of the registrations, by set and signal; the
    operations that wait on each set, with their cancellation keys; for each
    signal the sets that have registered it, the latest first; and the
    operations there are. *)
Record a_signals := mkASignals {
  a_und : gmap (Z * Z) Z;
  a_wait : gmap Z (list (op_ptr * Z));
  a_tab : Z -> list Z;
  a_known : gset op_ptr;
}.

Implicit Types (A : a_signals) (s n : Z) (o : op_ptr) (x : error_code).

Definition set_und u A : a_signals := mkASignals u (a_wait A) (a_tab A) (a_known A).
Definition set_wait w A : a_signals := mkASignals (a_und A) w (a_tab A) (a_known A).

Definition spec_register s n A : a_signals :=
  mkASignals (<[(s, n):=0]> (a_und A)) (a_wait A) (upd (a_tab A) n (s :: a_tab A n)) (a_known A).

Definition spec_unregister s n A : a_signals :=
  mkASignals (delete (s, n) (a_und A)) (a_wait A) (upd (a_tab A) n (filter (fun s' => s' <> s) (a_tab A n))) (a_known A).

(** The signals that a set has registered, in order. *)
Definition signals_in s A : list Z := filter (fun n => is_Some (a_und A !! (s, n))) (seqZ 0 max_signal_number).

Definition waiting s A : list (op_ptr * Z) := default [] (a_wait A !! s).

(** Delivering the signal [n] to one set. *)
Definition deliver_one n (p : list op_ptr * a_signals) s : list op_ptr * a_signals :=
  match waiting s p.2 with
  | [] => (p.1, set_und (alter (fun u => u64 (u + 1)) (s, n) (a_und p.2)) p.2)
  | w => (p.1 ++ w.*1, set_wait (<[s:=[]]> (a_wait p.2)) p.2)
  end.

Definition spec_deliver n A : list op_ptr * a_signals := foldl (deliver_one n) ([], A) (a_tab A n).

(** The first signal of a set that is undelivered. *)
Definition first_undelivered s A : option Z :=
  head (filter (fun n => 0 < default 0 (a_und A !! (s, n))) (seqZ 0 max_signal_number)).

Definition know o A : a_signals := mkASignals (a_und A) (a_wait A) (a_tab A) ({[o]} ∪ a_known A).

Inductive signal_step :=
| Construct (s : Z)
| Add (s n f : Z)
| Remove (s n : Z)
| Clear (s : Z)
| Cancel (s : Z)
| CancelKey (s key : Z)
| Deliver (n : Z)
| Wait (s : Z) (o : op_ptr) (key : Z).

Abbreviation no_error := (system_error 0).

(** A step's result, the operations it completes, the error and the signal
    number that they complete with, and the state after it. *)
Inductive spec_step A : signal_step -> error_code -> list op_ptr -> error_code * Z -> a_signals -> Prop :=
| sp_construct s v : spec_step A (Construct s) no_error [] v (set_wait (<[s:=[]]> (a_wait A)) A)
| sp_add_invalid s n f v : valid_signal n = false -> spec_step A (Add s n f) error.invalid_argument [] v A
| sp_add_there s n f v : valid_signal n = true -> is_Some (a_und A !! (s, n)) -> spec_step A (Add s n f) no_error [] v A
| sp_add s n f v : valid_signal n = true -> a_und A !! (s, n) = None ->
    spec_step A (Add s n f) no_error [] v (spec_register s n A)
| sp_add_failed s n f x v : valid_signal n = true -> a_und A !! (s, n) = None -> failed x = true ->
    spec_step A (Add s n f) x [] v A
| sp_remove_invalid s n v : valid_signal n = false -> spec_step A (Remove s n) error.invalid_argument [] v A
| sp_remove_none s n v : valid_signal n = true -> a_und A !! (s, n) = None -> spec_step A (Remove s n) no_error [] v A
| sp_remove s n v : valid_signal n = true -> is_Some (a_und A !! (s, n)) ->
    spec_step A (Remove s n) no_error [] v (spec_unregister s n A)
| sp_remove_failed s n x v : valid_signal n = true -> is_Some (a_und A !! (s, n)) -> failed x = true ->
    spec_step A (Remove s n) x [] v A
| sp_clear s v : spec_step A (Clear s) no_error [] v (foldl (fun A n => spec_unregister s n A) A (signals_in s A))
| sp_clear_failed s k x v : (k < length (signals_in s A))%nat -> failed x = true ->
    spec_step A (Clear s) x [] v (foldl (fun A n => spec_unregister s n A) A (take k (signals_in s A)))
| sp_cancel s : spec_step A (Cancel s) no_error (waiting s A).*1 (operation_aborted, 0) (set_wait (<[s:=[]]> (a_wait A)) A)
| sp_cancel_key s key : spec_step A (CancelKey s key) no_error (filter (fun p => p.2 = key) (waiting s A)).*1
    (operation_aborted, 0) (set_wait (<[s:=filter (fun p => p.2 <> key) (waiting s A)]> (a_wait A)) A)
| sp_deliver n : spec_step A (Deliver n) no_error (spec_deliver n A).1 (no_error, n) (spec_deliver n A).2
| sp_wait_done s o key n : first_undelivered s A = Some n ->
    spec_step A (Wait s o key) no_error [o] (no_error, n) (know o (set_und (alter (fun u => u64 (u - 1)) (s, n) (a_und A)) A))
| sp_wait s o key v : first_undelivered s A = None ->
    spec_step A (Wait s o key) no_error [] v (know o (set_wait (<[s:=waiting s A ++ [(o, key)]]> (a_wait A)) A)).

(** What a step needs: a set that is constructed (once), a valid signal, a
    new operation. *)
Definition allowed (sets : gset Z) (known : gset op_ptr) (st : signal_step) : Prop :=
  match st with
  | Construct s => s ∉ sets
  | Add s _ _ | Remove s _ | Clear s | Cancel s | CancelKey s _ => s ∈ sets
  | Deliver n => valid_signal n = true
  | Wait s o _ => s ∈ sets /\ o ∉ known
  end.

(** ** The service implements it *)

Definition set_at (m : regs) (r : Z) : Z := default 0 ((fun y => y.1.2) <$> core m r).

Lemma set_at_core m r n s u : core m r = Some (n, s, u) -> set_at m r = s.
Proof. unfold set_at. by intros ->. Qed.

Section represents.
Context {K : Type} `{SignalKernelOk K}.
Implicit Types (S : Signals K).

Definition key_of S o : Z := default 0 (so_cancellation_key_ <$> signal_ops S !! o).

Record waits S : Prop := {
  wt_op s i o : signal_sets S !! s = Some i -> o ∈ set_queue i ->
    exists key, signal_ops S !! o = Some (mkSignalOp no_error key 0);
  wt_once s s' i i' o : signal_sets S !! s = Some i -> signal_sets S !! s' = Some i' ->
    o ∈ set_queue i -> o ∈ set_queue i' -> s = s';
  wt_nodup s i : signal_sets S !! s = Some i -> NoDup (set_queue i);
}.

Record sound S (L T : Z -> list Z) : Prop := {
  sd_shape : shape (registrations S) (signal_sets S) (registrations_ S) L T;
  sd_counted : counted S T;
  sd_heap r : is_Some (registrations S !! r) -> r ∈ sig_heap (signal_kernel S);
  sd_waits : waits S;
}.

Record implements S A (L T : Z -> list Z) : Prop := {
  im_sound : sound S L T;
  im_und s n u : a_und A !! (s, n) = Some u <-> exists r, core (registrations S) r = Some (n, s, u);
  im_wait s : a_wait A !! s = (fun i => (fun o => (o, key_of S o)) <$> set_queue i) <$> signal_sets S !! s;
  im_tab n : a_tab A n = set_at (registrations S) <$> T n;
  im_known : a_known A = dom (signal_ops S);
}.

Definition represents S A : Prop := exists L T, implements S A L T.

Lemma im_sets S A L T : implements S A L T -> dom (a_wait A) = dom (signal_sets S).
Proof.
  intros Him. apply set_eq. intros s. rewrite !elem_of_dom, (im_wait _ _ _ _ Him).
  apply fmap_is_Some.
Qed.

Lemma im_waiting S A L T s i : implements S A L T -> signal_sets S !! s = Some i ->
  waiting s A = (fun o => (o, key_of S o)) <$> set_queue i.
Proof. intros Him Hi. unfold waiting. by rewrite (im_wait _ _ _ _ Him), Hi. Qed.

Lemma waiting_ops S A L T s i : implements S A L T -> signal_sets S !! s = Some i -> (waiting s A).*1 = set_queue i.
Proof.
  intros Him Hi. rewrite (im_waiting _ _ _ _ _ _ Him Hi), <- list_fmap_compose. by rewrite list_fmap_id.
Qed.

(** A new service. *)
Definition a_new : a_signals := mkASignals ∅ ∅ (fun _ => []) ∅.

Lemma represents_start k : (forall n, disposition k n = None) -> represents (signals_new k) a_new.
Proof.
  intros Hd. exists (fun _ => []), (fun _ => []). split; [|..|done|done]; [split|..]; simpl.
  - split; simpl; try done; try (intros; by apply elem_of_nil in H1).
    + intros n a Ha. split; [|constructor]. simpl. unfold vnew, vget in Ha. simpl in Ha.
      destruct (in_range _ _); [|done]. rewrite lookup_empty in Ha. by injection Ha as <-.
    + intros. constructor.
  - split; simpl.
    + intros n Hn. unfold valid_signal in Hn. zb. rewrite vget_new by done. done.
    + intros n Hn. unfold valid_signal in Hn. zb. exists flags_none. simpl. by rewrite vget_new.
  - intros r. rewrite lookup_empty. by intros [? ?].
  - split; simpl; intros *; by rewrite lookup_empty.
  - intros s n u. rewrite lookup_empty. split; [done|]. by intros [r Hr].
  - intros s. by rewrite !lookup_empty.
Qed.
End represents.
