(* ===== verification/SignalOps.v ===== *)
(** * The operations of the signal set service

    [add], [remove] and [clear] do what SignalSpec.v promises. *)

From S2P Require Import Prelude Bits LinkedList SocketOps SocketRules SocketModes OpQueue Scheduler SignalSets SignalRules SignalSteps SignalSpec.

Section ops.
Context {K : Type} `{SignalKernelOk K}.
Implicit Types (S : Signals K) (A : a_signals) (s r n : Z) (L T : Z -> list Z) (m : regs).

(** [registered_at]: the place of a signal in a set has its registration, or
    the set has none. *)
Lemma place_registered S A L T s n l1 l2 : implements S A L T -> place_in (registrations S) L s n l1 l2 ->
  if match head l2 with Some x => signal_at (registrations S) x =? n | None => false end
  then exists r u l2', l2 = r :: l2' /\ core (registrations S) r = Some (n, s, u)
  else a_und A !! (s, n) = None /\ (forall x, x ∈ l2 -> n < signal_at (registrations S) x).
Proof.
  intros Him (EL & H1 & H2). pose proof (sd_shape _ _ _ (im_sound _ _ _ _ Him)) as Hsh.
  pose proof (sh_sorted _ _ _ _ _ Hsh s) as Hsort. rewrite EL in Hsort.
  destruct (match head l2 with Some x => _ | None => false end) eqn:E.
  - destruct l2 as [|r l2']; [done|]. simpl in E. apply Z.eqb_eq in E.
    destruct (sh_L _ _ _ _ _ Hsh s r) as (n' & u & Hc); [rewrite EL, elem_of_app; right; by left|].
    rewrite (signal_at_core _ _ _ _ _ Hc) in E. subst. eauto.
  - assert (forall x, x ∈ l2 -> n < signal_at (registrations S) x) as Hgt.
    { destruct l2 as [|r l2']; [by intros x ?%elem_of_nil|]. simpl in E. apply Z.eqb_neq in E. specialize (H2 r eq_refl).
      apply StronglySorted_app in Hsort as (_ & _ & Hs2). inversion Hs2 as [|? ? _ Hr]; subst. rewrite Forall_forall in Hr.
      intros x [->|Hx]%elem_of_cons; [lia|]. specialize (Hr x Hx). simpl in Hr. lia. }
    split; [|exact Hgt]. apply eq_None_not_Some. intros [u Hu]. apply (im_und _ _ _ _ Him) in Hu as [r Hc].
    pose proof (signal_at_core _ _ _ _ _ Hc) as Er. destruct (sh_core _ _ _ _ _ Hsh _ _ _ _ Hc) as (Hr & _).
    rewrite EL, elem_of_app in Hr. destruct Hr as [Hr|Hr]; [specialize (H1 r Hr)|specialize (Hgt r Hr)]; lia.
Qed.

(** ** Registering *)

(** The sets have the same queues. *)
Definition same_queues S S' : Prop := signal_ops S' = signal_ops S /\
  forall s, set_queue <$> signal_sets S' !! s = set_queue <$> signal_sets S !! s.

Lemma same_queues_set S S' s i h : signal_ops S' = signal_ops S -> signal_sets S !! s = Some i ->
  signal_sets S' = <[s:=mkSignalSet (set_queue i) h]> (signal_sets S) -> same_queues S S'.
Proof.
  intros Eo Hi Es. split; [done|]. intros s'. rewrite Es. destruct (decide (s' = s)) as [->|Hne].
  - by rewrite lookup_insert_eq, Hi.
  - by rewrite lookup_insert_ne.
Qed.

Lemma waits_same S S' : same_queues S S' -> waits S -> waits S'.
Proof.
  intros [Eo Eq] [].
  assert (forall s i, signal_sets S' !! s = Some i -> exists i', signal_sets S !! s = Some i' /\ set_queue i' = set_queue i) as Hq.
  { intros s i Hi. specialize (Eq s). rewrite Hi in Eq. destruct (signal_sets S !! s) as [i'|]; [|done]. injection Eq as E. eauto. }
  split; rewrite ?Eo.
  - intros s i o Hi Ho. destruct (Hq s i Hi) as (i' & Hi' & E). rewrite <- E in Ho. eauto.
  - intros s s' i i' o Hi Hi' Ho Ho'. destruct (Hq _ _ Hi) as (j & Hj & E), (Hq _ _ Hi') as (j' & Hj' & E').
    rewrite <- E in Ho. rewrite <- E' in Ho'. eauto.
  - intros s i Hi. destruct (Hq _ _ Hi) as (j & Hj & E). rewrite <- E. eauto.
Qed.

Lemma wait_same S S' A : same_queues S S' ->
  (forall s, a_wait A !! s = (fun i => (fun o => (o, key_of S o)) <$> set_queue i) <$> signal_sets S !! s) ->
  forall s, a_wait A !! s = (fun i => (fun o => (o, key_of S' o)) <$> set_queue i) <$> signal_sets S' !! s.
Proof.
  intros [Eo Eq] Hw s. rewrite Hw. unfold key_of. rewrite Eo. specialize (Eq s).
  destruct (signal_sets S' !! s), (signal_sets S !! s); simpl in *; try done. by injection Eq as ->.
Qed.

Lemma fmap_set_at m m' (l : list Z) : (forall x, x ∈ l -> core m' x = core m x) -> set_at m' <$> l = set_at m <$> l.
Proof.
  intros Hl. apply list_fmap_ext. intros j x Hx. unfold set_at. rewrite Hl; [done|]. by eapply list_elem_of_lookup_2.
Qed.

Lemma implements_register S S' A L T s i n l1 l2 first r : implements S A L T -> signal_sets S !! s = Some i ->
  valid_signal n = true -> a_und A !! (s, n) = None -> place_in (registrations S) L s n l1 l2 ->
  (forall x, x ∈ l2 -> n < signal_at (registrations S) x) ->
  vget (registrations_ S) n = Some first -> r <> 0 -> core (registrations S) r = None ->
  linked_in s n (last l1) (default 0 (head l2)) first r (registrations S) (registrations S') ->
  signal_sets S' = <[s:=mkSignalSet (set_queue i) (match l1 with [] => r | _ => signals_ i end)]> (signal_sets S) ->
  registrations_ S' = vset (registrations_ S) n r -> signal_ops S' = signal_ops S ->
  (forall n', valid_signal n' = true -> vget (registration_count_ S') n' = Some (Z.of_nat (length (upd T n (r :: T n) n'))) /\
     handler_ok S' n' (if decide (n' = n) then true else bool_decide (T n' <> []))) ->
  (forall x, is_Some (registrations S' !! x) -> x ∈ sig_heap (signal_kernel S')) ->
  implements S' (spec_register s n A) (upd L s (l1 ++ r :: l2)) (upd T n (r :: T n)).
Proof.
  intros Him Hi Hn Hund (EL & H1 & _) H2 Hf Hr Hc Hl Es Et Eo Hcount Hheap. pose proof (im_sound _ _ _ _ Him) as Hsd.
  pose proof (sd_shape _ _ _ Hsd) as Hsh. pose proof (ln_core _ _ _ _ _ _ _ _ Hl) as Ec.
  pose proof (same_queues_set _ _ _ _ _ Eo Hi Es) as Hq. split; [split|..]; simpl.
  - rewrite Es, Et. by apply (shape_insert Hsh Hl Hr Hc Hn Hi Hf EL H1 H2).
  - split; intros n' Hn'; [by apply Hcount|]. destruct (Hcount n' Hn') as [_ Hh]. unfold upd.
    case_decide; [|done]. by rewrite bool_decide_eq_true_2.
  - done.
  - by apply (waits_same _ _ Hq), (sd_waits _ _ _ Hsd).
  - intros s' n' u. destruct (decide ((s', n') = (s, n))) as [[= -> ->]|Hne].
    + rewrite lookup_insert_eq. split.
      * intros [= <-]. exists r. by rewrite Ec, decide_True.
      * intros (x & Hx). rewrite Ec in Hx. case_decide; [by injection Hx as <-|].
        assert (a_und A !! (s, n) = Some u) by (apply (im_und _ _ _ _ Him); eauto). congruence.
    + rewrite lookup_insert_ne by congruence. rewrite (im_und _ _ _ _ Him). split; intros [x Hx]; exists x.
      * rewrite Ec. rewrite decide_False; [done|congruence].
      * rewrite Ec in Hx. case_decide; [|done]. congruence.
  - exact (wait_same _ _ A Hq (im_wait _ _ _ _ Him)).
  - intros n'. assert (forall n'', set_at (registrations S') <$> T n'' = a_tab A n'') as Hold.
    { intros n''. rewrite (im_tab _ _ _ _ Him). apply fmap_set_at. intros x Hx. rewrite Ec. rewrite decide_False; [done|].
      intros ->. destruct (sh_T _ _ _ _ _ Hsh _ _ Hx) as (? & ? & ?). congruence. }
    unfold upd. case_decide; [|by rewrite Hold]. cbn [fmap list_fmap]. rewrite <- (Hold n). f_equal. symmetry.
    eapply set_at_core. by rewrite Ec, decide_True.
  - by rewrite Eo, (im_known _ _ _ _ Him).
Qed.

(** ** add *)

Lemma wp_allocate_registration S (Phi : Z -> Signals K -> Prop) :
  (forall r k, r <> 0 -> (r ∉ sig_heap (signal_kernel S)) -> sig_heap k = {[r]} ∪ sig_heap (signal_kernel S) ->
     (forall n, disposition k n = disposition (signal_kernel S) n) ->
     Phi r (with_registrations (<[r:=registration_new]> (registrations S)) (with_sig_kernel k S))) ->
  wp allocate_registration S Phi.
Proof.
  intros HP. unfold allocate_registration. apply wp_bind, wp_get. pose proof (new_registration_law (signal_kernel S)) as Hlaw.
  destruct (new_registration (signal_kernel S)) as [r k]. destruct Hlaw as (H1 & H2 & H3 & H4).
  apply wp_bind, wp_put, wp_ret. by apply HP.
Qed.

Lemma wp_free_registration r S (Phi : unit -> Signals K -> Prop) : is_Some (registrations S !! r) ->
  (forall k, sig_heap k = sig_heap (signal_kernel S) ∖ {[r]} ->
     (forall n, disposition k n = disposition (signal_kernel S) n) ->
     Phi tt (with_registrations (delete r (registrations S)) (with_sig_kernel k S))) ->
  wp (free_registration r) S Phi.
Proof.
  intros [g Hg] HP. unfold free_registration. apply wp_bind. eapply wp_load_reg; [exact Hg|]. apply wp_bind, wp_get, wp_put.
  destruct (delete_registration_law r (signal_kernel S)) as [H1 H2]. by apply HP.
Qed.

Lemma counted_same S S' T : registration_count_ S' = registration_count_ S -> flags_ S' = flags_ S ->
  (forall n, disposition (signal_kernel S') n = disposition (signal_kernel S) n) -> counted S T -> counted S' T.
Proof.
  intros Ec Ef Ed [C1 C2]. split; [by rewrite Ec|]. intros n Hn. destruct (C2 n Hn) as (f & Hf & Hd).
  exists f. by rewrite Ef, Ed.
Qed.

(** The flags and the kernel do not matter otherwise. *)
Lemma implements_same S S' A L T : implements S A L T -> registrations S' = registrations S ->
  signal_sets S' = signal_sets S -> registrations_ S' = registrations_ S -> signal_ops S' = signal_ops S ->
  counted S' T -> (forall r, is_Some (registrations S !! r) -> r ∈ sig_heap (signal_kernel S')) -> implements S' A L T.
Proof.
  intros Him Er Es Et Eo Hc Hh. destruct Him as [[] ]. assert (same_queues S S') as Hq by (split; [done|by rewrite Es]).
  split; rewrite ?Er, ?Eo; try done.
  - split; rewrite ?Er, ?Es, ?Et; try done. by apply (waits_same S).
  - by apply (wait_same S).
Qed.

Lemma counted_handlers S S' T x n b : handled n b S T (Some x) S' ->
  registration_count_ S' = registration_count_ S -> counted S T -> counted S' T.
Proof.
  intros [_ Hh] Ec [C1 _]. split; [by rewrite Ec|]. intros n' Hn'. by destruct (Hh n' Hn').
Qed.

Lemma new_place_bounds S A L T s n l1 l2 p : implements S A L T -> place_in (registrations S) L s n l1 l2 ->
  last l1 = Some p \/ head l2 = Some p -> is_Some (registrations S !! p).
Proof.
  intros Him (EL & _) Hp. pose proof (sd_shape _ _ _ (im_sound _ _ _ _ Him)) as Hsh.
  destruct (sh_L _ _ _ _ _ Hsh s p) as (? & ? & (g & Hg & _)%core_Some); [|by eexists].
  rewrite EL, elem_of_app. destruct Hp as [Hp|Hp]; [left; by apply last_Some_elem_of|right; by apply head_Some_elem_of].
Qed.

(** What a step of the service comes to. *)
Definition steps_to (st : signal_step) (ops : list op_ptr) A (extra : nat) S x S' : Prop :=
  (exists A' v, spec_step A st x ops v A' /\ represents S' A') /\ (size (registrations S') <= size (registrations S) + extra)%nat.

Section add.
Context {S : Signals K} {A : a_signals} {L T : Z -> list Z} {s n f : Z} {i : signal_set} {l1 l2 : list Z}.
Context (Him : implements S A L T) (Hi : signal_sets S !! s = Some i) (Hn : valid_signal n = true)
  (Hplace : place_in (registrations S) L s n l1 l2) (Hund : a_und A !! (s, n) = None)
  (Hgt : forall x, x ∈ l2 -> n < signal_at (registrations S) x)
  (Hbound : Z.of_nat (size (registrations S)) + 1 < 2 ^ 64).

Lemma add_fails r x k S1 : (r ∉ sig_heap (signal_kernel S)) -> sig_heap k = {[r]} ∪ sig_heap (signal_kernel S) ->
  handled n true (with_registrations (<[r:=registration_new]> (registrations S)) (with_sig_kernel k S)) T (Some x) S1 ->
  wp (free_registration r;; mret x) S1 (steps_to (Add s n f) [] A 1 S).
Proof.
  intros Hr Hk [(fl & k1 & -> & Hk1) Hh]. pose proof (im_sound _ _ _ _ Him) as Hsd.
  assert (registrations S !! r = None) as Hrn.
  { apply eq_None_not_Some. intros Hx. by apply Hr, (sd_heap _ _ _ Hsd). }
  destruct (Hh n Hn) as [_ Hx]. apply wp_bind, wp_free_registration; [simpl; rewrite lookup_insert_eq; by eexists|].
  intros k2 Hk2 Hd2. apply wp_ret. simpl in *. rewrite delete_insert_id by done. split; [|simpl; lia].
  exists A, (no_error, 0). split; [by apply sp_add_failed|]. exists L, T. eapply implements_same; [exact Him|done|done|done|done|..].
  - split; simpl; [apply (co_count _ _ (sd_counted _ _ _ Hsd))|]. intros n' Hn'. destruct (Hh n' Hn') as ((f' & Hf' & Hd) & _).
    exists f'. simpl in *. by rewrite Hd2.
  - intros y Hy. simpl. rewrite Hk2, Hk1. simpl. rewrite Hk. assert (y <> r) by (intros ->; rewrite Hrn in Hy; by destruct Hy).
    apply (sd_heap _ _ _ Hsd) in Hy. set_solver.
Qed.

Lemma add_succeeds r k S1 : r <> 0 -> (r ∉ sig_heap (signal_kernel S)) -> sig_heap k = {[r]} ∪ sig_heap (signal_kernel S) ->
  handled n true (with_registrations (<[r:=registration_new]> (registrations S)) (with_sig_kernel k S)) T None S1 ->
  wp (signal_set_service.insert_registration s n (last l1) (default 0 (head l2)) r;; mret no_error) S1
    (steps_to (Add s n f) [] A 1 S).
Proof.
  intros Hr0 Hr Hk [(fl & k1 & -> & Hk1) Hh]. pose proof (im_sound _ _ _ _ Him) as Hsd. pose proof (sd_shape _ _ _ Hsd) as Hsh.
  assert (registrations S !! r = None) as Hrn.
  { apply eq_None_not_Some. intros Hx. by apply Hr, (sd_heap _ _ _ Hsd). }
  destruct (valid_in_table Hsh n Hn) as [first Hf]. pose proof (first_is Hsh Hf) as Efirst.
  pose proof (co_count _ _ (sd_counted _ _ _ Hsd)) as Hcount. pose proof (T_length Hsh n Hn) as HT.
  assert (first = 0 \/ is_Some (registrations S !! first)) as Hfirst.
  { rewrite Efirst. destruct (default_head_in (T n)) as [|Hin]; [by left|right].
    destruct (sh_T _ _ _ _ _ Hsh _ _ Hin) as (? & ? & (g & Hg & _)%core_Some). by eexists. }
  apply wp_bind. eapply wp_insert_registration; simpl;
    [done|by apply (sh_null _ _ _ _ _ Hsh)|done|exact Hi| |exact Hfirst|exact Hf|by apply Hcount|].
  { intros p Hp. eapply new_place_bounds; eauto. }
  apply wp_ret. assert (first <> r /\ last l1 <> Some r) as [Hfr Hlr].
  { split; [intros ->; destruct Hfirst as [?|Hx]; [done|rewrite Hrn in Hx; by destruct Hx]|].
    intros E. destruct (new_place_bounds _ _ _ _ _ _ _ _ r Him Hplace) as [? ?]; [by left|congruence]. }
  set (m' := inserted _ _ _ _ _ _ _).
  assert (forall x, is_Some (m' !! x) -> x = r \/ is_Some (registrations S !! x)) as Hin.
  { intros x. unfold m', inserted. rewrite !lookup_alter_is_Some, relink_is_Some, lookup_alter_is_Some.
    intros Hx. destruct (decide (x = r)); [by left|right]. by rewrite lookup_insert_ne in Hx. }
  split.
  2: { simpl. rewrite <- !size_dom. trans (size ({[r]} ∪ dom (registrations S) : gset Z)).
       - apply subseteq_size. intros x. rewrite elem_of_dom. intros [->|Hx]%Hin; [set_solver|].
         apply elem_of_union. right. by apply elem_of_dom.
       - rewrite size_union_alt, size_singleton. pose proof (subseteq_size (dom (registrations S) ∖ {[r]}) (dom (registrations S))
           ltac:(set_solver)). lia. }
  exists (spec_register s n A), (no_error, 0). split; [by apply sp_add|].
  eexists _, _. eapply (implements_register S _ A L T s i n l1 l2 first r); try done.
  - by apply core_None.
  - by apply inserted_linked.
  - simpl. destruct l1 as [|y l1']; [done|]. destruct (last (y :: l1')) eqn:E; [|by apply last_None in E]. simpl.
    rewrite insert_id; [done|]. rewrite Hi. by destruct i.
  - simpl. intros n' Hn'. split; [|by apply Hh]. unfold upd. case_decide as E.
    + subst n'. rewrite vget_set_eq; [|eapply vget_Some_range; by apply Hcount]. simpl. rewrite wrap_small by lia. f_equal. lia.
    + rewrite vget_set_ne by congruence. by apply Hcount.
  - simpl. intros x [->|Hx]%Hin; rewrite Hk1; simpl; rewrite Hk; [set_solver|]. apply (sd_heap _ _ _ Hsd) in Hx. set_solver.
Qed.
End add.

Lemma wp_add fuel s n f S A L T i : implements S A L T -> signal_sets S !! s = Some i ->
  (size (registrations S) < fuel)%nat -> Z.of_nat (size (registrations S)) + 1 < 2 ^ 64 ->
  wp (signal_set_service.add fuel s n f) S (steps_to (Add s n f) [] A 1 S).
Proof.
  intros Him Hi Hfuel Hbound. pose proof (im_sound _ _ _ _ Him) as Hsd. pose proof (sd_shape _ _ _ Hsd) as Hsh.
  unfold signal_set_service.add. destruct (valid_signal n) eqn:Hn; simpl.
  2: { apply wp_ret. split; [|lia]. exists A, (no_error, 0). split; [by apply sp_add_invalid|by exists L, T]. }
  apply wp_bind. eapply wp_load_set; [exact Hi|]. apply wp_bind. eapply wp_place; [exact Hsh|exact Hi|exact Hfuel|].
  intros l1 l2 Hplace. pose proof (place_registered _ _ _ _ _ _ _ _ Him Hplace) as Hreg.
  apply wp_bind, wp_is_registered; [by apply (sh_null _ _ _ _ _ Hsh)| |].
  { intros x Hx. eapply new_place_bounds; eauto. }
  destruct (match head l2 with Some x => _ | None => false end).
  { apply wp_ret. split; [|lia]. exists A, (no_error, 0). split; [|by exists L, T]. apply sp_add_there; [done|].
    destruct Hreg as (r & u & l2' & -> & Hc). exists u. apply (im_und _ _ _ _ Him). eauto. }
  destruct Hreg as [Hund Hgt]. apply wp_bind, wp_allocate_registration. intros r k Hr0 Hr Hk Hd.
  apply wp_bind. eapply wp_mono; [apply wp_install; [|done]|].
  { apply (counted_same S); [done|done|done|apply (sd_counted _ _ _ Hsd)]. }
  intros [x|] S1 Hh; [by eapply add_fails|by eapply add_succeeds].
Qed.

(** ** Unregistering *)

Lemma filter_all {B} (P : B -> Prop) `{forall b, Decision (P b)} (l : list B) : (forall b, b ∈ l -> P b) -> filter P l = l.
Proof.
  induction l as [|b l IH]; intros Hl; [done|]. rewrite filter_cons_True by (apply Hl; by left).
  f_equal. apply IH. intros c Hc. apply Hl. by right.
Qed.

Section unregister.
Context {S : Signals K} {A : a_signals} {L T : Z -> list Z} {s n u r : Z} {i : signal_set} {l1 l2 t1 t2 : list Z}.
Context (Him : implements S A L T) (Hi : signal_sets S !! s = Some i) (Hc : core (registrations S) r = Some (n, s, u))
  (EL : L s = l1 ++ r :: l2) (ET : T n = t1 ++ r :: t2).

Lemma set_gone : set_at (registrations S) <$> (t1 ++ t2) = filter (fun s' => s' <> s) (a_tab A n).
Proof.
  pose proof (sd_shape _ _ _ (im_sound _ _ _ _ Him)) as Hsh. rewrite (im_tab _ _ _ _ Him), ET, !fmap_app, filter_app.
  cbn [fmap list_fmap]. rewrite filter_cons_False by (rewrite (set_at_core _ _ _ _ _ Hc); tauto).
  assert (forall x, x ∈ t1 ++ t2 -> set_at (registrations S) x <> s) as Hne.
  { intros x Hx E. destruct (sh_T _ _ _ _ _ Hsh n x) as (s' & u' & Hcx).
    { rewrite ET, elem_of_app, elem_of_cons. rewrite elem_of_app in Hx. tauto. }
    rewrite (set_at_core _ _ _ _ _ Hcx) in E. subst s'. pose proof (registered_once Hsh _ _ _ _ _ _ Hc Hcx). subst x.
    by apply (proj2 (rest_of_table Hsh Hc ET)). }
  rewrite !filter_all; [done|..]; intros y (x & -> & Hx)%list_elem_of_fmap; apply Hne; rewrite elem_of_app; auto.
Qed.

Lemma implements_unregister S' first :
  vget (registrations_ S) n = Some first ->
  linked_out (last l1) (default 0 (head l2)) (default 0 (last t1)) (default 0 (head t2)) r (registrations S) (registrations S') ->
  signal_sets S' = <[s:=mkSignalSet (set_queue i) (match l1 with [] => default 0 (head l2) | _ => signals_ i end)]> (signal_sets S) ->
  registrations_ S' = match t1 with [] => vset (registrations_ S) n (default 0 (head t2)) | _ => registrations_ S end ->
  signal_ops S' = signal_ops S -> counted S' (upd T n (t1 ++ t2)) ->
  (forall x, is_Some (registrations S' !! x) -> x ∈ sig_heap (signal_kernel S')) ->
  implements S' (spec_unregister s n A) (upd L s (l1 ++ l2)) (upd T n (t1 ++ t2)).
Proof.
  intros Hf Hl Es Et Eo Hcount Hheap. pose proof (im_sound _ _ _ _ Him) as Hsd. pose proof (sd_shape _ _ _ Hsd) as Hsh.
  pose proof (lo_core _ _ _ _ _ _ _ Hl) as Ec. pose proof (same_queues_set _ _ _ _ _ Eo Hi Es) as Hq. split; [split|..]; simpl.
  - rewrite Es, Et. exact (shape_remove Hsh Hl Hc Hi EL ET (set_queue i) first Hf).
  - done.
  - done.
  - by apply (waits_same _ _ Hq), (sd_waits _ _ _ Hsd).
  - intros s' n' u'. destruct (decide ((s', n') = (s, n))) as [[= -> ->]|Hne].
    + rewrite lookup_delete_eq. split; [done|]. intros [x Hx]. rewrite Ec in Hx. case_decide; [done|].
      by pose proof (registered_once Hsh _ _ _ _ _ _ Hc Hx).
    + rewrite lookup_delete_ne by congruence. rewrite (im_und _ _ _ _ Him). split; intros [x Hx]; exists x.
      * rewrite Ec. rewrite decide_False; [done|congruence].
      * rewrite Ec in Hx. by case_decide.
  - exact (wait_same _ _ A Hq (im_wait _ _ _ _ Him)).
  - assert (forall l : list Z, r ∉ l -> set_at (registrations S') <$> l = set_at (registrations S) <$> l) as Hold.
    { intros l Hr. apply fmap_set_at. intros x Hx. rewrite Ec. rewrite decide_False; [done|]. by intros ->. }
    intros n'. unfold upd. case_decide as E.
    + subst n'. rewrite Hold by apply (rest_of_table Hsh Hc ET). by rewrite set_gone.
    + rewrite Hold; [apply (im_tab _ _ _ _ Him)|]. intros (? & ? & ?)%(sh_T _ _ _ _ _ Hsh). congruence.
  - by rewrite Eo, (im_known _ _ _ _ Him).
Qed.

(** The registration itself. *)
Lemma registration_links : exists g, registrations S !! r = Some g /\ signal_number_ g = n /\
  next_in_set_ g = default 0 (head l2) /\ prev_in_table_ g = default 0 (last t1) /\ next_in_table_ g = default 0 (head t2).
Proof.
  pose proof (sd_shape _ _ _ (im_sound _ _ _ _ Him)) as Hsh.
  destruct (core_Some _ _ _ _ _ Hc) as (g & Hg & E1 & _). exists g. split; [done|]. split; [done|].
  pose proof (sh_sets _ _ _ _ _ Hsh _ _ Hi) as Hseg. rewrite EL in Hseg. apply sseg_app in Hseg as (a & _ & Hseg).
  simpl in Hseg. destruct Hseg as (_ & nx & Hnx & Hseg). unfold set_link in Hnx. rewrite Hg in Hnx. injection Hnx as Hnx.
  pose proof (sseg_first _ _ _ _ Hseg) as Enx. subst nx. split; [done|].
  destruct (sh_core _ _ _ _ _ Hsh _ _ _ _ Hc) as (_ & _ & Hn & _). destruct (valid_in_table Hsh n Hn) as [first Hf].
  pose proof (sh_table _ _ _ _ _ Hsh _ _ Hf) as Hd. rewrite ET in Hd. destruct (dll_around _ _ _ _ _ Hd) as (_ & Hr & _).
  unfold table_links in Hr. rewrite Hg in Hr. by injection Hr as -> ->.
Qed.

(** It is at the front of its table if the table says so. *)
Lemma table_front first : vget (registrations_ S) n = Some first ->
  (if first =? r then vset (registrations_ S) n (default 0 (head t2)) else registrations_ S) =
  match t1 with [] => vset (registrations_ S) n (default 0 (head t2)) | _ => registrations_ S end.
Proof.
  intros Hf. pose proof (sd_shape _ _ _ (im_sound _ _ _ _ Him)) as Hsh. pose proof (first_is Hsh Hf) as Ef. rewrite ET in Ef.
  destruct t1 as [|y t1']; simpl in Ef; subst first; [by rewrite Z.eqb_refl|].
  destruct (Z.eqb_spec y r) as [->|]; [|done]. exfalso. apply (proj2 (rest_of_table Hsh Hc ET)). by left.
Qed.

(** What the state is when [r] has gone. *)
Definition without first fl k : Signals K :=
  mkSignals (delete r (bypassed (default 0 (last t1)) (default 0 (head t2)) (relink (last l1) (default 0 (head l2)) (registrations S))))
    (<[s:=mkSignalSet (set_queue i) (match l1 with [] => default 0 (head l2) | _ => signals_ i end)]> (signal_sets S))
    (if first =? r then vset (registrations_ S) n (default 0 (head t2)) else registrations_ S)
    (vset (registration_count_ S) n (u64 (Z.of_nat (length (T n)) - 1))) fl (signal_ops S) k.

Lemma without_implements first fl k1 k : vget (registrations_ S) n = Some first -> Z.of_nat (size (registrations S)) < 2 ^ 64 ->
  handled n (bool_decide (1 < length (T n))%nat) S T None (with_flags fl (with_sig_kernel k1 S)) ->
  sig_heap k1 = sig_heap (signal_kernel S) ->
  sig_heap k = sig_heap k1 ∖ {[r]} -> (forall n', disposition k n' = disposition k1 n') ->
  implements (without first fl k) (spec_unregister s n A) (upd L s (l1 ++ l2)) (upd T n (t1 ++ t2)).
Proof.
  intros Hf Hbound [_ Hh] Ek1 Ek Ed. pose proof (im_sound _ _ _ _ Him) as Hsd. pose proof (sd_shape _ _ _ Hsd) as Hsh.
  destruct (sh_core _ _ _ _ _ Hsh _ _ _ _ Hc) as (_ & _ & Hn & _). pose proof (T_length Hsh n Hn) as HT.
  assert (length (T n) = Datatypes.S (length (t1 ++ t2))) as El by (rewrite ET, !length_app; simpl; lia).
  pose proof (co_count _ _ (sd_counted _ _ _ Hsd)) as Hcount.
  apply (implements_unregister _ first Hf); simpl; [apply bypassed_linked|done|by apply table_front|done|split; simpl|].
  - intros n' Hn'. destruct (decide (n' = n)) as [->|Hne].
    + rewrite upd_eq, vget_set_eq by (eapply vget_Some_range; by apply Hcount). rewrite wrap_small by lia. f_equal. lia.
    + rewrite upd_ne, vget_set_ne by congruence. by apply Hcount.
  - intros n' Hn'. destruct (Hh n' Hn') as [(f & Hf' & Hd) _]. exists f. simpl in *. split; [done|]. rewrite Ed, Hd.
    destruct (decide (n' = n)) as [->|Hne]; [rewrite upd_eq|by rewrite upd_ne]. rewrite El.
    rewrite (bool_decide_ext (1 < _)%nat (t1 ++ t2 <> [])); [done|].
    destruct (t1 ++ t2); simpl; split; intros; [lia|done|done|lia].
  - intros x Hx. rewrite Ek, Ek1, elem_of_difference, elem_of_singleton.
    destruct (decide (x = r)) as [->|Hne]; [rewrite lookup_delete_eq in Hx; by destruct Hx|].
    rewrite lookup_delete_ne, bypassed_is_Some, relink_is_Some in Hx by done. split; [by apply (sd_heap _ _ _ Hsd)|done].
Qed.

Lemma without_size first fl k : (size (registrations (without first fl k)) < size (registrations S))%nat.
Proof.
  assert (r ∈ dom (registrations S)) as Hr.
  { apply elem_of_dom. destruct (core_Some _ _ _ _ _ Hc) as (g & Hg & _). by eexists. }
  rewrite <- !size_dom. apply subset_size. simpl. split.
  - intros x. rewrite !elem_of_dom. intros Hx. destruct (decide (x = r)) as [->|Hne]; [rewrite lookup_delete_eq in Hx; by destruct Hx|].
    by rewrite lookup_delete_ne, bypassed_is_Some, relink_is_Some in Hx by done.
  - intros Hsub. specialize (Hsub r Hr). apply elem_of_dom in Hsub. rewrite lookup_delete_eq in Hsub. by destruct Hsub.
Qed.

(** The neighbours of [r] are registrations, or there are none. *)
Lemma around_exist x : x = default 0 (last t1) \/ x = default 0 (head t2) -> x = 0 \/ is_Some (registrations S !! x).
Proof.
  pose proof (sd_shape _ _ _ (im_sound _ _ _ _ Him)) as Hsh. intros Hx. destruct (decide (x = 0)) as [->|Hne]; [by left|right].
  pose proof (around_in_table x Hx Hne) as Hin. destruct (sh_T _ _ _ _ _ Hsh n x) as (? & ? & (g & Hg & _)%core_Some); [|by eexists].
  rewrite ET, elem_of_app, elem_of_cons. rewrite elem_of_app in Hin. tauto.
Qed.

(** The rest of [remove] once the handler is back. *)
Lemma wp_remove_rest x fl k1 S1 (Phi : error_code -> Signals K -> Prop) :
  S1 = with_flags fl (with_sig_kernel k1 S) ->
  (forall first k, vget (registrations_ S) n = Some first -> sig_heap k = sig_heap k1 ∖ {[r]} ->
     (forall n', disposition k n' = disposition k1 n') -> Phi x (without first fl k)) ->
  wp (g ← load_reg r; signal_set_service.write_point s (last l1) (next_in_set_ g);;
      signal_set_service.remove_from_table r;; free_registration r;; mret x) S1 Phi.
Proof.
  intros -> HP. pose proof (im_sound _ _ _ _ Him) as Hsd. pose proof (sd_shape _ _ _ Hsd) as Hsh.
  destruct registration_links as (g & Hg & En & Enext & Eprev & Eafter).
  destruct (sh_core _ _ _ _ _ Hsh _ _ _ _ Hc) as (_ & _ & Hn & _). destruct (valid_in_table Hsh n Hn) as [first Hf].
  pose proof (sh_null _ _ _ _ _ Hsh 0 eq_refl) as Hnull.
  assert (forall p, last l1 = Some p -> p <> r /\ is_Some (registrations S !! p)) as Hpoint.
  { intros p Hp%last_Some_elem_of. split.
    - intros ->. apply (proj2 (rest_of_set Hsh EL)). rewrite elem_of_app. by left.
    - destruct (sh_L _ _ _ _ _ Hsh s p) as (? & ? & (? & Hp' & _)%core_Some); [|by eexists]. rewrite EL, elem_of_app. by left. }
  apply wp_bind. eapply wp_load_reg; [exact Hg|]. apply wp_bind. apply (wp_write_point s i); [exact Hi|intros p Hp; by apply Hpoint|].
  assert (relink (last l1) (next_in_set_ g) (registrations S) !! r = Some g) as Hg'.
  { destruct (last l1) as [p|] eqn:Hp; simpl; [|done]. destruct (Hpoint p eq_refl) as [Hne _]. by rewrite lookup_alter_ne. }
  assert (prev_in_table_ g <> r) as Hprev.
  { rewrite Eprev. intros E. destruct (default_last_in t1) as [E0|Hin]; [congruence|].
    apply (proj2 (rest_of_table Hsh Hc ET)). rewrite elem_of_app. left. congruence. }
  apply wp_bind. apply (wp_remove_from_table r g first (Z.of_nat (length (T n)))); simpl; rewrite ?En;
    [done| |done|by apply (co_count _ _ (sd_counted _ _ _ Hsd))|done|..].
  { apply eq_None_not_Some. rewrite relink_is_Some, Hnull. by intros [? ?]. }
  { rewrite relink_is_Some. apply around_exist. by left. }
  { rewrite relink_is_Some. apply around_exist. by right. }
  apply wp_bind, wp_free_registration; [simpl; rewrite bypassed_is_Some, Hg'; by eexists|].
  intros k Hk Hd. apply wp_ret. simpl in *. specialize (HP first k Hf Hk Hd). revert HP. unfold without.
  rewrite Enext, Eprev, Eafter. replace (pointed _ _ _ _ _) with
    (<[s:=mkSignalSet (set_queue i) (match l1 with [] => default 0 (head l2) | _ => signals_ i end)]> (signal_sets S)); [done|].
  destruct l1 as [|y l1']; [done|]. destruct (last (y :: l1')) eqn:E; [|by apply last_None in E]. simpl.
  rewrite insert_id; [done|]. rewrite Hi. by destruct i.
Qed.

(** An iteration of [clear] once the handler is back. *)
Lemma wp_clear_step (rest : prog (Signals K) error_code) fl k1 S1 (Phi : error_code -> Signals K -> Prop) :
  l1 = [] -> S1 = with_flags fl (with_sig_kernel k1 S) ->
  (forall first k, vget (registrations_ S) n = Some first -> sig_heap k = sig_heap k1 ∖ {[r]} ->
     (forall n', disposition k n' = disposition k1 n') -> wp rest (without first fl k) Phi) ->
  wp (signal_set_service.remove_from_table r;; g ← load_reg r; i ← load_set s;
      store_set s (mkSignalSet (set_queue i) (next_in_set_ g));; free_registration r;; rest) S1 Phi.
Proof.
  intros El1 -> HP. pose proof (im_sound _ _ _ _ Him) as Hsd. pose proof (sd_shape _ _ _ Hsd) as Hsh.
  destruct registration_links as (g & Hg & En & Enext & Eprev & Eafter).
  destruct (sh_core _ _ _ _ _ Hsh _ _ _ _ Hc) as (_ & _ & Hn & _). destruct (valid_in_table Hsh n Hn) as [first Hf].
  assert (prev_in_table_ g <> r) as Hprev.
  { rewrite Eprev. intros E. destruct (default_last_in t1) as [E0|Hin].
    - rewrite (sh_null _ _ _ _ _ Hsh r) in Hg; [done|congruence].
    - apply (proj2 (rest_of_table Hsh Hc ET)). rewrite elem_of_app. left. congruence. }
  apply wp_bind. apply (wp_remove_from_table r g first (Z.of_nat (length (T n)))); simpl; rewrite ?En;
    [done|by apply (sh_null _ _ _ _ _ Hsh)|done|by apply (co_count _ _ (sd_counted _ _ _ Hsd))|done|..].
  { apply around_exist. by left. }
  { apply around_exist. by right. }
  set (m' := bypassed _ _ _). assert (exists g', m' !! r = Some g' /\ next_in_set_ g' = default 0 (head l2)) as (g' & Hg' & Eg').
  { pose proof (bypassed_set (prev_in_table_ g) (next_in_table_ g) (registrations S) r) as Es. unfold set_link in Es.
    fold m' in Es. rewrite Hg in Es. apply fmap_Some in Es as (g' & Hg' & Eg'). exists g'. split; [done|]. congruence. }
  apply wp_bind. eapply wp_load_reg; [exact Hg'|]. apply wp_bind. eapply wp_load_set; [exact Hi|].
  apply wp_bind, wp_store_set; [by eexists|]. apply wp_bind, wp_free_registration; [by eexists|].
  intros k Hk Hd. specialize (HP first k Hf Hk Hd). revert HP. unfold without. simpl in *. unfold m'.
  by rewrite Eprev, Eafter, Eg', El1.
Qed.
End unregister.

(** A handler that stays as it is. *)
Lemma implements_handler S A L T fl k x n b : implements S A L T -> handled n b S T (Some x) (with_flags fl (with_sig_kernel k S)) ->
  sig_heap k = sig_heap (signal_kernel S) -> implements (with_flags fl (with_sig_kernel k S)) A L T.
Proof.
  intros Him Hh Hk. pose proof (im_sound _ _ _ _ Him) as Hsd. eapply implements_same; [exact Him|done|done|done|done|..].
  - eapply counted_handlers; [exact Hh|done|apply (sd_counted _ _ _ Hsd)].
  - intros r Hr. simpl. rewrite Hk. by apply (sd_heap _ _ _ Hsd).
Qed.

Lemma table_split S L T r n s u : shape (registrations S) (signal_sets S) (registrations_ S) L T ->
  core (registrations S) r = Some (n, s, u) -> exists t1 t2, T n = t1 ++ r :: t2.
Proof. intros Hsh Hc. destruct (sh_core _ _ _ _ _ Hsh _ _ _ _ Hc) as (_ & Hr & _). by apply list_elem_of_split in Hr. Qed.

Lemma wp_remove fuel s n S A L T i : implements S A L T -> signal_sets S !! s = Some i ->
  (size (registrations S) < fuel)%nat -> Z.of_nat (size (registrations S)) < 2 ^ 64 ->
  wp (signal_set_service.remove fuel s n) S (steps_to (Remove s n) [] A 0 S).
Proof.
  intros Him Hi Hfuel Hbound. pose proof (im_sound _ _ _ _ Him) as Hsd. pose proof (sd_shape _ _ _ Hsd) as Hsh.
  unfold signal_set_service.remove. destruct (valid_signal n) eqn:Hn; simpl.
  2: { apply wp_ret. split; [|lia]. exists A, (no_error, 0). split; [by apply sp_remove_invalid|by exists L, T]. }
  apply wp_bind. eapply wp_load_set; [exact Hi|]. apply wp_bind. eapply wp_place; [exact Hsh|exact Hi|exact Hfuel|].
  intros l1 l2 Hplace. pose proof (place_registered _ _ _ _ _ _ _ _ Him Hplace) as Hreg.
  apply wp_bind, wp_is_registered; [by apply (sh_null _ _ _ _ _ Hsh)| |].
  { intros x Hx. eapply new_place_bounds; eauto. }
  destruct (match head l2 with Some x => _ | None => false end); simpl.
  2: { destruct Hreg as [Hund _]. apply wp_ret. split; [|lia]. exists A, (no_error, 0). split; [by apply sp_remove_none|by exists L, T]. }
  destruct Hreg as (r & u & l2' & -> & Hc). destruct Hplace as (EL & _). destruct (table_split _ _ _ _ _ _ _ Hsh Hc) as (t1 & t2 & ET).
  assert (is_Some (a_und A !! (s, n))) as Hund by (exists u; apply (im_und _ _ _ _ Him); eauto).
  apply wp_bind. eapply wp_mono; [apply wp_uninstall; [apply (sd_counted _ _ _ Hsd)|done|by rewrite ET; destruct t1]|].
  intros [x|] S1 Hh; destruct Hh as [(fl & k1 & -> & Hk1) Hh].
  - apply wp_ret. split; [|simpl; lia]. exists A, (no_error, 0). destruct (Hh n Hn) as [_ Hx]. split; [by apply sp_remove_failed|].
    exists L, T. apply (implements_handler S A L T fl k1 x n false); [exact Him| |exact Hk1]. split; [by exists fl, k1|exact Hh].
  - apply (wp_remove_rest Him Hi Hc EL ET no_error fl k1); [done|]. intros first k Hf Hk Hd. split.
    + exists (spec_unregister s n A), (no_error, 0). split; [by apply sp_remove|]. eexists _, _.
      eapply (without_implements Him Hi Hc EL ET); [done|done| |done|done|done]. split; [by exists fl, k1|exact Hh].
    + pose proof (without_size (S := S) (s := s) (i := i) (l1 := l1) (l2 := l2') (t1 := t1) (t2 := t2) (T := T) (n := n) (r := r) (u := u) Hc first fl k). lia.
Qed.

(** ** clear *)

Lemma sorted_filter {B} (R : B -> B -> Prop) P `{forall b, Decision (P b)} (l : list B) :
  StronglySorted R l -> StronglySorted R (filter P l).
Proof.
  induction 1 as [|x l Hs IH Hx]; [constructor|]. rewrite filter_cons. case_decide; [|done]. constructor; [done|].
  rewrite Forall_forall in *. intros y [_ Hy]%list_elem_of_filter. auto.
Qed.

Lemma sorted_seqZ a b : StronglySorted Z.lt (seqZ a b).
Proof.
  unfold seqZ. generalize 0%nat as j. induction (Z.to_nat b) as [|c IH]; intros j; simpl; constructor; [apply IH|].
  apply Forall_fmap, Forall_forall. intros x Hx%elem_of_seq. simpl. lia.
Qed.

(** The signals of a set, in the order of its list. *)
Lemma signals_in_list S A L T s : implements S A L T -> signals_in s A = signal_at (registrations S) <$> L s.
Proof.
  intros Him. pose proof (sd_shape _ _ _ (im_sound _ _ _ _ Him)) as Hsh. unfold signals_in.
  assert (StronglySorted Z.lt (signal_at (registrations S) <$> L s)) as Hs2.
  { pose proof (sh_sorted _ _ _ _ _ Hsh s) as Hs. induction Hs as [|x l Hs IH Hx]; constructor; [done|].
    by apply Forall_fmap. }
  apply (StronglySorted_unique_strong Z.lt); [intros; lia| |done|].
  - apply sorted_filter, sorted_seqZ.
  - apply NoDup_Permutation.
    + apply NoDup_filter, NoDup_seqZ.
    + clear Hsh. induction Hs2 as [|x l Hs IH Hx]; constructor; [|done]. intros Hin. rewrite Forall_forall in Hx.
      specialize (Hx x Hin). lia.
    + intros n. rewrite list_elem_of_filter, elem_of_seqZ, list_elem_of_fmap. split.
      * intros [[u Hu] _]. apply (im_und _ _ _ _ Him) in Hu as [r Hr]. exists r.
        destruct (sh_core _ _ _ _ _ Hsh _ _ _ _ Hr) as (Hin & _). split; [|done]. by rewrite (signal_at_core _ _ _ _ _ Hr).
      * intros (r & -> & Hr). destruct (sh_L _ _ _ _ _ Hsh _ _ Hr) as (n & u & Hc).
        destruct (sh_core _ _ _ _ _ Hsh _ _ _ _ Hc) as (_ & _ & Hn & _). rewrite (signal_at_core _ _ _ _ _ Hc).
        split; [exists u; apply (im_und _ _ _ _ Him); eauto|]. unfold valid_signal in Hn. zb. lia.
Qed.

Lemma spec_clear_cons A s n x ops v A' : signals_in s A = n :: signals_in s (spec_unregister s n A) ->
  spec_step (spec_unregister s n A) (Clear s) x ops v A' -> spec_step A (Clear s) x ops v A'.
Proof.
  intros E Hstep. inversion Hstep; subst.
  - pose proof (sp_clear A s v) as Hsp. by rewrite E in Hsp.
  - pose proof (sp_clear_failed A s (Datatypes.S k) x v) as Hsp. rewrite E in Hsp. simpl in Hsp. apply Hsp; [lia|done].
Qed.

Lemma wp_clear_all fuel s S A L T i : implements S A L T -> signal_sets S !! s = Some i ->
  (length (L s) < fuel)%nat -> Z.of_nat (size (registrations S)) < 2 ^ 64 ->
  wp (signal_set_service.clear fuel s) S (fun x S' => steps_to (Clear s) [] A 0 S x S' /\ (restorable -> failed x = false)).
Proof.
  revert S A L T i. induction fuel as [|fuel IH]; intros S A L T i Him Hi Hfuel Hbound; [lia|].
  pose proof (im_sound _ _ _ _ Him) as Hsd. pose proof (sd_shape _ _ _ Hsd) as Hsh.
  pose proof (signals_in_list _ _ _ _ s Him) as Esig. pose proof (sh_sets _ _ _ _ _ Hsh _ _ Hi) as Hseg.
  cbn [signal_set_service.clear]. apply wp_bind. eapply wp_load_set; [exact Hi|].
  destruct (L s) as [|r l2] eqn:EL.
  { simpl in Hseg, Esig. rewrite Hseg. apply wp_ret. split; [|done]. split; [|lia]. exists A, (no_error, 0). split; [|by exists L, T].
    pose proof (sp_clear A s (no_error, 0)) as Hsp. by rewrite Esig in Hsp. }
  simpl in Hseg. destruct Hseg as (Er & nx & _ & _). rewrite Er.
  destruct (sh_L _ _ _ _ _ Hsh s r) as (n & u & Hc); [rewrite EL; by left|].
  destruct (core_Some _ _ _ _ _ Hc) as (g & Hg & En & _). destruct (sh_core _ _ _ _ _ Hsh _ _ _ _ Hc) as (_ & _ & Hn & _).
  destruct (Z.eqb_spec r 0) as [->|_]; [by rewrite (sh_null _ _ _ _ _ Hsh 0 eq_refl) in Hg|].
  destruct (table_split _ _ _ _ _ _ _ Hsh Hc) as (t1 & t2 & ET). simpl in Esig. rewrite (signal_at_core _ _ _ _ _ Hc) in Esig.
  apply wp_bind. eapply wp_load_reg; [exact Hg|]. rewrite En.
  assert (T n <> []) as HT by (rewrite ET; by destruct t1). apply wp_bind.
  eapply wp_mono; [apply (wp_when restorable); [exact (wp_uninstall n S T (sd_counted _ _ _ Hsd) Hn HT)|]|].
  { intros Hre. exact (wp_uninstall_restores n S T Hre (sd_counted _ _ _ Hsd) Hn HT). }
  intros [x|] S1 [Hh Hre]; destruct Hh as [(fl & k1 & -> & Hk1) Hh].
  - apply wp_ret. split; [|by intros ?%Hre]. split; [|simpl; lia]. exists A, (no_error, 0). destruct (Hh n Hn) as [_ Hx]. split.
    + apply (sp_clear_failed A s 0); [rewrite Esig; simpl; lia|done].
    + exists L, T. apply (implements_handler S A L T fl k1 x n false); [exact Him| |exact Hk1]. split; [by exists fl, k1|exact Hh].
  - apply (wp_clear_step Him Hi Hc (l1 := []) (l2 := l2) EL ET _ fl k1); [done|done|]. intros first k Hf Hk Hd.
    pose proof (without_implements Him Hi Hc (l1 := []) (l2 := l2) EL ET first fl k1 k Hf Hbound
      (conj (ex_intro _ fl (ex_intro _ k1 (conj eq_refl Hk1))) Hh) Hk1 Hk Hd) as Him'.
    pose proof (signals_in_list _ _ _ _ s Him') as Esig'. rewrite upd_eq in Esig'.
    pose proof (without_size (l1 := []) (l2 := l2) (t1 := t1) (t2 := t2) (T := T) (i := i) Hc first fl k) as Hsize.
    eapply wp_mono; [eapply (IH _ _ _ _ _ Him')|].
    + simpl. by rewrite lookup_insert_eq.
    + rewrite upd_eq. simpl in *. lia.
    + lia.
    + intros x S' [[(A' & v & Hstep & Hrep) Hsz] Hfail]. split; [|done]. split; [|lia]. exists A', v. split; [|done]. eapply spec_clear_cons; [|exact Hstep].
      rewrite Esig, Esig'. f_equal. apply list_fmap_ext. intros j y Hy. symmetry. apply (kept_signal (bypassed_linked _ _ _ _ _ _)).
      intros ->. apply (proj2 (rest_of_set Hsh (l1 := []) (l2 := l2) EL)). by eapply list_elem_of_lookup_2.
Qed.
Lemma wp_clear fuel s S A L T i : implements S A L T -> signal_sets S !! s = Some i ->
  (length (L s) < fuel)%nat -> Z.of_nat (size (registrations S)) < 2 ^ 64 ->
  wp (signal_set_service.clear fuel s) S (steps_to (Clear s) [] A 0 S).
Proof. intros. eapply wp_mono; [by eapply wp_clear_all|]. by intros x S' [? _]. Qed.
End ops.
