(* ===== verification/SignalWaits.v ===== *)
(** * Waiting for signals

    The operations that wait on signal sets: [cancel] and its variant by key,
    [deliver_signal] and [start_wait_op] do what SignalSpec.v promises. *)

From S2P Require Import Prelude Bits LinkedList SocketOps SocketRules SocketModes OpQueue Scheduler SignalSets SignalRules SignalSteps SignalSpec SignalOps.

(** Every operation of a list is changed. *)
Definition set_all (f : signal_op -> signal_op) (ops : list op_ptr) (m : gmap op_ptr signal_op) : gmap op_ptr signal_op :=
  foldl (fun m o => alter f o m) m ops.

Lemma set_all_lookup f ops m o : (forall op, f (f op) = f op) ->
  set_all f ops m !! o = if decide (o ∈ ops) then f <$> m !! o else m !! o.
Proof.
  intros Hf. revert m. induction ops as [|o' ops IH]; intros m; [by rewrite decide_False by apply not_elem_of_nil|].
  change (set_all f (o' :: ops) m) with (set_all f ops (alter f o' m)). rewrite IH. destruct (decide (o = o')) as [->|Hne].
  - rewrite lookup_alter_eq, (decide_True (P := o' ∈ o' :: ops)) by by left. case_decide; [|done]. destruct (m !! o'); simpl; [by rewrite Hf|done].
  - rewrite lookup_alter_ne by done. repeat case_decide; set_solver.
Qed.

Lemma set_all_dom f ops m : dom (set_all f ops m) = dom m.
Proof. revert m. induction ops as [|o ops IH]; intros m; simpl; [done|]. by rewrite IH, dom_alter_L. Qed.

Section waits.
Context {K : Type} `{SignalKernelOk K}.
Implicit Types (S : Signals K) (A : a_signals) (s r n : Z) (L T : Z -> list Z) (m : regs).

(** The operations complete with this error and this signal number. *)
Definition completed S (ops : list op_ptr) (v : error_code * Z) : Prop :=
  forall o, o ∈ ops -> exists key, signal_ops S !! o = Some (mkSignalOp v.1 key v.2).

(** What a step that takes operations comes to. *)
Definition takes_to (st : signal_step) A S (x : error_code) (ops : list op_ptr) S' : Prop :=
  (exists A' v, spec_step A st x ops v A' /\ represents S' A' /\ completed S' ops v) /\
  size (registrations S') = size (registrations S).

(** ** Taking operations from a queue *)

(** Some operations of the queue of [s] have been taken, and changed. *)
Definition taken S s (i : signal_set) f (ops others : list op_ptr) : Signals K :=
  with_sets (<[s:=mkSignalSet others (signals_ i)]> (signal_sets S)) (with_ops (set_all f ops (signal_ops S)) S).

Lemma shape_heads m sets sets' tab L T : shape m sets tab L T ->
  (forall s, signals_ <$> sets' !! s = signals_ <$> sets !! s) -> shape m sets' tab L T.
Proof.
  intros Hsh Hh. pose proof Hsh as [Z1 Z2 Z3 Z4 Z5 Z6 Z7 Z8]. split; try done.
  - intros s i Hi. specialize (Hh s). rewrite Hi in Hh. destruct (sets !! s) as [j|] eqn:Hj; [|done].
    injection Hh as ->. eauto.
  - intros r n s u Hc. destruct (Z5 _ _ _ _ Hc) as (C1 & C2 & C3 & C4 & C5). split_and!; try done.
    specialize (Hh s). destruct C5 as [j Hj], (sets' !! s); [by eexists|by rewrite Hj in Hh].
Qed.

Section taken.
Context {S : Signals K} {A : a_signals} {L T : Z -> list Z} {s : Z} {i : signal_set} {f : signal_op -> signal_op} {ops others : list op_ptr}.
Context (Him : implements S A L T) (Hi : signal_sets S !! s = Some i) (Hf : forall op, f (f op) = f op)
  (Hkey : forall op, so_cancellation_key_ (f op) = so_cancellation_key_ op)
  (Hops : forall o, o ∈ ops -> o ∈ set_queue i) (Hothers : forall o, o ∈ others -> o ∈ set_queue i /\ o ∉ ops) (Hnd : NoDup others).

Lemma taken_key o : key_of (taken S s i f ops others) o = key_of S o.
Proof.
  unfold key_of, taken. simpl. rewrite set_all_lookup by done. case_decide; [|done].
  destruct (signal_ops S !! o); simpl; [by rewrite Hkey|done].
Qed.

Lemma taken_queue s' i' o : signal_sets (taken S s i f ops others) !! s' = Some i' -> o ∈ set_queue i' ->
  (o ∉ ops) /\ exists j, signal_sets S !! s' = Some j /\ o ∈ set_queue j.
Proof.
  pose proof (sd_waits _ _ _ (im_sound _ _ _ _ Him)) as Hw. simpl. destruct (decide (s' = s)) as [->|Hne].
  - rewrite lookup_insert_eq. intros [= <-] Ho. simpl in Ho. destruct (Hothers o Ho). split; [done|]. by exists i.
  - rewrite lookup_insert_ne by done. intros Hi' Ho. split; [|by exists i']. intros Hin%Hops. apply Hne.
    by apply (wt_once _ Hw _ _ _ _ o Hi' Hi).
Qed.

Lemma taken_implements : implements (taken S s i f ops others)
  (set_wait (<[s:=(fun o => (o, key_of S o)) <$> others]> (a_wait A)) A) L T.
Proof.
  pose proof (im_sound _ _ _ _ Him) as Hsd. pose proof (sd_waits _ _ _ Hsd) as Hw. split; [split|..].
  - apply (shape_heads _ (signal_sets S)); [apply (sd_shape _ _ _ Hsd)|]. intros s'. simpl.
    destruct (decide (s' = s)) as [->|]; [by rewrite lookup_insert_eq, Hi|by rewrite lookup_insert_ne].
  - apply (counted_same S); [done..|apply (sd_counted _ _ _ Hsd)].
  - apply (sd_heap _ _ _ Hsd).
  - split.
    + intros s' i' o Hi' Ho. destruct (taken_queue _ _ _ Hi' Ho) as (Hn & j & Hj & Hoj). simpl.
      rewrite set_all_lookup, decide_False by done. by apply (wt_op _ Hw s' j).
    + intros s1 s2 i1 i2 o Hi1 Hi2 Ho1 Ho2. destruct (taken_queue _ _ _ Hi1 Ho1) as (_ & j1 & Hj1 & Hoj1).
      destruct (taken_queue _ _ _ Hi2 Ho2) as (_ & j2 & Hj2 & Hoj2). by apply (wt_once _ Hw _ _ _ _ o Hj1 Hj2).
    + intros s' i' Hi'. simpl in Hi'. destruct (decide (s' = s)) as [->|Hne].
      * rewrite lookup_insert_eq in Hi'. by injection Hi' as <-.
      * rewrite lookup_insert_ne in Hi' by done. by apply (wt_nodup _ Hw s').
  - apply (im_und _ _ _ _ Him).
  - intros s'. simpl. destruct (decide (s' = s)) as [->|Hne].
    + rewrite !lookup_insert_eq. simpl. f_equal. apply list_fmap_ext. intros j o _. by rewrite taken_key.
    + rewrite !lookup_insert_ne by done. rewrite (im_wait _ _ _ _ Him). destruct (signal_sets S !! s'); simpl; [|done].
      f_equal. apply list_fmap_ext. intros j o _. by rewrite taken_key.
  - apply (im_tab _ _ _ _ Him).
  - simpl. by rewrite set_all_dom, (im_known _ _ _ _ Him).
Qed.

Lemma taken_completed v : (forall key, f (mkSignalOp no_error key 0) = mkSignalOp v.1 key v.2) ->
  completed (taken S s i f ops others) ops v.
Proof.
  intros Hv o Ho. destruct (wt_op _ (sd_waits _ _ _ (im_sound _ _ _ _ Him)) s i o Hi (Hops o Ho)) as [key Hk].
  exists key. simpl. rewrite set_all_lookup, decide_True, Hk by done. simpl. by rewrite Hv.
Qed.
End taken.

(** ** The loops over a queue *)

Lemma with_ops_same S : with_ops (signal_ops S) S = S.
Proof. by destruct S. Qed.

Lemma wp_number_all n ops S (Phi : unit -> Signals K -> Prop) : (forall o, o ∈ ops -> is_Some (signal_ops S !! o)) ->
  Phi tt (with_ops (set_all (set_so_signal n) ops (signal_ops S)) S) -> wp (signal_set_service.number_all n ops) S Phi.
Proof.
  revert S. induction ops as [|o ops IH]; intros S Hops HP; simpl.
  { apply wp_ret. by rewrite <- (with_ops_same S). }
  apply wp_bind, wp_store_op; [apply Hops; by left|]. apply IH; [|done]. intros o' Ho'. simpl. apply lookup_alter_is_Some, Hops. by right.
Qed.

Lemma wp_abort_all ops S (Phi : list op_ptr -> Signals K -> Prop) : (forall o, o ∈ ops -> is_Some (signal_ops S !! o)) ->
  Phi ops (with_ops (set_all (set_so_ec operation_aborted) ops (signal_ops S)) S) -> wp (signal_set_service.abort_all ops) S Phi.
Proof.
  revert S Phi. induction ops as [|o ops IH]; intros S Phi Hops HP; simpl.
  { apply wp_ret. by rewrite <- (with_ops_same S). }
  apply wp_bind, wp_store_op; [apply Hops; by left|]. apply wp_bind, IH; [|by apply wp_ret].
  intros o' Ho'. simpl. apply lookup_alter_is_Some, Hops. by right.
Qed.

Lemma key_of_alter S o f : (forall op, so_cancellation_key_ (f op) = so_cancellation_key_ op) ->
  forall o', key_of (with_ops (alter f o (signal_ops S)) S) o' = key_of S o'.
Proof.
  intros Hf o'. unfold key_of. simpl. destruct (decide (o = o')) as [<-|]; [|by rewrite lookup_alter_ne].
  rewrite lookup_alter_eq. destruct (signal_ops S !! o); simpl; [by rewrite Hf|done].
Qed.

Lemma wp_abort_by_key key queue S (Phi : list op_ptr * list op_ptr -> Signals K -> Prop) :
  (forall o, o ∈ queue -> is_Some (signal_ops S !! o)) ->
  Phi (filter (fun o => key_of S o = key) queue, filter (fun o => key_of S o <> key) queue)
    (with_ops (set_all (set_so_ec operation_aborted) (filter (fun o => key_of S o = key) queue) (signal_ops S)) S) ->
  wp (signal_set_service.abort_by_key key queue) S Phi.
Proof.
  revert S Phi. induction queue as [|o queue IH]; intros S Phi Hq HP; cbn [signal_set_service.abort_by_key].
  { apply wp_ret. by rewrite <- (with_ops_same S). }
  destruct (Hq o) as [op Ho]; [by left|]. apply wp_bind, wp_get. rewrite Ho. apply wp_bind, wp_ret.
  assert (key_of S o = so_cancellation_key_ op) as Ek by (unfold key_of; by rewrite Ho).
  rewrite !filter_cons, Ek in HP. destruct (Z.eqb_spec (so_cancellation_key_ op) key) as [E|E].
  - rewrite decide_True, decide_False in HP by tauto. apply wp_bind, wp_store_op; [by eexists|]. apply wp_bind, IH.
    { intros o' Ho'. simpl. apply lookup_alter_is_Some, Hq. by right. }
    apply wp_ret. set (S' := with_ops (alter _ _ _) _).
    assert (forall o', key_of S' o' = key_of S o') as Hk by by apply key_of_alter.
    rewrite (list_filter_iff (fun o => key_of S' o = key) (fun o => key_of S o = key)) by (intros; by rewrite Hk).
    rewrite (list_filter_iff (fun o => key_of S' o <> key) (fun o => key_of S o <> key)) by (intros; by rewrite Hk).
    exact HP.
  - rewrite decide_False, decide_True in HP by tauto. apply wp_bind, IH; [intros; apply Hq; by right|]. by apply wp_ret.
Qed.

(** ** cancel *)

Lemma queue_ops S s i o : waits S -> signal_sets S !! s = Some i -> o ∈ set_queue i -> is_Some (signal_ops S !! o).
Proof. intros Hw Hi Ho. destruct (wt_op _ Hw s i o Hi Ho) as [key ->]. by eexists. Qed.

Lemma wp_cancel_signals s S A L T i : implements S A L T -> signal_sets S !! s = Some i ->
  wp (signal_set_service.cancel_ops s) S (takes_to (Cancel s) A S no_error).
Proof.
  intros Him Hi. pose proof (sd_waits _ _ _ (im_sound _ _ _ _ Him)) as Hw. unfold signal_set_service.cancel_ops.
  apply wp_bind. eapply wp_load_set; [exact Hi|]. apply wp_bind, wp_abort_all; [intros o; by apply (queue_ops S s i)|].
  apply wp_bind. eapply wp_load_set; [exact Hi|]. apply wp_bind, wp_store_set; [by eexists|]. apply wp_ret. split; [|done].
  exists (set_wait (<[s:=[]]> (a_wait A)) A), (operation_aborted, 0).
  split; [rewrite <- (waiting_ops _ _ _ _ _ _ Him Hi); apply sp_cancel|]. split.
  - exists L, T. apply (taken_implements (others := []) Him Hi); [done|done|done|by intros ? ?%elem_of_nil|constructor].
  - by apply (taken_completed (others := []) Him Hi).
Qed.

Lemma filter_fmap {B C} (g : B -> C) (P : C -> Prop) `{forall c, Decision (P c)} (l : list B) :
  filter P (g <$> l) = g <$> filter (fun b => P (g b)) l.
Proof.
  induction l as [|b l IH]; [done|]. rewrite filter_cons. change (g <$> b :: l) with (g b :: (g <$> l)).
  rewrite filter_cons, IH. by case_decide.
Qed.

Lemma wp_cancel_keyed s key S A L T i : implements S A L T -> signal_sets S !! s = Some i ->
  wp (signal_set_service.cancel_keyed s key) S (takes_to (CancelKey s key) A S no_error).
Proof.
  intros Him Hi. pose proof (sd_waits _ _ _ (im_sound _ _ _ _ Him)) as Hw. unfold signal_set_service.cancel_keyed.
  apply wp_bind. eapply wp_load_set; [exact Hi|]. apply wp_bind, wp_abort_by_key; [intros o; by apply (queue_ops S s i)|].
  apply wp_bind. eapply wp_load_set; [exact Hi|]. apply wp_bind, wp_store_set; [by eexists|]. apply wp_ret. split; [|done].
  pose proof (sp_cancel_key A s key) as Hsp. rewrite (im_waiting _ _ _ _ _ _ Him Hi), !filter_fmap, <- list_fmap_compose in Hsp.
  rewrite list_fmap_id in Hsp. simpl in Hsp. eexists _, _. split; [exact Hsp|]. split.
  - exists L, T. apply (taken_implements Him Hi); [done|done|..].
    + intros o [_ Ho]%list_elem_of_filter. done.
    + intros o [Hk Ho]%list_elem_of_filter. split; [done|]. by intros [? _]%list_elem_of_filter.
    + by apply NoDup_filter, (wt_nodup _ Hw s).
  - apply (taken_completed Him Hi); [done| |done]. intros o [_ Ho]%list_elem_of_filter. done.
Qed.
End waits.
