(* ===== verification/SignalDeliver.v ===== *)
(** * Delivering signals

    [deliver_signal] completes everybody who waits for a signal and counts it
    where nobody waits; [start_wait_op] takes a signal that was counted. *)

From S2P Require Import Prelude Bits LinkedList SocketOps SocketRules SocketModes OpQueue Scheduler SignalSets SignalRules SignalSteps SignalSpec SignalOps SignalWaits.

Section deliver.
Context {K : Type} `{SignalKernelOk K}.
Implicit Types (S : Signals K) (A : a_signals) (s r n : Z) (L T : Z -> list Z) (m : regs).

(** ** The undelivered signals of a registration *)

Definition recount r u S : Signals K := with_registrations (alter (set_undelivered u) r (registrations S)) S.

Lemma recount_core r u S x : core (registrations (recount r u S)) x =
  if decide (x = r) then (fun c => (c.1, u)) <$> core (registrations S) x else core (registrations S) x.
Proof. by apply core_alter. Qed.

Lemma shape_recount r u m sets tab L T : shape m sets tab L T -> word64 u -> shape (alter (set_undelivered u) r m) sets tab L T.
Proof.
  intros [Z1 Z2 Z3 Z4 Z5 Z6 Z7 Z8] Hu.
  assert (forall x, core (alter (set_undelivered u) r m) x = if decide (x = r) then (fun c => (c.1, u)) <$> core m x else core m x) as Ec.
  { intros x. by apply core_alter. }
  assert (forall x n s u', core (alter (set_undelivered u) r m) x = Some (n, s, u') ->
    exists u0, core m x = Some (n, s, u0) /\ (word64 u0 -> word64 u')) as Hold.
  { intros x n s u'. rewrite Ec. case_decide; [|eauto]. destruct (core m x) as [[[n0 s0] u0]|]; [|done]. intros [= -> -> <-]. eauto. }
  assert (forall x n s u0, core m x = Some (n, s, u0) -> exists u', core (alter (set_undelivered u) r m) x = Some (n, s, u')) as Hnew.
  { intros x n s u0 Hc. rewrite Ec, Hc. case_decide; simpl; eauto. }
  split.
  - intros x Hx. apply eq_None_not_Some. rewrite lookup_alter_is_Some, Z1 by done. by intros [? ?].
  - intros s i Hi. eapply sseg_same; [|by apply Z2]. intros x _. by apply set_link_table.
  - done.
  - intros n a Ha. destruct (Z4 n a Ha) as [Hd Hnd]. split; [|done]. eapply dseg_same; [|exact Hd]. intros x _.
    by apply table_links_set_link.
  - intros x n s u' Hc. destruct (Hold _ _ _ _ Hc) as (u0 & Hc0 & Hw). destruct (Z5 _ _ _ _ Hc0) as (? & ? & ? & ? & ?).
    split_and!; auto.
  - intros s x (n & u0 & Hc)%Z6. destruct (Hnew _ _ _ _ Hc). eauto.
  - intros n x (s & u0 & Hc)%Z7. destruct (Hnew _ _ _ _ Hc). eauto.
  - intros s. eapply sorted_ext; [|apply Z8]. intros x y _ _.
    assert (forall z, signal_at (alter (set_undelivered u) r m) z = signal_at m z) as Hsig; [|by rewrite !Hsig].
    intros z. unfold signal_at. rewrite Ec. case_decide; [|done]. by destruct (core m z).
Qed.

Lemma recount_implements r n s u u' S A L T : implements S A L T -> core (registrations S) r = Some (n, s, u) -> word64 u' ->
  implements (recount r u' S) (set_und (<[(s, n):=u']> (a_und A)) A) L T.
Proof.
  intros Him Hc Hu. pose proof (im_sound _ _ _ _ Him) as Hsd. pose proof (sd_shape _ _ _ Hsd) as Hsh. split; [split|..]; simpl.
  - by apply shape_recount.
  - by apply (counted_same S), (sd_counted _ _ _ Hsd).
  - intros x Hx%lookup_alter_is_Some. by apply (sd_heap _ _ _ Hsd).
  - by apply (waits_same S), (sd_waits _ _ _ Hsd).
  - intros s' n' v. change (alter _ r (registrations S)) with (registrations (recount r u' S)).
    destruct (decide ((s', n') = (s, n))) as [[= -> ->]|Hne].
    + rewrite lookup_insert_eq. split.
      * intros [= <-]. exists r. by rewrite recount_core, decide_True, Hc.
      * intros [x Hx]. rewrite recount_core in Hx. case_decide as E; [subst x; rewrite Hc in Hx; by injection Hx as <-|].
        by pose proof (registered_once Hsh _ _ _ _ _ _ Hc Hx).
    + rewrite lookup_insert_ne by congruence. rewrite (im_und _ _ _ _ Him). split; intros [x Hx]; exists x.
      * rewrite recount_core. rewrite decide_False; [done|congruence].
      * rewrite recount_core in Hx. case_decide; [|done]. subst x. rewrite Hc in Hx. simpl in Hx. congruence.
  - exact (wait_same S _ A (conj eq_refl (fun _ => eq_refl)) (im_wait _ _ _ _ Him)).
  - intros n'. rewrite (im_tab _ _ _ _ Him). apply list_fmap_ext. intros j x _. unfold set_at.
    change (alter _ r (registrations S)) with (registrations (recount r u' S)). rewrite recount_core.
    case_decide; [|done]. by destruct (core (registrations S) x).
  - apply (im_known _ _ _ _ Him).
Qed.

Lemma word64_u64 z : word64 (u64 z).
Proof. unfold u64, wrap, word64. apply Z.mod_pos_bound. lia. Qed.

Lemma recount_size r u S : size (registrations (recount r u S)) = size (registrations S).
Proof. rewrite <- !size_dom. simpl. by rewrite dom_alter_L. Qed.

Lemma recount_set_at r u S x : set_at (registrations (recount r u S)) x = set_at (registrations S) x.
Proof. unfold set_at. rewrite recount_core. case_decide; [|done]. by destruct (core (registrations S) x). Qed.

(** ** deliver_signal *)

(** A registration of the signal, and the one that follows it. *)
Lemma in_table_next S A L T n t1 r t2 : implements S A L T -> T n = t1 ++ r :: t2 ->
  exists g s u i, registrations S !! r = Some g /\ queue_ g = s /\ undelivered_ g = u /\ core (registrations S) r = Some (n, s, u) /\
    next_in_table_ g = default 0 (head t2) /\ signal_sets S !! s = Some i /\ word64 u.
Proof.
  intros Him ET. pose proof (sd_shape _ _ _ (im_sound _ _ _ _ Him)) as Hsh.
  destruct (sh_T _ _ _ _ _ Hsh n r) as (s & u & Hc); [rewrite ET, elem_of_app; right; by left|].
  destruct (sh_core _ _ _ _ _ Hsh _ _ _ _ Hc) as (Hin & _ & _ & Hw & [i Hi]).
  apply list_elem_of_split in Hin as (l1 & l2 & EL).
  destruct (registration_links Him Hi Hc EL ET) as (g & Hg & _ & _ & _ & Hnext).
  exists g, s, u, i. pose proof Hc as (g' & Hg' & _ & E1 & E2)%core_Some. assert (g' = g) as -> by congruence. done.
Qed.

Definition unqueued S (ops : list op_ptr) : Prop := forall o s i, o ∈ ops -> signal_sets S !! s = Some i -> o ∉ set_queue i.

(** What holds when the operations [ops] have been taken from the queues. *)
Record delivering n S A L T ops : Prop := {
  dv_implements : implements S A L T;
  dv_completed : completed S ops (no_error, n);
  dv_unqueued : unqueued S ops;
}.

Lemma deliver_count n S A L T ops r s u : delivering n S A L T ops -> core (registrations S) r = Some (n, s, u) ->
  waiting s A = [] -> exists A', deliver_one n (ops, A) s = (ops, A') /\ delivering n (recount r (u64 (u + 1)) S) A' L T ops.
Proof.
  intros [Him Hc Hq] Hr Hw. unfold deliver_one. simpl. rewrite Hw. eexists. split; [done|].
  rewrite <- (alter_insert_eq (s, n) u) by exact (proj2 (im_und _ _ _ _ Him s n u) (ex_intro _ r Hr)).
  split; [|exact Hc|exact Hq]. by apply (recount_implements r n s u); [..|apply word64_u64].
Qed.

Lemma deliver_queue n S A L T ops s i : delivering n S A L T ops -> signal_sets S !! s = Some i -> waiting s A <> [] ->
  exists A', deliver_one n (ops, A) s = (ops ++ set_queue i, A') /\
    delivering n (taken S s i (set_so_signal n) (set_queue i) []) A' L T (ops ++ set_queue i).
Proof.
  intros [Him Hc Hq] Hi Hw. unfold deliver_one. simpl. pose proof (waiting_ops _ _ _ _ _ _ Him Hi) as Ew.
  destruct (waiting s A) as [|w ws]; [done|].
  change (w.1 :: list_fmap _ _ fst ws) with ((w :: ws).*1). rewrite Ew. eexists. split; [done|].
  pose proof (sd_waits _ _ _ (im_sound _ _ _ _ Him)) as Hwt. split.
  - apply (taken_implements (others := []) Him Hi); [done|done|done|by intros ? ?%elem_of_nil|constructor].
  - intros o. rewrite elem_of_app. intros [Ho|Ho].
    + destruct (Hc o Ho) as [key Hk]. exists key. simpl. rewrite set_all_lookup by done.
      rewrite decide_False; [done|]. by apply (Hq o s i).
    + by apply (taken_completed (others := []) Him Hi).
  - intros o s' i' Ho Hi' Hin. destruct (taken_queue Him Hi (ops := set_queue i) (others := []) (f := set_so_signal n)) with (3 := Hi') (4 := Hin)
      as (Hn & j & Hj & Hoj); [done|by intros ? ?%elem_of_nil|].
    apply elem_of_app in Ho as [Ho|Ho]; [by apply (Hq o s' j)|done].
Qed.

(** The registration of one set. *)
Lemma wp_deliver_one n r g s u i ops S A L T (Phi : list op_ptr -> Signals K -> Prop) : delivering n S A L T ops ->
  registrations S !! r = Some g -> queue_ g = s -> undelivered_ g = u -> core (registrations S) r = Some (n, s, u) ->
  signal_sets S !! s = Some i ->
  (forall ops' S' A', deliver_one n (ops, A) s = (ops', A') -> delivering n S' A' L T ops' ->
     (forall x, set_at (registrations S') x = set_at (registrations S) x) ->
     (exists g', registrations S' !! r = Some g' /\ next_in_table_ g' = next_in_table_ g) ->
     size (registrations S') = size (registrations S) -> Phi ops' S') ->
  wp (match set_queue i with
      | [] => store_reg r (set_undelivered (u64 (undelivered_ g + 1)));; mret ops
      | waiting => signal_set_service.number_all n waiting;; i ← load_set (queue_ g);
                   store_set (queue_ g) (mkSignalSet [] (signals_ i));; mret (ops ++ waiting)
      end) S Phi.
Proof.
  intros Hdv Hg Es Eu Hc Hi HP. pose proof (dv_implements _ _ _ _ _ _ Hdv) as Him.
  pose proof (im_waiting _ _ _ _ _ _ Him Hi) as Ew. destruct (set_queue i) as [|o q] eqn:Eq.
  - apply wp_bind, wp_store_reg; [by eexists|]. apply wp_ret. rewrite Eu.
    destruct (deliver_count n S A L T ops r s u Hdv Hc Ew) as (A' & E1 & E2).
    apply (HP _ _ A'); [done|exact E2|apply recount_set_at| |apply recount_size].
    simpl. rewrite lookup_alter_eq, Hg. by eexists.
  - assert (waiting s A <> []) as Hne by by rewrite Ew. rewrite <- Eq, Es.
    destruct (deliver_queue n S A L T ops s i Hdv Hi Hne) as (A' & E1 & E2).
    apply wp_bind, wp_number_all.
    { intros o'. apply (queue_ops S s i); [apply (sd_waits _ _ _ (im_sound _ _ _ _ Him))|done]. }
    apply wp_bind. eapply wp_load_set; [exact Hi|]. apply wp_bind, wp_store_set; [by eexists|]. apply wp_ret.
    apply (HP _ _ A'); [done|exact E2|done|by exists g|done].
Qed.

Lemma wp_deliver_loop fuel n l0 l ops S A L T : delivering n S A L T ops -> T n = l0 ++ l -> (length l < fuel)%nat ->
  wp (signal_set_service.deliver_loop fuel n (default 0 (head l)) ops) S (fun ops' S' => exists A',
    foldl (deliver_one n) (ops, A) (set_at (registrations S) <$> l) = (ops', A') /\ delivering n S' A' L T ops' /\
    size (registrations S') = size (registrations S)).
Proof.
  revert l0 l ops S A. induction fuel as [|fuel IH]; intros l0 l ops S A Hdv HT Hf; [lia|]. cbn [signal_set_service.deliver_loop].
  pose proof (dv_implements _ _ _ _ _ _ Hdv) as Him. pose proof (sd_shape _ _ _ (im_sound _ _ _ _ Him)) as Hsh.
  destruct l as [|r l]; [apply wp_ret; by exists A|]. change (default 0 (head (r :: l))) with r.
  destruct (in_table_next _ _ _ _ _ _ _ _ Him HT) as (g & s & u & i & Hg & Es & Eu & Hc & Enext & Hi & Hw).
  assert (T n = (l0 ++ [r]) ++ l) as HT' by by rewrite <- app_assoc.
  destruct (Z.eqb_spec r 0) as [->|_]; [by rewrite (sh_null _ _ _ _ _ Hsh 0 eq_refl) in Hg|].
  apply wp_bind. eapply wp_load_reg; [exact Hg|]. apply wp_bind. rewrite Es. eapply wp_load_set; [exact Hi|]. rewrite <- Es.
  apply wp_bind. eapply (wp_deliver_one n r g s u i); [done..|]. intros ops1 S1 A1 E1 Hdv1 Hset (g1 & Hg1 & Enext1) Hsize.
  apply wp_bind. eapply wp_load_reg; [exact Hg1|]. rewrite Enext1, Enext.
  eapply wp_mono; [apply (IH (l0 ++ [r]) l _ _ _ Hdv1 HT'); simpl in Hf; lia|].
  intros ops2 S2 (A2 & E2 & Hdv2 & Hsize2). exists A2. split; [|split; [done|lia]].
  change (set_at (registrations S) <$> r :: l) with (set_at (registrations S) r :: (set_at (registrations S) <$> l)).
  rewrite (set_at_core _ _ _ _ _ Hc). cbn [foldl]. rewrite E1, <- E2. f_equal. symmetry. by apply list_fmap_ext.
Qed.

Lemma wp_deliver_ops fuel n S A L T : implements S A L T -> valid_signal n = true -> (size (registrations S) < fuel)%nat ->
  wp (signal_set_service.deliver_ops fuel n) S (takes_to (Deliver n) A S no_error).
Proof.
  intros Him Hn Hfuel. pose proof (sd_shape _ _ _ (im_sound _ _ _ _ Him)) as Hsh. destruct (valid_in_table Hsh n Hn) as [first Hf].
  unfold signal_set_service.deliver_ops. apply wp_bind. eapply wp_table_at; [exact Hf|]. rewrite (first_is Hsh Hf).
  eapply wp_mono; [apply (wp_deliver_loop fuel n [] (T n) [] S A L T)|].
  - split; [done|by intros ? ?%elem_of_nil|by intros ? ? ? ?%elem_of_nil].
  - done.
  - pose proof (T_length Hsh n Hn). lia.
  - intros ops S' (A' & E & Hdv & Hsize). split; [|done]. pose proof (sp_deliver A n) as Hsp. unfold spec_deliver in Hsp.
    rewrite (im_tab _ _ _ _ Him), E in Hsp. exists A', (no_error, n). split; [exact Hsp|]. destruct Hdv. split; [by exists L, T|done].
Qed.

(** ** start_wait_op *)

Definition und_at m r : Z := default 0 ((fun c => c.2) <$> core m r).

Lemma wp_take_undelivered fuel r l o S (Phi : bool -> Signals K -> Prop) : registrations S !! 0 = None ->
  sseg (set_link (registrations S)) r l 0 -> (length l < fuel)%nat -> is_Some (signal_ops S !! o) ->
  match filter (fun x => 0 < und_at (registrations S) x) l with
  | [] => Phi false S
  | x :: _ => Phi true (with_ops (alter (set_so_signal (signal_at (registrations S) x)) o (signal_ops S))
                (recount x (u64 (und_at (registrations S) x - 1)) S))
  end -> wp (signal_set_service.take_undelivered fuel r o) S Phi.
Proof.
  intros Hnull Hseg Hf Ho. revert r l Hseg Hf. induction fuel as [|fuel IH]; intros r l Hseg Hf HP; [lia|].
  cbn [signal_set_service.take_undelivered]. destruct l as [|x l]; [simpl in Hseg; subst r; by apply wp_ret|].
  destruct Hseg as (<- & nx & Hx & Hseg). unfold set_link in Hx. apply fmap_Some in Hx as (g & Hg & ->).
  destruct (Z.eqb_spec r 0) as [->|_]; [congruence|]. apply wp_bind. eapply wp_load_reg; [exact Hg|].
  assert (und_at (registrations S) r = undelivered_ g) as Eu by (unfold und_at; by rewrite (core_at _ _ _ Hg)).
  assert (signal_at (registrations S) r = signal_number_ g) as En by (unfold signal_at; by rewrite (core_at _ _ _ Hg)).
  rewrite filter_cons, Eu, Z.gtb_ltb in *. destruct (Z.ltb_spec 0 (undelivered_ g)) as [Hlt|Hge].
  - rewrite decide_True in HP by done. rewrite Eu, En in HP. apply wp_bind, wp_store_reg; [by eexists|].
    apply wp_bind, wp_store_op; [done|]. by apply wp_ret.
  - rewrite decide_False in HP by lia. apply (IH _ l); [done|simpl in Hf; lia|done].
Qed.

Lemma filter_same {B} (P Q : B -> Prop) `{forall b, Decision (P b), forall b, Decision (Q b)} (l : list B) :
  (forall b, b ∈ l -> P b <-> Q b) -> filter P l = filter Q l.
Proof.
  induction l as [|b l IH]; intros Hl; [done|]. rewrite !filter_cons, IH by (intros; apply Hl; by right).
  pose proof (Hl b ltac:(by left)). repeat case_decide; tauto.
Qed.

Lemma first_undelivered_list S A L T s : implements S A L T ->
  first_undelivered s A = signal_at (registrations S) <$> head (filter (fun x => 0 < und_at (registrations S) x) (L s)).
Proof.
  intros Him. pose proof (sd_shape _ _ _ (im_sound _ _ _ _ Him)) as Hsh. unfold first_undelivered.
  rewrite <- (list_filter_filter_l _ (fun n => is_Some (a_und A !! (s, n)))).
  2: { intros n. destruct (a_und A !! (s, n)); simpl; [by eexists|lia]. }
  change (filter (fun n => is_Some (a_und A !! (s, n))) (seqZ 0 max_signal_number)) with (signals_in s A).
  rewrite (signals_in_list _ _ _ _ _ Him), filter_fmap.
  rewrite (filter_same _ (fun x => 0 < und_at (registrations S) x)); [by destruct (filter _ _)|].
  intros r Hr. destruct (sh_L _ _ _ _ _ Hsh _ _ Hr) as (n & u & Hc).
  rewrite (signal_at_core _ _ _ _ _ Hc). rewrite (proj2 (im_und _ _ _ _ Him s n u)) by eauto.
  unfold und_at. by rewrite Hc.
Qed.

(** *** The operation that waits *)

Lemma implements_op S A L T o op : implements S A L T -> unqueued S [o] -> 
  implements (with_ops (<[o:=op]> (signal_ops S)) S) (know o A) L T.
Proof.
  intros Him Hq. pose proof (im_sound _ _ _ _ Him) as Hsd. pose proof (sd_waits _ _ _ Hsd) as Hw.
  assert (forall s i o', signal_sets S !! s = Some i -> o' ∈ set_queue i -> o <> o') as Hne.
  { intros s i o' Hi Ho' <-. by apply (Hq o s i); [left| |]. }
  split; [split|..]; simpl; try apply Him; try apply Hsd.
  - by apply (counted_same S), (sd_counted _ _ _ Hsd).
  - split; simpl; [|apply Hw|apply Hw]. intros s i o' Hi Ho'. rewrite lookup_insert_ne by eauto. by apply (wt_op _ Hw s i).
  - intros s. rewrite (im_wait _ _ _ _ Him). destruct (signal_sets S !! s) as [i|] eqn:Hi; simpl; [|done]. f_equal.
    apply list_fmap_ext. intros j o' Ho'%list_elem_of_lookup_2. unfold key_of. simpl. rewrite lookup_insert_ne by eauto. done.
  - by rewrite dom_insert_L, (im_known _ _ _ _ Him).
Qed.

Lemma implements_push S A L T s i o key : implements S A L T -> signal_sets S !! s = Some i ->
  signal_ops S !! o = Some (mkSignalOp no_error key 0) -> unqueued S [o] ->
  implements (with_sets (<[s:=mkSignalSet (set_queue i ++ [o]) (signals_ i)]> (signal_sets S)) S)
    (set_wait (<[s:=waiting s A ++ [(o, key)]]> (a_wait A)) A) L T.
Proof.
  intros Him Hi Ho Hq. pose proof (im_sound _ _ _ _ Him) as Hsd. pose proof (sd_waits _ _ _ Hsd) as Hw.
  assert (forall s' i' o', <[s:=mkSignalSet (set_queue i ++ [o]) (signals_ i)]> (signal_sets S) !! s' = Some i' -> o' ∈ set_queue i' ->
    (s' = s /\ o' = o) \/ exists j, signal_sets S !! s' = Some j /\ o' ∈ set_queue j) as Hin.
  { intros s' i' o'. destruct (decide (s' = s)) as [->|Hne].
    - rewrite lookup_insert_eq. intros [= <-] [Hx|Hx]%elem_of_app; [right; by exists i|left]. by apply list_elem_of_singleton in Hx.
    - rewrite lookup_insert_ne by done. right. by exists i'. }
  split; [split|..]; simpl; try apply Him; try apply Hsd.
  - apply (shape_heads _ (signal_sets S)); [apply (sd_shape _ _ _ Hsd)|]. intros s'.
    destruct (decide (s' = s)) as [->|]; [by rewrite lookup_insert_eq, Hi|by rewrite lookup_insert_ne].
  - by apply (counted_same S), (sd_counted _ _ _ Hsd).
  - split; simpl.
    + intros s' i' o' Hi' Ho'. destruct (Hin _ _ _ Hi' Ho') as [(-> & ->)|(j & Hj & Hoj)]; [by exists key|by apply (wt_op _ Hw s' j)].
    + intros s1 s2 i1 i2 o' H1 H2 Ho1 Ho2.
      destruct (Hin _ _ _ H1 Ho1) as [(-> & ->)|(j1 & Hj1 & Hoj1)], (Hin _ _ _ H2 Ho2) as [(-> & E2)|(j2 & Hj2 & Hoj2)]; [done|..].
      * exfalso. by apply (Hq o s2 j2); [left| |].
      * subst o'. exfalso. by apply (Hq o s1 j1); [left| |].
      * by apply (wt_once _ Hw _ _ _ _ o' Hj1 Hj2).
    + intros s' i'. destruct (decide (s' = s)) as [->|Hne].
      * rewrite lookup_insert_eq. intros [= <-]. simpl. apply NoDup_app. split_and!; [by apply (wt_nodup _ Hw s)| |apply NoDup_singleton].
        intros o' Ho' ->%list_elem_of_singleton. by apply (Hq o s i); [left| |].
      * rewrite lookup_insert_ne by done. apply (wt_nodup _ Hw).
  - intros s'. destruct (decide (s' = s)) as [->|Hne].
    + rewrite !lookup_insert_eq. simpl. rewrite fmap_app, (im_waiting _ _ _ _ _ _ Him Hi). unfold key_of at 3. simpl. by rewrite Ho.
    + rewrite !lookup_insert_ne by done. apply (im_wait _ _ _ _ Him).
Qed.

Lemma new_unqueued S A L T o : implements S A L T -> (o ∉ a_known A) -> unqueued S [o].
Proof.
  intros Him Ho o' s i ->%list_elem_of_singleton Hi Hin. pose proof (sd_waits _ _ _ (im_sound _ _ _ _ Him)) as Hw.
  apply Ho. rewrite (im_known _ _ _ _ Him), elem_of_dom. by apply (queue_ops S s i).
Qed.

Lemma know_known A o : o ∈ a_known A -> know o A = A.
Proof. intros Ho. unfold know. destruct A. simpl in *. f_equal. set_solver. Qed.

Lemma wp_wait_op fuel s o key S A L T i : implements S A L T -> (o ∉ a_known A) -> signal_sets S !! s = Some i ->
  (size (registrations S) < fuel)%nat ->
  wp (signal_set_service.wait_op fuel s o) (with_ops (<[o:=signal_op_new key]> (signal_ops S)) S)
    (fun done S' => takes_to (Wait s o key) A S no_error (if done : bool then [o] else []) S').
Proof.
  intros Him Ho Hi Hfuel. pose proof (new_unqueued _ _ _ _ _ Him Ho) as Hq. pose proof (im_sound _ _ _ _ Him) as Hsd.
  pose proof (sd_shape _ _ _ Hsd) as Hsh. set (S1 := with_ops _ S). pose proof (implements_op _ _ _ _ o (signal_op_new key) Him Hq) as Him1.
  fold S1 in Him1. pose proof (first_undelivered_list _ _ _ _ s Him) as Efirst. unfold signal_set_service.wait_op. apply wp_bind. eapply (wp_load_set s i); [done|].
  apply wp_bind. eapply (wp_take_undelivered fuel _ (L s)).
  - by apply (sh_null _ _ _ _ _ Hsh).
  - by apply (sh_sets _ _ _ _ _ Hsh).
  - pose proof (L_length Hsh s). lia.
  - simpl. rewrite lookup_insert_eq. by eexists.
  - change (registrations S1) with (registrations S). destruct (filter _ (L s)) as [|r l] eqn:Ef; simpl in Efirst.
    + apply wp_bind. eapply (wp_load_set s i); [done|]. apply wp_bind, wp_store_set; [by exists i|]. apply wp_ret. split; [|done].
      eexists _, (no_error, 0). split; [by apply sp_wait|]. split; [|by intros ? ?%elem_of_nil]. exists L, T.
      apply (implements_push S1 (know o A) L T s i o key Him1); [done|simpl; by rewrite lookup_insert_eq|exact Hq].
    + apply wp_ret. split; [|apply (recount_size r _ S1)].
      assert (r ∈ L s) as Hr. { assert (r ∈ r :: l) as Hr by by left. rewrite <- Ef in Hr. by apply list_elem_of_filter in Hr as [_ Hr]. }
      destruct (sh_L _ _ _ _ _ Hsh _ _ Hr) as (n & u & Hc). rewrite (signal_at_core _ _ _ _ _ Hc) in *.
      assert (und_at (registrations S) r = u) as Eu by (unfold und_at; by rewrite Hc).
      eexists _, (no_error, n). split; [by apply sp_wait_done|]. split.
      * exists L, T. rewrite <- (alter_insert_eq (s, n) u) by exact (proj2 (im_und _ _ _ _ Him s n u) (ex_intro _ r Hc)).
        rewrite Eu. pose proof (recount_implements r n s u _ S1 (know o A) L T Him1 Hc (word64_u64 (u - 1))) as Him2.
        rewrite <- (know_known _ o) by (simpl; set_solver).
        pose proof (implements_op _ _ _ _ o (set_so_signal n (signal_op_new key)) Him2 Hq) as Him3.
        simpl in Him3. by rewrite (alter_insert_eq o (signal_op_new key)) in Him3 by apply lookup_insert_eq.
      * intros o' ->%list_elem_of_singleton. exists key. simpl. by rewrite lookup_alter_eq, lookup_insert_eq.
Qed.

(** ** A new set *)

Lemma wp_construct s S A L T : implements S A L T -> signal_sets S !! s = None ->
  wp (signal_set_service.construct s) S (fun _ S' => takes_to (Construct s) A S no_error [] S').
Proof.
  intros Him Hs. pose proof (im_sound _ _ _ _ Him) as Hsd. pose proof (sd_shape _ _ _ Hsd) as Hsh.
  assert (L s = []) as EL.
  { destruct (L s) as [|r l] eqn:E; [done|]. destruct (sh_L _ _ _ _ _ Hsh s r) as (n & u & Hc); [rewrite E; by left|].
    destruct (sh_core _ _ _ _ _ Hsh _ _ _ _ Hc) as (_ & _ & _ & _ & [i Hi]). congruence. }
  apply wp_bind, wp_get, wp_put. split; [|done]. eexists _, (no_error, 0). split; [apply sp_construct|].
  split; [|by intros ? ?%elem_of_nil]. exists L, T. pose proof (sd_waits _ _ _ Hsd) as Hw.
  assert (forall s' i' o, <[s:=mkSignalSet [] 0]> (signal_sets S) !! s' = Some i' -> o ∈ set_queue i' -> signal_sets S !! s' = Some i') as Hin.
  { intros s' i' o. destruct (decide (s' = s)) as [->|Hne]; [rewrite lookup_insert_eq; by intros [= <-] ?%elem_of_nil|by rewrite lookup_insert_ne]. }
  split; [split|..]; simpl; try apply Him; try apply Hsd.
  - destruct Hsh as [Z1 Z2 Z3 Z4 Z5 Z6 Z7 Z8]. split; try done.
    + intros s' i'. destruct (decide (s' = s)) as [->|Hne]; [rewrite lookup_insert_eq, EL; by intros [= <-]|].
      rewrite lookup_insert_ne by done. apply Z2.
    + intros r n s' u Hc. destruct (Z5 _ _ _ _ Hc) as (C1 & C2 & C3 & C4 & C5). split_and!; try done.
      rewrite lookup_insert_ne; [done|]. intros ->. rewrite Hs in C5. by destruct C5.
  - by apply (counted_same S), (sd_counted _ _ _ Hsd).
  - split; simpl.
    + intros s' i' o Hi' Ho. by apply (wt_op _ Hw s' i'); [eapply Hin|].
    + intros s1 s2 i1 i2 o H1 H2 Ho1 Ho2. apply (wt_once _ Hw s1 s2 i1 i2 o); eauto.
    + intros s' i'. destruct (decide (s' = s)) as [->|Hne]; [rewrite lookup_insert_eq; intros [= <-]; constructor|].
      rewrite lookup_insert_ne by done. apply (wt_nodup _ Hw).
  - intros s'. destruct (decide (s' = s)) as [->|Hne]; [by rewrite !lookup_insert_eq|].
    rewrite !lookup_insert_ne by done. apply (im_wait _ _ _ _ Him).
Qed.
End deliver.
