(* ===== verification/SignalCalls.v ===== *)
(** * The calls of the signal set service

    What one call of the service does in the context of the program: the
    signals as SignalSpec.v promises, the operations that are complete posted
    to the scheduler, and the handlers of the operating system in step with
    the registrations. *)

From S2P Require Import Prelude Bits LinkedList SocketOps SocketRules SocketModes OpQueue Scheduler SignalSets SignalRules SignalSteps SignalSpec SignalOps SignalWaits SignalDeliver.

(** ** Calls *)

(** What the calls may assume changes with the sets and operations there
    are. *)
Definition sets_after (st : signal_step) (sets : gset Z) : gset Z :=
  match st with Construct s => {[s]} ∪ sets | _ => sets end.
Definition known_after (st : signal_step) (known : gset op_ptr) : gset op_ptr :=
  match st with Wait _ o _ => {[o]} ∪ known | _ => known end.

Fixpoint all_allowed (sets : gset Z) (known : gset op_ptr) (sts : list signal_step) : Prop :=
  match sts with
  | [] => True
  | st :: sts => allowed sets known st /\ all_allowed (sets_after st sets) (known_after st known) sts
  end.

Lemma unregister_all s l A : let A' := foldl (fun A n => spec_unregister s n A) A l in
  a_wait A' = a_wait A /\ a_known A' = a_known A.
Proof. revert A. induction l as [|n l IH]; intros A; [done|]. apply (IH (spec_unregister s n A)). Qed.

Lemma deliver_dom n l p : let p' := foldl (deliver_one n) p l in
  dom (a_wait p'.2) = dom (a_wait p.2) /\ a_known p'.2 = a_known p.2.
Proof.
  revert p. induction l as [|s l IH]; intros p; [done|]. destruct (IH (deliver_one n p s)) as [E1 E2].
  cbn [foldl]. rewrite E1, E2. unfold deliver_one. destruct (waiting s p.2) as [|w ws] eqn:Ew; [done|].
  split; [|done]. simpl. rewrite dom_insert_L. assert (s ∈ dom (a_wait p.2)); [|set_solver].
  apply elem_of_dom. unfold waiting in Ew. by destruct (a_wait p.2 !! s).
Qed.

Lemma spec_step_dom A st x ops v A' : spec_step A st x ops v A' -> allowed (dom (a_wait A)) (a_known A) st ->
  dom (a_wait A') = sets_after st (dom (a_wait A)) /\ a_known A' = known_after st (a_known A).
Proof.
  intros Hst Ha. destruct Hst; simpl in *; try done;
    try (match goal with |- context [foldl (fun B n => spec_unregister ?t n B) ?A0 ?l] =>
           destruct (unregister_all t l A0) as [-> ->]; done end).
  - by rewrite dom_insert_L.
  - split; [|done]. rewrite dom_insert_L. set_solver.
  - split; [|done]. rewrite dom_insert_L. set_solver.
  - apply (deliver_dom n (a_tab A n) ([], A)).
  - split; [|done]. rewrite dom_insert_L. set_solver.
Qed.

(** ** The context *)

(** The signals are a part of the rest of the context that the reactor's
    interrupter leaves alone. *)
Class SignalStoreOk (K R : Type) `{SignalStore K R} `{SchedulerTask R} := {
  signals_of_put st (r : R) : signals_of (put_signals st r) = st;
  signals_of_interrupt (r : R) : signals_of (task_interrupt r) = signals_of r;
}.

Section calls.
Context {K R : Type} `{SignalKernelOk K} `{SignalStoreOk K R} (cfg : scheduler_config).
Implicit Types (c : Ctx R) (A : a_signals) (fuel : nat).

Abbreviation signals c := (signals_of (rest c)).
Definition all_queued (s : Scheduler) : list operation := op_queue_ s ++ private_op_queue s.

(** One call of the service. *)
Definition perform_step fuel (st : signal_step) : prog (Ctx R) error_code :=
  match st with
  | Construct s => on_signals (signal_set_service.construct s);; mret no_error
  | Add s n f => on_signals (signal_set_service.add fuel s n f)
  | Remove s n => on_signals (signal_set_service.remove fuel s n)
  | Clear s => on_signals (signal_set_service.clear fuel s)
  | Cancel s => signal_cancel cfg s
  | CancelKey s key => signal_cancel_by_key cfg s key;; mret no_error
  | Deliver n => deliver_signal cfg fuel n;; mret no_error
  | Wait s o key => signal_async_wait cfg fuel s o key;; mret no_error
  end.

Fixpoint perform_steps fuel (sts : list signal_step) : prog (Ctx R) (list error_code) :=
  match sts with
  | [] => mret []
  | st :: sts => x ← perform_step fuel st; xs ← perform_steps fuel sts; mret (x :: xs)
  end.

Definition work_of (st : signal_step) : Z := match st with Wait _ _ _ => 1 | _ => 0 end.

(** A call has done what the specification says: the operations [ops] have
    been posted, complete; a wait has been counted as work. *)
Record performed (st : signal_step) A c (x : error_code) (ops : list op_ptr) A' c' : Prop := {
  pf_step : exists v, spec_step A st x ops v A' /\ completed (signals c') ops v;
  pf_represents : represents (signals c') A';
  pf_posted : all_queued (scheduler c') ≡ₚ all_queued (scheduler c) ++ (Operation <$> ops);
  pf_work : outstanding_work_ (scheduler c') = outstanding_work_ (scheduler c) + work_of st;
}.

Inductive performed_all : list signal_step -> a_signals -> Ctx R -> list error_code -> list op_ptr -> a_signals -> Ctx R -> Prop :=
| pa_nil A c : performed_all [] A c [] [] A c
| pa_cons st sts A c x ops A1 c1 xs opss A' c' : performed st A c x ops A1 c1 ->
    performed_all sts A1 c1 xs opss A' c' -> performed_all (st :: sts) A c (x :: xs) (ops ++ opss) A' c'.

(** *** Posting *)

Lemma wp_on_signals {B} (m : prog (Signals K) B) c (Phi : B -> Ctx R -> Prop) :
  wp m (signals c) (fun a st => Phi a (mkCtx (scheduler c) (put_signals st (rest c)))) -> wp (on_signals m) c Phi.
Proof. intros (a & st & Hm & HP). unfold wp, on_signals. rewrite Hm. by eexists _, _. Qed.

(** Nothing but the queues has changed. *)
Record enqueued (ops : list operation) c c' : Prop := {
  eq_queue : all_queued (scheduler c') ≡ₚ all_queued (scheduler c) ++ ops;
  eq_work : outstanding_work_ (scheduler c') = outstanding_work_ (scheduler c);
  eq_signals : signals c' = signals c;
}.

Lemma wp_enqueue_signals ops c : wp (enqueue ops) c (fun _ c' => enqueued ops c c').
Proof.
  unfold enqueue, wake_one_thread_and_unlock, interrupt_task, get_sched, modify, modify_rest, get_state, put_state.
  unfold wp. unfold mbind, mret, prog_bind, prog_ret. simpl.
  destruct (negb _ && _); simpl; eexists _, _; (split; [done|]); split; simpl; rewrite ?signals_of_interrupt; try done;
    unfold all_queued; simpl; solve_Permutation.
Qed.

Lemma wp_post_signals ops c : wp (post_deferred_completions cfg ops) c (fun _ c' => enqueued (Operation <$> ops) c c').
Proof.
  unfold post_deferred_completions. destruct ops as [|o ops].
  { apply wp_ret. split; [by rewrite app_nil_r|done..]. }
  unfold get_sched. apply wp_bind, wp_bind, wp_get, wp_ret. destruct (_ && _); [|apply wp_enqueue_signals].
  unfold push_private, get_sched, modify. apply wp_bind, wp_bind, wp_get, wp_ret. apply wp_bind, wp_get, wp_put.
  split; [|done..]. unfold all_queued. simpl. solve_Permutation.
Qed.

(** *** Each call *)

(** A call that only changes the registrations. *)
Lemma performed_quietly st A c x A' st' : work_of st = 0 -> (exists v, spec_step A st x [] v A' /\ completed st' [] v) ->
  represents st' A' -> performed st A c x [] A' (mkCtx (scheduler c) (put_signals st' (rest c))).
Proof.
  intros Hw Hst Hrep. split; simpl; rewrite ?signals_of_put; [done|done|by rewrite app_nil_r|lia].
Qed.

Lemma performed_steps st A c x st' k : work_of st = 0 -> steps_to st [] A k (signals c) x st' ->
  exists ops A', performed st A c x ops A' (mkCtx (scheduler c) (put_signals st' (rest c))) /\
    (size (registrations (signals_of (put_signals st' (rest c)))) <= size (registrations (signals c)) + k)%nat.
Proof.
  intros Hw [(A' & v & Hst & Hrep) Hs]. exists [], A'. split; [|by rewrite signals_of_put]. apply performed_quietly; [done| |done].
  exists v. split; [done|]. by intros ? ?%elem_of_nil.
Qed.

(** What a call of the service does, and the room that it takes. *)
Definition call_ok st A c x c' : Prop := exists ops A', performed st A c x ops A' c' /\
  (size (registrations (signals c')) <= size (registrations (signals c)) + 1)%nat.

(** A call that takes operations, and posts them. *)
Lemma wp_post_taken st A c x ops c1 : takes_to st A (signals c) x ops (signals c1) ->
  all_queued (scheduler c1) = all_queued (scheduler c) ->
  outstanding_work_ (scheduler c1) = outstanding_work_ (scheduler c) + work_of st ->
  wp (post_deferred_completions cfg ops) c1 (fun _ c' => call_ok st A c x c').
Proof.
  intros [(A' & v & Hst & Hrep & Hc) Hs] Eq Ew. eapply wp_mono; [apply wp_post_signals|].
  intros ? c' [E1 E2 E3]. exists ops, A'. rewrite Eq in E1.
  split; [|rewrite E3; lia]. split; [exists v; by rewrite E3|by rewrite E3|exact E1|congruence].
Qed.

Lemma wp_perform_step fuel st c A : represents (signals c) A -> allowed (dom (a_wait A)) (a_known A) st ->
  (size (registrations (signals c)) < fuel)%nat -> Z.of_nat (size (registrations (signals c))) + 1 < 2 ^ 64 ->
  wp (perform_step fuel st) c (call_ok st A c).
Proof.
  intros (L & T & Him) Hal Hfuel Hbound. pose proof (im_sets _ _ _ _ Him) as Esets.
  assert (forall s, s ∈ dom (a_wait A) -> exists i, signal_sets (signals c) !! s = Some i) as Hset.
  { intros s Hs. by rewrite Esets, elem_of_dom in Hs. }
  assert (forall st x st' k, work_of st = 0 -> (k <= 1)%nat -> steps_to st [] A k (signals c) x st' ->
    call_ok st A c x (mkCtx (scheduler c) (put_signals st' (rest c)))) as Hok.
  { intros st0 x st' k Hw Hk (ops & A' & Hp & Hs)%performed_steps; [|done]. exists ops, A'. split; [done|simpl in *; lia]. }
  pose proof (sd_shape _ _ _ (im_sound _ _ _ _ Him)) as Hsh.
  destruct st as [s|s n f|s n|s|s|s key|n|s o key]; simpl in Hal; cbn [perform_step].
  - apply wp_bind, wp_on_signals. rewrite Esets in Hal. apply not_elem_of_dom in Hal.
    eapply wp_mono; [by apply (wp_construct s _ A L T)|]. intros ? st' [(A' & v & Hst & Hrep & Hc) Hs]. apply wp_ret.
    exists [], A'. simpl. rewrite signals_of_put. split; [|lia]. apply performed_quietly; [done|by exists v|done].
  - destruct (Hset s Hal) as [i Hi]. apply wp_on_signals. eapply wp_mono; [by eapply wp_add|]. intros x st'. by apply Hok.
  - destruct (Hset s Hal) as [i Hi]. apply wp_on_signals. eapply wp_mono; [eapply wp_remove; [done|done|done|lia]|].
    intros x st'. apply Hok; [done|lia].
  - destruct (Hset s Hal) as [i Hi]. apply wp_on_signals. eapply wp_mono.
    { eapply wp_clear; [done|done| |lia]. pose proof (L_length Hsh s). lia. }
    intros x st'. apply Hok; [done|lia].
  - destruct (Hset s Hal) as [i Hi]. unfold signal_cancel. apply wp_bind, wp_on_signals. eapply wp_mono; [by eapply wp_cancel_signals|].
    intros ops st' Ht. apply wp_bind. eapply wp_mono; [eapply wp_post_taken|].
    + simpl. rewrite signals_of_put. exact Ht.
    + done.
    + simpl. lia.
    + intros ? c' Hc. by apply wp_ret.
  - destruct (Hset s Hal) as [i Hi]. unfold signal_cancel_by_key. apply wp_bind, wp_bind, wp_on_signals.
    eapply wp_mono; [by eapply wp_cancel_keyed|]. intros ops st' Ht. eapply wp_mono; [eapply wp_post_taken|].
    + simpl. rewrite signals_of_put. exact Ht.
    + done.
    + simpl. lia.
    + intros ? c' Hc. by apply wp_ret.
  - unfold deliver_signal. apply wp_bind, wp_bind, wp_on_signals. eapply wp_mono; [by eapply wp_deliver_ops|].
    intros ops st' Ht. eapply wp_mono; [eapply wp_post_taken|].
    + simpl. rewrite signals_of_put. exact Ht.
    + done.
    + simpl. lia.
    + intros ? c' Hc. by apply wp_ret.
  - destruct Hal as [Hs Ho]. destruct (Hset s Hs) as [i Hi]. unfold signal_async_wait, start_wait_op.
    apply wp_bind, wp_bind, wp_on_signals. apply wp_bind, wp_get, wp_put. unfold work_started, get_sched, modify.
    apply wp_bind, wp_bind, wp_bind, wp_get, wp_ret. apply wp_bind, wp_get, wp_put. apply wp_bind, wp_on_signals. simpl.
    rewrite signals_of_put. eapply wp_mono; [by eapply (wp_wait_op fuel s o key)|]. intros d st' Ht.
    eapply (wp_mono _ _ (fun _ c' => call_ok (Wait s o key) A c no_error c')); [|intros ? c' Hc; by apply wp_ret].
    pose proof (wp_post_taken (Wait s o key) A c no_error (if d then [o] else [])) as Hpost.
    destruct d; apply Hpost; simpl; rewrite ?signals_of_put; done.
Qed.

(** ** No signal is lost *)

Lemma deliver_others n s l p : (s ∉ l) -> let p' := foldl (deliver_one n) p l in
  waiting s p'.2 = waiting s p.2 /\ a_und p'.2 !! (s, n) = a_und p.2 !! (s, n) /\ forall o, o ∈ p.1 -> o ∈ p'.1.
Proof.
  revert p. induction l as [|s' l IH]; intros p Hs; [done|]. apply not_elem_of_cons in Hs as [Hne Hs].
  destruct (IH (deliver_one n p s') Hs) as (E1 & E2 & E3). cbn [foldl]. rewrite E1, E2. unfold deliver_one in *.
  destruct (waiting s' p.2) as [|w ws]; simpl in *.
  - split_and!; [done|by rewrite lookup_alter_ne by congruence|done].
  - split_and!; [unfold waiting; simpl; by rewrite lookup_insert_ne|done|]. intros o Ho. apply E3. rewrite elem_of_app. by left.
Qed.

Lemma deliver_here n s l ops A u : s ∈ l -> NoDup l -> a_und A !! (s, n) = Some u ->
  let p' := foldl (deliver_one n) (ops, A) l in
  match waiting s A with
  | [] => a_und p'.2 !! (s, n) = Some (u64 (u + 1))
  | w => forall o, o ∈ w.*1 -> o ∈ p'.1
  end.
Proof.
  intros (l1 & l2 & ->)%list_elem_of_split Hnd Hu. apply NoDup_app in Hnd as (_ & N12 & [N2 _]%NoDup_cons).
  assert (s ∉ l1) as N1 by (intros Hs; apply (N12 s Hs); by left).
  destruct (deliver_others n s l1 (ops, A) N1) as (E1 & E2 & _). simpl in E1, E2.
  set (p1 := foldl (deliver_one n) (ops, A) l1) in *.
  destruct (deliver_others n s l2 (deliver_one n p1 s) N2) as (_ & F2 & F3).
  rewrite foldl_app. fold p1. change (foldl (deliver_one n) p1 (s :: l2)) with (foldl (deliver_one n) (deliver_one n p1 s) l2).
  assert (match waiting s A with
          | [] => a_und (deliver_one n p1 s).2 !! (s, n) = Some (u64 (u + 1))
          | w => forall o, o ∈ w.*1 -> o ∈ (deliver_one n p1 s).1
          end) as Hhere.
  { unfold deliver_one. rewrite E1. destruct (waiting s A) as [|w ws]; simpl; [by rewrite lookup_alter_eq, E2, Hu|].
    intros o Ho. rewrite elem_of_app. by right. }
  cbn zeta. destruct (waiting s A) as [|w ws]; [by rewrite F2|auto].
Qed.

Lemma table_sets st A s n u : represents st A -> a_und A !! (s, n) = Some u ->
  valid_signal n = true /\ s ∈ a_tab A n /\ NoDup (a_tab A n) /\ s ∈ dom (a_wait A) /\ word64 u.
Proof.
  intros (L & T & Him) Hu. pose proof (sd_shape _ _ _ (im_sound _ _ _ _ Him)) as Hsh.
  apply (im_und _ _ _ _ Him) in Hu as [r Hc]. destruct (sh_core _ _ _ _ _ Hsh _ _ _ _ Hc) as (_ & Hr & Hn & Hw & Hs).
  rewrite (im_tab _ _ _ _ Him). split_and!; [done|..].
  - apply list_elem_of_fmap. exists r. by rewrite (set_at_core _ _ _ _ _ Hc).
  - apply NoDup_fmap_2_strong; [|by apply (table_nodup Hsh)]. intros x y (s1 & u1 & H1')%(sh_T _ _ _ _ _ Hsh) (s2 & u2 & H2')%(sh_T _ _ _ _ _ Hsh).
    rewrite (set_at_core _ _ _ _ _ H1'), (set_at_core _ _ _ _ _ H2'). intros ->. by apply (registered_once Hsh _ _ _ _ _ _ H1' H2').
  - rewrite (im_sets _ _ _ _ Him). by apply elem_of_dom.
  - done.
Qed.

Lemma first_undelivered_some A s n u : valid_signal n = true -> a_und A !! (s, n) = Some u -> 0 < u -> first_undelivered s A <> None.
Proof.
  intros Hn Hu Hpos. unfold first_undelivered. intros E. rewrite head_None in E.
  assert (n ∈ filter (fun n => 0 < default 0 (a_und A !! (s, n))) (seqZ 0 max_signal_number)) as Hin.
  { rewrite list_elem_of_filter, elem_of_seqZ, Hu. unfold valid_signal in Hn. zb. simpl. lia. }
  rewrite E in Hin. by apply elem_of_nil in Hin.
Qed.

(** ** Handlers *)

(** The registrations of a signal. *)
Definition registrations_of n (st : Signals K) : gmap Z registration := filter (fun p => signal_number_ p.2 = n) (registrations st).

Lemma registrations_of_dom st A L T n : implements st A L T -> valid_signal n = true ->
  dom (registrations_of n st) = list_to_set (T n) /\ size (registrations_of n st) = length (T n).
Proof.
  intros Him Hn. pose proof (sd_shape _ _ _ (im_sound _ _ _ _ Him)) as Hsh.
  assert (dom (registrations_of n st) = list_to_set (T n)) as E.
  { apply set_eq. intros r. rewrite elem_of_dom, elem_of_list_to_set. unfold registrations_of. split.
    - intros [g [Hg Hs]%map_lookup_filter_Some]. simpl in Hs. pose proof (core_at _ _ _ Hg) as Hc. rewrite Hs in Hc.
      by apply (sh_core _ _ _ _ _ Hsh) in Hc as (_ & ? & _).
    - intros (s & u & (g & Hg & Es & _)%core_Some)%(sh_T _ _ _ _ _ Hsh). exists g. by apply map_lookup_filter_Some. }
  split; [done|]. rewrite <- size_dom, E. by apply size_list_to_set, (table_nodup Hsh).
Qed.

(** Every signal is counted, and handled when there are registrations. *)
Record handled_signal n (st : Signals K) : Prop := {
  hs_count : vget (registration_count_ st) n = Some (Z.of_nat (size (registrations_of n st)));
  hs_handler : exists f, vget (flags_ st) n = Some f /\
    disposition (signal_kernel st) n = if decide (registrations_of n st = ∅) then None else Some (flags_value f);
}.

Lemma represents_handled st A n : represents st A -> valid_signal n = true -> handled_signal n st.
Proof.
  intros (L & T & Him) Hn. destruct (registrations_of_dom _ _ _ _ n Him Hn) as [Ed Es].
  destruct (sd_counted _ _ _ (im_sound _ _ _ _ Him)) as [C1 C2]. split; [by rewrite Es; apply C1|].
  destruct (C2 n Hn) as (f & Hf & Hd). exists f. split; [done|]. rewrite Hd. case_decide as E; case_bool_decide as ET; try done.
  - rewrite E in Es. rewrite map_size_empty in Es. by apply symmetry, nil_length_inv in Es.
  - exfalso. apply E, map_size_empty_iff. rewrite Es. by rewrite ET.
Qed.

Lemma registered_disposition st A s n : represents st A -> is_Some (a_und A !! (s, n)) ->
  is_Some (disposition (signal_kernel st) n).
Proof.
  intros Hrep [u Hu]. destruct (table_sets _ _ _ _ _ Hrep Hu) as (Hn & _). destruct (represents_handled _ _ _ Hrep Hn) as [_ (f & _ & ->)].
  destruct Hrep as (L & T & Him). apply (im_und _ _ _ _ Him) in Hu as (r & (g & Hg & Hs & _)%core_Some).
  rewrite decide_False; [by eexists|]. intros E. assert (registrations_of n st !! r = Some g) as Hr by by apply map_lookup_filter_Some.
  rewrite E in Hr. by rewrite lookup_empty in Hr.
Qed.

Lemma spec_allowed st A c x ops A' c' : performed st A c x ops A' c' -> allowed (dom (a_wait A)) (a_known A) st ->
  dom (a_wait A') = sets_after st (dom (a_wait A)) /\ a_known A' = known_after st (a_known A).
Proof. intros [(v & Hst & _) _ _ _]. by apply (spec_step_dom A st x ops v A'). Qed.

Lemma performed_all_represents sts A c xs ops A' c' : performed_all sts A c xs ops A' c' -> represents (signals c) A ->
  represents (signals c') A'.
Proof. induction 1 as [|? ? ? ? ? ? ? ? ? ? ? ? Hp _ IH]; [done|]. intros _. apply IH, Hp. Qed.

(** Any sequence of calls. *)
Lemma steps_performed fuel sts c A : represents (signals c) A -> all_allowed (dom (a_wait A)) (a_known A) sts ->
  (size (registrations (signals c)) + length sts < fuel)%nat -> Z.of_nat fuel < 2 ^ 64 ->
  exists xs ops A' c', perform_steps fuel sts c = Ok (xs, c') /\ performed_all sts A c xs ops A' c'.
Proof.
  intros Hrep Hal Hfuel Hbound. revert c A Hrep Hal Hfuel. induction sts as [|st sts IH]; intros c A Hrep Hal Hfuel; simpl in *.
  { exists [], [], A, c. split; [done|constructor]. }
  destruct Hal as [Hal Hals].
  destruct (wp_perform_step fuel st c A) as (x & c1 & Hrun & ops & A1 & Hp & Hs); [done|done|lia|lia|].
  destruct (spec_allowed _ _ _ _ _ _ _ Hp Hal) as [E1 E2]. rewrite <- E1, <- E2 in Hals.
  destruct (IH c1 A1) as (xs & opss & A' & c' & Hruns & Hps); [apply Hp|done|lia|].
  exists (x :: xs), (ops ++ opss), A', c'. split; [|by eapply pa_cons].
  rewrite (bind_Ok _ _ _ _ _ Hrun). by rewrite (bind_Ok _ _ _ _ _ Hruns).
Qed.

End calls.
