(* ===== verification/SignalCatch.v ===== *)
(** * A signal set that catches two signals

    The constructor of the signal set that main.cpp makes, and what becomes
    of a signal that the set has registered. *)

From S2P Require Import Prelude Bits LinkedList SocketOps SocketRules SocketModes OpQueue Scheduler SignalSets SignalRules SignalSteps SignalSpec SignalOps SignalWaits SignalDeliver SignalCalls.

Section catch.
Context {K R : Type} `{SignalKernelOk K} `{SignalStoreOk K R} (cfg : scheduler_config).
Implicit Types (c : Ctx R) (A : a_signals) (s n : Z) (fuel : nat).

Abbreviation signals c := (signals_of (rest c)).

(** Nothing has been posted. *)
Definition quietly c c' : Prop :=
  all_queued (scheduler c') ≡ₚ all_queued (scheduler c) /\ outstanding_work_ (scheduler c') = outstanding_work_ (scheduler c).

Lemma quietly_trans c1 c2 c3 : quietly c1 c2 -> quietly c2 c3 -> quietly c1 c3.
Proof. intros [E1 W1] [E2 W2]. split; [by rewrite E2|congruence]. Qed.

Lemma performed_quiet st A c x A' c' : performed st A c x [] A' c' -> work_of st = 0 -> quietly c c'.
Proof. intros [_ _ E1 E2] Hw. split; [by rewrite E1, app_nil_r|lia]. Qed.

Lemma wp_ret_inv {B C} (m : prog (Ctx R) B) (x : C) c (Phi : C -> Ctx R -> Prop) :
  wp (m;; mret x) c Phi -> wp m c (fun _ => Phi x).
Proof.
  intros (y & c' & Hrun & HP). apply bind_Ok_inv in Hrun as (a & c1 & Hrun & E). injection E as <- <-. by exists a, c1.
Qed.

(** ** The other sets *)

(** But for the set [s], everything is as in [A0]. *)
Record apart s A0 A1 : Prop := {
  ap_und s' m : s' <> s -> a_und A1 !! (s', m) = a_und A0 !! (s', m);
  ap_tab m : filter (fun s' => s' <> s) (a_tab A1 m) = a_tab A0 m;
  ap_wait s' : s' <> s -> a_wait A1 !! s' = a_wait A0 !! s';
  ap_known : a_known A1 = a_known A0;
}.

Lemma apart_unregister s A0 A1 l : apart s A0 A1 -> apart s A0 (foldl (fun A n => spec_unregister s n A) A1 l).
Proof.
  revert A1. induction l as [|n l IH]; intros A1 [P1 P2 P3 P4]; [done|]. apply IH. split; simpl; [|intros m|done|done].
  - intros s' m Hs. rewrite lookup_delete_ne by congruence. by apply P1.
  - destruct (decide (m = n)) as [->|]; [|by rewrite upd_ne]. rewrite upd_eq, list_filter_filter, <- P2.
    apply list_filter_iff. tauto.
Qed.

(** A call that is about [s]. *)
Definition about s (st : signal_step) : Prop :=
  match st with Construct s' | Add s' _ _ | Clear s' | Cancel s' => s' = s | _ => False end.

Lemma apart_step s A0 A1 st x ops v A2 : spec_step A1 st x ops v A2 -> about s st -> apart s A0 A1 -> apart s A0 A2.
Proof.
  intros Hst Hab Hap. pose proof Hap as [P1 P2 P3 P4].
  destruct Hst; simpl in Hab; subst; try done; try by apply apart_unregister.
  - split; simpl; [done|done|intros s' Hs; by rewrite lookup_insert_ne; [apply P3|]|done].
  - split; simpl; [|intros m|done|done].
    + intros s' m Hs. rewrite lookup_insert_ne by congruence. by apply P1.
    + destruct (decide (m = n)) as [->|]; [|by rewrite upd_ne]. rewrite upd_eq, filter_cons, decide_False; [done|]. by intros [].
  - split; simpl; [done|done|intros s' Hs; by rewrite lookup_insert_ne; [apply P3|]|done].
Qed.

Lemma tab_registered st A s n : represents st A -> s ∈ a_tab A n -> is_Some (a_und A !! (s, n)).
Proof.
  intros (L & T & Him). rewrite (im_tab _ _ _ _ Him). intros (r & -> & Hr)%list_elem_of_fmap.
  destruct (sh_T _ _ _ _ _ (sd_shape _ _ _ (im_sound _ _ _ _ Him)) _ _ Hr) as (s & u & Hc).
  rewrite (set_at_core _ _ _ _ _ Hc). exists u. apply (im_und _ _ _ _ Him). eauto.
Qed.

Lemma filter_other s (l : list Z) : s ∉ l -> filter (fun s' => s' <> s) l = l.
Proof.
  induction l as [|y l IH]; [done|]. intros [Hne Hs]%not_elem_of_cons. rewrite filter_cons, decide_True by congruence. by rewrite IH.
Qed.

(** A set that is not there yet is in no list. *)
Lemma apart_start st A s : represents st A -> (s ∉ dom (a_wait A)) -> apart s A A.
Proof.
  intros Hrep Hs. split; try done. intros m. apply filter_other. intros [u Hu]%(tab_registered st).
  - by apply (table_sets _ _ _ _ _ Hrep) in Hu as (_ & _ & _ & ? & _).
  - done.
Qed.

(** Nothing is registered but what [A0] has. *)
Record as_before s A0 A1 : Prop := {
  ab_und s' m : a_und A1 !! (s', m) = a_und A0 !! (s', m);
  ab_tab m : a_tab A1 m = a_tab A0 m;
  ab_wait s' : s' <> s -> a_wait A1 !! s' = a_wait A0 !! s';
  ab_known : a_known A1 = a_known A0;
}.

Lemma apart_before st st0 s A0 A1 : represents st0 A0 -> (s ∉ dom (a_wait A0)) -> represents st A1 -> apart s A0 A1 ->
  (forall m, a_und A1 !! (s, m) = None) -> as_before s A0 A1.
Proof.
  intros Hrep0 Hs Hrep [P1 P2 P3 P4] Hnone. split; [|intros m|done|done].
  - intros s' m. destruct (decide (s' = s)) as [->|]; [|by apply P1]. rewrite Hnone.
    destruct (a_und A0 !! (s, m)) eqn:Hu; [|done]. by apply (table_sets _ _ _ _ _ Hrep0) in Hu as (_ & _ & _ & ? & _).
  - rewrite <- P2. symmetry. apply filter_other. intros Hin%(tab_registered st); [|done]. rewrite Hnone in Hin. by destruct Hin.
Qed.

(** Then the operating system calls the handler for the same signals. *)
Lemma table_handled st A n : represents st A -> valid_signal n = true ->
  is_Some (disposition (signal_kernel st) n) <-> a_tab A n <> [].
Proof.
  intros (L & T & Him) Hn. destruct (sd_counted _ _ _ (im_sound _ _ _ _ Him)) as [_ Hd]. destruct (Hd n Hn) as (f & _ & ->).
  rewrite (im_tab _ _ _ _ Him). case_bool_decide as ET.
  - split; [|by eexists]. intros _ E%fmap_nil_inv. done.
  - split; [by intros [? ?]|]. intros []. by rewrite ET.
Qed.

Lemma before_handled st0 st s A0 A1 n : represents st0 A0 -> represents st A1 -> as_before s A0 A1 -> valid_signal n = true ->
  is_Some (disposition (signal_kernel st) n) <-> is_Some (disposition (signal_kernel st0) n).
Proof. intros Hr0 Hr1 Hb Hn. rewrite (table_handled st A1), (table_handled st0 A0) by done. by rewrite (ab_tab _ _ _ Hb). Qed.

(** ** Registering *)

(** The set [s] is there, has nobody waiting, and no signal of it is
    undelivered. *)
Record idle s A : Prop := {
  id_set : s ∈ dom (a_wait A);
  id_waiting : waiting s A = [];
  id_und n : default 0 (a_und A !! (s, n)) = 0;
}.

Lemma idle_registered s n A : idle s A -> is_Some (a_und A !! (s, n)) -> a_und A !! (s, n) = Some 0.
Proof. intros Hi [u Hu]. pose proof (id_und _ _ Hi n) as E. rewrite Hu in E. simpl in E. congruence. Qed.

(** Adding a signal to it. *)
Record added s n x A A' : Prop := {
  ad_idle : idle s A';
  ad_known : a_known A' = a_known A;
  ad_kept m : is_Some (a_und A !! (s, m)) -> is_Some (a_und A' !! (s, m));
  ad_here : failed x = false -> is_Some (a_und A' !! (s, n));
  ad_apart A0 : apart s A0 A -> apart s A0 A';
}.

Lemma add_step s n f x ops v A A' : spec_step A (Add s n f) x ops v A' -> valid_signal n = true -> idle s A ->
  ops = [] /\ added s n x A A'.
Proof.
  intros Hst Hn Hi. assert (forall A0, apart s A0 A -> apart s A0 A') as Hap by (intros A0; by apply (apart_step s A0 A (Add s n f) x ops v A')).
  inversion Hst; subst; try congruence; (split; [done|]).
  - by split.
  - split; simpl; [|done|..|done].
    + destruct Hi as [I1 I2 I3]. split; simpl; [done|done|]. intros m. destruct (decide (m = n)) as [->|]; [by rewrite lookup_insert_eq|].
      by rewrite lookup_insert_ne by congruence.
    + intros m Hm. destruct (decide (m = n)) as [->|]; [rewrite lookup_insert_eq; by eexists|by rewrite lookup_insert_ne by congruence].
    + intros _. rewrite lookup_insert_eq. by eexists.
  - split; [done..| |done]. intros. congruence.
Qed.

(** The same of the code. *)
Lemma wp_add_idle fuel s n f c A : represents (signals c) A -> idle s A -> valid_signal n = true ->
  (size (registrations (signals c)) < fuel)%nat -> Z.of_nat (size (registrations (signals c))) + 1 < 2 ^ 64 ->
  wp (on_signals (signal_set_service.add fuel s n f)) c (fun x c' => exists A', added s n x A A' /\ represents (signals c') A' /\
    quietly c c' /\ (size (registrations (signals c')) <= size (registrations (signals c)) + 1)%nat).
Proof.
  intros Hrep Hi Hn Hfuel Hbound. eapply wp_mono; [apply (wp_perform_step cfg fuel (Add s n f) c A); [done|apply Hi|done|done]|].
  intros x c' (ops & A' & Hp & Hs). pose proof Hp as [(v & Hst & _) Hrep' _ _]. destruct (add_step _ _ _ _ _ _ _ _ Hst Hn Hi) as [-> Ha].
  exists A'. split_and!; [done|done|by eapply performed_quiet|done].
Qed.

(** ** The destructor of an idle set *)

Lemma cleared_none s (l : list Z) A m : m ∈ l \/ a_und A !! (s, m) = None -> a_und (foldl (fun A n => spec_unregister s n A) A l) !! (s, m) = None.
Proof.
  revert A. induction l as [|n l IH]; intros A Hm; [by destruct Hm as [?%elem_of_nil|]|]. apply IH. simpl.
  destruct (decide (m = n)) as [->|Hne]; [right; apply lookup_delete_eq|]. rewrite lookup_delete_ne by congruence.
  destruct Hm as [[]%elem_of_cons|]; [done|by left|by right].
Qed.

(** The set has gone, with all that it registered. *)
Record destroyed s A A' c c' : Prop := {
  ds_represents : represents (signals c') A';
  ds_apart A0 : apart s A0 A -> apart s A0 A';
  ds_gone : restorable -> forall m, a_und A' !! (s, m) = None;
  ds_quiet : quietly c c';
}.

(** The loop of [clear] in the context of the program. *)
Lemma wp_clear_restores fuel s c A : represents (signals c) A -> s ∈ dom (a_wait A) -> (size (registrations (signals c)) < fuel)%nat ->
  Z.of_nat (size (registrations (signals c))) < 2 ^ 64 -> restorable ->
  wp (on_signals (signal_set_service.clear fuel s)) c (fun x _ => failed x = false).
Proof.
  intros (L & T & Him) Hs Hfuel Hbound Hre. rewrite (im_sets _ _ _ _ Him), elem_of_dom in Hs. destruct Hs as [i Hi].
  apply wp_on_signals. eapply wp_mono; [eapply wp_clear_all; [done|done| |done]|].
  - pose proof (L_length (sd_shape _ _ _ (im_sound _ _ _ _ Him)) s). lia.
  - intros x st [_ Hf]. by apply Hf.
Qed.

Lemma wp_destroy_idle fuel s c A : represents (signals c) A -> idle s A -> (size (registrations (signals c)) + 1 < fuel)%nat ->
  Z.of_nat fuel < 2 ^ 64 -> wp (signal_destroy cfg fuel s) c (fun _ c' => exists A', destroyed s A A' c c').
Proof.
  intros Hrep Hi Hfuel Hbound. unfold signal_destroy. apply wp_bind.
  eapply wp_mono; [apply (wp_when restorable); [refine (wp_perform_step cfg fuel (Clear s) c A Hrep _ _ _)|refine (wp_clear_restores fuel s c A Hrep _ _ _)];
    first [apply Hi|lia]|].
  intros x c1 [(ops & A1 & Hp & Hs) Hre]. pose proof Hp as [(v & Hst & _) Hrep1 _ _].
  assert (ops = [] /\ a_wait A1 = a_wait A) as [-> Ew].
  { inversion Hst; subst; (split; [done|apply unregister_all]). }
  assert (restorable -> forall m, a_und A1 !! (s, m) = None) as Hnone.
  { intros Hr m. specialize (Hre Hr). inversion Hst; subst; [|congruence]. apply cleared_none. unfold signals_in.
    destruct (a_und A !! (s, m)) as [u|] eqn:Hu; [left|by right]. destruct (table_sets _ _ _ _ _ Hrep Hu) as (Hv & _).
    apply list_elem_of_filter. split; [by eexists|]. apply elem_of_seqZ. unfold valid_signal in Hv. zb. lia. }
  assert (forall A0, apart s A0 A -> apart s A0 A1) as Hap by (intros A0; by apply (apart_step s A0 A (Clear s) x [] v A1)).
  apply wp_bind. pose proof (performed_quiet _ _ _ _ _ _ Hp eq_refl) as Hq.
  eapply wp_mono; [apply (wp_perform_step cfg fuel (Cancel s) c1 A1); [done|simpl; rewrite Ew; apply Hi|lia|lia]|].
  intros y c2 (ops & A2 & Hp2 & _). apply wp_ret. exists A2. pose proof Hp2 as [(w & Hst2 & _) Hrep2 _ _].
  assert (ops = [] /\ a_und A2 = a_und A1) as [-> Eu].
  { inversion Hst2; subst. pose proof (id_waiting _ _ Hi) as E. unfold waiting in *. by rewrite Ew, E. }
  split; [done| |by rewrite Eu|eapply quietly_trans; [exact Hq|by eapply performed_quiet]].
  intros A0 HA. by apply (apart_step s A0 A1 (Cancel s) y [] w A2), Hap.
Qed.

(** ** The constructor *)

(** The set has been made, and has registered both signals. *)
Record catching s n1 n2 A c A' c' : Prop := {
  ca_represents : represents (signals c') A';
  ca_idle : idle s A';
  ca_known : a_known A' = a_known A;
  ca_signals n : n = n1 \/ n = n2 -> is_Some (a_und A' !! (s, n));
  ca_quiet : quietly c c';
  ca_size : (size (registrations (signals c')) <= size (registrations (signals c)) + 3)%nat;
}.

Lemma new_set_unregistered st A s n : represents st A -> (s ∉ dom (a_wait A)) -> a_und A !! (s, n) = None.
Proof.
  intros Hrep Hs. destruct (a_und A !! (s, n)) as [u|] eqn:Hu; [|done]. exfalso. by apply (table_sets _ _ _ _ _ Hrep) in Hu as (_ & _ & _ & ? & _).
Qed.

(** The constructor has thrown: nothing is left behind, if the operating
    system lets handlers go. *)
Record undone s A c A' c' : Prop := {
  un_represents : represents (signals c') A';
  un_quiet : quietly c c';
  un_before : restorable -> as_before s A A';
}.

Lemma destroyed_undone s A c A1 c1 A' c' : represents (signals c) A -> (s ∉ dom (a_wait A)) -> quietly c c1 -> apart s A A1 ->
  destroyed s A1 A' c1 c' -> undone s A c A' c'.
Proof.
  intros Hrep Hs Hq Hap [D1 D2 D3 D4]. split; [done|by eapply quietly_trans|]. intros Hre.
  eapply (apart_before (signals c') (signals c)); [done|done|done|by apply D2|by apply D3].
Qed.

Lemma wp_signal_set_new fuel s n1 n2 c A : represents (signals c) A -> (s ∉ dom (a_wait A)) ->
  valid_signal n1 = true -> valid_signal n2 = true ->
  (size (registrations (signals c)) + 4 < fuel)%nat -> Z.of_nat fuel < 2 ^ 64 ->
  wp (signal_set_new cfg fuel s n1 n2) c (fun x c' => exists A', if failed x then undone s A c A' c' else catching s n1 n2 A c A' c').
Proof.
  intros Hrep Hs Hn1 Hn2 Hfuel Hbound. unfold signal_set_new. apply wp_bind.
  eapply wp_mono; [refine (wp_ret_inv _ no_error c _ (wp_perform_step cfg fuel (Construct s) c A Hrep Hs _ _)); lia|].
  intros ? c1 (ops & A1 & Hp & Hs1). pose proof Hp as [(v & Hst & _) Hrep1 _ _].
  pose proof (apart_step s A A _ _ _ _ _ Hst eq_refl (apart_start _ _ _ Hrep Hs)) as Hap1. inversion Hst; subst.
  pose proof (performed_quiet _ _ _ _ _ _ Hp eq_refl) as Hq1.
  assert (idle s (set_wait (<[s:=[]]> (a_wait A)) A)) as Hi1.
  { split; simpl; [rewrite dom_insert; set_solver|unfold waiting; simpl; by rewrite lookup_insert_eq|].
    intros n. by rewrite (new_set_unregistered _ _ _ _ Hrep Hs). }
  apply wp_bind. eapply wp_mono; [apply (wp_add_idle fuel s n1 dont_care _ _ Hrep1 Hi1 Hn1); lia|].
  intros y1 c2 (A2 & [Hi2 Hk2 _ Hh2 Hap2] & Hrep2 & Hq2 & Hs2). pose proof (quietly_trans _ _ _ Hq1 Hq2) as Hq12.
  specialize (Hap2 A Hap1). destruct (failed y1) eqn:Ex.
  { apply wp_bind. eapply wp_mono; [apply (wp_destroy_idle fuel s _ _ Hrep2 Hi2); lia|]. intros ? c3 (A' & Hd). apply wp_ret. rewrite Ex.
    exists A'. by apply (destroyed_undone s A c A2 c2). }
  apply wp_bind. eapply wp_mono; [apply (wp_add_idle fuel s n2 dont_care _ _ Hrep2 Hi2 Hn2); lia|].
  intros y c3 (A3 & [Hi3 Hk3 Hkeep Hh3 Hap3] & Hrep3 & Hq3 & Hs3). pose proof (quietly_trans _ _ _ Hq12 Hq3) as Hq123.
  specialize (Hap3 A Hap2). destruct (failed y) eqn:Ey.
  { apply wp_bind. eapply wp_mono; [apply (wp_destroy_idle fuel s _ _ Hrep3 Hi3); lia|]. intros ? c4 (A' & Hd). apply wp_ret. rewrite Ey.
    exists A'. by apply (destroyed_undone s A c A3 c3). }
  apply wp_ret. rewrite Ey. exists A3. split; [done|done|by rewrite Hk3, Hk2| |done|lia]. intros n [->| ->]; auto.
Qed.

(** ** A signal that arrives *)

(** The operation [o] has been posted, complete with the signal [n]. *)
Definition delivered n o c : Prop :=
  Operation o ∈ all_queued (scheduler c) /\ exists key, signal_ops (signals c) !! o = Some (mkSignalOp no_error key n).

Lemma deliver_other n s m l p : m <> n -> a_und (foldl (deliver_one n) p l).2 !! (s, m) = a_und p.2 !! (s, m).
Proof.
  intros Hm. revert p. induction l as [|s' l IH]; intros p; [done|]. cbn [foldl]. rewrite IH. unfold deliver_one.
  destruct (waiting s' p.2); simpl; [by rewrite lookup_alter_ne by congruence|done].
Qed.

Lemma first_undelivered_only A s n : (forall m, m <> n -> default 0 (a_und A !! (s, m)) = 0) -> forall m, first_undelivered s A = Some m -> m = n.
Proof.
  intros H' m Hm. destruct (decide (m = n)) as [|Hne]; [done|]. exfalso. unfold first_undelivered in Hm.
  apply head_Some_elem_of, list_elem_of_filter in Hm as [Hm _]. rewrite H' in Hm by done. lia.
Qed.

Lemma first_undelivered_idle A s : idle s A -> first_undelivered s A = None.
Proof.
  intros Hi. destruct (first_undelivered s A) as [m|] eqn:E; [|done]. exfalso. unfold first_undelivered in E.
  apply head_Some_elem_of, list_elem_of_filter in E as [E _]. rewrite (id_und _ _ Hi) in E. lia.
Qed.

Lemma performed_elem st A c x ops A' c' o : performed st A c x ops A' c' -> o ∈ ops -> Operation o ∈ all_queued (scheduler c').
Proof. intros [_ _ E _] Ho. rewrite E, elem_of_app. right. by apply list_elem_of_fmap_2. Qed.

Lemma performed_kept st A c x ops A' c' p : performed st A c x ops A' c' -> p ∈ all_queued (scheduler c) -> p ∈ all_queued (scheduler c').
Proof. intros [_ _ E _] Ho. rewrite E, elem_of_app. by left. Qed.

Section arrival.
Context (fuel : nat) (n s : Z) (o : op_ptr) (key : Z) (Hbound : Z.of_nat fuel < 2 ^ 64).

(** The set waits for [n] with [o]. *)
Definition armed c1 : Prop := exists A1, represents (signals c1) A1 /\ waiting s A1 = [(o, key)] /\ is_Some (a_und A1 !! (s, n)) /\
  (size (registrations (signals c1)) < fuel)%nat.

(** A signal [n], and no other, is undelivered at the set. *)
Definition undelivered c1 : Prop := exists A1, represents (signals c1) A1 /\ allowed (dom (a_wait A1)) (a_known A1) (Wait s o key) /\
  (exists u, a_und A1 !! (s, n) = Some u /\ 0 < u) /\ (forall m, m <> n -> default 0 (a_und A1 !! (s, m)) = 0) /\
  (size (registrations (signals c1)) < fuel)%nat.

Lemma wp_deliver_armed c1 : armed c1 -> wp (deliver_signal cfg fuel n) c1 (fun _ c' => delivered n o c').
Proof.
  intros (A1 & Hrep1 & Ew & [u Hu] & Hs1). destruct (table_sets _ _ _ _ _ Hrep1 Hu) as (Hv & Hin & Hnd & _).
  eapply wp_mono; [refine (wp_ret_inv _ no_error c1 _ (wp_perform_step cfg fuel (Deliver n) c1 _ Hrep1 Hv _ _)); lia|].
  intros ? c2 (ops2 & A2 & Hp2 & _). pose proof Hp2 as [(w & Hst2 & Hc) _ _ _]. inversion Hst2; subst.
  pose proof (deliver_here n s (a_tab A1 n) [] A1 u Hin Hnd Hu) as Hd. cbn zeta in Hd. rewrite Ew in Hd.
  assert (o ∈ (spec_deliver n A1).1) as Hod by (apply Hd; by left).
  split; [by eapply performed_elem|]. by apply Hc.
Qed.

Lemma wp_wait_undelivered c1 : undelivered c1 -> wp (signal_async_wait cfg fuel s o key) c1 (fun _ c' => delivered n o c').
Proof.
  intros (A1 & Hrep1 & Hal & (u & Hu & Hpos) & Hother & Hs1). destruct (table_sets _ _ _ _ _ Hrep1 Hu) as (Hv & _).
  eapply wp_mono; [refine (wp_ret_inv _ no_error c1 _ (wp_perform_step cfg fuel (Wait s o key) c1 _ Hrep1 Hal _ _)); lia|].
  intros ? c2 (ops2 & A2 & Hp2 & _). pose proof Hp2 as [(w & Hst2 & Hc) _ _ _]. inversion Hst2; subst.
  - match goal with Hf : first_undelivered _ _ = Some _ |- _ => pose proof Hf as Hfirst end.
    apply (first_undelivered_only _ _ n) in Hfirst as ->; [|exact Hother].
    split; [eapply performed_elem; [exact Hp2|by left]|]. apply Hc. by left.
  - exfalso. by apply (first_undelivered_some _ s n _ Hv Hu).
Qed.

(** Before either. *)
Section before.
Context (c : Ctx R) (A : a_signals).
Context (Hrep : represents (signals c) A) (Hi : idle s A) (Hn : is_Some (a_und A !! (s, n))) (Ho : o ∉ a_known A)
  (Hfuel : (size (registrations (signals c)) + 1 < fuel)%nat).

Lemma wp_wait_arms : wp (signal_async_wait cfg fuel s o key) c (fun _ c1 => armed c1).
Proof.
  destruct (table_sets _ _ _ _ _ Hrep (idle_registered _ _ _ Hi Hn)) as (_ & _ & _ & Hs & _).
  eapply wp_mono; [refine (wp_ret_inv _ no_error c _ (wp_perform_step cfg fuel (Wait s o key) c A Hrep (conj Hs Ho) _ _)); lia|].
  intros ? c1 (ops & A1 & Hp & Hs1). pose proof Hp as [(v & Hst & _) Hrep1 _ _].
  inversion Hst; subst; [by rewrite first_undelivered_idle in *|]. eexists. split; [exact Hrep1|]. split_and!; [|exact Hn|lia].
  unfold waiting at 1. simpl. by rewrite lookup_insert_eq, (id_waiting _ _ Hi).
Qed.

Lemma wp_deliver_first c0 : signals c0 = signals c -> wp (deliver_signal cfg fuel n) c0 (fun _ c1 => undelivered c1).
Proof.
  intros E0. destruct (table_sets _ _ _ _ _ Hrep (idle_registered _ _ _ Hi Hn)) as (Hv & Hin & Hnd & Hs & _).
  pose proof Hrep as Hrep0. rewrite <- E0 in Hrep0, Hfuel.
  eapply wp_mono; [refine (wp_ret_inv _ no_error c0 _ (wp_perform_step cfg fuel (Deliver n) c0 A Hrep0 Hv _ _)); lia|].
  intros ? c1 (ops & A1 & Hp & Hs1). pose proof Hp as [(v & Hst & _) Hrep1 _ _]. inversion Hst; subst.
  pose proof (deliver_here n s (a_tab A n) [] A 0 Hin Hnd (idle_registered _ _ _ Hi Hn)) as Hd. cbn zeta in Hd.
  rewrite (id_waiting _ _ Hi) in Hd. fold (spec_deliver n A) in Hd.
  destruct (deliver_dom n (a_tab A n) ([], A)) as [Ed Ek]. fold (spec_deliver n A) in Ed, Ek. simpl in Ed, Ek.
  eexists. split; [exact Hrep1|]. split; [split; [by rewrite Ed|by rewrite Ek]|]. split; [by eexists|]. split; [|lia].
  intros m Hm. unfold spec_deliver. rewrite deliver_other by done. apply (id_und _ _ Hi).
Qed.
End before.
End arrival.
End catch.
