(* ===== verification/SignalPipe.v ===== *)
(** * The pipe of the signals

    The operating system's handler may only write the number of the signal
    into a pipe; the reactor's operation on the other end reads it and
    delivers the signal (asio_signal_handler and pipe_read_op of
    src/include/asio/detail/impl/signal_set_service.ipp).  The errno that the
    handler saves is left out.

    A signal that is written while the pipe has room is delivered once, in
    its turn; the descriptors do not block, so one that finds it full is
    lost. *)

From S2P Require Import Prelude Bits LinkedList Protocol SocketOps SocketRules SocketModes OpQueue Scheduler EpollReactor SignalSets SignalRules SignalSteps SignalSpec SignalOps SignalWaits SignalDeliver SignalCalls SignalCatch.

(** ** The code *)

(** [write(write_descriptor_, ...)] of these bytes, and
    [read(read_descriptor_, ..., n)]: the result, and what is read. *)
Class PipeKernel (R : Type) := {
  pipe_write : list Z -> R -> Z * R;
  pipe_read : Z -> R -> Z * list Z * R;
}.

Definition sizeof_int : Z := 4.

(** The representation of an [int]. *)
Definition int_bytes (n : Z) : list Z := le_bytes 4 (u32 n).
Definition int_value (bs : list Z) : Z := let z := le_value bs in if z <? 2 ^ 31 then z else z - 2 ^ 32.

Section pipe.
Context {K R : Type} `{SignalKernel K} `{SignalStore K R} `{SchedulerTask R} `{PipeKernel R} (cfg : scheduler_config).
Abbreviation M := (prog (Ctx R)).

Definition asio_signal_handler (n : Z) : M unit :=
  c ← get_state;
  let '(result, r) := pipe_write (int_bytes n) (rest c) in
  put_state (mkCtx (scheduler c) r).

Definition read_pipe : M (Z * list Z) :=
  c ← get_state;
  let '(result, bs, r) := pipe_read sizeof_int (rest c) in
  put_state (mkCtx (scheduler c) r);; mret (result, bs).

(** The loop of [pipe_read_op::do_perform]; [fuel] is that of
    [deliver_signal]. *)
Fixpoint pipe_read_loop (loops fuel : nat) : M unit :=
  match loops with
  | O => loop_out
  | S loops =>
      '(result, bs) ← read_pipe;
      if result =? sizeof_int then
        let signal_number := int_value bs in
        (if valid_signal signal_number then deliver_signal cfg fuel signal_number else mret tt);;
        pipe_read_loop loops fuel
      else mret tt
  end.

Definition pipe_read_op_do_perform (loops fuel : nat) : M perform_status := pipe_read_loop loops fuel;; mret not_done.

(** The signals [ns] arrive. *)
Fixpoint signals_arrive (ns : list Z) : M unit :=
  match ns with [] => mret tt | n :: ns => asio_signal_handler n;; signals_arrive ns end.
End pipe.

(** ** What is assumed of the pipe

    Writing a number is atomic: it is written whole, or not at all if there
    is no room.  A read takes bytes from the front, as many as it asks for
    and there are, and fails on an empty pipe. *)
Class PipeKernelOk (K R : Type) `{SignalStore K R} `{SchedulerTask R} `{PipeKernel R} := {
  pipe_bytes : R -> list Z;
  pipe_capacity : Z;
  pipe_write_law n (r : R) : let '(result, r') := pipe_write (int_bytes n) r in
    signals_of r' = signals_of r /\
    if Z.of_nat (length (pipe_bytes r)) + sizeof_int <=? pipe_capacity
    then result = sizeof_int /\ pipe_bytes r' = pipe_bytes r ++ int_bytes n
    else result = -1 /\ pipe_bytes r' = pipe_bytes r;
  pipe_read_law k (r : R) : 0 < k -> let '(result, bs, r') := pipe_read k r in
    signals_of r' = signals_of r /\
    match pipe_bytes r with
    | [] => result = -1 /\ pipe_bytes r' = []
    | l => bs = take (Z.to_nat k) l /\ result = Z.of_nat (length bs) /\ pipe_bytes r' = drop (Z.to_nat k) l
    end;
  pipe_put_signals st (r : R) : pipe_bytes (put_signals st r) = pipe_bytes r;
  pipe_interrupt (r : R) : pipe_bytes (task_interrupt r) = pipe_bytes r;
}.

Lemma length_int_bytes n : length (int_bytes n) = 4%nat.
Proof. apply length_le_bytes. Qed.

Lemma int_value_bytes n : - 2 ^ 31 <= n < 2 ^ 31 -> int_value (int_bytes n) = n.
Proof.
  intros Hn. unfold int_value, int_bytes. cbv zeta. rewrite le_value_bytes_small by (apply (wrap_range 32); lia).
  unfold wrap. destruct (Z.ltb_spec n 0).
  - rewrite <- (Z.mod_unique_pos n (2 ^ 32) (-1) (n + 2 ^ 32)) by lia. destruct (Z.ltb_spec (n + 2 ^ 32) (2 ^ 31)); lia.
  - rewrite Z.mod_small by lia. destruct (Z.ltb_spec n (2 ^ 31)); lia.
Qed.

Section rules.
Context {K R : Type} `{SignalKernelOk K} `{SignalStoreOk K R} `{!PipeKernel R} `{!PipeKernelOk K R} (cfg : scheduler_config).
Implicit Types (c : Ctx R) (A : a_signals) (n : Z) (ns : list Z) (fuel : nat).

Abbreviation signals c := (signals_of (rest c)).
Abbreviation pipe c := (pipe_bytes (rest c)).

(** The numbers in the pipe. *)
Definition in_pipe ns c : Prop := pipe c = ns ≫= int_bytes.

(** Only the pipe has changed. *)
Definition same c c' : Prop := scheduler c' = scheduler c /\ signals c' = signals c.

Lemma length_in_pipe ns c : in_pipe ns c -> Z.of_nat (length (pipe c)) = 4 * Z.of_nat (length ns).
Proof. intros ->. induction ns as [|n ns IH]; [done|]. cbn [mbind list_bind]. rewrite length_app, length_int_bytes. simpl length. lia. Qed.

Lemma wp_handler n c (Phi : unit -> Ctx R -> Prop) :
  (forall c', same c c' -> pipe c' = (if Z.of_nat (length (pipe c)) + sizeof_int <=? pipe_capacity then pipe c ++ int_bytes n else pipe c) ->
     Phi tt c') -> wp (asio_signal_handler n) c Phi.
Proof.
  intros HP. unfold asio_signal_handler. apply wp_bind, wp_get. pose proof (pipe_write_law n (rest c)) as Hlaw.
  destruct (pipe_write _ _) as [result r]. destruct Hlaw as [Hs Hb]. apply wp_put, HP; [done|]. simpl.
  destruct (_ <=? _); by destruct Hb.
Qed.

Lemma wp_arrives n ns c (Phi : unit -> Ctx R -> Prop) : in_pipe ns c -> 4 * Z.of_nat (length ns) + 4 <= pipe_capacity ->
  (forall c', same c c' -> in_pipe (ns ++ [n]) c' -> Phi tt c') -> wp (asio_signal_handler n) c Phi.
Proof.
  intros Hin Hroom HP. apply wp_handler. intros c' Hs Hb. rewrite (length_in_pipe ns), (proj2 (Z.leb_le _ _)) in Hb by (done || simpl; lia).
  apply HP; [done|]. unfold in_pipe. rewrite Hb, Hin, bind_app. change ([n] ≫= int_bytes) with (int_bytes n ++ []). by rewrite app_nil_r.
Qed.

Lemma wp_read_empty c (Phi : Z * list Z -> Ctx R -> Prop) : in_pipe [] c ->
  (forall c' bs, same c c' -> in_pipe [] c' -> Phi (-1, bs) c') -> wp read_pipe c Phi.
Proof.
  intros Hin HP. unfold read_pipe. apply wp_bind, wp_get. pose proof (pipe_read_law sizeof_int (rest c) ltac:(done)) as Hlaw.
  destruct (pipe_read _ _) as [[result bs] r]. unfold in_pipe in Hin. rewrite Hin in Hlaw. destruct Hlaw as (Hs & -> & Hb).
  apply wp_bind, wp_put, wp_ret. by apply HP.
Qed.

Lemma wp_read_number n ns c (Phi : Z * list Z -> Ctx R -> Prop) : in_pipe (n :: ns) c ->
  (forall c', same c c' -> in_pipe ns c' -> Phi (sizeof_int, int_bytes n) c') -> wp read_pipe c Phi.
Proof.
  intros Hin HP. unfold read_pipe. apply wp_bind, wp_get. pose proof (pipe_read_law sizeof_int (rest c) ltac:(done)) as Hlaw.
  destruct (pipe_read _ _) as [[result bs] r]. destruct Hlaw as [Hs Hlaw].
  assert (pipe c = int_bytes n ++ (ns ≫= int_bytes)) as Hp by exact Hin.
  assert (bs = int_bytes n /\ result = 4 /\ pipe_bytes r = ns ≫= int_bytes) as (-> & -> & Hb).
  { rewrite Hp in Hlaw. destruct (int_bytes n ++ _) as [|z l] eqn:E.
    - apply (f_equal length) in E. rewrite length_app, length_int_bytes in E. simpl in E. lia.
    - destruct Hlaw as (-> & -> & ->). rewrite <- E. change (Z.to_nat sizeof_int) with 4%nat.
      rewrite take_app_length', drop_app_length' by by rewrite length_int_bytes. by rewrite length_int_bytes. }
  apply wp_bind, wp_put, wp_ret. by apply HP.
Qed.
(** ** What leaves the pipe alone *)

Definition pipe_keeps {B} (m : prog (Ctx R) B) : Prop := forall c b c', m c = Ok (b, c') -> pipe c' = pipe c.

Lemma pipe_keeps_ret {B} (b : B) : pipe_keeps (mret b).
Proof. by intros c b' c' [= <- <-]. Qed.

Lemma pipe_keeps_bind {B D} (m : prog (Ctx R) B) (k : B -> prog (Ctx R) D) : pipe_keeps m -> (forall b, pipe_keeps (k b)) -> pipe_keeps (m ≫= k).
Proof. intros Hm Hk c d c' (b & c1 & R1 & R2)%bind_Ok_inv. by rewrite (Hk _ _ _ _ R2), (Hm _ _ _ R1). Qed.

Lemma pipe_keeps_on_signals {B} (m : prog (Signals K) B) : pipe_keeps (on_signals m).
Proof. intros c b c'. unfold on_signals. destruct (m _) as [[b0 st]| |]; [|done|done]. intros [= <- <-]. simpl. apply pipe_put_signals. Qed.

Lemma pipe_keeps_modify f : pipe_keeps (modify f).
Proof. by intros c b c' [= <- <-]. Qed.

Lemma pipe_keeps_get : pipe_keeps get_sched.
Proof. by intros c b c' [= <- <-]. Qed.

Lemma pipe_keeps_interrupt : pipe_keeps (modify_rest task_interrupt).
Proof. intros c b c' [= <- <-]. apply pipe_interrupt. Qed.

Lemma wp_keeps {B} (m : prog (Ctx R) B) c (Phi : B -> Ctx R -> Prop) : wp m c Phi -> pipe_keeps m -> wp m c (fun b c' => Phi b c' /\ pipe c' = pipe c).
Proof. intros (b & c' & Hrun & HP) Hm. exists b, c'. split; [done|]. split; [done|by eapply Hm]. Qed.

Ltac keep_pipe :=
  repeat first [apply pipe_keeps_ret|apply pipe_keeps_on_signals|apply pipe_keeps_modify|apply pipe_keeps_get|apply pipe_keeps_interrupt
               |apply pipe_keeps_bind; [|intros ?]|case_match].

Lemma pipe_keeps_enqueue ops : pipe_keeps (enqueue ops).
Proof. unfold enqueue, wake_one_thread_and_unlock, interrupt_task. keep_pipe. Qed.

Lemma pipe_keeps_post ops : pipe_keeps (post_deferred_completions cfg ops).
Proof. unfold post_deferred_completions, push_private. keep_pipe; apply pipe_keeps_enqueue. Qed.

Lemma pipe_keeps_deliver fuel n : pipe_keeps (deliver_signal cfg fuel n).
Proof. unfold deliver_signal. keep_pipe. apply pipe_keeps_post. Qed.

Lemma pipe_keeps_async_wait fuel s o key : pipe_keeps (signal_async_wait cfg fuel s o key).
Proof.
  unfold signal_async_wait, start_wait_op, work_started, post_deferred_completion, push_private. keep_pipe; apply pipe_keeps_enqueue.
Qed.

Lemma pipe_keeps_signal_set_new fuel s n1 n2 : pipe_keeps (signal_set_new cfg fuel s n1 n2).
Proof. unfold signal_set_new, signal_destroy, signal_cancel. keep_pipe; apply pipe_keeps_post. Qed.

(** ** Reading the pipe *)

Lemma same_trans c1 c2 c3 : same c1 c2 -> same c2 c3 -> same c1 c3.
Proof. intros [A1 A2] [B1 B2]. split; congruence. Qed.

Lemma performed_same st A c1 c x ops A' c' : scheduler c1 = scheduler c -> performed st A c1 x ops A' c' -> performed st A c x ops A' c'.
Proof. intros E [P1 P2 P3 P4]. rewrite E in P3, P4. by split. Qed.

(** An [int], and the signals among some. *)
Definition is_int n : Prop := - 2 ^ 31 <= n < 2 ^ 31.
Definition valid_signals ns : list Z := filter (fun n => valid_signal n = true) ns.

(** What the calls of [sts] have done, from [c] to [c'], but for the pipe. *)
Definition did (sts : list signal_step) A c c' : Prop :=
  exists xs ops A' c2, performed_all sts A c xs ops A' c2 /\ same c2 c'.

Lemma did_from sts A c1 c c' : scheduler c1 = scheduler c -> signals c1 = signals c -> did sts A c1 c' -> did sts A c c'.
Proof.
  intros Es Eg (xs & ops & A' & c2 & Hps & Hs). inversion Hps as [|? ? ? ? ? ? ? ? ? ? ? ? Hp Hrest]; subst.
  - exists [], [], A', c. split; [constructor|]. destruct Hs. split; congruence.
  - eexists _, _, A', c2. split; [|done]. eapply pa_cons; [|exact Hrest]. by eapply performed_same.
Qed.

Lemma wp_pipe_read_loop ns : forall loops fuel c A, represents (signals c) A -> in_pipe ns c ->
  Forall is_int ns -> (length ns < loops)%nat ->
  (size (registrations (signals c)) + length ns < fuel)%nat -> Z.of_nat fuel < 2 ^ 64 ->
  wp (pipe_read_loop cfg loops fuel) c (fun _ c' => in_pipe [] c' /\ did (Deliver <$> valid_signals ns) A c c').
Proof.
  induction ns as [|n ns IH]; intros loops fuel c A Hrep Hin Hv Hl Hf Hb; (destruct loops as [|loops]; [simpl in Hl; lia|]); cbn [pipe_read_loop].
  { apply wp_bind. eapply wp_read_empty; [exact Hin|]. intros c1 bs Hs Hin1. apply wp_ret. split; [done|].
    exists [], [], A, c. split; [constructor|done]. }
  apply Forall_cons in Hv as [Hn Hv]. apply wp_bind. eapply wp_read_number; [exact Hin|]. intros c1 [Es Eg] Hin1.
  cbv beta iota zeta. rewrite Z.eqb_refl, int_value_bytes by done. simpl in Hl, Hf. apply wp_bind.
  unfold valid_signals. rewrite filter_cons. fold (valid_signals ns). destruct (valid_signal n) eqn:En.
  - assert (represents (signals c1) A) as Hrep1 by by rewrite Eg.
    eapply wp_mono; [eapply wp_keeps; [|apply pipe_keeps_deliver];
      refine (wp_ret_inv _ no_error c1 _ (wp_perform_step cfg fuel (Deliver n) c1 A Hrep1 En _ _)); rewrite Eg; lia|].
    cbv beta. intros ? c2 [(ops & A1 & Hp & Hs2) Hpipe].
    assert (in_pipe ns c2) as Hin2 by (unfold in_pipe in *; by rewrite Hpipe). rewrite Eg in Hs2.
    eapply wp_mono; [apply (IH loops fuel c2 A1); [apply Hp|done|done|lia|lia|done]|].
    intros ? c3 (Hin3 & xs & opss & A' & c4 & Hps & Hs4). split; [done|]. rewrite decide_True by done.
    exists (no_error :: xs), (ops ++ opss), A', c4. split; [|done]. eapply pa_cons; [|exact Hps]. by eapply performed_same.
  - apply wp_ret. eapply wp_mono; [apply (IH loops fuel c1 A); rewrite ?Eg; try done; lia|].
    intros ? c2 [Hin2 Hd]. split; [done|]. rewrite decide_False by done. by apply (did_from _ _ c1).
Qed.

(** How many numbers the pipe holds. *)
Definition pipe_holds : nat := Z.to_nat (pipe_capacity / sizeof_int).

(** A number that finds the pipe full is lost. *)
Lemma wp_signals_arrive ns : forall ms c, in_pipe ms c ->
  wp (signals_arrive ns) c (fun _ c' => same c c' /\ in_pipe (ms ++ take (pipe_holds - length ms) ns) c').
Proof.
  induction ns as [|n ns IH]; intros ms c Hin; cbn [signals_arrive].
  { apply wp_ret. rewrite take_nil, app_nil_r. done. }
  apply wp_bind, wp_handler. intros c1 Hs Hb. rewrite (length_in_pipe ms c Hin) in Hb.
  assert (4 * Z.of_nat (length ms) + sizeof_int <= pipe_capacity <-> (length ms < pipe_holds)%nat) as Hroom.
  { unfold pipe_holds. change sizeof_int with 4. pose proof (Z.div_mod pipe_capacity 4 ltac:(done)).
    pose proof (Z.mod_pos_bound pipe_capacity 4 ltac:(done)). lia. }
  destruct (Z.leb_spec (4 * Z.of_nat (length ms) + sizeof_int) pipe_capacity) as [Hle|Hgt].
  - apply Hroom in Hle. assert (in_pipe (ms ++ [n]) c1) as Hin1.
    { unfold in_pipe. rewrite Hb, Hin, bind_app. change ([n] ≫= int_bytes) with (int_bytes n ++ []). by rewrite app_nil_r. }
    eapply wp_mono; [by apply (IH (ms ++ [n]))|]. intros ? c2 [Hs2 Hin2]. split; [by eapply same_trans|].
    rewrite length_app in Hin2. simpl in Hin2. replace (pipe_holds - length ms)%nat with (Datatypes.S (pipe_holds - (length ms + 1))) by lia.
    by rewrite <- app_assoc in Hin2.
  - assert (pipe_holds - length ms = 0)%nat as E0 by (destruct (decide (length ms < pipe_holds)%nat) as [Hr%Hroom|]; lia).
    eapply wp_mono; [apply (IH ms); unfold in_pipe in *; by rewrite Hb|]. intros ? c2 [Hs2 Hin2].
    rewrite E0 in *. split; [by eapply same_trans|done].
Qed.

(** C26: when the operating system's handler has run for the signals [ns], in
    whatever number, and the reactor then performs the pipe's operation, the
    loop ends with the pipe empty; of the numbers that were in the pipe and of
    [ns] those that the pipe has room for have been delivered, each once and in
    the order of their arrival, with what the specification of the signal sets
    says of each delivery (which waits are completed, and which signals are
    kept for a wait to come); those that found the pipe full are lost, and a
    number that is no signal is ignored. *)
Theorem signals_delivered ms ns loops fuel c A : represents (signals c) A -> in_pipe ms c -> Forall is_int (ms ++ ns) ->
  (length (ms ++ ns) < loops)%nat -> (size (registrations (signals c)) + length (ms ++ ns) < fuel)%nat ->
  Z.of_nat fuel < 2 ^ 64 ->
  exists c', (signals_arrive ns;; pipe_read_op_do_perform cfg loops fuel) c = Ok (not_done, c') /\ in_pipe [] c' /\
    did (Deliver <$> valid_signals (ms ++ take (pipe_holds - length ms) ns)) A c c'.
Proof.
  intros Hrep Hin Hint Hl Hf Hb. destruct (wp_signals_arrive ns ms c Hin) as ([] & c1 & R1 & [Es Eg] & Hin1).
  rewrite (bind_Ok _ _ _ _ _ R1). rewrite length_app in Hl, Hf. apply Forall_app in Hint as [Hm Hn].
  set (k := (pipe_holds - length ms)%nat) in *.
  destruct (wp_pipe_read_loop (ms ++ take k ns) loops fuel c1 A) as ([] & c2 & R2 & Hin2 & Hd); rewrite ?Eg; try done.
  - apply Forall_app. split; [done|by apply Forall_take].
  - rewrite length_app, length_take. lia.
  - rewrite length_app, length_take. lia.
  - unfold pipe_read_op_do_perform. rewrite (bind_Ok _ _ _ _ _ R2). exists c2. split; [done|]. split; [done|].
    by apply (did_from _ _ c1).
Qed.

(** One signal in the pipe: what delivering it comes to. *)
Lemma wp_read_one n loops fuel c (Phi : Ctx R -> Prop) : in_pipe [n] c -> valid_signal n = true -> (2 <= loops)%nat ->
  (forall c1, same c c1 -> wp (deliver_signal cfg fuel n) c1 (fun _ c2 => forall c3, same c2 c3 -> Phi c3)) ->
  wp (pipe_read_op_do_perform cfg loops fuel) c (fun r c' => r = not_done /\ in_pipe [] c' /\ Phi c').
Proof.
  intros Hin Hn Hl Hd. unfold pipe_read_op_do_perform. apply wp_bind. destruct loops as [|[|loops]]; [lia|lia|]. cbn [pipe_read_loop].
  apply wp_bind. eapply wp_read_number; [exact Hin|]. intros c1 Hs1 Hin1. cbv beta iota zeta. rewrite Z.eqb_refl.
  assert (int_value (int_bytes n) = n) as ->.
  { apply int_value_bytes. unfold valid_signal, max_signal_number in Hn. zb. lia. }
  rewrite Hn. apply wp_bind. eapply wp_mono; [eapply wp_keeps; [by apply Hd|apply pipe_keeps_deliver]|].
  intros ? c2 [HP Hpipe]. apply wp_bind. eapply wp_read_empty; [unfold in_pipe in *; by rewrite Hpipe|].
  intros c3 bs Hs3 Hin3. apply wp_ret, wp_ret. split; [done|]. split; [done|by apply HP].
Qed.
End rules.
