(* ===== verification/SignalTheorems.v ===== *)
(** * Signal sets: the theorems

    Any sequence of calls of the signal set service does what SignalSpec.v
    promises, and a signal set that is constructed as the program does it
    catches its signals. *)

From S2P Require Import Prelude Bits LinkedList SocketOps SocketRules SocketModes OpQueue Scheduler EpollReactor SignalSets SignalRules SignalSteps SignalSpec SignalOps SignalWaits SignalDeliver SignalCalls SignalCatch SignalPipe.

Section theorems.
Context {K R : Type} `{SignalKernelOk K} `{SignalStoreOk K R} (cfg : scheduler_config).
Implicit Types (c : Ctx R) (A : a_signals) (fuel : nat).

Abbreviation signals c := (signals_of (rest c)).

(** C13: for any sequence of calls (constructing a set, adding and removing
    signals, clearing, cancelling, delivering a signal, waiting) on any number
    of signal sets the service returns, and does at each call what the
    specification says: who has registered what, how many signals are
    undelivered, and who waits; the operations that complete are posted with
    their error and signal number, and every wait is counted as work.
    Afterwards each signal's count is the number of its registrations, and
    the operating system calls asio_signal_handler for the signals that are
    registered, and no others, with the flags recorded. *)
Theorem signal_sets_refine fuel sts c A : represents (signals c) A -> all_allowed (dom (a_wait A)) (a_known A) sts ->
  (size (registrations (signals c)) + length sts < fuel)%nat -> Z.of_nat fuel < 2 ^ 64 ->
  exists xs ops A' c', perform_steps cfg fuel sts c = Ok (xs, c') /\ performed_all sts A c xs ops A' c' /\
    represents (signals c') A' /\ forall n, valid_signal n = true -> handled_signal n (signals c').
Proof.
  intros Hrep Hal Hfuel Hbound. destruct (steps_performed cfg fuel sts c A) as (xs & ops & A' & c' & Hrun & Hp); [done..|].
  pose proof (performed_all_represents _ _ _ _ _ _ _ Hp Hrep) as Hrep'. exists xs, ops, A', c'. split_and!; [done..|].
  intros n Hn. by apply (represents_handled _ A').
Qed.

End theorems.

Section catch.
Context {K R : Type} `{SignalKernelOk K} `{SignalStoreOk K R} `{!PipeKernel R} `{!PipeKernelOk K R} (cfg : scheduler_config).
Implicit Types (c : Ctx R) (A : a_signals) (fuel loops : nat).

Abbreviation signals c := (signals_of (rest c)).

Lemma delivered_same n o c c' : same c c' -> delivered n o c -> delivered n o c'.
Proof. intros [E1 E2] [H1' H2']. unfold delivered. by rewrite E1, E2. Qed.

(** A signal that a set waits for, or will: in each order of the wait, the
    arrival and the read. *)
Section orders.
Context (loops fuel : nat) (n s : Z) (o : op_ptr) (key : Z) (c : Ctx R) (A : a_signals).
Context (Hrep : represents (signals c) A) (Hi : idle s A) (Hn : is_Some (a_und A !! (s, n))) (Ho : o ∉ a_known A)
  (Hfuel : (size (registrations (signals c)) + 1 < fuel)%nat) (Hbound : Z.of_nat fuel < 2 ^ 64)
  (Hpipe : in_pipe [] c) (Hroom : 4 <= pipe_capacity) (Hloops : (2 <= loops)%nat).

Abbreviation async_wait := (signal_async_wait cfg fuel s o key).
Abbreviation do_perform := (pipe_read_op_do_perform cfg loops fuel).

Lemma orders_valid : valid_signal n = true.
Proof. destruct Hn as [u Hu]. by destruct (table_sets _ _ _ _ _ Hrep Hu). Qed.

Lemma wp_read_armed c1 : armed fuel n s o key c1 -> in_pipe [n] c1 -> wp do_perform c1 (fun r c' => r = not_done /\ delivered n o c').
Proof.
  intros (A1 & Hrep1 & Ha) Hin. eapply wp_mono; [apply (wp_read_one cfg n loops fuel c1 (delivered n o) Hin orders_valid Hloops)|].
  - intros c2 [_ Eg]. eapply wp_mono; [apply (wp_deliver_armed cfg fuel n s o key Hbound)|].
    + exists A1. by rewrite Eg.
    + intros ? c3 Hd c4 Hs. by eapply delivered_same.
  - by intros r c' (-> & _ & ?).
Qed.

Lemma wp_wait_arrive_read : wp (async_wait;; asio_signal_handler n;; do_perform) c (fun r c' => r = not_done /\ delivered n o c').
Proof.
  apply wp_bind. eapply wp_mono; [eapply wp_keeps; [by apply (wp_wait_arms cfg fuel n s o key Hbound c A)|apply pipe_keeps_async_wait]|].
  intros ? c1 [Ha Hp]. apply wp_bind. eapply (wp_arrives n []); [unfold in_pipe in *; by rewrite Hp|simpl; lia|].
  intros c2 [_ Eg] Hin. apply wp_read_armed; [|done]. destruct Ha as (A1 & Ha). exists A1. by rewrite Eg.
Qed.

Lemma wp_arrive_wait_read : wp (asio_signal_handler n;; async_wait;; do_perform) c (fun r c' => r = not_done /\ delivered n o c').
Proof.
  apply wp_bind. eapply (wp_arrives n []); [exact Hpipe|simpl; lia|]. intros c1 [_ Eg] Hin.
  apply wp_bind. eapply wp_mono; [eapply wp_keeps; [apply (wp_wait_arms cfg fuel n s o key Hbound c1 A); rewrite ?Eg; done|apply pipe_keeps_async_wait]|].
  intros ? c2 [Ha Hp]. apply wp_read_armed; [done|]. unfold in_pipe in *. by rewrite Hp.
Qed.

Lemma wp_arrive_read_wait : wp (asio_signal_handler n;; do_perform;; async_wait) c (fun _ c' => delivered n o c').
Proof.
  apply wp_bind. eapply (wp_arrives n []); [exact Hpipe|simpl; lia|]. intros c1 [_ Eg] Hin. apply wp_bind.
  eapply wp_mono; [apply (wp_read_one cfg n loops fuel c1 (undelivered fuel n s o key) Hin orders_valid Hloops)|].
  - intros c2 [_ Eg2]. eapply wp_mono; [apply (wp_deliver_first cfg fuel n s o key Hbound c A); try done; congruence|].
    intros ? c3 (A1 & Hu) c4 [_ Eg4]. exists A1. by rewrite Eg4.
  - intros ? c2 (_ & _ & Hu). by apply wp_wait_undelivered.
Qed.
End orders.

(** C24: the constructor of a signal set either throws an error, and nothing
    is left behind: nothing is posted and no work counted, and, as long as
    the operating system lets a handled signal go back to the default, there
    is no registration that was not there before, and asio_signal_handler is
    called for the same signals.  Or it has registered both signals with the
    operating system; then each of the two completes a wait with its number
    and no error: whether the operating system's handler runs before or after
    the wait is started, and whether the reactor reads the pipe, into which
    the handler writes, before or after it. *)
Theorem signal_set_catches loops fuel s n1 n2 o key c A : represents (signals c) A -> (s ∉ dom (a_wait A)) -> (o ∉ a_known A) ->
  valid_signal n1 = true -> valid_signal n2 = true -> in_pipe [] c -> 4 <= pipe_capacity -> (2 <= loops)%nat ->
  (size (registrations (signals c)) + 4 < fuel)%nat -> Z.of_nat fuel < 2 ^ 64 ->
  exists x c', signal_set_new cfg fuel s n1 n2 c = Ok (x, c') /\ quietly c c' /\
    (failed x = true -> restorable -> exists A', represents (signals c') A' /\ as_before s A A' /\
       forall n, valid_signal n = true ->
         is_Some (disposition (signal_kernel (signals c')) n) <-> is_Some (disposition (signal_kernel (signals c)) n)) /\
    (failed x = false -> forall n, n = n1 \/ n = n2 ->
       let async_wait := signal_async_wait cfg fuel s o key in
       let do_perform := pipe_read_op_do_perform cfg loops fuel in
       is_Some (disposition (signal_kernel (signals c')) n) /\
       (exists c1, (async_wait;; asio_signal_handler n;; do_perform) c' = Ok (not_done, c1) /\ delivered n o c1) /\
       (exists c1, (asio_signal_handler n;; async_wait;; do_perform) c' = Ok (not_done, c1) /\ delivered n o c1) /\
       (exists c1, (asio_signal_handler n;; do_perform;; async_wait) c' = Ok (tt, c1) /\ delivered n o c1)).
Proof.
  intros Hrep Hs Ho Hn1 Hn2 Hpipe Hroom Hloops Hfuel Hbound.
  destruct (wp_keeps _ _ _ (wp_signal_set_new cfg fuel s n1 n2 c A Hrep Hs Hn1 Hn2 Hfuel Hbound) (pipe_keeps_signal_set_new cfg fuel s n1 n2))
    as (x & c' & Hrun & (A' & Hx) & Hp).
  exists x, c'. split; [done|]. destruct (failed x).
  { destruct Hx as [Hrep' Hq Hb]. split; [done|]. split; [|done]. intros _ Hre. exists A'. specialize (Hb Hre). split_and!; [done..|].
    intros n Hn. by apply (before_handled _ _ s A A'). }
  destruct Hx as [Hrep' Hi Hk Hreg Hq Hsize]. split; [done|]. split; [done|].
  intros _ n Hn. pose proof (Hreg n Hn) as Hu. rewrite <- Hk in Ho.
  assert (in_pipe [] c') as Hpipe' by (unfold in_pipe in *; by rewrite Hp). split_and!.
  - apply (registered_disposition _ A' s). all: done.
  - destruct (wp_wait_arrive_read loops fuel n s o key c' A') as (r & c1 & Hw & -> & Hd); [first [done|lia]..|]. by exists c1.
  - destruct (wp_arrive_wait_read loops fuel n s o key c' A') as (r & c1 & Hw & -> & Hd); [first [done|lia]..|]. by exists c1.
  - destruct (wp_arrive_read_wait loops fuel n s o key c' A') as ([] & c1 & Hw & Hd); [first [done|lia]..|]. by exists c1.
Qed.
End catch.
