(* ===== verification/SignalWorld.v ===== *)
(** * A simulated operating system for signals

    Signal handlers that can be installed for all signals but SIGKILL and
    SIGSTOP, and an allocator, in which the theorems about signal sets are
    applied to concrete calls. *)

From S2P Require Import Prelude SocketOps OpQueue Scheduler EpollReactor SignalSets SignalRules SignalSteps SignalSpec SignalOps SignalWaits SignalDeliver SignalCalls SignalCatch SignalPipe SignalTheorems.

Record sig_os := mkSigOs { so_handlers : gmap Z Z; so_heap : list Z }.

Definition sig_os_new : sig_os := mkSigOs ∅ [].

Definition so_fresh (k : sig_os) : Z := foldr Z.max 0 (so_heap k) + 1.

#[export] Instance sig_os_kernel : SignalKernel sig_os := {
  k_sigaction n h k :=
    if (n =? 9) || (n =? 19) then (-1, 22, k)
    else (0, 0, mkSigOs (match h with Some f => <[n:=f]> (so_handlers k) | None => delete n (so_handlers k) end) (so_heap k));
  new_registration k := (so_fresh k, mkSigOs (so_handlers k) (so_fresh k :: so_heap k));
  delete_registration r k := mkSigOs (so_handlers k) (filter (fun r' => r' <> r) (so_heap k));
}.

Lemma so_fresh_above k x : x ∈ so_heap k -> x < so_fresh k.
Proof.
  unfold so_fresh. induction (so_heap k) as [|y l IH]; [by intros ?%elem_of_nil|].
  intros [->|Hx]%elem_of_cons; simpl; [lia|]. specialize (IH Hx). lia.
Qed.

Lemma so_fresh_pos k : 0 < so_fresh k.
Proof. unfold so_fresh. induction (so_heap k); simpl; lia. Qed.

#[export] Instance sig_os_ok : SignalKernelOk sig_os.
Proof.
  refine {| disposition := fun k n => if (n =? 9) || (n =? 19) then None else so_handlers k !! n; sig_heap := fun k => list_to_set (so_heap k) |}.
  - intros n h k _. simpl. destruct ((n =? 9) || (n =? 19)) eqn:En; split; try done; [by left|right]. split; [done|].
    intros m. simpl. destruct (decide (m = n)) as [->|Hm].
    + rewrite En. destruct h; by rewrite ?lookup_insert_eq, ?lookup_delete_eq.
    + destruct h; by rewrite ?lookup_insert_ne, ?lookup_delete_ne by congruence.
  - intros k. simpl. split_and!; [pose proof (so_fresh_pos k); lia| |done|done].
    rewrite elem_of_list_to_set. intros Hx%so_fresh_above. lia.
  - intros r k. simpl. split; [|done]. apply set_eq. intros x.
    rewrite elem_of_difference, !elem_of_list_to_set, elem_of_singleton, list_elem_of_filter. tauto.
Defined.

(** A context that has nothing else than signals and their pipe, of 64 kB. *)
Abbreviation sig_world := (Signals sig_os * list Z)%type.

#[export] Instance sig_os_task : SchedulerTask sig_world := {
  task_run usec q st := Ok (q, st);
  task_interrupt st := st;
}.

#[export] Instance sig_os_store : SignalStore sig_os sig_world := {
  signals_of st := st.1;
  put_signals st w := (st, w.2);
}.

#[export] Instance sig_os_store_ok : SignalStoreOk sig_os sig_world.
Proof. by split. Defined.

#[export] Instance sig_os_pipe : PipeKernel sig_world := {
  pipe_write bs w :=
    if Z.of_nat (length w.2) + Z.of_nat (length bs) <=? 65536 then (Z.of_nat (length bs), (w.1, w.2 ++ bs)) else (-1, w);
  pipe_read n w :=
    match w.2 with
    | [] => (-1, [], w)
    | l => let bs := take (Z.to_nat n) l in (Z.of_nat (length bs), bs, (w.1, drop (Z.to_nat n) l))
    end;
}.

#[export] Instance sig_os_pipe_ok : PipeKernelOk sig_os sig_world.
Proof.
  refine {| pipe_bytes := fun w => w.2; pipe_capacity := 65536 |}; [| |done|done].
  - intros n w. unfold pipe_write, sig_os_pipe. rewrite length_int_bytes. change (Z.of_nat 4) with sizeof_int. by destruct (_ <=? _).
  - intros k [st l] Hk. simpl. by destruct l.
Defined.

Definition sig_start : Ctx sig_world := mkCtx scheduler_new (signals_new sig_os_new, []).

(** SIGINT, SIGTERM and SIGKILL. *)
Definition sig_calls : list signal_step :=
  [Construct 1000; Add 1000 2 dont_care; Add 1000 15 dont_care; Add 1000 9 dont_care; Construct 2000; Add 2000 2 0;
   Deliver 2; Wait 1000 5 0; Wait 1000 6 77; Wait 2000 7 0; CancelKey 1000 77; Remove 2000 2; Cancel 1000; Clear 1000].

Lemma sig_start_represents : represents (signals_of (rest sig_start)) a_new.
Proof. apply represents_start. intros n. simpl. by destruct (_ || _). Qed.

Lemma sig_calls_allowed : all_allowed (dom (a_wait a_new)) (a_known a_new) sig_calls.
Proof. cbn -[difference union dom singleton]. rewrite dom_empty_L. split_and!; try done; set_solver. Qed.

Lemma signal_sets_refine_witness :
  exists xs ops A' c', perform_steps default_config 20 sig_calls sig_start = Ok (xs, c') /\
    performed_all sig_calls a_new sig_start xs ops A' c' /\ represents (signals_of (rest c')) A' /\
    forall n, valid_signal n = true -> handled_signal n (signals_of (rest c')).
Proof.
  apply (signal_sets_refine default_config 20 sig_calls sig_start a_new).
  - exact sig_start_represents.
  - apply sig_calls_allowed.
  - vm_compute. lia.
  - lia.
Defined.

Lemma sig_os_restorable : restorable (K := sig_os).
Proof. intros n k. simpl. destruct ((n =? 9) || (n =? 19)); [by intros [? ?]|done]. Qed.

(** Whether the constructor throws. *)
Definition set_fails n1 n2 : option bool :=
  match signal_set_new default_config 20 1000 n1 n2 sig_start with Ok (x, _) => Some (failed x) | _ => None end.

Lemma set_fails_result n1 n2 b x c' : signal_set_new default_config 20 1000 n1 n2 sig_start = Ok (x, c') ->
  set_fails n1 n2 = Some b -> failed x = b.
Proof. unfold set_fails. intros ->. by intros [= <-]. Qed.

(** SIGINT and SIGTERM can be caught; SIGKILL cannot, and the registration of
    SIGINT that was made first is undone. *)
Lemma signal_set_catches_witness :
  (exists x c', signal_set_new default_config 20 1000 2 9 sig_start = Ok (x, c') /\ failed x = true /\
     exists A', represents (signals_of (rest c')) A' /\ as_before 1000 a_new A') /\
  exists x c', signal_set_new default_config 20 1000 2 15 sig_start = Ok (x, c') /\ quietly sig_start c' /\
    (forall n, n = 2 \/ n = 15 ->
       let async_wait := signal_async_wait default_config 20 1000 5 0 in
       let do_perform := pipe_read_op_do_perform default_config 10 20 in
       is_Some (disposition (signal_kernel (signals_of (rest c'))) n) /\
       (exists c1, (async_wait;; asio_signal_handler n;; do_perform) c' = Ok (not_done, c1) /\ delivered n 5 c1) /\
       (exists c1, (asio_signal_handler n;; async_wait;; do_perform) c' = Ok (not_done, c1) /\ delivered n 5 c1) /\
       (exists c1, (asio_signal_handler n;; do_perform;; async_wait) c' = Ok (tt, c1) /\ delivered n 5 c1)).
Proof.
  pose proof sig_start_represents as Hrep.
  assert (1000 ∉ dom (a_wait a_new)) as Hs by (simpl; rewrite dom_empty_L; apply not_elem_of_empty).
  assert (5 ∉ a_known a_new) as Ho by apply not_elem_of_empty.
  assert (in_pipe [] sig_start) as Hpipe by reflexivity.
  assert ((size (registrations (signals_of (rest sig_start))) + 4 < 20)%nat) as Hfuel by (vm_compute; lia). split.
  - destruct (signal_set_catches default_config 10 20 1000 2 9 5 0 sig_start a_new Hrep Hs Ho eq_refl eq_refl Hpipe
      ltac:(vm_compute; discriminate) ltac:(lia) Hfuel ltac:(lia)) as (x & c' & Hrun & _ & Hfail & _).
    assert (failed x = true) as Hx by (apply (set_fails_result _ _ _ _ _ Hrun); by vm_compute).
    exists x, c'. split; [exact Hrun|]. split; [exact Hx|]. destruct (Hfail Hx sig_os_restorable) as (A' & Hr & Hb & _). exists A'. exact (conj Hr Hb).
  - destruct (signal_set_catches default_config 10 20 1000 2 15 5 0 sig_start a_new Hrep Hs Ho eq_refl eq_refl Hpipe
      ltac:(vm_compute; discriminate) ltac:(lia) Hfuel ltac:(lia)) as (x & c' & Hrun & Hq & _ & Hok).
    assert (failed x = false) as Hx by (apply (set_fails_result _ _ _ _ _ Hrun); by vm_compute).
    exists x, c'. split; [exact Hrun|]. split; [exact Hq|exact (Hok Hx)].
Defined.

(** A set has registered SIGINT, and an operation waits. *)
Definition sig_waiting_calls : list signal_step := [Construct 1000; Add 1000 2 dont_care; Wait 1000 5 0].

Definition sig_waiting : Ctx sig_world :=
  match perform_steps default_config 20 sig_waiting_calls sig_start with Ok (_, c) => c | _ => sig_start end.

Lemma sig_waiting_represents : exists A, represents (signals_of (rest sig_waiting)) A.
Proof.
  destruct (steps_performed default_config 20 sig_waiting_calls sig_start a_new) as (xs & ops & A & c & Hrun & Hp).
  - exact sig_start_represents.
  - cbn -[difference union dom singleton]. rewrite dom_empty_L. split_and!; try done; set_solver.
  - vm_compute. lia.
  - lia.
  - exists A. unfold sig_waiting. rewrite Hrun. exact (performed_all_represents _ _ _ _ _ _ _ Hp sig_start_represents).
Qed.

(** SIGINT arrives twice, and a number that is no signal in between: the wait
    is completed once. *)
Lemma signals_delivered_witness :
  let do_perform := pipe_read_op_do_perform default_config 10 20 in
  exists A c', represents (signals_of (rest sig_waiting)) A /\
    (signals_arrive [2; 99; 2];; do_perform) sig_waiting = Ok (not_done, c') /\ in_pipe [] c' /\
    did (Deliver <$> [2; 2]) A sig_waiting c' /\ op_queue_ (scheduler c') = [Operation 5].
Proof.
  intros do_perform. destruct sig_waiting_represents as [A Hrep].
  assert (Forall is_int ([] ++ [2; 99; 2])) as Hint by (repeat constructor; discriminate || reflexivity).
  assert (in_pipe [] sig_waiting) as Hempty by (vm_compute; reflexivity).
  destruct (signals_delivered default_config [] [2; 99; 2] 10 20 sig_waiting A Hrep Hempty Hint
    ltac:(simpl; lia) ltac:(vm_compute; lia) ltac:(lia)) as (c' & Hrun & Hpipe & Hd).
  assert (match (signals_arrive [2; 99; 2];; do_perform) sig_waiting with
          | Ok (_, c) => op_queue_ (scheduler c) = [Operation 5]
          | _ => False
          end) as Hq by (vm_compute; reflexivity).
  unfold do_perform in Hq. rewrite Hrun in Hq. exists A, c'.
  split; [exact Hrep|]. split; [exact Hrun|]. split; [exact Hpipe|]. split; [exact Hd|exact Hq].
Defined.
