(* ===== verification/ServiceRegistry.v ===== *)
(** * The service registry

    Asio's registry of the services of an execution context
    (src/include/asio/detail/service_registry.hpp, impl/service_registry.hpp
    and impl/service_registry.ipp, impl/execution_context.ipp): the scheduler,
    the reactor, the socket service and the signal sets of main.cpp's
    io_context are in it.  A service is made when it is first used; its
    constructor may use other services, and keeps references to them.

    The mutex is left out (one thread), and with it what other threads may do
    while it is released.  What a service's constructor does with the registry
    is a parameter; what else services do is left out. *)

From S2P Require Import Prelude.

(** ** Data *)

Abbreviation ptr := Z.

(** A key has a [type_info] or an id, by its address. *)
Record key := mkKey { type_info_ : ptr; id_ : ptr }.

#[export] Instance key_eq_dec : EqDecision key.
Proof. solve_decision. Defined.

(** The pointer [destroy_]: null, or one of the registry's two functions. *)
Inductive destroy_function := no_destroy | destroy_allocated | destroy_added.

Inductive fork_event := fork_prepare | fork_parent | fork_child.

(** [execution_context::service], with the services that its constructor has
    used, which it may keep references to. *)
Record service := mkService {
  key_ : key;
  owner_ : ptr;
  next_ : ptr;
  destroy_ : destroy_function;
  references : list ptr;
}.

Definition service_new (owner : ptr) : service := mkService (mkKey 0 0) owner 0 no_destroy [].

Definition set_key (k : key) (s : service) : service := mkService k (owner_ s) (next_ s) (destroy_ s) (references s).
Definition set_next_service (p : ptr) (s : service) : service := mkService (key_ s) (owner_ s) p (destroy_ s) (references s).
Definition set_destroy (d : destroy_function) (s : service) : service :=
  mkService (key_ s) (owner_ s) (next_ s) d (references s).
Definition add_reference (p : ptr) (s : service) : service :=
  mkService (key_ s) (owner_ s) (next_ s) (destroy_ s) (references s ++ [p]).

(** What is done to services, in order. *)
Inductive event := ShutDown (p : ptr) | Destroyed (p : ptr) | Notified (p : ptr) (ev : fork_event).

Inductive exn := service_already_exists | invalid_service_owner | constructor_exception.
Inductive result (A : Type) := Returns (a : A) | Throws (x : exn).
Arguments Returns {A} a.
Arguments Throws {A} x.

(** What a constructor does: it uses services, each of which it may look at
    before it goes on, and it may throw. *)
Inductive construction := Built | ConstructorThrows | Uses (k : key) (rest : ptr -> construction).

(** The allocator. *)
Class ObjectHeap (K : Type) := {
  new_object : K -> ptr * K;
  delete_object : ptr -> K -> K;
}.

Record Registry (K : Type) := mkRegistry {
  services : gmap ptr service;
  first_service_ : ptr;
  registry_owner_ : ptr;
  events : list event;
  heap_state : K;
}.
Arguments mkRegistry {K} _ _ _ _ _.
Arguments services {K} _.
Arguments first_service_ {K} _.
Arguments registry_owner_ {K} _.
Arguments events {K} _.
Arguments heap_state {K} _.

Definition keys_match (key1 key2 : key) : bool :=
  (negb (id_ key1 =? 0) && negb (id_ key2 =? 0) && (id_ key1 =? id_ key2)) ||
  (negb (type_info_ key1 =? 0) && negb (type_info_ key2 =? 0) && (type_info_ key1 =? type_info_ key2)).

Section registry.
Context {K : Type} `{ObjectHeap K} (constructor_of : key -> construction).
Abbreviation M := (prog (Registry K)).
Implicit Types (S : Registry K) (p : ptr) (k : key).

Definition service_registry_new (owner : ptr) (h : K) : Registry K := mkRegistry ∅ 0 owner [] h.

Definition with_services m S : Registry K := mkRegistry m (first_service_ S) (registry_owner_ S) (events S) (heap_state S).
Definition with_first p S : Registry K := mkRegistry (services S) p (registry_owner_ S) (events S) (heap_state S).
Definition with_event e S : Registry K :=
  mkRegistry (services S) (first_service_ S) (registry_owner_ S) (events S ++ [e]) (heap_state S).
Definition with_heap h S : Registry K := mkRegistry (services S) (first_service_ S) (registry_owner_ S) (events S) h.

Definition load p : M service :=
  S ← get_state; match services S !! p with Some s => mret s | None => throw NullDeref end.
Definition store p (f : service -> service) : M unit :=
  S ← get_state; match services S !! p with
                 | Some s => put_state (with_services (<[p:=f s]> (services S)) S)
                 | None => throw NullDeref
                 end.
Definition get_first : M ptr := S ← get_state; mret (first_service_ S).
Definition put_first p : M unit := S ← get_state; put_state (with_first p S).
Definition emit e : M unit := S ← get_state; put_state (with_event e S).

(** As many services as there are. *)
Definition service_count : M nat := S ← get_state; mret (size (services S)).

Definition allocate_service : M ptr :=
  S ← get_state;
  let '(p, h) := new_object (heap_state S) in
  put_state (with_heap h (with_services (<[p:=service_new (registry_owner_ S)]> (services S)) S));; mret p.
Definition deallocate_service p : M unit :=
  S ← get_state; put_state (with_heap (delete_object p (heap_state S)) (with_services (delete p (services S)) S)).

(** [destroy_(service)]. *)
Definition call_destroy p : M unit :=
  s ← load p;
  match destroy_ s with
  | no_destroy => throw NullDeref
  | _ => emit (Destroyed p);; deallocate_service p
  end.

(** *** Finding *)

Fixpoint find_loop (fuel : nat) k p : M ptr :=
  match fuel with
  | O => loop_out
  | Datatypes.S fuel =>
      if p =? 0 then mret 0 else
      s ← load p;
      if keys_match (key_ s) k then mret p else find_loop fuel k (next_ s)
  end.

(** The service with this key, or null. *)
Definition find_service k : M ptr := n ← service_count; p ← get_first; find_loop (n + 1) k p.

Definition do_has_service k : M bool := p ← find_service k; mret (negb (p =? 0)).

(** *** Making *)

(** A constructor, given [use_service]. *)
Fixpoint run_constructor (use : key -> M (result ptr)) p (c : construction) : M (result unit) :=
  match c with
  | Built => mret (Returns tt)
  | ConstructorThrows => mret (Throws constructor_exception)
  | Uses k rest =>
      r ← use k;
      match r with
      | Throws x => mret (Throws x)
      | Returns q => store p (add_reference q);; run_constructor use p (rest q)
      end
  end.

(** [create<Service>]. *)
Definition create (use : key -> M (result ptr)) k : M (result ptr) :=
  p ← allocate_service;
  r ← run_constructor use p (constructor_of k);
  match r with
  | Throws x => deallocate_service p;; mret (Throws x)
  | Returns _ => store p (set_destroy destroy_allocated);; mret (Returns p)
  end.

(** [depth] bounds how deep constructors nest. *)
Fixpoint do_use_service (depth : nat) k : M (result ptr) :=
  match depth with
  | O => loop_out
  | Datatypes.S depth =>
      service ← find_service k;
      if negb (service =? 0) then mret (Returns service) else
      new_service ← create (do_use_service depth) k;
      match new_service with
      | Throws x => mret (Throws x)
      | Returns new_service =>
          store new_service (set_key k);;
          service ← find_service k;
          if negb (service =? 0) then call_destroy new_service;; mret (Returns service) else
          first ← get_first;
          store new_service (set_next_service first);; put_first new_service;; mret (Returns new_service)
      end
  end.

Definition do_add_service k (new_service : ptr) : M (result unit) :=
  S ← get_state;
  s ← load new_service;
  if negb (registry_owner_ S =? owner_ s) then mret (Throws invalid_service_owner) else
  service ← find_service k;
  if negb (service =? 0) then mret (Throws service_already_exists) else
  (match destroy_ s with no_destroy => store new_service (set_destroy destroy_added) | _ => mret tt end);;
  store new_service (set_key k);;
  first ← get_first;
  store new_service (set_next_service first);; put_first new_service;; mret (Returns tt).

Definition make_service (depth : nat) k : M (result ptr) :=
  new_service ← create (do_use_service depth) k;
  match new_service with
  | Throws x => mret (Throws x)
  | Returns new_service =>
      r ← do_add_service k new_service;
      match r with
      | Throws x => call_destroy new_service;; mret (Throws x)
      | Returns _ => mret (Returns new_service)
      end
  end.

(** *** All services *)

Fixpoint shutdown_loop (fuel : nat) p : M unit :=
  match fuel with
  | O => loop_out
  | Datatypes.S fuel => if p =? 0 then mret tt else emit (ShutDown p);; s ← load p; shutdown_loop fuel (next_ s)
  end.
Definition shutdown_services : M unit := n ← service_count; p ← get_first; shutdown_loop (n + 1) p.

Fixpoint destroy_loop (fuel : nat) : M unit :=
  match fuel with
  | O => loop_out
  | Datatypes.S fuel =>
      p ← get_first;
      if p =? 0 then mret tt else
      s ← load p; call_destroy p;; put_first (next_ s);; destroy_loop fuel
  end.
Definition destroy_services : M unit := n ← service_count; destroy_loop (n + 1).

Fixpoint collect_loop (fuel : nat) p : M (list ptr) :=
  match fuel with
  | O => loop_out
  | Datatypes.S fuel => if p =? 0 then mret [] else s ← load p; l ← collect_loop fuel (next_ s); mret (p :: l)
  end.
Fixpoint notify_all (ev : fork_event) (l : list ptr) : M unit :=
  match l with [] => mret tt | p :: l => emit (Notified p ev);; notify_all ev l end.
Definition notify_fork (ev : fork_event) : M unit :=
  n ← service_count; p ← get_first; l ← collect_loop (n + 1) p;
  notify_all ev (match ev with fork_prepare => l | _ => reverse l end).

(** [~io_context], which shuts down its services, and the destructor of its
    base class, which does so again and destroys them. *)
Definition io_context_destroy : M unit := shutdown_services;; shutdown_services;; destroy_services.
End registry.
