(* ===== verification/ServiceRules.v ===== *)
(** * Rules for the service registry

    The shape of the registry's list, and what finding, making and adding
    services does to it. *)

From S2P Require Import Prelude LinkedList ServiceRegistry.

(** ** Keys *)

(** Either a type or an id. *)
Definition key_ok (k : key) : Prop := (id_ k = 0 /\ type_info_ k <> 0) \/ (id_ k <> 0 /\ type_info_ k = 0).

Lemma keys_match_eq k1 k2 : key_ok k1 -> key_ok k2 -> keys_match k1 k2 = bool_decide (k1 = k2).
Proof.
  destruct k1 as [t1 i1], k2 as [t2 i2]. unfold key_ok, keys_match. simpl. intros H1 H2. apply eq_true_iff_eq.
  rewrite bool_decide_eq_true, orb_true_iff, !andb_true_iff, !negb_true_iff, !Z.eqb_neq, !Z.eqb_eq.
  split; [intros; f_equal; lia|intros [= -> ->]; lia].
Qed.

(** The allocator gives new objects. *)
Class ObjectHeapOk (K : Type) `{ObjectHeap K} := {
  live : K -> gset Z;
  new_object_law h : let '(p, h') := new_object h in p <> 0 /\ (p ∉ live h) /\ live h' = {[p]} ∪ live h;
  delete_object_law p h : live (delete_object p h) = live h ∖ {[p]};
}.

(** [rank] bounds how deep the constructor of a service nests: it uses
    services of a lower rank. *)
Inductive proper (rank : key -> nat) (n : nat) : construction -> Prop :=
| proper_built : proper rank n Built
| proper_throws : proper rank n ConstructorThrows
| proper_uses k rest : key_ok k -> (rank k < n)%nat -> (forall p, proper rank n (rest p)) -> proper rank n (Uses k rest).

(** A constructor uses [k], or may, depending on what it gets. *)
Inductive uses_key : construction -> key -> Prop :=
| uses_here k rest : uses_key (Uses k rest) k
| uses_later k rest p k' : uses_key (rest p) k' -> uses_key (Uses k rest) k'.

(** Using [k] may come to using [k']. *)
Definition requested (constructor_of : key -> construction) : key -> key -> Prop :=
  rtc (fun k k' => uses_key (constructor_of k) k').
Definition needs (constructor_of : key -> construction) (c : construction) (k' : key) : Prop :=
  exists k, uses_key c k /\ requested constructor_of k k'.

Lemma needs_requested constructor_of k k' : needs constructor_of (constructor_of k) k' -> requested constructor_of k k'.
Proof. intros (k1 & H1 & H2). by eapply rtc_l. Qed.

Lemma needs_here constructor_of k rest k' : requested constructor_of k k' -> needs constructor_of (Uses k rest) k'.
Proof. intros Hr. exists k. split; [apply uses_here|done]. Qed.

Lemma needs_rest constructor_of k rest p k' : needs constructor_of (rest p) k' -> needs constructor_of (Uses k rest) k'.
Proof. intros (k1 & H1 & H2). exists k1. split; [by eapply uses_later|done]. Qed.

Section rules.
Context {K : Type} `{ObjectHeapOk K} (base : gset Z).
Implicit Types (S : Registry K) (p : Z) (k : key) (L P : list Z).

Definition next_of S p : option Z := next_ <$> services S !! p.
Definition key_at S p : option key := key_ <$> services S !! p.
Definition keys_of S L : list (option key) := key_at S <$> L.

(** Each service comes before those that it refers to. *)
Fixpoint grounded S L : Prop :=
  match L with
  | [] => True
  | p :: L => (forall s, services S !! p = Some s -> forall q, q ∈ references s -> q ∈ L) /\ grounded S L
  end.

(** The services [L] are in the registry; [P] are being made, the latest
    first; [base] are the objects of the heap that are not services. *)
Record registered S L P : Prop := {
  rg_list : sseg (next_of S) (first_service_ S) L 0;
  rg_nodup : NoDup (L ++ P);
  rg_services p : is_Some (services S !! p) <-> p ∈ L ++ P;
  rg_keys : NoDup (keys_of S L);
  rg_key p s : p ∈ L -> services S !! p = Some s -> key_ok (key_ s) /\ destroy_ s <> no_destroy;
  rg_grounded : grounded S L;
  rg_pending p s q : p ∈ P -> services S !! p = Some s -> q ∈ references s -> q ∈ L;
  rg_owner p s : services S !! p = Some s -> owner_ s = registry_owner_ S;
  rg_nonzero p : p ∈ L ++ P -> p <> 0;
  rg_base p : p ∈ L ++ P -> p ∉ base;
  rg_live : live (heap_state S) = base ∪ list_to_set (L ++ P);
}.

(** These services have not changed. *)
Definition kept S S' L : Prop := forall p, p ∈ L -> services S' !! p = services S !! p.

Lemma grounded_kept S S' L : kept S S' L -> grounded S L -> grounded S' L.
Proof.
  induction L as [|p L IH]; intros Hk; [done|]. intros [Hp HL]. split.
  - intros s Hs. rewrite Hk in Hs by by left. by apply Hp.
  - apply IH; [|done]. intros q Hq. apply Hk. by right.
Qed.

Lemma keys_kept S S' L : kept S S' L -> keys_of S' L = keys_of S L.
Proof. intros Hk. apply list_fmap_ext. intros j p Hp. unfold key_at. rewrite Hk; [done|]. by eapply list_elem_of_lookup_2. Qed.

Lemma kept_trans S1 S2 S3 L1 L2 : kept S1 S2 L1 -> kept S2 S3 L2 -> (forall p, p ∈ L1 -> p ∈ L2) -> kept S1 S3 L1.
Proof. intros H12 H23 Hsub p Hp. rewrite H23 by auto. by apply H12. Qed.

Lemma list_bound S L P : registered S L P -> (length L <= size (services S))%nat.
Proof.
  intros Hr. pose proof (rg_nodup _ _ _ Hr) as Hnd. apply NoDup_app in Hnd as (Hnd & _ & _).
  rewrite <- (size_list_to_set (C := gset Z) L Hnd), <- size_dom. apply subseteq_size. intros p.
  rewrite elem_of_list_to_set, elem_of_dom. intros Hp. apply (rg_services _ _ _ Hr). rewrite elem_of_app. by left.
Qed.

(** ** Statements *)

Lemma wp_load_service p s S (Phi : service -> Registry K -> Prop) : services S !! p = Some s -> Phi s S -> wp (load p) S Phi.
Proof. intros Hs HP. unfold load. apply wp_bind, wp_get. rewrite Hs. by apply wp_ret. Qed.

Lemma wp_store_service p f s S (Phi : unit -> Registry K -> Prop) : services S !! p = Some s ->
  Phi tt (with_services (<[p:=f s]> (services S)) S) -> wp (store p f) S Phi.
Proof. intros Hs HP. unfold store. apply wp_bind, wp_get. rewrite Hs. by apply wp_put. Qed.

Lemma wp_get_first S (Phi : Z -> Registry K -> Prop) : Phi (first_service_ S) S -> wp get_first S Phi.
Proof. intros HP. by apply wp_bind, wp_get, wp_ret. Qed.

Lemma wp_put_first p S (Phi : unit -> Registry K -> Prop) : Phi tt (with_first p S) -> wp (put_first p) S Phi.
Proof. intros HP. by apply wp_bind, wp_get, wp_put. Qed.

Lemma wp_service_count S (Phi : nat -> Registry K -> Prop) : Phi (size (services S)) S -> wp service_count S Phi.
Proof. intros HP. by apply wp_bind, wp_get, wp_ret. Qed.

(** ** Finding *)

Lemma wp_find_loop fuel k a L S (Phi : Z -> Registry K -> Prop) : sseg (next_of S) a L 0 -> key_ok k ->
  (forall p s, p ∈ L -> services S !! p = Some s -> p <> 0 /\ key_ok (key_ s)) -> (length L < fuel)%nat ->
  ((Some k ∉ keys_of S L) -> Phi 0 S) -> (forall p, p ∈ L -> key_at S p = Some k -> Phi p S) ->
  wp (find_loop fuel k a) S Phi.
Proof.
  intros Hseg Hk. revert a L Hseg. induction fuel as [|fuel IH]; intros a L Hseg HL Hf H0' HP; [lia|]. cbn [find_loop].
  destruct L as [|p L]; [simpl in Hseg; subst a; apply wp_ret, H0', not_elem_of_nil|].
  destruct Hseg as (-> & n & Hn & Hseg). unfold next_of in Hn. apply fmap_Some in Hn as (s & Hs & ->).
  destruct (HL p s) as [Hp Hks]; [by left|done|]. rewrite (proj2 (Z.eqb_neq p 0)) by done.
  apply wp_bind. eapply wp_load_service; [exact Hs|]. rewrite keys_match_eq by done.
  assert (key_at S p = Some (key_ s)) as Ekey by (unfold key_at; by rewrite Hs).
  case_bool_decide as E; [apply wp_ret, HP; [by left|congruence]|].
  apply (IH _ L Hseg); [intros q s' Hq; apply HL; by right|simpl in Hf; lia| |intros q Hq; apply HP; by right].
  intros Hni. apply H0'. unfold keys_of. simpl. rewrite Ekey, elem_of_cons. intros [[= ->]|]; done.
Qed.

Lemma wp_find_service k S L P (Phi : Z -> Registry K -> Prop) : registered S L P -> key_ok k ->
  ((Some k ∉ keys_of S L) -> Phi 0 S) -> (forall p, p ∈ L -> p <> 0 -> key_at S p = Some k -> Phi p S) ->
  wp (find_service k) S Phi.
Proof.
  intros Hr Hk H0' HP. unfold find_service. apply wp_bind, wp_service_count, wp_bind, wp_get_first.
  assert (forall p, p ∈ L -> p <> 0) as Hnn.
  { intros p Hp. apply (rg_nonzero _ _ _ Hr). rewrite elem_of_app. by left. }
  apply (wp_find_loop _ _ _ L); [apply (rg_list _ _ _ Hr)|done| |pose proof (list_bound _ _ _ Hr); lia|done|auto].
  intros p s Hp Hs. split; [auto|]. by apply (rg_key _ _ _ Hr p s).
Qed.

(** ** Services in the making *)

(** Nothing else has changed than the services that are not in [Q]. *)
Record frame S S' Q : Prop := {
  fr_kept : kept S S' Q;
  fr_owner : registry_owner_ S' = registry_owner_ S;
  fr_events : events S' = events S;
}.

Lemma frame_refl S Q : frame S S Q.
Proof. by split. Qed.

Lemma frame_trans S1 S2 S3 Q1 Q2 : frame S1 S2 Q1 -> frame S2 S3 Q2 -> (forall p, p ∈ Q1 -> p ∈ Q2) -> frame S1 S3 Q1.
Proof. intros [A1 A2 A3] [B1 B2 B3] Hsub. split; [by eapply kept_trans|congruence..]. Qed.

Lemma wp_allocate_service S L P (Phi : Z -> Registry K -> Prop) : registered S L P ->
  (forall p S', registered S' L (p :: P) -> frame S S' (L ++ P) -> services S' !! p = Some (service_new (registry_owner_ S)) ->
     first_service_ S' = first_service_ S -> Phi p S') -> wp allocate_service S Phi.
Proof.
  intros Hr HP. unfold allocate_service. apply wp_bind, wp_get. pose proof (new_object_law (heap_state S)) as Hlaw.
  destruct (new_object (heap_state S)) as [p h]. destruct Hlaw as (Hp & Hfresh & Hlive). apply wp_bind, wp_put, wp_ret.
  assert (forall q, q ∈ L ++ P -> q <> p) as Hne by (intros q Hq ->; apply Hfresh; rewrite (rg_live _ _ _ Hr); set_solver).
  assert (forall Q, (forall q, q ∈ Q -> q ∈ L ++ P) -> kept S (with_heap h (with_services (<[p:=service_new (registry_owner_ S)]> (services S)) S)) Q) as Hk.
  { intros Q HQ q Hq. simpl. apply lookup_insert_ne. intros <-. by apply (Hne p); [apply HQ|]. }
  assert (forall q, q ∈ L -> q ∈ L ++ P) as HL by (intros q Hq; rewrite elem_of_app; by left).
  apply HP; [|split; [by apply Hk|done..]|simpl; by rewrite lookup_insert_eq|done].
  destruct Hr as [R1 R2 R3 R4 R5 R6 R7 R8 R9 R10 R11]. split; simpl.
  - eapply sseg_same; [|exact R1]. intros q Hq. unfold next_of. by rewrite (Hk L HL q Hq).
  - rewrite <- Permutation_middle. constructor; [|done]. intros Hin. by apply (Hne p).
  - intros q. rewrite <- Permutation_middle, elem_of_cons. destruct (decide (p = q)) as [<-|Hpq].
    + rewrite lookup_insert_eq. split; [by left|by eexists].
    + rewrite lookup_insert_ne by done. rewrite R3. naive_solver.
  - by rewrite (keys_kept _ _ L (Hk L HL)).
  - intros q s Hq Hs. rewrite lookup_insert_ne in Hs by (intros <-; by apply (Hne p); [auto|]). by apply (R5 q).
  - by apply (grounded_kept _ _ _ (Hk L HL)).
  - intros q s x Hq Hs. apply elem_of_cons in Hq as [->|Hq].
    + rewrite lookup_insert_eq in Hs. injection Hs as <-. by intros ?%elem_of_nil.
    + rewrite lookup_insert_ne in Hs by (intros <-; by apply (Hne p); [rewrite elem_of_app; by right|]). by apply (R7 q).
  - intros q s Hs. destruct (decide (p = q)) as [<-|Hpq]; [rewrite lookup_insert_eq in Hs; by injection Hs as <-|].
    rewrite lookup_insert_ne in Hs by done. by apply (R8 q).
  - intros q. rewrite <- Permutation_middle, elem_of_cons. intros [->|Hq]; [done|by apply R9].
  - intros q. rewrite <- Permutation_middle, elem_of_cons. intros [->|Hq]; [set_solver|by apply R10].
  - rewrite Hlive, R11, <- Permutation_middle. set_solver.
Qed.

(** A service in the making may be changed. *)
Lemma registered_change p f s S L P : registered S L (p :: P) -> services S !! p = Some s -> owner_ (f s) = owner_ s ->
  (forall q, q ∈ references (f s) -> q ∈ L) ->
  let S' := with_services (<[p:=f s]> (services S)) S in registered S' L (p :: P) /\ frame S S' (L ++ P).
Proof.
  intros Hr Hs Ho Hrefs S'. pose proof (rg_nodup _ _ _ Hr) as Hnd. rewrite <- Permutation_middle in Hnd. apply NoDup_cons in Hnd as [Hp Hnd].
  assert (forall Q, (forall q, q ∈ Q -> q ∈ L ++ P) -> kept S S' Q) as Hk.
  { intros Q HQ q Hq. simpl. apply lookup_insert_ne. intros <-. by apply Hp, HQ. }
  assert (forall q, q ∈ L -> q ∈ L ++ P) as HL by (intros q Hq; rewrite elem_of_app; by left).
  split; [|split; [by apply Hk|done..]]. destruct Hr as [R1 R2 R3 R4 R5 R6 R7 R8 R9 R10 R11]. split; simpl.
  - eapply sseg_same; [|exact R1]. intros q Hq. unfold next_of. by rewrite (Hk L HL q Hq).
  - done.
  - intros q. rewrite <- R3. destruct (decide (p = q)) as [<-|Hpq]; [|by rewrite lookup_insert_ne].
    rewrite lookup_insert_eq, Hs. split; by eexists.
  - by rewrite (keys_kept _ _ L (Hk L HL)).
  - intros q s' Hq Hs'. rewrite lookup_insert_ne in Hs' by (intros <-; by apply Hp, HL). by apply (R5 q).
  - by apply (grounded_kept _ _ _ (Hk L HL)).
  - intros q s' x Hq Hs'. destruct (decide (p = q)) as [<-|Hpq].
    + rewrite lookup_insert_eq in Hs'. injection Hs' as <-. apply Hrefs.
    + rewrite lookup_insert_ne in Hs' by done. by apply (R7 q).
  - intros q s' Hs'. destruct (decide (p = q)) as [<-|Hpq].
    + rewrite lookup_insert_eq in Hs'. injection Hs' as <-. rewrite Ho. by apply (R8 p).
    + rewrite lookup_insert_ne in Hs' by done. by apply (R8 q).
  - done.
  - done.
  - done.
Qed.

(** Deleted. *)
Lemma registered_delete p S L P : registered S L (p :: P) ->
  let S' := with_heap (delete_object p (heap_state S)) (with_services (delete p (services S)) S) in
  registered S' L P /\ frame S S' (L ++ P).
Proof.
  intros Hr S'. pose proof (rg_nodup _ _ _ Hr) as Hnd. rewrite <- Permutation_middle in Hnd. apply NoDup_cons in Hnd as [Hp Hnd].
  assert (forall Q, (forall q, q ∈ Q -> q ∈ L ++ P) -> kept S S' Q) as Hk.
  { intros Q HQ q Hq. simpl. apply lookup_delete_ne. intros <-. by apply Hp, HQ. }
  assert (forall q, q ∈ L -> q ∈ L ++ P) as HL by (intros q Hq; rewrite elem_of_app; by left).
  split; [|split; [by apply Hk|done..]]. destruct Hr as [R1 R2 R3 R4 R5 R6 R7 R8 R9 R10 R11]. split; simpl.
  - eapply sseg_same; [|exact R1]. intros q Hq. unfold next_of. by rewrite (Hk L HL q Hq).
  - done.
  - intros q. specialize (R3 q). rewrite <- Permutation_middle, elem_of_cons in R3. destruct (decide (p = q)) as [<-|Hpq].
    + rewrite lookup_delete_eq. split; [by intros [? ?]|done].
    + rewrite lookup_delete_ne, R3 by done. naive_solver.
  - by rewrite (keys_kept _ _ L (Hk L HL)).
  - intros q s' Hq Hs'. rewrite lookup_delete_ne in Hs' by (intros <-; by apply Hp, HL). by apply (R5 q).
  - by apply (grounded_kept _ _ _ (Hk L HL)).
  - intros q s' x Hq Hs'. rewrite lookup_delete_ne in Hs' by (intros <-; apply Hp; rewrite elem_of_app; by right).
    apply (R7 q s'); [by right|done].
  - intros q s' Hs'. destruct (decide (p = q)) as [<-|Hpq]; [by rewrite lookup_delete_eq in Hs'|].
    rewrite lookup_delete_ne in Hs' by done. by apply (R8 q).
  - intros q Hq. apply R9. rewrite <- Permutation_middle. by right.
  - intros q Hq. apply R10. rewrite <- Permutation_middle. by right.
  - rewrite delete_object_law, R11, <- Permutation_middle. simpl. assert (p ∉ base) by (apply R10; rewrite <- Permutation_middle; by left).
    assert (p ∉ list_to_set (C := gset Z) (L ++ P)) by (by rewrite elem_of_list_to_set). set_solver.
Qed.

(** Put at the front of the list. *)
Lemma registered_link p s S L P : registered S L (p :: P) -> services S !! p = Some s -> key_ok (key_ s) -> destroy_ s <> no_destroy ->
  next_ s = first_service_ S -> (Some (key_ s) ∉ keys_of S L) ->
  registered (with_first p S) (p :: L) P.
Proof.
  intros [R1 R2 R3 R4 R5 R6 R7 R8 R9 R10 R11] Hs Hk Hd Hn Hfresh.
  assert (L ++ p :: P ≡ₚ (p :: L) ++ P) as Hperm by by rewrite <- Permutation_middle.
  split; simpl.
  - split; [done|]. exists (first_service_ S). unfold next_of at 1. simpl. rewrite Hs. simpl. rewrite Hn. split; [done|].
    exact R1.
  - by rewrite Hperm in R2.
  - intros q. by rewrite (R3 q), Hperm.
  - unfold keys_of. simpl. constructor; [|done]. unfold key_at at 1. simpl. by rewrite Hs.
  - intros q s' Hq Hs'. apply elem_of_cons in Hq as [->|Hq]; [|by apply (R5 q)]. assert (s' = s) as -> by congruence. done.
  - split; [|by apply (grounded_kept S)]. intros s' Hs' q. assert (s' = s) as -> by (simpl in Hs'; congruence). apply (R7 p); [by left|done].
  - intros q s' x Hq Hs' Hx. right. apply (R7 q s'); [by right|done|done].
  - done.
  - intros q Hq. apply R9. by rewrite Hperm.
  - intros q Hq. apply R10. by rewrite Hperm.
  - by rewrite R11, Hperm.
Qed.
End rules.
