(* ===== verification/ServiceSteps.v ===== *)
(** * Using and making services

    [do_use_service] finds a service or makes it, with those that its
    constructor uses; the services of an acyclic context are all made. *)

From S2P Require Import Prelude LinkedList ServiceRegistry ServiceRules.

Section steps.
Context {K : Type} `{ObjectHeapOk K} (base : gset Z) (constructor_of : key -> construction) (rank : key -> nat).
Context (Hproper : forall k, key_ok k -> proper rank (rank k) (constructor_of k)).
#[local] Abbreviation registered := (registered base).
Implicit Types (S : Registry K) (p : Z) (k : key) (L P : list Z) (n : nat).

Implicit Types Q : key -> Prop.

(** The keys of the services satisfy [Q]. *)
Definition within Q S L : Prop := forall q, q ∈ L -> exists k, key_at S q = Some k /\ Q k.

Lemma within_kept Q Q' S S' L : kept S S' L -> within Q S L -> (forall k, Q k -> Q' k) -> within Q' S' L.
Proof.
  intros Hk HL HQ q Hq. destruct (HL q Hq) as (k & E & Hr). exists k. unfold key_at in *. rewrite Hk by done. auto.
Qed.

Lemma within_mono Q Q' S L : within Q S L -> (forall k, Q k -> Q' k) -> within Q' S L.
Proof. intros HL. by apply (within_kept Q Q' S S L). Qed.

Lemma within_app Q S L1 L2 : within Q S L1 -> within Q S L2 -> within Q S (L1 ++ L2).
Proof. intros H1 H2 q [Hq|Hq]%elem_of_app; auto. Qed.

Lemma within_nil Q S : within Q S [].
Proof. by intros ? ?%elem_of_nil. Qed.

(** What a constructor that nests up to [n] deep may make. *)
Definition below n (c : construction) k : Prop := (rank k < n)%nat /\ needs constructor_of c k.

(** What using the service [k] comes to. *)
Definition used k S L P (r : result Z) S' : Prop := exists new, registered S' (new ++ L) P /\ frame S S' (L ++ P) /\
  match r with
  | Returns p => within (fun k' => (rank k' <= rank k)%nat /\ requested constructor_of k k') S' new /\ p ∈ new ++ L /\ key_at S' p = Some k /\
      (Some k ∈ keys_of S L /\ new = [] \/ (Some k ∉ keys_of S L) /\ head new = Some p)
  | Throws x => within (below (rank k) (constructor_of k)) S' new /\ x = constructor_exception /\ (Some k ∉ keys_of S L)
  end.

(** What holds of a service [p] whose constructor has made progress. *)
Record progress Q S L P p s S' s' new : Prop := {
  pg_registered : registered S' (new ++ L) (p :: P);
  pg_frame : frame S S' (L ++ P);
  pg_below : within Q S' new;
  pg_service : services S' !! p = Some s';
  pg_key : key_ s' = key_ s;
  pg_destroy : destroy_ s' = destroy_ s;
}.

Lemma progress_trans Q S L P p s S1 s1 new1 S2 s2 new2 : progress Q S L P p s S1 s1 new1 ->
  progress Q S1 (new1 ++ L) P p s1 S2 s2 new2 -> progress Q S L P p s S2 s2 (new2 ++ new1).
Proof.
  intros [A1 A2 A3 A4 A5 A6] [B1 B2 B3 B4 B5 B6]. split; try congruence.
  - by rewrite <- app_assoc.
  - eapply frame_trans; [done..|]. intros q. rewrite !elem_of_app. tauto.
  - apply within_app; [done|]. eapply within_kept; [|done|done]. intros q Hq. apply (fr_kept _ _ _ B2). rewrite !elem_of_app. tauto.
Qed.

Lemma progress_mono Q Q' S L P p s S' s' new : progress Q S L P p s S' s' new -> (forall k, Q k -> Q' k) ->
  progress Q' S L P p s S' s' new.
Proof. intros [A1 A2 A3 A4 A5 A6] HQ. split; [done..| |done|done|done]. by eapply within_mono. Qed.

(** Changing [p] is progress. *)
Lemma progress_change Q p f s S L P : registered S L (p :: P) -> services S !! p = Some s -> owner_ (f s) = owner_ s ->
  key_ (f s) = key_ s -> destroy_ (f s) = destroy_ s -> (forall q, q ∈ references (f s) -> q ∈ L) ->
  progress Q S L P p s (with_services (<[p:=f s]> (services S)) S) (f s) [].
Proof.
  intros Hr Hs Ho Hk Hd Hrefs. destruct (registered_change base p f s S L P Hr Hs Ho Hrefs) as [Hr' Hf].
  split; [done|done|apply within_nil|simpl; by rewrite lookup_insert_eq|done|done].
Qed.

Definition only_constructors {A} (r : result A) : Prop :=
  match r with Returns _ => True | Throws x => x = constructor_exception end.

Lemma wp_run_constructor n (use : key -> prog (Registry K) (result Z)) c p :
  (forall k S L P, key_ok k -> (rank k < n)%nat -> registered S L P -> wp (use k) S (used k S L P)) ->
  proper rank n c -> forall s S L P, registered S L (p :: P) -> services S !! p = Some s ->
  wp (run_constructor use p c) S (fun r S' => exists s' new, progress (below n c) S L P p s S' s' new /\ only_constructors r).
Proof.
  intros Huse. induction c as [| |k rest IH]; intros Hc s S L P Hr Hs; cbn [run_constructor].
  - apply wp_ret. exists s, []. split; [|done]. split; [done|apply frame_refl|apply within_nil|done..].
  - apply wp_ret. exists s, []. split; [|done]. split; [done|apply frame_refl|apply within_nil|done..].
  - inversion Hc as [| |? ? Hk Hrank Hrest]; subst. apply wp_bind. eapply wp_mono; [by apply Huse|].
    intros r S1 (new & Hr1 & Hf1 & Hres).
    assert (services S1 !! p = Some s) as Hs1.
    { rewrite (fr_kept _ _ _ Hf1); [done|]. rewrite elem_of_app. right. by left. }
    assert (frame S S1 (L ++ P)) as Hf1'.
    { eapply frame_trans; [apply frame_refl|exact Hf1|]. intros q. rewrite !elem_of_app, elem_of_cons. tauto. }
    destruct r as [q|x].
    2: { destruct Hres as (Hb & -> & _). apply wp_ret. exists s, new. split; [|done]. split; [done|done| |done..].
         eapply within_mono; [exact Hb|]. intros k' [Hlt Hn]. split; [lia|]. by eapply needs_here, needs_requested. }
    destruct Hres as (Hb & Hq & _). apply wp_bind. eapply wp_store_service; [exact Hs1|].
    assert (forall y, y ∈ references (add_reference q s) -> y ∈ new ++ L) as Hrefs.
    { intros y. simpl. intros [Hy|Hy%list_elem_of_singleton]%elem_of_app; [|by subst].
      apply (rg_pending _ _ _ _ Hr1 p s); [by left|done|done]. }
    pose proof (progress_change (below n (Uses k rest)) p (add_reference q) s S1 (new ++ L) P Hr1 Hs1 eq_refl eq_refl eq_refl Hrefs) as Hp2.
    assert (progress (below n (Uses k rest)) S L P p s S1 s new) as Hp1.
    { split; [done|done| |done..]. eapply within_mono; [exact Hb|]. intros k' [Hle Hreq]. split; [lia|by apply needs_here]. }
    pose proof (progress_trans _ _ _ _ _ _ _ _ _ _ _ _ Hp1 Hp2) as Hp12. simpl in Hp12.
    eapply wp_mono; [eapply (IH q (Hrest q)); [apply Hp12|apply Hp12]|].
    intros r S3 (s3 & new3 & Hp3 & Hr3). exists s3, (new3 ++ new). split; [|done]. eapply progress_trans; [exact Hp12|].
    eapply progress_mono; [exact Hp3|]. intros k' [Hlt Hn]. split; [done|by eapply needs_rest].
Qed.

(** What making a service comes to. *)
Definition made Q S L P (r : result Z) S' : Prop := exists new,
  match r with
  | Returns p => exists s s', destroy_ s' = destroy_allocated /\ progress Q S L P p s S' s' new
  | Throws x => registered S' (new ++ L) P /\ frame S S' (L ++ P) /\ within Q S' new /\ x = constructor_exception
  end.

Lemma wp_create (use : key -> prog (Registry K) (result Z)) k S L P :
  (forall k' S L P, key_ok k' -> (rank k' < rank k)%nat -> registered S L P -> wp (use k') S (used k' S L P)) ->
  key_ok k -> registered S L P -> wp (create constructor_of use k) S (made (below (rank k) (constructor_of k)) S L P).
Proof.
  intros Huse Hk Hr. unfold create. apply wp_bind. eapply wp_allocate_service; [exact Hr|]. intros p S1 Hr1 Hf1 Hs1 _.
  apply wp_bind. eapply wp_mono; [eapply (wp_run_constructor (rank k)); [done|by apply Hproper|done|exact Hs1]|].
  intros r S2 (s2 & new & Hp & Hres).
  assert (frame S S2 (L ++ P)) as Hf2 by (eapply frame_trans; [exact Hf1|apply Hp|done]).
  pose proof (pg_registered _ _ _ _ _ _ _ _ _ Hp) as Hr2. pose proof (pg_service _ _ _ _ _ _ _ _ _ Hp) as Hs2.
  destruct r as [[]|x].
  - apply wp_bind. eapply wp_store_service; [exact Hs2|]. apply wp_ret. exists new, (set_destroy destroy_allocated s2), (set_destroy destroy_allocated s2).
    split; [done|]. destruct (registered_change base p (set_destroy destroy_allocated) s2 S2 (new ++ L) P Hr2 Hs2 eq_refl) as [Hr3 Hf3].
    { intros q. apply (rg_pending _ _ _ _ Hr2 p s2); [by left|done]. }
    split; [done| | |simpl; by rewrite lookup_insert_eq|done|done].
    + eapply frame_trans; [exact Hf2|exact Hf3|]. intros q. rewrite !elem_of_app. tauto.
    + eapply within_kept; [|apply (pg_below _ _ _ _ _ _ _ _ _ Hp)|done]. intros q Hq. apply (fr_kept _ _ _ Hf3). rewrite !elem_of_app. tauto.
  - apply wp_bind. unfold deallocate_service. apply wp_bind, wp_get, wp_put, wp_ret.
    destruct (registered_delete base p S2 (new ++ L) P Hr2) as [Hr3 Hf3]. exists new. split_and!; [done| | |done].
    + eapply frame_trans; [exact Hf2|exact Hf3|]. intros q. rewrite !elem_of_app. tauto.
    + eapply within_kept; [|apply (pg_below _ _ _ _ _ _ _ _ _ Hp)|done]. intros q Hq. apply (fr_kept _ _ _ Hf3). rewrite !elem_of_app. tauto.
Qed.

(** The new service gets its key, and goes to the front of the list. *)
Lemma key_elem S L p k : p ∈ L -> key_at S p = Some k -> Some k ∈ keys_of S L.
Proof. intros Hp Hk. apply list_elem_of_fmap. by exists p. Qed.

Lemma key_fresh Q k S S' L P new : frame S S' (L ++ P) -> within Q S' new -> (forall k', Q k' -> (rank k' < rank k)%nat) -> (Some k ∉ keys_of S L) ->
  Some k ∉ keys_of S' (new ++ L).
Proof.
  intros Hf Hb Hn Hk. unfold keys_of. rewrite fmap_app, elem_of_app. intros [(q & Hq & Hin)%list_elem_of_fmap|Hin].
  - destruct (Hb q Hin) as (k' & E & Hr). rewrite E in Hq. injection Hq as ->. apply Hn in Hr. lia.
  - apply Hk. change (Some k ∈ keys_of S' L) in Hin. rewrite (keys_kept S S') in Hin; [done|].
    intros q Hq. apply (fr_kept _ _ _ Hf). rewrite elem_of_app. by left.
Qed.

(** The end of [do_use_service] and of [do_add_service]. *)
Lemma wp_link {B} p s (r : B) S L P (Phi : B -> Registry K -> Prop) : registered S L (p :: P) -> services S !! p = Some s ->
  key_ok (key_ s) -> destroy_ s <> no_destroy -> (Some (key_ s) ∉ keys_of S L) ->
  (forall S', registered S' (p :: L) P -> frame S S' (L ++ P) -> key_at S' p = Some (key_ s) -> Phi r S') ->
  wp (first ← get_first; store p (set_next_service first);; put_first p;; mret r) S Phi.
Proof.
  intros Hr Hs Hk Hd Hfresh HP. apply wp_bind, wp_get_first, wp_bind. eapply wp_store_service; [exact Hs|].
  destruct (registered_change base p (set_next_service (first_service_ S)) s S L P Hr Hs eq_refl) as [Hr2 Hf2].
  { intros q. apply (rg_pending _ _ _ _ Hr p s); [by left|done]. }
  apply wp_bind, wp_put_first, wp_ret. set (S2 := with_services _ S) in *.
  assert (services S2 !! p = Some (set_next_service (first_service_ S) s)) as Hs2 by (simpl; by rewrite lookup_insert_eq).
  apply HP.
  - eapply (registered_link base); [exact Hr2|exact Hs2|done|done|done|].
    rewrite (keys_kept S S2); [done|]. intros q Hq. apply (fr_kept _ _ _ Hf2). rewrite elem_of_app. by left.
  - destruct Hf2. by split.
  - unfold key_at. simpl. by rewrite lookup_insert_eq.
Qed.

Lemma wp_do_use_service depth k S L P : (rank k < depth)%nat -> key_ok k -> registered S L P ->
  wp (do_use_service constructor_of depth k) S (used k S L P).
Proof.
  revert k S L P. induction depth as [|depth IH]; intros k S L P Hd Hk Hr; [lia|]. cbn [do_use_service].
  apply wp_bind. eapply (wp_find_service base k S L P); [done|done| |].
  2: { intros p Hp Hp0 Ek. rewrite (proj2 (Z.eqb_neq p 0)) by done. apply wp_ret. exists []. split; [done|]. split; [apply frame_refl|].
       split_and!; [apply within_nil|done|done|]. left. split; [by eapply key_elem|done]. }
  intros Hfresh. simpl. apply wp_bind. eapply wp_mono; [apply (wp_create (do_use_service constructor_of depth) k S L P); [|done|done]|].
  { intros k' S' L' P' Hk' Hrk Hr'. apply IH; [lia|done|done]. }
  intros r S1 (new & Hmade). destruct r as [p|x].
  2: { destruct Hmade as (Hr1 & Hf1 & Hb & ->). apply wp_ret. exists new. done. }
  destruct Hmade as (s0 & s & Hdes & [Hr1 Hf1 Hb Hs _ _]).
  pose proof (key_fresh _ _ _ _ _ _ _ Hf1 Hb (fun k' Hk' => proj1 Hk') Hfresh) as Hfresh1.
  apply wp_bind. eapply wp_store_service; [exact Hs|].
  destruct (registered_change base p (set_key k) s S1 (new ++ L) P Hr1 Hs eq_refl) as [Hr2 Hf2].
  { intros q. apply (rg_pending _ _ _ _ Hr1 p s); [by left|done]. }
  set (S2 := with_services _ S1) in *.
  assert (services S2 !! p = Some (set_key k s)) as Hs2 by (simpl; by rewrite lookup_insert_eq).
  assert (Some k ∉ keys_of S2 (new ++ L)) as Hfresh2.
  { rewrite (keys_kept S1 S2); [done|]. intros q Hq. apply (fr_kept _ _ _ Hf2). rewrite elem_of_app. by left. }
  apply wp_bind. eapply (wp_find_service base k S2 (new ++ L)); [exact Hr2|done| |].
  2: { intros q Hq _ Ek. exfalso. by eapply Hfresh2, key_elem. }
  intros _. simpl. eapply (wp_link p (set_key k s)); [exact Hr2|exact Hs2|done|simpl; by rewrite Hdes|done|].
  intros S3 Hr3 Hf3 Ek. exists (p :: new). split; [done|].
  assert (frame S1 S3 ((new ++ L) ++ P)) as Hf13 by by eapply frame_trans.
  split; [eapply frame_trans; [exact Hf1|exact Hf13|]; intros q; rewrite !elem_of_app; tauto|]. split_and!.
  - intros q [->|Hq]%elem_of_cons; [exists k; split; [done|]; split; [lia|apply rtc_refl]|].
    eapply within_kept; [|exact Hb| |exact Hq].
    2: { intros k' [Hlt Hn]. split; [lia|by apply needs_requested]. }
    intros y Hy. apply (fr_kept _ _ _ Hf13). rewrite !elem_of_app. tauto.
  - by left.
  - done.
  - by right.
Qed.

(** ** Adding services *)

Lemma wp_do_add_service k p s S L P (Phi : result unit -> Registry K -> Prop) : registered S L (p :: P) -> services S !! p = Some s -> key_ok k ->
  ((Some k ∈ keys_of S L) -> Phi (Throws service_already_exists) S) ->
  ((Some k ∉ keys_of S L) -> forall S', registered S' (p :: L) P -> frame S S' (L ++ P) -> key_at S' p = Some k -> Phi (Returns tt) S') ->
  wp (do_add_service k p) S Phi.
Proof.
  intros Hr Hs Hk Hin Hout. unfold do_add_service. apply wp_bind, wp_get, wp_bind. eapply wp_load_service; [exact Hs|].
  rewrite (rg_owner _ _ _ _ Hr p s Hs), Z.eqb_refl. simpl. apply wp_bind. eapply (wp_find_service base k S L); [exact Hr|done| |].
  2: { intros q Hq Hq0 Ek. rewrite (proj2 (Z.eqb_neq q 0)) by done. by apply wp_ret, Hin, (key_elem S L q). }
  intros Hfresh. simpl.
  assert (forall f S0 s0, registered S0 L (p :: P) -> services S0 !! p = Some s0 -> references (f s0) = references s0 -> owner_ (f s0) = owner_ s0 ->
    let S1 := with_services (<[p:=f s0]> (services S0)) S0 in registered S1 L (p :: P) /\ frame S0 S1 (L ++ P) /\
      services S1 !! p = Some (f s0) /\ keys_of S1 L = keys_of S0 L) as Hchange.
  { intros f S0 s0 Hr0 Hs0 Ef Eo S1. destruct (registered_change base p f s0 S0 L P Hr0 Hs0 Eo) as [Hr1 Hf1].
    { intros q. rewrite Ef. apply (rg_pending _ _ _ _ Hr0 p s0); [by left|done]. }
    split; [done|]. split; [done|]. split; [simpl; by rewrite lookup_insert_eq|]. apply keys_kept. intros q Hq.
    apply (fr_kept _ _ _ Hf1). rewrite elem_of_app. by left. }
  apply wp_bind. apply (wp_mono _ _ (fun _ S1 => exists s1, registered S1 L (p :: P) /\ frame S S1 (L ++ P) /\ services S1 !! p = Some s1 /\
    keys_of S1 L = keys_of S L /\ destroy_ s1 <> no_destroy)).
  { destruct (destroy_ s) eqn:Ed; [|apply wp_ret; exists s; split_and!; try done; congruence..].
    eapply wp_store_service; [exact Hs|]. destruct (Hchange (set_destroy destroy_added) S s Hr Hs eq_refl eq_refl) as (H1 & H2 & H3 & H4).
    eexists. by split_and!. }
  intros ? S1 (s1 & Hr1 & Hf1 & Hs1 & Ek1 & Hd1). apply wp_bind. eapply wp_store_service; [exact Hs1|].
  destruct (Hchange (set_key k) S1 s1 Hr1 Hs1 eq_refl eq_refl) as (Hr2 & Hf2 & Hs2 & Ek2).
  eapply (wp_link p (set_key k s1)); [exact Hr2|exact Hs2|done|done|simpl; congruence|].
  intros S3 Hr3 Hf3 Ek3. apply Hout; [done|done| |done]. eapply frame_trans; [exact Hf1| |done]. by eapply frame_trans.
Qed.

Lemma wp_call_destroy p s S L P (Phi : unit -> Registry K -> Prop) : registered S L (p :: P) -> services S !! p = Some s -> destroy_ s <> no_destroy ->
  (forall S', registered S' L P -> kept S S' (L ++ P) -> events S' = events S ++ [Destroyed p] -> registry_owner_ S' = registry_owner_ S -> Phi tt S') ->
  wp (call_destroy p) S Phi.
Proof.
  intros Hr Hs Hd HP. unfold call_destroy. apply wp_bind. eapply wp_load_service; [exact Hs|].
  set (S1 := with_event (Destroyed p) S). assert (registered S1 L (p :: P)) as Hr1.
  { destruct Hr as [R1 R2 R3 R4 R5 R6 R7 R8 R9 R10 R11]. split; try done. by apply (grounded_kept S). }
  destruct (registered_delete base p S1 L P Hr1) as [Hr2 Hf2].
  destruct (destroy_ s); [done|..]; (apply wp_bind; unfold emit; apply wp_bind, wp_get, wp_put; unfold deallocate_service;
    apply wp_bind, wp_get, wp_put; apply HP; [exact Hr2|apply (fr_kept _ _ _ Hf2)|done|done]).
Qed.

(** What [make_service] comes to. *)
Definition added k S L P (r : result Z) S' : Prop := exists new, registered S' (new ++ L) P /\ kept S S' (L ++ P) /\
  within (requested constructor_of k) S' new /\
  match r with
  | Returns p => (Some k ∉ keys_of S L) /\ head new = Some p /\ key_at S' p = Some k /\ events S' = events S
  | Throws service_already_exists => Some k ∈ keys_of S L /\ exists p, (p ∉ new ++ L) /\ events S' = events S ++ [Destroyed p]
  | Throws x => x = constructor_exception /\ events S' = events S
  end.

Lemma wp_make_service depth k S L P : (rank k <= depth)%nat -> key_ok k -> registered S L P ->
  wp (make_service constructor_of depth k) S (added k S L P).
Proof.
  intros Hd Hk Hr. unfold make_service. apply wp_bind. eapply wp_mono; [apply (wp_create (do_use_service constructor_of depth) k S L P); [|done|done]|].
  { intros k' S' L' P' Hk' Hrk Hr'. apply wp_do_use_service; [lia|done|done]. }
  assert (forall k', below (rank k) (constructor_of k) k' -> requested constructor_of k k') as Hreq.
  { intros k' [_ Hn]. by apply needs_requested. }
  intros r S1 (new & Hmade). destruct r as [p|x].
  2: { destruct Hmade as (Hr1 & Hf1 & Hb & ->). apply wp_ret. exists new. split; [done|]. split; [apply Hf1|].
       split; [eapply within_mono; [exact Hb|apply Hreq]|]. split; [done|apply Hf1]. }
  destruct Hmade as (s0 & s & Hdes & [Hr1 Hf1 Hb Hs _ _]). apply wp_bind.
  eapply (wp_do_add_service k p s S1 (new ++ L) P); [exact Hr1|exact Hs|done| |].
  - intros Hin. apply wp_bind. eapply wp_call_destroy; [exact Hr1|exact Hs|by rewrite Hdes|]. intros S2 Hr2 Hk2 Eev _. apply wp_ret.
    exists new. split; [done|]. split; [eapply kept_trans; [apply Hf1|exact Hk2|]; intros q; rewrite !elem_of_app; tauto|].
    split; [eapply within_kept; [|exact Hb|exact Hreq]; intros q Hq; apply Hk2; rewrite !elem_of_app; tauto|].
    pose proof (rg_nodup _ _ _ _ Hr1) as Hnd. rewrite <- Permutation_middle in Hnd. apply NoDup_cons in Hnd as [Hnp _].
    destruct (decide (Some k ∈ keys_of S L)) as [|Hno].
    { split; [done|]. exists p. split; [intros Hp; apply Hnp; rewrite elem_of_app; by left|]. by rewrite Eev, (fr_events _ _ _ Hf1). }
    exfalso. by apply (key_fresh _ _ _ _ _ _ _ Hf1 Hb (fun k' Hk' => proj1 Hk') Hno).
  - intros Hno S2 Hr2 Hf2 Ek. apply wp_ret. exists (p :: new). split; [done|].
    split; [eapply kept_trans; [apply Hf1|apply Hf2|]; intros q; rewrite !elem_of_app; tauto|].
    split.
    { intros q [->|Hq]%elem_of_cons; [exists k; split; [done|apply rtc_refl]|].
      eapply within_kept; [|exact Hb|exact Hreq|exact Hq]. intros y Hy. apply (fr_kept _ _ _ Hf2). rewrite !elem_of_app. tauto. }
    split_and!; [|done|done|by rewrite (fr_events _ _ _ Hf2), (fr_events _ _ _ Hf1)].
    intros Hin. apply Hno. unfold keys_of. rewrite fmap_app, elem_of_app. right. change (Some k ∈ keys_of S1 L).
    rewrite (keys_kept S S1); [done|]. intros q Hq. apply (fr_kept _ _ _ Hf1). rewrite elem_of_app. by left.
Qed.
End steps.
