(* ===== verification/ServiceTheorems.v ===== *)
(** * What the service registry promises

    A specification of the registry by the list of its services, the newest
    first: what each call answers and does to the list.  The registry follows
    it; then the end of the context shuts the services down and destroys them,
    each before those that it refers to. *)

From S2P Require Import Prelude LinkedList ServiceRegistry ServiceRules ServiceSteps.

(** ** Calls *)

Inductive registry_call := UseService (k : key) | MakeService (k : key) | HasService (k : key) | NotifyFork (ev : fork_event).
Inductive answer := AService (r : result Z) | AHas (b : bool) | ADone.

Definition run_call {K : Type} `{ObjectHeap K} (constructor_of : key -> construction) (depth : nat) (c : registry_call) :
    prog (Registry K) answer :=
  match c with
  | UseService k => r ← do_use_service constructor_of depth k; mret (AService r)
  | MakeService k => r ← make_service constructor_of depth k; mret (AService r)
  | HasService k => b ← do_has_service k; mret (AHas b)
  | NotifyFork ev => notify_fork ev;; mret ADone
  end.

Fixpoint run_calls {K : Type} `{ObjectHeap K} (constructor_of : key -> construction) (depth : nat) (cs : list registry_call) :
    prog (Registry K) (list answer) :=
  match cs with
  | [] => mret []
  | c :: cs => a ← run_call constructor_of depth c; l ← run_calls constructor_of depth cs; mret (a :: l)
  end.

(** ** The specification *)

(** The services and their keys. *)
Abbreviation catalog := (list (Z * key)).

Section spec.
Context (constructor_of : key -> construction).
Implicit Types (E new : catalog) (k : key) (p : Z).

(** [new] are services made for [k]. *)
Definition made_for k new : Prop := Forall (requested constructor_of k) new.*2.

Definition fork_order (ev : fork_event) (l : list Z) : list Z := match ev with fork_prepare => l | _ => reverse l end.

(** What a call answers, the services after it, and what it did to services.
    A service is made once, with those that it needs; what throws leaves
    those that were complete. *)
Inductive call_spec : registry_call -> catalog -> answer -> catalog -> list event -> Prop :=
| use_found k p E : (p, k) ∈ E -> call_spec (UseService k) E (AService (Returns p)) E []
| use_made k p new E : k ∉ E.*2 -> made_for k new ->
    call_spec (UseService k) E (AService (Returns p)) ((p, k) :: new ++ E) []
| use_throws k new E : k ∉ (new ++ E).*2 -> made_for k new ->
    call_spec (UseService k) E (AService (Throws constructor_exception)) (new ++ E) []
| make_made k p new E : k ∉ E.*2 -> made_for k new ->
    call_spec (MakeService k) E (AService (Returns p)) ((p, k) :: new ++ E) []
| make_exists k p new E : k ∈ E.*2 -> made_for k new -> p ∉ (new ++ E).*1 ->
    call_spec (MakeService k) E (AService (Throws service_already_exists)) (new ++ E) [Destroyed p]
| make_throws k new E : made_for k new ->
    call_spec (MakeService k) E (AService (Throws constructor_exception)) (new ++ E) []
| has_service k E : call_spec (HasService k) E (AHas (bool_decide (k ∈ E.*2))) E []
| fork_notified ev E : call_spec (NotifyFork ev) E ADone E ((fun p => Notified p ev) <$> fork_order ev E.*1).

Inductive calls_spec : list registry_call -> catalog -> list answer -> catalog -> list event -> Prop :=
| calls_nil E : calls_spec [] E [] E []
| calls_cons c cs E1 a E2 l1 as_ E3 l2 : call_spec c E1 a E2 l1 -> calls_spec cs E2 as_ E3 l2 ->
    calls_spec (c :: cs) E1 (a :: as_) E3 (l1 ++ l2).
End spec.

(** A call for a service that nests at most [depth] deep. *)
Definition call_ok (rank : key -> nat) (depth : nat) (c : registry_call) : Prop :=
  match c with UseService k | MakeService k => key_ok k /\ (rank k < depth)%nat | HasService k => key_ok k | NotifyFork _ => True end.

(** [p] comes before [q]. *)
Definition before (l : list Z) (p q : Z) : Prop := exists l1 l2, l = l1 ++ p :: l2 /\ q ∈ l2.

Section lists.
Context {K : Type} `{ObjectHeapOk K} (base : gset Z).
#[local] Abbreviation registered := (registered base).
Implicit Types (S : Registry K) (p : Z) (k : key) (L P : list Z) (E : catalog).

(** ** Passing over the list *)

(** More has been done to services. *)
Definition with_log (l : list event) S : Registry K :=
  mkRegistry (services S) (first_service_ S) (registry_owner_ S) (events S ++ l) (heap_state S).

Lemma with_log_app l1 l2 S : with_log l2 (with_log l1 S) = with_log (l1 ++ l2) S.
Proof. unfold with_log. simpl. by rewrite app_assoc. Qed.

Lemma with_log_nil S : with_log [] S = S.
Proof. unfold with_log. rewrite app_nil_r. by destruct S. Qed.

Lemma registered_log l S L P : registered S L P -> registered (with_log l S) L P.
Proof. intros [R1 R2 R3 R4 R5 R6 R7 R8 R9 R10 R11]. split; try done. by apply (grounded_kept S). Qed.

Lemma registered_seg S L P : registered S L P -> sseg (next_of S) (first_service_ S) L 0 /\ (forall p, p ∈ L -> p <> 0).
Proof.
  intros Hr. split; [apply (rg_list _ _ _ _ Hr)|]. intros p Hp. apply (rg_nonzero _ _ _ _ Hr). rewrite elem_of_app. by left.
Qed.

Lemma seg_cons S a p L : sseg (next_of S) a (p :: L) 0 -> exists s, a = p /\ services S !! p = Some s /\ sseg (next_of S) (next_ s) L 0.
Proof. intros (-> & n & Hn & Hseg). unfold next_of in Hn. apply fmap_Some in Hn as (s & Hs & ->). by exists s. Qed.

Lemma wp_shutdown_loop fuel a L S (Phi : unit -> Registry K -> Prop) : sseg (next_of S) a L 0 -> (forall p, p ∈ L -> p <> 0) ->
  (length L < fuel)%nat -> Phi tt (with_log (ShutDown <$> L) S) -> wp (shutdown_loop fuel a) S Phi.
Proof.
  revert a L S. induction fuel as [|fuel IH]; intros a L S Hseg Hnz Hf HP; [lia|]. cbn [shutdown_loop]. destruct L as [|p L].
  - simpl in Hseg. subst a. apply wp_ret. by rewrite <- (with_log_nil S).
  - destruct (seg_cons _ _ _ _ Hseg) as (s & -> & Hs & Hseg'). rewrite (proj2 (Z.eqb_neq p 0)) by (apply Hnz; by left).
    apply wp_bind. unfold emit. apply wp_bind, wp_get, wp_put, wp_bind. eapply wp_load_service; [exact Hs|].
    eapply (IH _ L); [exact Hseg'|intros q Hq; apply Hnz; by right|simpl in Hf; lia|].
    change (with_event (ShutDown p) S) with (with_log [ShutDown p] S). by rewrite with_log_app.
Qed.

Lemma wp_shutdown_services S L P (Phi : unit -> Registry K -> Prop) : registered S L P ->
  Phi tt (with_log (ShutDown <$> L) S) -> wp shutdown_services S Phi.
Proof.
  intros Hr HP. unfold shutdown_services. apply wp_bind, wp_service_count, wp_bind, wp_get_first.
  destruct (registered_seg _ _ _ Hr). pose proof (list_bound _ _ _ _ Hr). eapply (wp_shutdown_loop _ _ L); [done..|lia|done].
Qed.

Lemma wp_collect_loop fuel a L S (Phi : list Z -> Registry K -> Prop) : sseg (next_of S) a L 0 -> (forall p, p ∈ L -> p <> 0) ->
  (length L < fuel)%nat -> Phi L S -> wp (collect_loop fuel a) S Phi.
Proof.
  revert a L Phi. induction fuel as [|fuel IH]; intros a L Phi Hseg Hnz Hf HP; [lia|]. cbn [collect_loop]. destruct L as [|p L].
  - simpl in Hseg. subst a. by apply wp_ret.
  - destruct (seg_cons _ _ _ _ Hseg) as (s & -> & Hs & Hseg'). rewrite (proj2 (Z.eqb_neq p 0)) by (apply Hnz; by left).
    apply wp_bind. eapply wp_load_service; [exact Hs|]. apply wp_bind.
    eapply (IH _ L); [exact Hseg'|intros q Hq; apply Hnz; by right|simpl in Hf; lia|]. by apply wp_ret.
Qed.

Lemma wp_notify_all ev l S (Phi : unit -> Registry K -> Prop) : Phi tt (with_log ((fun p => Notified p ev) <$> l) S) ->
  wp (notify_all ev l) S Phi.
Proof.
  revert S. induction l as [|p l IH]; intros S HP; cbn [notify_all]; [apply wp_ret; by rewrite <- (with_log_nil S)|].
  apply wp_bind. unfold emit. apply wp_bind, wp_get, wp_put, IH.
  change (with_event (Notified p ev) S) with (with_log [Notified p ev] S). by rewrite with_log_app.
Qed.

Lemma wp_notify_fork ev S L P (Phi : unit -> Registry K -> Prop) : registered S L P ->
  Phi tt (with_log ((fun p => Notified p ev) <$> fork_order ev L) S) -> wp (notify_fork ev) S Phi.
Proof.
  intros Hr HP. unfold notify_fork. apply wp_bind, wp_service_count, wp_bind, wp_get_first.
  destruct (registered_seg _ _ _ Hr). pose proof (list_bound _ _ _ _ Hr). apply wp_bind.
  eapply (wp_collect_loop _ _ L); [done..|lia|]. by apply wp_notify_all.
Qed.
(** ** Destroying *)

(** The first service is taken off the list. *)
Lemma registered_unlink p s S L : registered S (p :: L) [] -> services S !! p = Some s ->
  registered (with_first (next_ s) S) L [p] /\ (forall q, q ∈ references s -> q ∈ L).
Proof.
  intros [R1 R2 R3 R4 R5 R6 R7 R8 R9 R10 R11] Hs. destruct (seg_cons _ _ _ _ R1) as (s' & _ & Hs' & Hseg).
  assert (s' = s) as -> by congruence. destruct R6 as [Hrefs R6].
  assert (L ++ [p] ≡ₚ (p :: L) ++ []) as Hperm by (rewrite Permutation_app_comm; by rewrite app_nil_r).
  split; [|intros q; by apply (Hrefs s)]. split; simpl.
  - exact Hseg.
  - by rewrite Hperm.
  - intros q. by rewrite Hperm, R3.
  - by apply NoDup_cons in R4 as [_ R4].
  - intros q s' Hq. apply R5. by right.
  - by apply (grounded_kept S).
  - intros q s' x Hq%list_elem_of_singleton Hs0 Hx. subst q. by apply (Hrefs s').
  - done.
  - intros q. rewrite Hperm. apply R9.
  - intros q. rewrite Hperm. apply R10.
  - by rewrite Hperm.
Qed.

Lemma wp_destroy_loop fuel S L (Phi : unit -> Registry K -> Prop) : registered S L [] -> (length L < fuel)%nat ->
  (forall S', registered S' [] [] -> events S' = events S ++ (Destroyed <$> L) -> Phi tt S') -> wp (destroy_loop fuel) S Phi.
Proof.
  revert S L. induction fuel as [|fuel IH]; intros S L Hr Hf HP; [lia|]. cbn [destroy_loop]. apply wp_bind, wp_get_first.
  destruct (registered_seg _ _ _ Hr) as [Hseg Hnz]. destruct L as [|p L].
  - simpl in Hseg. rewrite Hseg. apply wp_ret, HP; [done|]. by rewrite app_nil_r.
  - destruct (seg_cons _ _ _ _ Hseg) as (s & -> & Hs & _). rewrite (proj2 (Z.eqb_neq p 0)) by (apply Hnz; by left).
    apply wp_bind. eapply wp_load_service; [exact Hs|]. apply wp_bind. unfold call_destroy. apply wp_bind. eapply wp_load_service; [exact Hs|].
    pose proof (registered_log [Destroyed p] _ _ _ (proj1 (registered_unlink p s S L Hr Hs))) as Hr1.
    destruct (registered_delete base p _ _ _ Hr1) as [Hr2 _].
    destruct (rg_key _ _ _ _ Hr p s) as [_ Hd]; [by left|done|].
    destruct (destroy_ s); [done|..];
      (apply wp_bind; unfold emit; apply wp_bind, wp_get, wp_put; unfold deallocate_service; apply wp_bind, wp_get, wp_put;
       apply wp_bind, wp_put_first; eapply (IH _ L); [exact Hr2|simpl in Hf; lia|];
       intros S' Hr' Ev; apply HP; [exact Hr'|]; rewrite Ev; simpl; by rewrite <- app_assoc).
Qed.

(** When the context ends. *)
Lemma wp_io_context_destroy S L (Phi : unit -> Registry K -> Prop) : registered S L [] ->
  (forall S', services S' = ∅ -> first_service_ S' = 0 -> live (heap_state S') = base ->
     events S' = events S ++ (ShutDown <$> L) ++ (ShutDown <$> L) ++ (Destroyed <$> L) -> Phi tt S') ->
  wp io_context_destroy S Phi.
Proof.
  intros Hr HP. unfold io_context_destroy. apply wp_bind. eapply wp_shutdown_services; [exact Hr|].
  apply wp_bind. eapply wp_shutdown_services; [exact (registered_log _ _ _ _ Hr)|].
  unfold destroy_services. apply wp_bind, wp_service_count.
  pose proof (registered_log (ShutDown <$> L) _ _ _ (registered_log (ShutDown <$> L) _ _ _ Hr)) as Hr2.
  pose proof (list_bound _ _ _ _ Hr2). eapply wp_destroy_loop; [exact Hr2|lia|].
  intros S' Hr' Ev. apply HP.
  - apply map_empty. intros p. apply eq_None_not_Some. rewrite (rg_services _ _ _ _ Hr'). apply not_elem_of_nil.
  - apply (rg_list _ _ _ _ Hr').
  - rewrite (rg_live _ _ _ _ Hr'). set_solver.
  - rewrite Ev. simpl. by rewrite <- !app_assoc.
Qed.

(** What a service refers to comes after it. *)
Lemma grounded_before S L p s q : grounded S L -> p ∈ L -> services S !! p = Some s -> q ∈ references s -> before L p q.
Proof.
  intros HL Hp Hs Hq. induction L as [|x L IH]; [by apply elem_of_nil in Hp|]. destruct HL as [Hx HL].
  destruct (decide (p = x)) as [<-|Hne]; [exists [], L; split; [done|by apply (Hx s)]|].
  apply elem_of_cons in Hp as [|Hp]; [done|]. destruct (IH HL Hp) as (l1 & l2 & -> & Hin). by exists (x :: l1), l2.
Qed.

(** ** The registry follows the specification *)

(** The registry has these services. *)
Definition holds S E : Prop := registered S E.*1 [] /\ keys_of S E.*1 = Some <$> E.*2.

Lemma within_catalog Q S L : within Q S L -> exists E, E.*1 = L /\ keys_of S L = Some <$> E.*2 /\ Forall Q E.*2.
Proof.
  induction L as [|p L IH]; intros HL; [by exists []|]. destruct (HL p) as (k & Ek & Hk); [by left|].
  destruct IH as (E & <- & HE & HQ); [intros q Hq; apply HL; by right|]. exists ((p, k) :: E). split_and!; [done| |by constructor].
  unfold keys_of in *. rewrite !fmap_cons, HE. simpl. by rewrite Ek.
Qed.

(** [new] services in front of the others. *)
Lemma holds_more Q S S' E new : holds S E -> registered S' (new ++ E.*1) [] -> kept S S' (E.*1 ++ []) -> within Q S' new ->
  exists N, N.*1 = new /\ holds S' (N ++ E) /\ Forall Q N.*2.
Proof.
  intros [_ HE] Hr Hk Hw. destruct (within_catalog _ _ _ Hw) as (N & <- & HN & HQ). exists N. split; [done|]. split; [|done].
  rewrite app_nil_r in Hk. split; rewrite fmap_app; [done|]. unfold keys_of. rewrite !fmap_app. f_equal; [exact HN|].
  by rewrite <- HE, <- (keys_kept S S').
Qed.

Lemma holds_keys S E k : holds S E -> Some k ∈ keys_of S E.*1 <-> k ∈ E.*2.
Proof. intros [_ ->]. rewrite list_elem_of_fmap. split; [by intros (? & [= ->] & ?)|eauto]. Qed.

Lemma holds_entry S E p k : holds S E -> p ∈ E.*1 -> key_at S p = Some k -> (p, k) ∈ E.
Proof.
  intros [_ HE] Hp Hk. clear -HE Hp Hk. induction E as [|[q k'] E IH]; [by apply elem_of_nil in Hp|]. unfold keys_of in HE. simpl in HE.
  injection HE as Eq HE. apply elem_of_cons in Hp as [Ep|Hp]; [|right; by apply IH].
  simpl in Ep. subst p. assert (k' = k) as -> by congruence. by left.
Qed.

Lemma holds_nodup S E : holds S E -> NoDup E.*1 /\ NoDup E.*2.
Proof.
  intros [Hr HE]. split; [pose proof (rg_nodup _ _ _ _ Hr) as Hnd; by rewrite app_nil_r in Hnd|].
  pose proof (rg_keys _ _ _ _ Hr) as Hnd. rewrite HE in Hnd. by apply NoDup_fmap_1 in Hnd.
Qed.
End lists.

Section calls.
Context {K : Type} `{ObjectHeapOk K} (base : gset Z) (constructor_of : key -> construction) (rank : key -> nat).
Context (Hproper : forall k, key_ok k -> proper rank (rank k) (constructor_of k)).
#[local] Abbreviation holds := (holds base).
Implicit Types (S : Registry K) (E : catalog) (k : key).

(** What calls do. *)
Definition follows (R : answer -> catalog -> list event -> Prop) S (a : answer) S' : Prop :=
  exists E' l, R a E' l /\ holds S' E' /\ events S' = events S ++ l.

Lemma call_use depth k S E : call_ok rank depth (UseService k) -> holds S E ->
  wp (run_call constructor_of depth (UseService k)) S (follows (call_spec constructor_of (UseService k) E) S).
Proof.
  intros [Hk Hd] HS. cbn [run_call]. apply wp_bind.
  eapply wp_mono; [apply (wp_do_use_service base constructor_of rank Hproper depth k S E.*1 []); [done|done|apply HS]|].
  intros r S' (new & Hr & [Hkept _ Hev] & Hres). apply wp_ret. rewrite <- (app_nil_r (events S)) in Hev. destruct r as [p|x].
  - destruct Hres as (Hw & Hp & Ek & Hcases). destruct (holds_more _ _ _ _ _ _ HS Hr Hkept Hw) as (N & <- & HS' & HQ).
    rewrite (holds_keys base S E k HS) in Hcases. destruct Hcases as [[Hin Hnil]|[Hout Hhd]].
    + destruct N; [|done]. exists E, []. split; [|done]. apply use_found. by eapply holds_entry.
    + destruct N as [|[q k'] N]; [done|]. injection Hhd as ->.
      assert (k' = k) as -> by (destruct HS' as [_ HE]; unfold keys_of in HE; simpl in HE; congruence).
      exists ((p, k) :: N ++ E), []. split; [|done]. apply use_made; [done|]. apply Forall_cons in HQ as [_ HQ].
      eapply Forall_impl; [exact HQ|]. by intros k' [_ ?].
  - destruct Hres as (Hw & -> & Hout). destruct (holds_more _ _ _ _ _ _ HS Hr Hkept Hw) as (N & <- & HS' & HQ).
    exists (N ++ E), []. split; [|done]. apply use_throws.
    + rewrite fmap_app, elem_of_app. rewrite (holds_keys base S E k HS) in Hout. intros [Hin|]; [|done].
      rewrite Forall_forall in HQ. destruct (HQ k Hin) as [? _]. lia.
    + eapply Forall_impl; [exact HQ|]. intros k' [_ ?]. by apply needs_requested.
Qed.
Lemma call_make depth k S E : call_ok rank depth (MakeService k) -> holds S E ->
  wp (run_call constructor_of depth (MakeService k)) S (follows (call_spec constructor_of (MakeService k) E) S).
Proof.
  intros [Hk Hd] HS. cbn [run_call]. apply wp_bind.
  eapply wp_mono; [apply (wp_make_service base constructor_of rank Hproper depth k S E.*1 []); [lia|done|apply HS]|].
  intros r S' (new & Hr & Hkept & Hw & Hres). apply wp_ret.
  destruct (holds_more _ _ _ _ _ _ HS Hr Hkept Hw) as (N & <- & HS' & HQ). destruct r as [p|x].
  - destruct Hres as (Hout & Hhd & Ek & Hev). rewrite (holds_keys base S E k HS) in Hout. destruct N as [|[q k'] N]; [done|].
    injection Hhd as ->.
    assert (k' = k) as -> by (destruct HS' as [_ HE]; unfold keys_of in HE; simpl in HE; congruence).
    exists ((p, k) :: N ++ E), []. split; [|by rewrite app_nil_r]. apply make_made; [done|]. by apply Forall_cons in HQ as [_ HQ].
  - destruct x; [|destruct Hres as [Hx Hev]; (exists (N ++ E), []); split; [|by rewrite app_nil_r]..].
    + destruct Hres as (Hin & p & Hp & Hev). rewrite (holds_keys base S E k HS) in Hin. exists (N ++ E), [Destroyed p].
      split; [|done]. apply make_exists; [done..|]. by rewrite fmap_app.
    + done.
    + by apply make_throws.
Qed.

Lemma call_has depth k S E : call_ok rank depth (HasService k) -> holds S E ->
  wp (run_call constructor_of depth (HasService k)) S (follows (call_spec constructor_of (HasService k) E) S).
Proof.
  intros Hk HS. cbn [run_call]. apply wp_bind. unfold do_has_service. apply wp_bind.
  assert (forall b, (b = true <-> k ∈ E.*2) -> follows (call_spec constructor_of (HasService k) E) S (AHas b) S) as Hend.
  { intros b Hb. assert (b = bool_decide (k ∈ E.*2)) as -> by (apply eq_true_iff_eq; by rewrite bool_decide_eq_true).
    exists E, []. split; [apply has_service|]. by rewrite app_nil_r. }
  eapply (wp_find_service base k S E.*1 []); [apply HS|done| |].
  - intros Hout. apply wp_ret, wp_ret, Hend. by rewrite <- (holds_keys base S E k HS).
  - intros p Hp Hp0 Ek. apply wp_ret, wp_ret, Hend. rewrite (proj2 (Z.eqb_neq p 0)) by done. rewrite <- (holds_keys base S E k HS).
    split; [intros _; by eapply key_elem|done].
Qed.

Lemma wp_run_call depth c S E : call_ok rank depth c -> holds S E ->
  wp (run_call constructor_of depth c) S (follows (call_spec constructor_of c E) S).
Proof.
  destruct c as [k|k|k|ev]; intros Hc HS; [by apply call_use|by apply call_make|by apply call_has|].
  cbn [run_call]. apply wp_bind. eapply wp_notify_fork; [apply HS|]. apply wp_ret.
  exists E. eexists. split; [apply fork_notified|]. split; [|done]. destruct HS as [Hr HE]. split; [by apply registered_log|exact HE].
Qed.

Lemma wp_run_calls depth cs S E : Forall (call_ok rank depth) cs -> holds S E ->
  wp (run_calls constructor_of depth cs) S (fun as_ S' => exists E' l, calls_spec constructor_of cs E as_ E' l /\ holds S' E' /\
    events S' = events S ++ l).
Proof.
  revert S E. induction cs as [|c cs IH]; intros S E Hcs HS; cbn [run_calls].
  - apply wp_ret. exists E, []. split; [apply calls_nil|]. by rewrite app_nil_r.
  - apply Forall_cons in Hcs as [Hc Hcs]. apply wp_bind. eapply wp_mono; [by apply (wp_run_call depth c S E)|].
    intros a S1 (E1 & l1 & H1 & HS1 & Hev1). apply wp_bind. eapply wp_mono; [by apply (IH S1 E1)|].
    intros as_ S2 (E2 & l2 & H2 & HS2 & Hev2). apply wp_ret. exists E2, (l1 ++ l2). split; [by eapply calls_cons|].
    split; [done|]. rewrite Hev2, Hev1. by rewrite app_assoc.
Qed.

Lemma holds_new owner h : base = live h -> holds (service_registry_new owner h) [].
Proof.
  assert (forall p, ~ p ∈ [] ++ @nil Z) as Hno by (intros p; apply not_elem_of_nil).
  intros ->. split; [|done]. split; simpl; try (by constructor); try (intros p; intros; by destruct (Hno p)).
  - intros p. rewrite lookup_empty. split; [by intros [? ?]|intros Hp; by destruct (Hno p)].
  - set_solver.
Qed.
End calls.

(** C32.  The service registry refines the list of its services.  If no
    service needs itself to be made, any calls of an io_context's registry
    run to the end, find or make or refuse services as the specification
    says, each key having one service; when the context ends, its services
    are shut down (twice, by io_context's destructor and its base's) and
    destroyed once, the newest first, each before the services that it
    refers to, and all memory is given back. *)
Theorem service_registry_refines {K : Type} `{ObjectHeapOk K} constructor_of rank depth owner (h : K) calls :
  (forall k, key_ok k -> proper rank (rank k) (constructor_of k)) -> Forall (call_ok rank depth) calls ->
  exists answers (S : Registry K) E, run_calls constructor_of depth calls (service_registry_new owner h) = Ok (answers, S) /\
    calls_spec constructor_of calls [] answers E (events S) /\ NoDup E.*1 /\ NoDup E.*2 /\
    (forall p s q, p ∈ E.*1 -> services S !! p = Some s -> q ∈ references s -> before E.*1 p q) /\
    exists S' : Registry K, io_context_destroy S = Ok (tt, S') /\
      events S' = events S ++ (ShutDown <$> E.*1) ++ (ShutDown <$> E.*1) ++ (Destroyed <$> E.*1) /\
      services S' = ∅ /\ first_service_ S' = 0 /\ live (heap_state S') = live h.
Proof.
  intros Hproper Hcalls.
  destruct (wp_run_calls (live h) constructor_of rank Hproper depth calls (service_registry_new owner h) [] Hcalls)
    as (as_ & S & Erun & E & l & Hspec & HS & Hev); [by eapply holds_new|]. simpl in Hev. subst l.
  destruct (holds_nodup _ _ _ HS). exists as_, S, E. split_and!; [done..| |].
  - intros p s q Hp Hs Hq. apply (grounded_before S _ p s q); [apply (rg_grounded _ _ _ _ (proj1 HS))|done..].
  - destruct (wp_io_context_destroy (live h) S E.*1 (fun _ S' => events S' = events S ++ (ShutDown <$> E.*1) ++ (ShutDown <$> E.*1) ++
      (Destroyed <$> E.*1) /\ services S' = ∅ /\ first_service_ S' = 0 /\ live (heap_state S') = live h) (proj1 HS)) as ([] & S' & Hrun & HP);
      [by intros; split_and!|]. by exists S'.
Qed.
