(* ===== verification/ServiceWorld.v ===== *)
(** * The services of the program's io_context

    Which services the constructors of the program's services use, and an
    allocator, in which the theorem about the registry is applied to what
    main.cpp's io_context goes through. *)

From S2P Require Import Prelude LinkedList ServiceRegistry ServiceRules ServiceSteps ServiceTheorems.

(** The addresses in use. *)
#[export] Instance set_heap : ObjectHeap (gset Z) := {
  new_object h := let p := fresh ({[0]} ∪ h) in (p, {[p]} ∪ h);
  delete_object p h := h ∖ {[p]};
}.

#[export] Instance set_heap_ok : ObjectHeapOk (gset Z).
Proof.
  refine {| live := fun h => h |}; [|done]. intros h. simpl. pose proof (is_fresh ({[0]} ∪ h)) as Hf. set_solver.
Defined.

(** The types of the services. *)
Definition config_service_key : key := mkKey 101 0.
Definition scheduler_key : key := mkKey 102 0.
Definition epoll_reactor_key : key := mkKey 103 0.
Definition reactive_socket_service_key : key := mkKey 104 0.
Definition signal_set_service_key : key := mkKey 105 0.

(** [use_service<Service>(context)], for each of these. *)
Fixpoint uses (ks : list key) : construction :=
  match ks with [] => Built | k :: ks => Uses k (fun _ => uses ks) end.

Definition scheduler_uses : construction := uses (replicate 5 config_service_key).
Definition epoll_reactor_uses : construction := uses (scheduler_key :: replicate 5 config_service_key).
Definition reactive_socket_service_uses : construction := uses [epoll_reactor_key].
Definition signal_set_service_uses : construction := uses [scheduler_key; epoll_reactor_key].

(** The others use none. *)
Definition program_services (k : key) : construction :=
  if bool_decide (k = scheduler_key) then scheduler_uses
  else if bool_decide (k = epoll_reactor_key) then epoll_reactor_uses
  else if bool_decide (k = reactive_socket_service_key) then reactive_socket_service_uses
  else if bool_decide (k = signal_set_service_key) then signal_set_service_uses
  else Built.

Definition program_rank (k : key) : nat :=
  if bool_decide (k = scheduler_key) then 1
  else if bool_decide (k = epoll_reactor_key) then 2
  else if bool_decide (k = reactive_socket_service_key) then 3
  else if bool_decide (k = signal_set_service_key) then 3
  else 0.

Lemma proper_uses_all rank n ks : Forall (fun k => key_ok k /\ (rank k < n)%nat) ks -> proper rank n (uses ks).
Proof. induction 1 as [|k ks [Hk Hr] _ IH]; [apply proper_built|by apply proper_uses]. Qed.

Lemma program_services_proper k : proper program_rank (program_rank k) (program_services k).
Proof.
  unfold program_services, program_rank at 2. repeat case_bool_decide;
    first [apply proper_uses_all|apply proper_built]; repeat constructor; vm_compute; try lia; by right.
Qed.

(** The constructor of io_context, then those of the feed handler's socket
    and of the signal set. *)
Definition io_context_new : list registry_call := [MakeService config_service_key; MakeService scheduler_key].
Definition program_calls : list registry_call :=
  io_context_new ++ [UseService reactive_socket_service_key; UseService signal_set_service_key].

(** The program's services: made in the order of what they need, destroyed in
    the opposite order.  Making another configuration is refused. *)
Definition program_run : prog (Registry (gset Z)) (list answer) :=
  l ← run_calls program_services 4 (program_calls ++ [HasService epoll_reactor_key; UseService epoll_reactor_key;
        MakeService config_service_key; NotifyFork fork_prepare; NotifyFork fork_child]);
  io_context_destroy;; mret l.

Example program_run_ends :
  let result := program_run (service_registry_new 7 (∅ : gset Z)) in
  exists c s e r g d, NoDup [c; s; e; r; g] /\
    match result with
    | Ok (l, T) =>
        l = [AService (Returns c); AService (Returns s); AService (Returns r); AService (Returns g); AHas true;
             AService (Returns e); AService (Throws service_already_exists); ADone; ADone] /\
        events T = Destroyed d :: ((fun p => Notified p fork_prepare) <$> [g; r; e; s; c]) ++
          ((fun p => Notified p fork_child) <$> [c; s; e; r; g]) ++ (ShutDown <$> [g; r; e; s; c]) ++ (ShutDown <$> [g; r; e; s; c]) ++
          (Destroyed <$> [g; r; e; s; c])
    | _ => False
    end.
Proof.
  vm_compute. do 6 eexists. split; [|split; reflexivity].
  repeat (constructor; [rewrite ?elem_of_cons, ?elem_of_nil; lia|]). constructor.
Qed.

Lemma service_registry_refines_witness :
  exists answers (S : Registry (gset Z)) E, run_calls program_services 4 program_calls (service_registry_new 7 ∅) = Ok (answers, S) /\
    calls_spec program_services program_calls [] answers E (events S) /\ NoDup E.*1 /\ NoDup E.*2 /\
    (forall p s q, p ∈ E.*1 -> services S !! p = Some s -> q ∈ references s -> before E.*1 p q) /\
    exists S' : Registry (gset Z), io_context_destroy S = Ok (tt, S') /\
      events S' = events S ++ (ShutDown <$> E.*1) ++ (ShutDown <$> E.*1) ++ (Destroyed <$> E.*1) /\
      services S' = ∅ /\ first_service_ S' = 0 /\ live (heap_state S') = live (∅ : gset Z).
Proof.
  apply (service_registry_refines program_services program_rank 4 7 (∅ : gset Z) program_calls).
  - intros k _. apply program_services_proper.
  - repeat constructor; vm_compute; try lia; by right.
Defined.
