(* ===== verification/Config.v ===== *)
(** * Configuration of an execution context

    Asio's configuration (src/include/asio/config.hpp, impl/config.hpp,
    impl/config.ipp, detail/concurrency_hint.hpp): a service that has texts
    for keys, from a concurrency hint, a string or the environment; reading
    one as a number; and what the scheduler and the reactor read.

    A text is the list of its characters.  A pointer into a string is an
    index, since the string's characters are written while it is parsed; the
    text that a pointer leads to ends before the next NUL.  strtoll and
    strtoull are those of C17, where no prefix stands for base 2. *)

From Stdlib Require Import Ascii String.
From stdpp Require Import strings.
From S2P Require Import Prelude.

Abbreviation text := (list ascii).

Definition lit (s : string) : text := list_ascii_of_string s.

Definition NUL : ascii := "000"%char.
Definition TAB : ascii := "009"%char.
Definition NEWLINE : ascii := "010"%char.

Definition code (c : ascii) : Z := Z.of_N (N_of_ascii c).
Definition of_code (z : Z) : ascii := ascii_of_N (Z.to_N z).

(** ** Texts and numbers in the C library *)

(** Up to the first NUL. *)
Fixpoint c_str (s : text) : text :=
  match s with [] => [] | c :: s => if bool_decide (c = NUL) then [] else c :: c_str s end.

(** What a pointer into [buf] leads to; a NUL follows the last character. *)
Definition text_at (buf : text) (p : nat) : text := c_str (drop p buf).

Definition isspace (c : ascii) : bool := (code c =? 32) || ((9 <=? code c) && (code c <=? 13)).
Definition toupper (c : ascii) : ascii := if (97 <=? code c) && (code c <=? 122) then of_code (code c - 32) else c.

Definition digit_value (base : Z) (c : ascii) : option Z :=
  let z := code c in
  let d := if (48 <=? z) && (z <=? 57) then z - 48
           else if (97 <=? z) && (z <=? 122) then z - 87
           else if (65 <=? z) && (z <=? 90) then z - 55 else base in
  if d <? base then Some d else None.

(** The number that the digits at the front denote, with those before. *)
Fixpoint digits (base acc : Z) (s : text) : Z :=
  match s with
  | [] => acc
  | c :: s => match digit_value base c with Some d => digits base (acc * base + d) s | None => acc end
  end.

(** Base 0: the prefix decides. *)
Definition magnitude (s : text) : Z :=
  match s with
  | c :: s' =>
      if bool_decide (c = "0"%char) then
        match s' with
        | x :: h :: _ =>
            if (bool_decide (x = "x"%char) || bool_decide (x = "X"%char)) && bool_decide (is_Some (digit_value 16 h))
            then digits 16 0 (tail s') else digits 8 0 s'
        | _ => digits 8 0 s'
        end
      else digits 10 0 s
  | [] => 0
  end.

Fixpoint skip_spaces (s : text) : text := match s with c :: s' => if isspace c then skip_spaces s' else s | [] => [] end.

(** A sign and a magnitude. *)
Definition signed_number (s : text) : bool * Z :=
  match skip_spaces s with
  | (c :: s') as s0 =>
      if bool_decide (c = "-"%char) then (true, magnitude s')
      else if bool_decide (c = "+"%char) then (false, magnitude s') else (false, magnitude s0)
  | [] => (false, 0)
  end.

Definition number (s : text) : Z := let '(negative, m) := signed_number s in if negative then - m else m.

(** With whether [errno] is ERANGE. *)
Definition strtoll (s : text) : Z * bool :=
  let z := number s in
  if z <? - 2 ^ 63 then (- 2 ^ 63, true) else if 2 ^ 63 - 1 <? z then (2 ^ 63 - 1, true) else (z, false).
Definition strtoull (s : text) : Z * bool :=
  let '(negative, m) := signed_number s in
  if 2 ^ 64 - 1 <? m then (2 ^ 64 - 1, true) else (u64 (if negative then - m else m), false).

Fixpoint decimal_digits (n : nat) (z : Z) : text :=
  match n with
  | O => []
  | S n => (if z <? 10 then [] else decimal_digits n (z / 10)) ++ [of_code (48 + z mod 10)]
  end.

(** [snprintf(value, value_len, "%d", z)]. *)
Definition decimal (z : Z) : text := if z <? 0 then "-"%char :: decimal_digits 10 (- z) else decimal_digits 10 z.
Definition snprintf_d (value_len z : Z) : text := take (Z.to_nat (value_len - 1)) (decimal z).

(** ** The string *)

Inductive parse_state := expecting_key_name | key_name | expecting_equals | expecting_value | value | expecting_eol.

Abbreviation entry := (option nat * option nat)%type.

(** [config_from_string_service], with the variables of its constructor. *)
Record string_service := mkStringService {
  string_ : text;
  prefix_ : text;
  entries_ : list entry;
}.
Record parser := mkParser { parse_string : text; parse_entries : list entry; state : parse_state; current : entry }.

(** One character, at [i]: what is written to it, what is added, the next
    state and the current entry. *)
Definition parse_char (i : nat) (c : ascii) (st : parse_state) (e : entry) : ascii * list entry * parse_state * entry :=
  let none : entry := (None, None) in
  let same := fun d : ascii => bool_decide (c = d) in
  let blank := same " "%char || same TAB in
  match st with
  | expecting_key_name =>
      if blank || same NEWLINE then (c, [], expecting_key_name, e)
      else if same "#"%char then (c, [], expecting_eol, e)
      else (c, [], key_name, (Some i, e.2))
  | key_name =>
      if blank then (NUL, [], expecting_equals, e)
      else if same "="%char then (NUL, [], expecting_value, e)
      else if same NEWLINE then (c, [], expecting_key_name, (None, e.2))
      else if same "#"%char then (c, [], expecting_eol, (None, e.2))
      else (c, [], key_name, e)
  | expecting_equals =>
      if blank then (c, [], expecting_equals, e)
      else if same "="%char then (c, [], expecting_value, e)
      else if same NEWLINE then (c, [], expecting_key_name, (None, e.2))
      else (c, [], expecting_eol, (None, e.2))
  | expecting_value =>
      if blank then (c, [], expecting_value, e)
      else if same NEWLINE then (c, [], expecting_key_name, (None, e.2))
      else if same "#"%char then (c, [], expecting_eol, (None, e.2))
      else (c, [], value, (e.1, Some i))
  | value =>
      if same NEWLINE then (NUL, [e], expecting_key_name, none)
      else if same "#"%char then (NUL, [e], expecting_eol, none)
      else (c, [], value, e)
  | expecting_eol => if same NEWLINE then (c, [], expecting_key_name, e) else (c, [], expecting_eol, e)
  end.

(** [for (char& c : string_)], from [i] on. *)
Fixpoint parse_loop (n i : nat) (p : parser) : parser :=
  match n with
  | O => p
  | S n =>
      match parse_string p !! i with
      | None => p
      | Some c =>
          let '(c', new, st, e) := parse_char i c (state p) (current p) in
          parse_loop n (i + 1) (mkParser (<[i:=c']> (parse_string p)) (parse_entries p ++ new) st e)
      end
  end.

Definition config_from_string_service (s prefix : text) : string_service :=
  let p := parse_loop (length s) 0 (mkParser s [] expecting_key_name (None, None)) in
  mkStringService (parse_string p) prefix
    (parse_entries p ++ match current p with (Some _, Some _) => [current p] | _ => [] end).

(** [entry_key == entry.first]. *)
Fixpoint find_entry (buf entry_key : text) (entries : list entry) : outcome (option text) :=
  match entries with
  | [] => Ok None
  | (None, _) :: _ => Undefined NullDeref
  | (Some first, second) :: entries =>
      if bool_decide (entry_key = text_at buf first) then Ok (text_at buf <$> second) else find_entry buf entry_key entries
  end.

(** ** The services *)

(** Parts joined by [separator], with an optional prefix. *)
Definition join (separator prefix section key : text) : text :=
  prefix ++ (match prefix with [] => [] | _ => separator end) ++ section ++ separator ++ key.

Definition CONCURRENCY_HINT_ID : Z := 0xA5100000.
Definition CONCURRENCY_HINT_ID_MASK : Z := 0xFFFF0000.
Definition LOCKING_SCHEDULER : Z := 1.
Definition LOCKING_REACTOR_REGISTRATION : Z := 2.
Definition LOCKING_REACTOR_IO : Z := 4.
Definition CONCURRENCY_HINT_DEFAULT : Z := -1.
Definition CONCURRENCY_HINT_1 : Z := 1.

Definition hint_is_special (hint : Z) : bool := Z.land (u32 hint) CONCURRENCY_HINT_ID_MASK =? CONCURRENCY_HINT_ID.
Definition hint_is_locking (facility hint : Z) : bool :=
  negb (Z.lxor (Z.land (u32 hint) (Z.lor CONCURRENCY_HINT_ID_MASK facility)) CONCURRENCY_HINT_ID =? 0).

Definition flag (b : bool) : text := if b then lit "1" else lit "0".

(** [config_from_concurrency_hint_service::get_value]. *)
Definition hint_get_value (hint : Z) (section key : text) (value_len : Z) : option text :=
  let same := fun a (b : text) => bool_decide (a = b) in
  if same section (lit "scheduler") then
    if same key (lit "concurrency_hint") then
      if hint_is_special hint then
        Some (if negb (hint_is_locking LOCKING_SCHEDULER hint) || negb (hint_is_locking LOCKING_REACTOR_IO hint)
              then lit "1" else lit "-1")
      else Some (snprintf_d value_len hint)
    else if same key (lit "locking") then Some (flag (hint_is_locking LOCKING_SCHEDULER hint)) else None
  else if same section (lit "reactor") then
    if same key (lit "io_locking") then Some (flag (hint_is_locking LOCKING_REACTOR_IO hint))
    else if same key (lit "registration_locking") then Some (flag (hint_is_locking LOCKING_REACTOR_REGISTRATION hint))
    else None
  else None.

(** The services, by their class. *)
Inductive config_service := base_service | from_concurrency_hint (hint : Z) | from_string (s : string_service) | from_env (prefix : text).

(** [config_from_concurrency_hint::make]. *)
Definition make_from_hint (hint : Z) : config_service := from_concurrency_hint (if hint =? 1 then CONCURRENCY_HINT_1 else hint).
Definition make_from_string (s prefix : text) : config_service := from_string (config_from_string_service s prefix).

(** A value, or the exception [std::out_of_range]. *)
Inductive configured (A : Type) := Got (a : A) | OutOfRange.
Arguments Got {A} a.
Arguments OutOfRange {A}.

Section config.
Context (getenv : text -> option text).

Definition get_value (service : config_service) (section key : text) (value_len : Z) : outcome (option text) :=
  match service with
  | base_service => Ok None
  | from_concurrency_hint hint => Ok (hint_get_value hint section key value_len)
  | from_string s => find_entry (string_ s) (join (lit ".") (prefix_ s) section key) (entries_ s)
  | from_env prefix => Ok (getenv (toupper <$> join (lit "_") prefix section key))
  end.

(** ** Reading numbers *)

Inductive integral := Bool | Unsigned (w : Z) | Signed (w : Z).

Definition limit_min (T : integral) : Z := match T with Signed w => - 2 ^ (w - 1) | _ => 0 end.
Definition limit_max (T : integral) : Z := match T with Bool => 1 | Unsigned w => 2 ^ w - 1 | Signed w => 2 ^ (w - 1) - 1 end.

(** The size of [buf]. *)
Definition buf_size : Z := 19 + 1 + 1 + 1.

Definition config_get (service : config_service) (T : integral) (section key : text) (default_value : Z) : outcome (configured Z) :=
  str ← get_value service section key buf_size;
  match str with
  | None => Ok (Got default_value)
  | Some str =>
      Ok match T with
         | Bool =>
             let '(result, erange) := strtoll str in
             let result := u64 result in
             if erange || (negb (result =? 0) && negb (result =? 1)) then OutOfRange
             else Got (if negb (result =? 0) then 1 else 0)
         | Unsigned _ =>
             let '(result, erange) := strtoull str in
             if erange || (limit_max T <? result) then OutOfRange else Got result
         | Signed _ =>
             let '(result, erange) := strtoll str in
             if erange || (result <? limit_min T) || (limit_max T <? result) then OutOfRange else Got result
         end
  end.

(** ** Who reads them *)

(** What may throw, one after the other. *)
Definition attempt (A : Type) : Type := outcome (configured A).
#[local] Instance attempt_ret : MRet attempt := fun A a => Ok (Got a).
#[local] Instance attempt_bind : MBind attempt := fun A B k m =>
  match m with
  | Ok (Got a) => k a
  | Ok OutOfRange => Ok OutOfRange
  | Undefined f => Undefined f
  | OutOfFuel => OutOfFuel
  end.

Definition get (service : config_service) (T : integral) (section key : string) (default_value : Z) : attempt Z :=
  config_get service T (lit section) (lit key) default_value.

(** The members that the scheduler's constructor initialises so. *)
Record scheduler_settings := mkSchedulerSettings {
  setting_one_thread : bool;
  setting_locking : bool;
  setting_locking_spin_count : Z;
  setting_task_usec : Z;
  setting_wait_usec : Z;
}.

Definition scheduler_configure (service : config_service) : attempt scheduler_settings :=
  hint ← get service (Signed 32) "scheduler" "concurrency_hint" 0;
  locking ← get service Bool "scheduler" "locking" 1;
  spin ← get service (Signed 32) "scheduler" "locking_spin_count" 0;
  task_usec ← get service (Signed 64) "scheduler" "task_usec" (-1);
  wait_usec ← get service (Signed 64) "scheduler" "wait_usec" (-1);
  mret (mkSchedulerSettings (hint =? 1) (negb (locking =? 0)) spin task_usec wait_usec).

(** And the reactor's. *)
Record reactor_settings := mkReactorSettings {
  setting_registration_locking : bool;
  setting_registration_spin_count : Z;
  setting_io_locking : bool;
  setting_io_spin_count : Z;
  setting_preallocated : Z;
}.

Definition reactor_configure (service : config_service) : attempt reactor_settings :=
  registration_locking ← get service Bool "reactor" "registration_locking" 1;
  registration_spin ← get service (Signed 32) "reactor" "registration_locking_spin_count" 0;
  io_locking ← get service Bool "reactor" "io_locking" 1;
  io_spin ← get service (Signed 32) "reactor" "io_locking_spin_count" 0;
  preallocated ← get service (Unsigned 32) "reactor" "preallocated_io_objects" 0;
  mret (mkReactorSettings (negb (registration_locking =? 0)) registration_spin (negb (io_locking =? 0)) io_spin preallocated).
End config.

(** ** Examples *)

Definition example_string : text :=
  lit "# comment" ++ [NEWLINE] ++ lit "  scheduler.concurrency_hint = 0x10 # sixteen" ++ [NEWLINE; NEWLINE] ++
  lit "reactor.io_locking=0" ++ [NEWLINE] ++ lit "junk" ++ [NEWLINE] ++ lit "scheduler.task_usec=-007".

Example reads_string :
  let s := make_from_string example_string [] in
  scheduler_configure (fun _ => None) s = Ok (Got (mkSchedulerSettings false true 0 (-7) (-1))) /\
  config_get (fun _ => None) s (Signed 32) (lit "scheduler") (lit "concurrency_hint") 0 = Ok (Got 16) /\
  reactor_configure (fun _ => None) s = Ok (Got (mkReactorSettings true 0 false 0 0)).
Proof. vm_compute. done. Qed.

Example reads_hint :
  scheduler_configure (fun _ => None) (make_from_hint CONCURRENCY_HINT_DEFAULT) = Ok (Got (mkSchedulerSettings false true 0 (-1) (-1))) /\
  config_get (fun _ => None) (make_from_hint (-2147483648)) (Signed 32) (lit "scheduler") (lit "concurrency_hint") 0 = Ok (Got (-2147483648)).
Proof. vm_compute. done. Qed.
