(* ===== verification/ConfigParse.v ===== *)
(** * Parsing a configuration string

    What config_from_string promises of its text, line by line, and that the
    parser, which goes through the characters once and writes NULs where
    names and values end, finds exactly those. *)

From Stdlib Require Import Ascii.
From stdpp Require Import strings.
From S2P Require Import Prelude Config.

(** ** The specification *)

Definition blank (c : ascii) : bool := bool_decide (c = " "%char) || bool_decide (c = TAB).
Definition key_end (c : ascii) : bool := blank c || bool_decide (c = "="%char) || bool_decide (c = "#"%char).

Fixpoint skip_blanks (s : text) : text := match s with c :: s' => if blank c then skip_blanks s' else s | [] => [] end.

(** The front, up to a character of [P], and the rest. *)
Fixpoint break (P : ascii -> bool) (s : text) : text * text :=
  match s with
  | [] => ([], [])
  | c :: s' => if P c then ([], s) else let '(a, b) := break P s' in (c :: a, b)
  end.

Fixpoint lines (s : text) : list text :=
  match s with
  | [] => [[]]
  | c :: s => if bool_decide (c = NEWLINE) then [] :: lines s
              else match lines s with l :: ls => (c :: l) :: ls | [] => [[c]] end
  end.

(** The rest of a line, after some of the value [w] of [k]; after the equals
    sign; after the name; after some of the name. *)
Definition from_rest (k w l : text) : option (text * text) := Some (k, w ++ fst (break (fun c => bool_decide (c = "#"%char)) l)).
Definition from_value (k l : text) : option (text * text) :=
  match skip_blanks l with
  | [] => None
  | c :: l => if bool_decide (c = "#"%char) then None else from_rest k [c] l
  end.
Definition from_equals (k l : text) : option (text * text) :=
  match skip_blanks l with
  | c :: l => if bool_decide (c = "="%char) then from_value k l else None
  | [] => None
  end.
Definition from_key (k l : text) : option (text * text) := let '(k', l) := break key_end l in from_equals (k ++ k') l.

(** Blanks, a name, blanks, an equals sign, blanks and a value, which ends
    before a comment: nothing else counts. *)
Definition line_entry (l : text) : option (text * text) :=
  match skip_blanks l with
  | [] => None
  | c :: l => if bool_decide (c = "#"%char) then None else from_key [c] l
  end.

Definition text_entries (s : text) : list (text * text) := omap line_entry (lines s).

(** ** In the middle of a line *)

Definition line_in (st : parse_state) (k w l : text) : option (text * text) :=
  match st with
  | expecting_key_name => line_entry l
  | key_name => from_key k l
  | expecting_equals => from_equals k l
  | expecting_value => from_value k l
  | value => from_rest k w l
  | expecting_eol => None
  end.

Definition text_in (st : parse_state) (k w s : text) : list (text * text) :=
  match lines s with l :: ls => option_list (line_in st k w l) ++ omap line_entry ls | [] => [] end.

Lemma lines_cons s : exists l ls, lines s = l :: ls.
Proof. destruct s as [|c s]; simpl; [eauto|]. case_bool_decide; [eauto|]. destruct (lines s); eauto. Qed.

Lemma text_in_start k w s : text_in expecting_key_name k w s = text_entries s.
Proof. unfold text_in, text_entries. destruct (lines_cons s) as (l & ls & ->). simpl. by destruct (line_entry l). Qed.

Lemma text_in_newline st k w s : text_in st k w (NEWLINE :: s) = option_list (line_in st k w []) ++ text_entries s.
Proof. done. Qed.

Lemma text_in_char st k w st' k' w' c s : c <> NEWLINE -> (forall l, line_in st k w (c :: l) = line_in st' k' w' l) ->
  text_in st k w (c :: s) = text_in st' k' w' s.
Proof.
  intros Hc Hl. unfold text_in. simpl. rewrite bool_decide_eq_false_2 by done. destruct (lines_cons s) as (l & ls & ->). by rewrite Hl.
Qed.

(** ** Pointers into what has been parsed *)

(** From [f] on, [P] has [k] and then a NUL; or [k] to its end. *)
Definition ended (P : text) (f : nat) (k : text) : Prop := exists a t, P = a ++ k ++ NUL :: t /\ length a = f.
Definition open (P : text) (f : nat) (k : text) : Prop := exists a, P = a ++ k /\ length a = f.

Lemma ended_snoc P f k c : ended P f k -> ended (P ++ [c]) f k.
Proof. intros (a & t & -> & <-). exists a, (t ++ [c]). split; [|done]. by rewrite <- !app_assoc. Qed.

Lemma open_snoc P f k c : open P f k -> open (P ++ [c]) f (k ++ [c]).
Proof. intros (a & -> & <-). exists a. split; [|done]. by rewrite app_assoc. Qed.

Lemma open_end P f k : open P f k -> ended (P ++ [NUL]) f k.
Proof. intros (a & -> & <-). exists a, []. split; [|done]. by rewrite <- app_assoc. Qed.

Lemma open_new P c : open (P ++ [c]) (length P) [c].
Proof. by exists P. Qed.

Lemma c_str_NUL k t : c_str (k ++ NUL :: t) = c_str k.
Proof. induction k as [|c k IH]; simpl; [done|]. case_bool_decide; [done|]. by rewrite IH. Qed.

Lemma ended_text P f k : ended P f k -> text_at P f = c_str k.
Proof. intros (a & t & -> & <-). unfold text_at. by rewrite drop_app_length, c_str_NUL. Qed.

Lemma open_text P f k : open P f k -> text_at P f = c_str k.
Proof. intros (a & -> & <-). unfold text_at. by rewrite drop_app_length. Qed.

(** An entry that is complete; the current one. *)
Definition shows (P : text) (e : entry) (d : text * text) : Prop :=
  exists f v, e = (Some f, Some v) /\ ended P f d.1 /\ ended P v d.2.

Definition current_ok (P : text) (st : parse_state) (e : entry) (k w : text) : Prop :=
  match st with
  | expecting_key_name | expecting_eol => e = (None, None)
  | key_name => exists f, e = (Some f, None) /\ open P f k
  | expecting_equals | expecting_value => exists f, e = (Some f, None) /\ ended P f k
  | value => exists f v, e = (Some f, Some v) /\ ended P f k /\ open P v w
  end.

#[local] Hint Resolve ended_snoc open_snoc open_end open_new : mh.

(** One character. *)
Definition char_ok (P : text) (c : ascii) (st : parse_state) (e : entry) (k w : text) : Prop :=
  exists c' new st' e' k' w' d, parse_char (length P) c st e = (c', new, st', e') /\ current_ok (P ++ [c']) st' e' k' w' /\
    Forall2 (shows (P ++ [c'])) new d /\ forall s, text_in st k w (c :: s) = d ++ text_in st' k' w' s.

Lemma char_step P c st e k w c' st' e' k' w' : parse_char (length P) c st e = (c', [], st', e') -> c <> NEWLINE ->
  current_ok (P ++ [c']) st' e' k' w' -> (forall l, line_in st k w (c :: l) = line_in st' k' w' l) -> char_ok P c st e k w.
Proof.
  intros E Hc He Hl. exists c', [], st', e', k', w', []. split; [done|]. split; [done|]. split; [constructor|].
  intros s. by apply text_in_char.
Qed.

Lemma char_newline P st e k w : current_ok P st e k w -> char_ok P NEWLINE st e k w.
Proof.
  intros He. unfold char_ok. destruct st; simpl in He; destr_all; subst;
    try (exists NEWLINE, [], expecting_key_name, (None, None), k, w, []; split; [reflexivity|]; split; [done|]; split; [constructor|];
         intros s; rewrite text_in_newline, text_in_start; reflexivity).
  exists NUL, [(Some x, Some x0)], expecting_key_name, (None, None), k, w, [(k, w)]. split; [reflexivity|]. split; [done|].
  split; [constructor; [|constructor]; exists x, x0; eauto with mh|].
  intros s. rewrite text_in_newline, text_in_start. simpl. by rewrite app_nil_r.
Qed.

(** What the states make of a blank, an equals sign, a hash and the rest. *)
Ltac char_cases c :=
  destruct (blank c) eqn:?; [|destruct (decide (c = "="%char)); [subst c|destruct (decide (c = "#"%char)); [subst c|]]].

Ltac char_simpl :=
  repeat (match goal with
          | B : blank ?c = _ |- context [blank ?c] => rewrite B
          | H : ?c <> ?d |- context [bool_decide (?c = ?d)] => rewrite (bool_decide_eq_false_2 (c = d)) by exact H
          end; simpl).

Ltac char_parse :=
  match goal with |- parse_char _ ?c _ _ = _ =>
    unfold parse_char; cbv zeta; try change (bool_decide (c = " "%char) || bool_decide (c = TAB)) with (blank c) end;
  char_simpl; reflexivity.

Ltac line_parse :=
  intros l; unfold line_in, line_entry, from_key, from_equals, from_value, from_rest; simpl; unfold key_end;
  char_simpl; rewrite ?app_nil_r; try reflexivity;
  repeat match goal with |- context [break ?P l] => destruct (break P l) end; simpl; rewrite <- ?app_assoc; reflexivity.

(** [k'] and [w'] are the parts of the name and the value after [c]. *)
Ltac char_goes c k' w' := eapply (char_step _ c _ _ _ _ _ _ _ k' w'); [char_parse|done|simpl; eauto 9 with mh|line_parse].

Lemma char_hash P f v k w : ended P f k -> open P v w -> char_ok P "#" value (Some f, Some v) k w.
Proof.
  intros Hf Hv. exists NUL, [(Some f, Some v)], expecting_eol, (None, None), k, w, [(k, w)]. split; [reflexivity|]. split; [done|].
  split; [constructor; [|constructor]; exists f, v; eauto with mh|].
  intros s. unfold text_in. simpl. destruct (lines_cons s) as (l & ls & ->). simpl. by rewrite app_nil_r.
Qed.

Lemma char_other P c st e k w : c <> NEWLINE -> current_ok P st e k w -> char_ok P c st e k w.
Proof.
  intros Hc He. destruct st; simpl in He; destr_all; subst; [char_cases c..| |char_cases c].
  all: try match goal with
       | |- char_ok _ ?c expecting_key_name _ _ _ => solve [char_goes c k w|char_goes c [c] w]
       | |- char_ok _ ?c key_name _ _ _ => solve [char_goes c k w|char_goes c (k ++ [c]) w]
       | |- char_ok _ ?c expecting_value _ _ _ => solve [char_goes c k w|char_goes c k [c]]
       | |- char_ok _ ?c expecting_equals _ _ _ => solve [char_goes c k w]
       | |- char_ok _ ?c expecting_eol _ _ _ => solve [char_goes c k w]
       end.
  destruct (decide (c = "#"%char)) as [->|]; [by apply char_hash|]. char_goes c k (w ++ [c]).
Qed.

Lemma char_any P c st e k w : current_ok P st e k w -> char_ok P c st e k w.
Proof. destruct (decide (c = NEWLINE)) as [->|]; [apply char_newline|by apply char_other]. Qed.

(** ** The whole string *)

Definition reads (buf : text) (e : entry) (d : text * text) : Prop :=
  exists f v, e = (Some f, Some v) /\ text_at buf f = c_str d.1 /\ text_at buf v = c_str d.2.

Lemma shows_snoc P c es D : Forall2 (shows P) es D -> Forall2 (shows (P ++ [c])) es D.
Proof. intros HD. eapply Forall2_impl; [exact HD|]. intros e d (f & v & -> & Hf & Hv). exists f, v. eauto with mh. Qed.

Lemma shows_reads P es D : Forall2 (shows P) es D -> Forall2 (reads P) es D.
Proof.
  intros HD. eapply Forall2_impl; [exact HD|]. intros e d (f & v & -> & Hf & Hv). exists f, v. split; [done|].
  split; by apply ended_text.
Qed.

Definition pending (e : entry) : list entry := match e with (Some _, Some _) => [e] | _ => [] end.

Lemma parse_loop_ok r : forall P st e k w es D, current_ok P st e k w -> Forall2 (shows P) es D ->
  let p := parse_loop (length r) (length P) (mkParser (P ++ r) es st e) in
  Forall2 (reads (parse_string p)) (parse_entries p ++ pending (current p)) (D ++ text_in st k w r).
Proof.
  induction r as [|c r IH]; intros P st e k w es D He HD.
  - simpl. rewrite app_nil_r. apply Forall2_app; [by apply shows_reads|].
    destruct st; simpl in He; destr_all; subst; simpl; try constructor; [|constructor].
    exists x, x0. split; [done|]. simpl. rewrite app_nil_r. split; [by apply ended_text|by apply open_text].
  - destruct (char_any P c st e k w He) as (c' & new & st' & e' & k' & w' & d & E & He' & Hnew & Htext).
    cbn [length parse_loop parse_string state current parse_entries]. rewrite list_lookup_middle by done. rewrite E.
    rewrite insert_app_r_alt by lia. rewrite Nat.sub_diag. simpl (<[0%nat:=_]> _).
    change (P ++ c' :: r) with (P ++ [c'] ++ r). rewrite app_assoc.
    replace (length P + 1)%nat with (length (P ++ [c'])) by (rewrite length_app; simpl; lia).
    rewrite Htext, app_assoc. apply IH; [done|]. apply Forall2_app; [by apply shows_snoc|done].
Qed.

(** The pointers that the parser keeps lead to what the specification says. *)
Lemma config_from_string_reads s prefix :
  Forall2 (reads (string_ (config_from_string_service s prefix))) (entries_ (config_from_string_service s prefix)) (text_entries s).
Proof.
  rewrite <- (text_in_start [] []). apply (parse_loop_ok s [] expecting_key_name (None, None) [] [] [] []); [done|constructor].
Qed.

(** The value on the first line that has this name. *)
Definition first_value (name : text) (D : list (text * text)) : option text :=
  (fun p => c_str p.2.2) <$> list_find (fun d => name = c_str d.1) D.

Lemma find_entry_reads buf name es D : Forall2 (reads buf) es D -> find_entry buf name es = Ok (first_value name D).
Proof.
  unfold first_value. induction 1 as [|e d es D (f & v & -> & Hf & Hv) _ IH]; [done|]. simpl. rewrite Hf.
  case_bool_decide as E; [rewrite decide_True by done; simpl; by rewrite Hv|].
  rewrite decide_False by done. rewrite IH. f_equal. by destruct (list_find _ D) as [[? ?]|].
Qed.

(** ** Round trip

    Entries written one per line are read back. *)
Definition plain_key (k : text) : Prop :=
  Forall (fun c => key_end c = false /\ c <> NEWLINE /\ c <> NUL) k /\ k <> [].
Definition plain_value (w : text) : Prop :=
  Forall (fun c => c <> "#"%char /\ c <> NEWLINE /\ c <> NUL) w /\ exists c, head w = Some c /\ blank c = false.

Definition render (D : list (text * text)) : text := D ≫= fun d => d.1 ++ "="%char :: d.2 ++ [NEWLINE].

Lemma lines_line l s : Forall (fun c => c <> NEWLINE) l -> lines (l ++ NEWLINE :: s) = l :: lines s.
Proof. induction 1 as [|c l Hc _ IH]; simpl; [done|]. by rewrite bool_decide_eq_false_2, IH by done. Qed.

Lemma break_app P l c s : Forall (fun d => P d = false) l -> P c = true -> break P (l ++ c :: s) = (l, c :: s).
Proof. intros Hl Hc. induction Hl as [|d l Hd _ IH]; simpl; [by rewrite Hc|]. by rewrite Hd, IH. Qed.

Lemma break_all (P : ascii -> bool) l : Forall (fun d => P d = false) l -> break P l = (l, []).
Proof. induction 1 as [|d l Hd _ IH]; simpl; [done|]. by rewrite Hd, IH. Qed.

Lemma line_entry_plain k w : plain_key k -> plain_value w -> line_entry (k ++ "="%char :: w) = Some (k, w).
Proof.
  intros [Hk Hne] [Hw (d & Hd & Hb)]. destruct k as [|c k]; [done|]. destruct w as [|d' w]; [done|]. injection Hd as ->.
  apply Forall_cons in Hk as [[Hc _] Hk]. apply Forall_cons in Hw as [[Hh _] Hw].
  assert (blank c = false /\ c <> "#"%char) as [Hcb Hch].
  { revert Hc. unfold key_end. rewrite !orb_false_iff, !bool_decide_eq_false. tauto. }
  unfold line_entry. simpl. rewrite Hcb, bool_decide_eq_false_2 by done. unfold from_key.
  rewrite break_app; [|eapply Forall_impl; [exact Hk|]; intros e He; apply He|done].
  unfold from_equals, from_value. simpl. rewrite Hb, bool_decide_eq_false_2 by done. unfold from_rest.
  rewrite break_all; [done|]. eapply Forall_impl; [exact Hw|]. intros e (He & _). by rewrite bool_decide_eq_false.
Qed.

Lemma c_str_plain l : Forall (fun c => c <> NUL) l -> c_str l = l.
Proof. induction 1 as [|c l Hc _ IH]; simpl; [done|]. by rewrite bool_decide_eq_false_2, IH by done. Qed.

Theorem render_parse D : Forall (fun d => plain_key d.1 /\ plain_value d.2) D -> text_entries (render D) = D.
Proof.
  unfold text_entries. induction 1 as [|[k w] D [Hk Hw] _ IH]; [done|]. simpl in Hk, Hw.
  change (render ((k, w) :: D)) with ((k ++ "="%char :: w ++ [NEWLINE]) ++ render D).
  replace ((k ++ "="%char :: w ++ [NEWLINE]) ++ render D) with ((k ++ "="%char :: w) ++ NEWLINE :: render D)
    by (rewrite <- !app_assoc; simpl; by rewrite <- app_assoc).
  rewrite lines_line.
  - cbn [omap list_omap]. by rewrite line_entry_plain, IH by done.
  - destruct Hk as [Hk _], Hw as [Hw _]. apply Forall_app. split; [eapply Forall_impl; [exact Hk|]; intros e He; apply He|].
    constructor; [done|]. eapply Forall_impl; [exact Hw|]. intros e He. apply He.
Qed.
