(* ===== verification/ConfigTheorems.v ===== *)
(** * What a configuration promises

    Reading a number from any of Asio's configuration services, and what the
    io_context of the program reads. *)

From Stdlib Require Import Ascii.
From stdpp Require Import strings.
From S2P Require Import Prelude OpQueue Scheduler Config ConfigParse.

(** ** Printing numbers and reading them back *)

Lemma digits_app base l r : Forall (fun c => is_Some (digit_value base c)) l ->
  forall acc, digits base acc (l ++ r) = digits base (digits base acc l) r.
Proof. induction 1 as [|c l [d Hd] _ IH]; intros acc; simpl; [done|]. by rewrite Hd. Qed.

(** The ten digits. *)
Lemma digit_cases d : 0 <= d < 10 -> d = 0 \/ d = 1 \/ d = 2 \/ d = 3 \/ d = 4 \/ d = 5 \/ d = 6 \/ d = 7 \/ d = 8 \/ d = 9.
Proof. lia. Qed.

Lemma digit_char d : 0 <= d < 10 -> digit_value 10 (of_code (48 + d)) = Some d /\ isspace (of_code (48 + d)) = false /\
  of_code (48 + d) <> "-"%char /\ of_code (48 + d) <> "+"%char /\ (of_code (48 + d) = "0"%char -> d = 0).
Proof. intros H%digit_cases. by repeat destruct H as [->|H]; subst; vm_compute. Qed.

Lemma decimal_digits_ok n z : 0 <= z < 10 ^ Z.of_nat (S n) ->
  exists d l, decimal_digits (S n) z = of_code (48 + d) :: l /\ 0 <= d < 10 /\ (d = 0 -> z = 0) /\ (length l <= n)%nat /\
    Forall (fun c => is_Some (digit_value 10 c)) (decimal_digits (S n) z) /\ digits 10 0 (decimal_digits (S n) z) = z.
Proof.
  revert z. induction n as [|n IH]; intros z Hz.
  - change (10 ^ Z.of_nat 1) with 10 in Hz. cbn [decimal_digits]. rewrite (proj2 (Z.ltb_lt z 10)) by lia.
    rewrite Z.mod_small by lia. exists z, []. destruct (digit_char z) as (Hd & _); [lia|].
    split_and!; [done|lia|lia|done|simpl; lia| |simpl; by rewrite Hd].
    constructor; [by eexists|constructor].
  - assert (0 <= z mod 10 < 10) as Hm by (apply Z.mod_pos_bound; lia). destruct (digit_char _ Hm) as (Hd & _).
    remember (S n) as m eqn:Em. cbn [decimal_digits]. destruct (z <? 10) eqn:E; zb.
    + rewrite Z.mod_small in * by lia. exists z, []. split_and!; [done|lia|lia|done|simpl; lia| |simpl; by rewrite Hd].
      constructor; [by eexists|constructor].
    + subst m. destruct (IH (z / 10)) as (d & l & E1 & Hr & H0 & Hlen & Hall & Hval).
      { rewrite Nat2Z.inj_succ, Z.pow_succ_r in Hz by lia. split; [apply Z.div_pos; lia|]. apply Z.div_lt_upper_bound; lia. }
      exists d, (l ++ [of_code (48 + z mod 10)]). rewrite E1. split_and!; [done|lia|lia| |rewrite length_app; simpl; lia| |].
      * intros ->. specialize (H0 eq_refl). apply Z.div_small_iff in H0; lia.
      * rewrite <- E1. apply Forall_app. split; [done|]. constructor; [by eexists|constructor].
      * rewrite <- E1, digits_app by done. rewrite Hval. simpl. rewrite Hd. pose proof (Z.div_mod z 10). lia.
Qed.

Lemma magnitude_decimal n z : 0 <= z < 10 ^ Z.of_nat (S n) ->
  magnitude (decimal_digits (S n) z) = z /\ exists d l, decimal_digits (S n) z = of_code (48 + d) :: l /\ 0 <= d < 10 /\ (length l <= n)%nat.
Proof.
  intros Hz. destruct (decimal_digits_ok n z Hz) as (d & l & E & Hd & H0 & Hlen & _ & Hval). split; [|by exists d, l].
  destruct (decide (d = 0)) as [->|Hne].
  - rewrite (H0 eq_refl). cbn [decimal_digits]. vm_compute. done.
  - unfold magnitude. rewrite <- Hval at 2. rewrite E. rewrite bool_decide_eq_false_2; [done|].
    intros E0. apply Hne. by apply digit_char.
Qed.

(** A 32-bit number fits in the buffer, and is read back. *)
Lemma hint_roundtrip hint : - 2 ^ 31 <= hint < 2 ^ 31 -> number (snprintf_d buf_size hint) = hint.
Proof.
  intros Hh. unfold snprintf_d, decimal. change (Z.to_nat (buf_size - 1)) with 21%nat.
  assert (10 ^ Z.of_nat 10 = 10000000000) as E10 by done. destruct (hint <? 0) eqn:E; zb.
  - destruct (magnitude_decimal 9 (- hint)) as [Hm (d & l & E1 & Hd & Hl)]; [lia|].
    rewrite firstn_all2 by (rewrite E1; simpl; lia). unfold number, signed_number.
    change (skip_spaces ("-"%char :: decimal_digits 10 (- hint))) with ("-"%char :: decimal_digits 10 (- hint)).
    cbv iota. rewrite bool_decide_eq_true_2 by done. rewrite Hm. lia.
  - destruct (magnitude_decimal 9 hint) as [Hm (d & l & E1 & Hd & Hl)]; [lia|].
    rewrite firstn_all2 by (rewrite E1; simpl; lia). unfold number, signed_number. rewrite E1 in *.
    destruct (digit_char d Hd) as (_ & Hs & Hmi & Hpl & _). cbn [skip_spaces]. rewrite Hs.
    rewrite !bool_decide_eq_false_2 by done. exact Hm.
Qed.

(** ** The hint *)

(** Whether the hint leaves locking on: it does unless its upper half is the
    special number and the facility's bit is clear. *)
Definition special (hint : Z) : bool := Z.shiftr (u32 hint) 16 =? 0xA510.
Definition locks (bit hint : Z) : bool := negb (special hint) || Z.testbit (u32 hint) bit.

Lemma special_ok hint : hint_is_special hint = special hint.
Proof.
  unfold hint_is_special, special. pose proof (wrap_range 32 hint ltac:(lia)) as Hr. apply eq_true_iff_eq. rewrite !Z.eqb_eq.
  assert (Z.land (u32 hint) CONCURRENCY_HINT_ID_MASK = Z.shiftl (Z.shiftr (u32 hint) 16) 16) as ->.
  { change CONCURRENCY_HINT_ID_MASK with (Z.shiftl (Z.ones 16) 16). apply Z.bits_inj'. intros j Hj.
    rewrite Z.land_spec. destruct (Z.ltb_spec j 16).
    - rewrite !Z.shiftl_spec_low by lia. apply andb_false_r.
    - rewrite !Z.shiftl_spec, Z.shiftr_spec by lia. replace (j - 16 + 16) with j by lia.
      destruct (Z.ltb_spec (j - 16) 16); [rewrite Z.ones_spec_low by lia; apply andb_true_r|].
      rewrite Z.ones_spec_high by lia. rewrite andb_false_r. symmetry. rewrite <- (Z.mod_small (u32 hint) (2 ^ 32)) by lia.
      apply Z.mod_pow2_bits_high. lia. }
  change CONCURRENCY_HINT_ID with (Z.shiftl 0xA510 16). rewrite !Z.shiftl_mul_pow2 by lia. lia.
Qed.

Lemma locking_ok bit hint : 0 <= bit <= 2 -> hint_is_locking (2 ^ bit) hint = locks bit hint.
Proof.
  intros Hb. unfold locks. rewrite <- special_ok. unfold hint_is_locking, hint_is_special.
  apply eq_true_iff_eq. rewrite orb_true_iff, !negb_true_iff, !Z.eqb_neq, Z.lxor_eq_0_iff, Z.land_lor_distr_r.
  set (u := u32 hint). assert (Z.testbit CONCURRENCY_HINT_ID bit = false) as Hid.
  { assert (bit = 0 \/ bit = 1 \/ bit = 2) as [->|[->| ->]] by lia; done. }
  assert (Z.land u (2 ^ bit) = if Z.testbit u bit then 2 ^ bit else 0) as ->.
  { apply Z.bits_inj'. intros j Hj. rewrite Z.land_spec, Z.pow2_bits_eqb by lia. destruct (Z.eqb_spec bit j) as [<-|Hne].
    - rewrite andb_true_r. destruct (Z.testbit u bit); [by rewrite Z.pow2_bits_true by lia|by rewrite Z.bits_0].
    - rewrite andb_false_r. destruct (Z.testbit u bit); [by rewrite Z.pow2_bits_false by lia|by rewrite Z.bits_0]. }
  destruct (Z.testbit u bit) eqn:E; [|rewrite Z.lor_0_r; naive_solver].
  split; [by right|]. intros _ Heq. apply (f_equal (fun z => Z.testbit z bit)) in Heq. rewrite Hid, Z.lor_spec, Z.pow2_bits_true in Heq by lia.
  by rewrite orb_true_r in Heq.
Qed.

(** The numbers that a hint stands for. *)
Definition hint_number (hint : Z) (section key : text) : option Z :=
  if bool_decide (section = lit "scheduler") then
    if bool_decide (key = lit "concurrency_hint") then
      Some (if special hint then if locks 0 hint && locks 2 hint then -1 else 1 else hint)
    else if bool_decide (key = lit "locking") then Some (Z.b2z (locks 0 hint)) else None
  else if bool_decide (section = lit "reactor") then
    if bool_decide (key = lit "io_locking") then Some (Z.b2z (locks 2 hint))
    else if bool_decide (key = lit "registration_locking") then Some (Z.b2z (locks 1 hint)) else None
  else None.

Lemma hint_get_number hint section key : - 2 ^ 31 <= hint < 2 ^ 31 ->
  number <$> hint_get_value hint section key buf_size = hint_number hint section key.
Proof.
  intros Hh. unfold hint_get_value, hint_number. cbv zeta.
  change LOCKING_SCHEDULER with (2 ^ 0). change LOCKING_REACTOR_REGISTRATION with (2 ^ 1). change LOCKING_REACTOR_IO with (2 ^ 2).
  rewrite !locking_ok by lia. rewrite special_ok.
  destruct (bool_decide (section = lit "scheduler")); [destruct (bool_decide (key = lit "concurrency_hint"));
    [|by destruct (bool_decide (key = lit "locking")), (locks 0 hint)]|
    destruct (bool_decide (section = lit "reactor")); [|done]; destruct (bool_decide (key = lit "io_locking")); [by destruct (locks 2 hint)|];
    by destruct (bool_decide (key = lit "registration_locking")), (locks 1 hint)].
  destruct (special hint); [by destruct (locks 0 hint), (locks 2 hint)|].
  change (Some (number (snprintf_d buf_size hint)) = Some hint). by rewrite hint_roundtrip.
Qed.

(** ** Reading numbers *)

(** The value that a number, if there is one, has in the type. *)
Definition in_type (T : integral) (default_value : Z) (z : option Z) : configured Z :=
  match z with
  | None => Got default_value
  | Some z =>
      match T with
      | Unsigned w => if (Z.abs z <=? 2 ^ 64 - 1) && (u64 z <=? 2 ^ w - 1) then Got (u64 z) else OutOfRange
      | _ => if (limit_min T <=? z) && (z <=? limit_max T) then Got z else OutOfRange
      end
  end.

(** An integral type of the language. *)
Definition integral_ok (T : integral) : Prop := match T with Bool => True | Unsigned w | Signed w => 1 <= w <= 64 end.

(** Where a configuration comes from, and what it says. *)
Inductive configuration := Nothing | Hint (hint : Z) | Text (s prefix : text) | Environment (prefix : text).

Definition configuration_ok (c : configuration) : Prop := match c with Hint hint => - 2 ^ 31 <= hint < 2 ^ 31 | _ => True end.

Definition service_of (c : configuration) : config_service :=
  match c with
  | Nothing => base_service
  | Hint hint => make_from_hint hint
  | Text s prefix => make_from_string s prefix
  | Environment prefix => from_env prefix
  end.

Definition number_for (getenv : text -> option text) (c : configuration) (section key : text) : option Z :=
  match c with
  | Nothing => None
  | Hint hint => hint_number hint section key
  | Text s prefix => number <$> first_value (join (lit ".") prefix section key) (text_entries s)
  | Environment prefix => number <$> getenv (toupper <$> join (lit "_") prefix section key)
  end.

Lemma get_value_number getenv c section key : configuration_ok c ->
  exists v, get_value getenv (service_of c) section key buf_size = Ok v /\ number <$> v = number_for getenv c section key.
Proof.
  intros Hc. destruct c as [|hint|s prefix|prefix]; simpl.
  - by exists None.
  - exists (hint_get_value hint section key buf_size). split; [|by apply hint_get_number]. unfold CONCURRENCY_HINT_1.
    by destruct (Z.eqb_spec hint 1) as [->|].
  - exists (first_value (join (lit ".") prefix section key) (text_entries s)). split; [|done].
    apply find_entry_reads. exact (config_from_string_reads s prefix).
  - by eexists.
Qed.

Lemma digits_nonneg base s : 0 <= base -> forall acc, 0 <= acc -> 0 <= digits base acc s.
Proof.
  intros Hb. induction s as [|c s IH]; intros acc Ha; simpl; [done|]. destruct (digit_value base c) as [d|] eqn:E; [|done].
  apply IH. unfold digit_value in E. revert E.
  repeat match goal with |- context [if ?b then _ else _] => destruct b eqn:? end; zb; intros [= <-]; nia.
Qed.

Lemma magnitude_nonneg s : 0 <= magnitude s.
Proof.
  unfold magnitude. destruct s as [|c s]; [done|].
  repeat first [apply digits_nonneg; lia|case_match].
Qed.

(** The sign and the magnitude of a number. *)
Lemma signed_number_ok s : exists negative m, signed_number s = (negative, m) /\ 0 <= m /\ number s = if negative then - m else m.
Proof.
  unfold number. destruct (signed_number s) as [negative m] eqn:E. exists negative, m. split_and!; [done| |done]. revert E.
  unfold signed_number. destruct (skip_spaces s) as [|c l]; [by intros [= <- <-]|].
  destruct (bool_decide (c = "-"%char)); [intros [= <- <-]; apply magnitude_nonneg|].
  destruct (bool_decide (c = "+"%char)); intros [= <- <-]; [apply magnitude_nonneg|apply (magnitude_nonneg (c :: l))].
Qed.

(** What the three kinds of types make of a text. *)
Lemma bool_in_type s :
  (let '(result, erange) := strtoll s in
   let result := u64 result in
   if erange || (negb (result =? 0) && negb (result =? 1)) then OutOfRange else Got (if negb (result =? 0) then 1 else 0)) =
  if (0 <=? number s) && (number s <=? 1) then Got (number s) else OutOfRange.
Proof.
  unfold strtoll. set (z := number s). destruct (z <? - 2 ^ 63) eqn:E1; [|destruct (2 ^ 63 - 1 <? z) eqn:E2]; zb.
  - by rewrite (proj2 (Z.leb_gt 0 z)) by lia.
  - by rewrite (proj2 (Z.leb_gt z 1)), andb_false_r by lia.
  - cbv zeta. simpl orb. destruct (decide (z = 0 \/ z = 1)) as [[->| ->]|Hz]; [done|done|].
    assert (2 <= u64 z) as Hu.
    { unfold wrap. destruct (Z.ltb_spec z 0); [|rewrite Z.mod_small; lia]. rewrite <- (Z.mod_unique_pos z (2 ^ 64) (-1) (z + 2 ^ 64)); lia. }
    rewrite (proj2 (Z.eqb_neq (u64 z) 0)), (proj2 (Z.eqb_neq (u64 z) 1)) by lia. simpl.
    destruct ((0 <=? z) && (z <=? 1)) eqn:E; zb; [lia|done].
Qed.

Lemma signed_in_type s lo hi : - 2 ^ 63 <= lo -> hi <= 2 ^ 63 - 1 ->
  (let '(result, erange) := strtoll s in if erange || (result <? lo) || (hi <? result) then OutOfRange else Got result) =
  if (lo <=? number s) && (number s <=? hi) then Got (number s) else OutOfRange.
Proof.
  intros Hlo Hhi. unfold strtoll. set (z := number s). destruct (z <? - 2 ^ 63) eqn:E1; [|destruct (2 ^ 63 - 1 <? z) eqn:E2]; zb.
  - by rewrite (proj2 (Z.leb_gt lo z)) by lia.
  - by rewrite (proj2 (Z.leb_gt z hi)), andb_false_r by lia.
  - simpl orb. rewrite !Z.ltb_antisym. by destruct (lo <=? z), (z <=? hi).
Qed.

Lemma unsigned_in_type s hi :
  (let '(result, erange) := strtoull s in if erange || (hi <? result) then OutOfRange else Got result) =
  if (Z.abs (number s) <=? 2 ^ 64 - 1) && (u64 (number s) <=? hi) then Got (u64 (number s)) else OutOfRange.
Proof.
  unfold strtoull. destruct (signed_number_ok s) as (negative & m & E & Hm & En). rewrite E, <- En.
  assert (Z.abs (number s) = m) as -> by (destruct negative; lia). rewrite Z.ltb_antisym.
  destruct (m <=? 2 ^ 64 - 1); [|done]. simpl. rewrite Z.ltb_antisym. by destruct (u64 (number s) <=? hi).
Qed.

Lemma get_in_type getenv c T section key default_value : configuration_ok c -> integral_ok T ->
  config_get getenv (service_of c) T section key default_value =
    Ok (in_type T default_value (number_for getenv c section key)).
Proof.
  intros Hc HT. destruct (get_value_number getenv c section key Hc) as (v & Hv & <-). unfold config_get. rewrite Hv.
  destruct v as [s|]; [|done]. cbn [mbind outcome_bind fmap option_fmap option_map in_type]. f_equal. destruct T as [|w|w].
  - apply bool_in_type.
  - apply unsigned_in_type.
  - assert (2 ^ (w - 1) <= 2 ^ 63) by (simpl in HT; apply Z.pow_le_mono_r; lia). apply signed_in_type; simpl; lia.
Qed.

(** ** The program's io_context *)

(** What the scheduler and the reactor read from any hint. *)
Definition hint_read (getenv : text -> option text) (hint : Z) : Prop :=
  let one := if special hint then negb (locks 0 hint && locks 2 hint) else hint =? 1 in
  scheduler_configure getenv (make_from_hint hint) = Ok (Got (mkSchedulerSettings one (locks 0 hint) 0 (-1) (-1))) /\
  reactor_configure getenv (make_from_hint hint) = Ok (Got (mkReactorSettings (locks 1 hint) 0 (locks 2 hint) 0 0)).

Lemma hint_configures getenv hint : - 2 ^ 31 <= hint < 2 ^ 31 -> hint_read getenv hint.
Proof.
  intros Hh. unfold hint_read. set (one := if special hint then _ else _).
  assert (forall T section key d z, integral_ok T -> in_type T d (hint_number hint (lit section) (lit key)) = Got z ->
    get getenv (make_from_hint hint) T section key d = Ok (Got z)) as Hget.
  { intros T section key d z HT <-. by apply (get_in_type getenv (Hint hint)). }
  assert (forall b : bool, negb (Z.b2z b =? 0) = b) as Hb by by intros [].
  set (z := if special hint then if locks 0 hint && locks 2 hint then -1 else 1 else hint).
  assert (in_type (Signed 32) 0 (Some z) = Got z) as Hz.
  { unfold in_type. replace ((limit_min (Signed 32) <=? z) && (z <=? limit_max (Signed 32))) with true; [done|].
    symmetry. rewrite andb_true_iff, !Z.leb_le. unfold limit_min, limit_max, z. destruct (special hint), (locks 0 hint && locks 2 hint); lia. }
  assert (forall b, in_type Bool 1 (Some (Z.b2z b)) = Got (Z.b2z b)) as Hflag by by intros [].
  split.
  - unfold scheduler_configure, mbind, attempt_bind. rewrite (Hget (Signed 32) _ _ _ z), (Hget Bool _ _ _ (Z.b2z (locks 0 hint))),
      (Hget (Signed 32) _ _ _ 0), (Hget (Signed 64) "scheduler" "task_usec" _ (-1)), (Hget (Signed 64) _ _ _ (-1)) by first [exact Hz|exact (Hflag _)|exact I|reflexivity|simpl; lia].
    rewrite Hb. unfold one, z. by destruct (special hint), (locks 0 hint), (locks 2 hint).
  - unfold reactor_configure, mbind, attempt_bind. rewrite (Hget Bool _ _ _ (Z.b2z (locks 1 hint))), (Hget (Signed 32) _ _ _ 0),
      (Hget Bool _ _ _ (Z.b2z (locks 2 hint))), (Hget (Signed 32) _ _ _ 0), (Hget (Unsigned 32) _ _ _ 0) by first [exact Hz|exact (Hflag _)|exact I|reflexivity|simpl; lia].
    by rewrite !Hb.
Qed.

(** C18.  A configuration value is read as what it says.  Whether the service
    was made from a concurrency hint, a string, the environment or nothing,
    [config::get] returns the number that the service's text for the key
    denotes (of a string, the value on the first line that has the key), the
    default if there is none, and throws if the type does not have it (an
    unsigned type takes it modulo 2^64).  So the scheduler and the reactor
    lock what a hint says: everything, unless it is a special number that
    turns a facility off. *)
Theorem configuration_is_read getenv c : configuration_ok c ->
  (forall T section key default_value, integral_ok T ->
     config_get getenv (service_of c) T section key default_value =
       Ok (in_type T default_value (number_for getenv c section key))) /\
  (forall hint, c = Hint hint -> hint_read getenv hint).
Proof. intros Hc. split; [intros; by apply get_in_type|]. intros hint ->. by apply hint_configures. Qed.

Lemma configuration_is_read_witness :
  config_get (fun _ => None) (service_of (Text example_string [])) (Signed 32) (lit "scheduler") (lit "concurrency_hint") 0 = Ok (Got 16) /\
  config_get (fun _ => Some (lit "300")) (service_of (Environment (lit "asio"))) (Signed 8) (lit "a") (lit "b") 0 = Ok OutOfRange /\
  hint_read (fun _ => None) (0xA5100003 - 2 ^ 32).
Proof.
  split; [|split].
  - rewrite (proj1 (configuration_is_read (fun _ => None) (Text example_string []) ltac:(exact I)) (Signed 32)) by (simpl; lia).
    vm_compute. reflexivity.
  - rewrite (proj1 (configuration_is_read (fun _ => Some (lit "300")) (Environment (lit "asio")) ltac:(exact I)) (Signed 8)) by (simpl; lia).
    vm_compute. reflexivity.
  - apply (configuration_is_read (fun _ => None) (Hint (0xA5100003 - 2 ^ 32))); [simpl; lia|reflexivity].
Defined.

Definition scheduler_config_of (s : scheduler_settings) : scheduler_config :=
  mkConfig (setting_one_thread s) (setting_task_usec s) (setting_wait_usec s).

(** The scheduler that the other files run is the one that main's io_context
    makes, and its mutexes are enabled. *)
Theorem io_context_configured getenv :
  exists s r, scheduler_configure getenv (make_from_hint CONCURRENCY_HINT_DEFAULT) = Ok (Got s) /\
    reactor_configure getenv (make_from_hint CONCURRENCY_HINT_DEFAULT) = Ok (Got r) /\
    scheduler_config_of s = default_config /\ setting_locking s = true /\ setting_registration_locking r = true /\
    setting_io_locking r = true /\ setting_preallocated r = 0.
Proof. do 2 eexists. split; [vm_compute; reflexivity|]. split; [vm_compute; reflexivity|]. by split_and!. Qed.
